(* ===== verification/_CoqProject ===== *)
-Q . S2P
Prelude.v
Numerals.v
CommonTypes.v
Storage.v
Codec.v
Protocol.v
BStarPlusTree.v
BStarPlusTreeInv.v
BStarPlusTreeSteps.v
BStarPlusTreeRebalance.v
BStarPlusTreeCorrect.v
IndexSpec.v
BStarPlusTreeSpec.v
Ast.v
VersionStore.v
RuntimeState.v
RuntimeFacts.v
Predicates.v
Execution.v
ChangeLog.v
ExecutionFacts.v
QueryFacts.v
History.v
Samples.v
Anomalies.v
Planner.v
Lexer.v
Parser.v
ParserFacts.v
Wal.v
Engine.v
EngineFacts.v
EngineSamples.v
Persistence.v
PersistenceFacts.v
PersistenceSamples.v
Rbac.v
RbacFacts.v
RbacSamples.v
JobQueue.v
Uuid.v
Text.v
Doubles.v
Telemetry.v
TelemetryFacts.v
TelemetryWire.v
TelemetrySamples.v
AccessLog.v
Cluster.v
Server.v
ServerFacts.v
ClusterFacts.v
ClusterNetwork.v
ServerSamples.v
ClusterSamples.v
JournalFacts.v
JournalSamples.v
RenderFacts.v
Cli.v
CliFacts.v
CliSamples.v
