(* ===== verification/Prelude.v ===== *)
(** * Custom-Database-Management-System: a verification development

    A shallow embedding of a C++20 database management system (SQL-like
    language, B*+ tree indexes, temporal REVERT, transactions, write-ahead log,
    file persistence, accounts and grants, a TCP server with asynchronous jobs
    and telemetry, a sharded cluster and a command line client) and the theorems
    that make its parts correct. Paths below are those of the repository.

    ** The program and its model

    A text goes through lexer, parser, planner and executor; the engine wraps
    the executor with sessions, transactions, the log and the disk; the server
    wraps the engine with envelopes, accounts, jobs, telemetry and a cluster;
    the client talks to an engine or a server. The files follow that order.

    - [Prelude] (this file): byte strings in the order of [std::string],
      vectors with their bounds, list and map lemmas, tactics and notations in
      [dbms_scope]. [Numerals]: number printing and parsing of the C++ library.
      [Doubles]: IEEE 754 doubles with [operator<<] and [std::stod].
    - [CommonTypes] (src/common): values, errors, [Outcome] (a value, an error,
      or [Crash]: an exception that is not caught or undefined behaviour), the
      error contract, and [EncodeIndexKey] of src/core/runtime_state.cpp.
      [Storage] (src/storage, src/catalog): schemas, catalog, string pool, heap.
      [Codec], [Protocol] (src/network): escaped records, envelopes, the line
      reader of the sockets.
    - [BStarPlusTree] (src/index): every routine, on a tree of nodes and a
      memory of leaf links; [BStarPlusTreeInv], [..Steps], [..Rebalance],
      [..Correct]: the invariant and that every step keeps it;
      [BStarPlusTreeSpec]: the theorems. [IndexSpec]: the interface [IndexOps]
      with its laws, against which the database is verified; the tree
      implements it.
    - [Ast], [Lexer], [Parser] (src/parser), [ParserFacts]; [Planner]
      (src/planner).
    - [VersionStore] (src/versioning); [RuntimeState] (src/core/runtime_state),
      [RuntimeFacts]; [Predicates], [Execution] (src/execution): one definition
      per statement, on an environment of state, change log, string pool and
      session; [ChangeLog]: what the rows of the change log fit;
      [ExecutionFacts], [QueryFacts], [History]; [Samples] and [Anomalies]:
      concrete databases.
    - [Wal] (src/core/wal_manager), [Engine] (src/core/dbms_engine), with the
      disk as the interface [PersistenceOps]; [EngineFacts], [EngineSamples].
      [Persistence] (src/core/runtime_persistence) implements the interface on
      the texts of the files; [PersistenceFacts], [PersistenceSamples].
    - [Rbac] (src/catalog/rbac), [RbacFacts], [RbacSamples].
    - [JobQueue] (src/runtime/job_queue): the worker thread as a state machine
      interleaved with the other threads. [Uuid] (src/common/uuid). [Text]:
      helpers of server and client. [Telemetry] (src/runtime/telemetry and the
      TELEMETRY functions of src/server/entrypoint.cpp), [TelemetryFacts],
      [TelemetryWire], [TelemetrySamples]. [AccessLog].
    - [Cluster], [Server] (src/server/entrypoint.cpp, apps/server,
      apps/storage_node): [HandleRequest] with all commands, as a step on the
      state of the server and on what is outside ([Outside]: peers, servers in
      the same process, random bytes); [ServerFacts], [ClusterFacts],
      [JournalFacts], [RenderFacts]. [ClusterNetwork] implements [Outside] by a
      network of servers whose messages may be lost. [ServerSamples],
      [ClusterSamples], [JournalSamples].
    - [Cli] (apps/cli/main.cpp), [CliFacts], [CliSamples].

    ** What the theorems show

    - The index: any insertions and removals keep the canonical invariants, are
      free of undefined behaviour, and refine a finite multimap; the height is
      logarithmic; key order is value order.
    - The database: every reachable state is consistent (rows fit their schemas,
      indexes hold exactly the keys of the rows), as long as row ids do not run
      out and no REVERT is of a table whose name was also created with other
      columns ([statement_ok]; [Anomalies] shows what happens then); clone, CHECK INDEX and REBUILD
      INDEX do what they promise, index scans give what sequential scans give,
      plans name the access path that is used, the change log replays to the
      tables and REVERT restores past states, when no UPDATE, DELETE or REVERT
      failed half way before.
    - Texts: parsing is total; the log, the state and history files, the access
      control files, the envelopes, the rendered INSERTs and the telemetry are
      read back as they were written, under the conditions stated.
    - The engine: consistency under any failures, isolation, rollback, logging
      before saving, torn log writes, no torn files, that what was
      acknowledged is there after a restart, also when the loss of a write is
      not noticed, and that the last of overlapping transactions wins.
    - The server: changes need permission, tokens are signed and expire, grants
      behave as the log of grants, jobs are served in order unless an executor
      throws, every answer is counted and logged once, telemetry reports the
      requests that were answered, by one server and by a cluster, rows go to their shards, two-phase commit succeeds only if every
      node executed, and typing equals batch execution in the client.
    - What goes wrong: lost updates, impersonation by quotes in names, dumps
      that arrive empty, and in the samples the other defects found.

    ** Bounds, fuel and integers

    Integers are [Z] with the ranges and wrap-around of their C++ types where
    the code can leave them. [InsertRecursive] has the height of the tree plus
    one as fuel and the leaf scan the number of leaves, the lexer the length of
    the text and the parser the number of tokens; theorems show that this is
    enough, and failure for lack of fuel is a value that they exclude. Printing
    a double looks for its decimal exponent in 400 steps, more than the range of
    the type. The B*+ tree theorems are about even orders from 6 up, which
    include the order the program uses.

    ** Parameters

    What is not in the repository is an argument of the definitions:
    [std::regex] of LIKE, [std::hash], HMAC-SHA256, the clocks and the time
    zone, the random device, how far each write to a file gets and whether
    files open, are removed and are renamed, the messages of the network, and
    [fork]. Iteration over unordered maps is in the order of the model's maps.

    ** Not modelled

    Threads that overlap in the server (the model takes one request after the
    other; there is no lock around engine and sessions in the program), except
    for the job queue, whose threads interleave; the setup of sockets in the
    [main] functions, the wait for a restarted node and, beyond the interface
    [Outside] with its mutex, the registry of servers in one process; the tests. *)
From stdpp Require Export base gmap strings list fin_maps sorting.
From Stdlib Require Export ZArith Lia.
From Stdlib Require Import OrdersEx.

#[global] Set Warnings "-notation-overridden".

(** ** Byte strings in the order of [std::string::compare]

    [std::string] compares as unsigned bytes; [String_as_OT] compares [N_of_ascii]. *)

Definition slt (a b : string) : Prop := String_as_OT.compare a b = Lt.
Definition sle (a b : string) : Prop := slt a b ∨ a = b.

Lemma slt_trans a b c : slt a b → slt b c → slt a c.
Proof. apply String_as_OT.lt_strorder. Qed.

Lemma slt_irrefl a : ¬ slt a a.
Proof. apply (StrictOrder_Irreflexive (R:=String_as_OT.lt)). Qed.

Lemma slt_total a b : slt a b ∨ a = b ∨ slt b a.
Proof. unfold slt. destruct (String_as_OT.compare_spec a b); auto. Qed.

Lemma slt_of_nle a b : (sle b a → False) → slt a b.
Proof. unfold sle. destruct (slt_total a b) as [|[->|]]; naive_solver. Qed.

Lemma sle_of_nlt a b : (slt b a → False) → sle a b.
Proof. unfold sle. destruct (slt_total a b) as [|[->|]]; naive_solver. Qed.

Lemma sle_lt_trans a b c : sle a b → slt b c → slt a c.
Proof. intros [?| ->]; eauto using slt_trans. Qed.

Lemma slt_le_trans a b c : slt a b → sle b c → slt a c.
Proof. intros ? [?| ->]; eauto using slt_trans. Qed.

Lemma sle_trans a b c : sle a b → sle b c → sle a c.
Proof. intros [?| ->]; [|done]. intros [?| ->]; left; eauto using slt_trans. Qed.

Lemma sle_antisymm a b : sle a b → sle b a → a = b.
Proof.
  intros [H1|H1] [H2|H2]; try done. destruct (slt_irrefl a). by apply (slt_trans a b a).
Qed.

#[export] Instance sle_refl : Reflexive sle.
Proof. by right. Qed.

(** Decision procedure for the linear order of byte strings: the goal is turned
    into [False], negations into positive facts, then transitivity saturates. *)
Ltac sorder_sat :=
  repeat match goal with
  | H : slt ?x ?x |- _ => exfalso; exact (slt_irrefl x H)
  | H : ?x ≠ ?x |- _ => exfalso; exact (H eq_refl)
  | H : sle ?x ?x |- _ => clear H
  | H : ¬ slt ?x ?y |- _ => apply sle_of_nlt in H
  | H : ¬ sle ?x ?y |- _ => apply slt_of_nle in H
  | H : @eq string ?x ?y |- _ => first [subst x | subst y | rewrite H in *; clear H]
  | H1 : sle ?x ?y, H2 : sle ?y ?x |- _ =>
      let E := fresh in pose proof (sle_antisymm x y H1 H2) as E; clear H1 H2
  | H1 : slt ?x ?y, H2 : slt ?y ?z |- _ =>
      lazymatch goal with H : slt x z |- _ => fail | _ => pose proof (slt_trans x y z H1 H2) end
  | H1 : sle ?x ?y, H2 : slt ?y ?z |- _ =>
      lazymatch goal with H : slt x z |- _ => fail | _ => pose proof (sle_lt_trans x y z H1 H2) end
  | H1 : slt ?x ?y, H2 : sle ?y ?z |- _ =>
      lazymatch goal with H : slt x z |- _ => fail | _ => pose proof (slt_le_trans x y z H1 H2) end
  | H1 : sle ?x ?y, H2 : sle ?y ?z |- _ =>
      lazymatch goal with H : sle x z |- _ => fail | _ => pose proof (sle_trans x y z H1 H2) end
  end.

Ltac sorder :=
  intros;
  lazymatch goal with
  | |- slt _ _ => apply slt_of_nle; intro
  | |- sle _ _ => apply sle_of_nlt; intro
  | |- ¬ _ => intro
  | |- @eq string ?a ?b => apply sle_antisymm; apply sle_of_nlt; intro
  | |- _ => exfalso
  end; sorder_sat; done.

Declare Scope dbms_scope.
Delimit Scope dbms_scope with dbms.
Open Scope dbms_scope.

Definition str_ltb (a b : string) : bool :=
  match String_as_OT.compare a b with Lt => true | _ => false end.

Definition str_leb (a b : string) : bool :=
  match String_as_OT.compare a b with Gt => false | _ => true end.

Notation "a <s b" := (str_ltb a b) (at level 70) : dbms_scope.
Notation "a <=s b" := (str_leb a b) (at level 70) : dbms_scope.

Lemma str_compare_spec a b : CompareSpec (a = b) (slt a b) (slt b a) (String_as_OT.compare a b).
Proof. unfold slt. destruct (String_as_OT.compare_spec a b); constructor; done. Qed.

Lemma str_ltb_spec a b : BoolSpec (slt a b) (sle b a) (a <s b).
Proof. unfold str_ltb. destruct (str_compare_spec a b); constructor; sorder. Qed.

Lemma str_leb_spec a b : BoolSpec (sle a b) (slt b a) (a <=s b).
Proof. unfold str_leb. destruct (str_compare_spec a b); constructor; sorder. Qed.

Lemma str_ltb_true a b : (a <s b) = true ↔ slt a b.
Proof. destruct (str_ltb_spec a b); split; intros; done || sorder. Qed.

Lemma str_ltb_false a b : (a <s b) = false ↔ sle b a.
Proof. destruct (str_ltb_spec a b); split; intros; done || sorder. Qed.

#[export] Instance slt_dec a b : Decision (slt a b).
Proof.
  destruct (str_ltb a b) eqn:E; [left|right].
  - by apply str_ltb_true.
  - apply str_ltb_false in E. intros ?. sorder.
Defined.

#[export] Instance sle_dec a b : Decision (sle a b).
Proof. unfold sle. apply _. Defined.

#[global] Arguments String.append : simpl nomatch.

Lemma str_app_nil_r s : s +:+ "" = s.
Proof. induction s as [|c s IH]; simpl; congruence. Qed.

Lemma str_app_assoc a b c : a +:+ (b +:+ c) = (a +:+ b) +:+ c.
Proof. induction a as [|x a IH]; simpl; congruence. Qed.

Lemma str_length_app a b : String.length (a +:+ b) = String.length a + String.length b.
Proof. induction a as [|x a IH]; simpl; lia. Qed.

(** Normal form of concatenations: associated to the right, constructors outside. *)
Ltac str_norm := repeat (progress (rewrite <-?str_app_assoc; cbn [String.append])).

(** ** [std::vector] access with its preconditions

    [None] is what the C++ standard leaves undefined (an index out of range,
    [front] or [back] of an empty vector); theorems that end in [Some] show
    that the code never gets there. *)

Section vectors.
Context {A : Type}.
Implicit Types (l : list A) (i : nat) (x : A).

Definition vec_set i x l : option (list A) :=
  if decide (i < length l) then Some (<[i:=x]> l) else None.

Definition vec_insert i x l : option (list A) :=
  if decide (i ≤ length l) then Some (take i l ++ x :: drop i l) else None.

Definition vec_erase i l : option (list A) :=
  if decide (i < length l) then Some (take i l ++ drop (S i) l) else None.

Definition vec_pop_front l : option (list A) :=
  match l with [] => None | _ :: l' => Some l' end.

Definition vec_pop_back l : option (list A) :=
  match l with [] => None | _ :: _ => Some (take (length l - 1) l) end.

Lemma vec_at_mid l1 x l2 i : i = length l1 → (l1 ++ x :: l2) !! i = Some x.
Proof. intros ->. by apply list_lookup_middle. Qed.

Lemma vec_at_mid_S l1 x y l2 i : i = S (length l1) → (l1 ++ x :: y :: l2) !! i = Some y.
Proof.
  intros ->. change (l1 ++ x :: y :: l2) with (l1 ++ [x] ++ y :: l2).
  rewrite (assoc_L (++)). apply list_lookup_middle. rewrite length_app. simpl. lia.
Qed.

Lemma vec_at_mid_SS l1 x y z l2 i :
  i = S (S (length l1)) → (l1 ++ x :: y :: z :: l2) !! i = Some z.
Proof.
  intros ->. change (l1 ++ x :: y :: z :: l2) with (l1 ++ [x;y] ++ z :: l2).
  rewrite (assoc_L (++)). apply list_lookup_middle. rewrite length_app. simpl. lia.
Qed.

Lemma vec_set_mid l1 x y l2 i : i = length l1 → vec_set i y (l1 ++ x :: l2) = Some (l1 ++ y :: l2).
Proof.
  intros ->. unfold vec_set. rewrite decide_True by (rewrite length_app; simpl; lia).
  by rewrite insert_app_r_alt, Nat.sub_diag by lia.
Qed.

Lemma vec_set_mid_S l1 x y z l2 i :
  i = S (length l1) → vec_set i z (l1 ++ x :: y :: l2) = Some (l1 ++ x :: z :: l2).
Proof.
  intros ->. unfold vec_set. rewrite decide_True by (rewrite length_app; simpl; lia).
  rewrite insert_app_r_alt by lia. by replace (S (length l1) - length l1) with 1 by lia.
Qed.

Lemma vec_insert_mid l1 x l2 i : i = length l1 → vec_insert i x (l1 ++ l2) = Some (l1 ++ x :: l2).
Proof.
  intros ->. unfold vec_insert. rewrite decide_True by (rewrite length_app; lia).
  by rewrite take_app_length, drop_app_length.
Qed.

Lemma vec_insert_mid_S l1 y x l2 i :
  i = S (length l1) → vec_insert i x (l1 ++ y :: l2) = Some (l1 ++ y :: x :: l2).
Proof.
  intros ->. change (l1 ++ y :: l2) with (l1 ++ [y] ++ l2). rewrite (assoc_L (++)).
  rewrite (vec_insert_mid (l1 ++ [y])) by (rewrite length_app; simpl; lia).
  by rewrite <-(assoc_L (++)).
Qed.

Lemma vec_erase_mid l1 x l2 i : i = length l1 → vec_erase i (l1 ++ x :: l2) = Some (l1 ++ l2).
Proof.
  intros ->. unfold vec_erase. rewrite decide_True by (rewrite length_app; simpl; lia).
  rewrite take_app_length. f_equal. f_equal.
  by rewrite drop_app_ge, Nat.sub_succ_l, Nat.sub_diag by lia.
Qed.

Lemma vec_erase_mid_S l1 x y l2 i :
  i = S (length l1) → vec_erase i (l1 ++ x :: y :: l2) = Some (l1 ++ x :: l2).
Proof.
  intros ->. change (l1 ++ x :: y :: l2) with (l1 ++ [x] ++ y :: l2). rewrite (assoc_L (++)).
  rewrite (vec_erase_mid (l1 ++ [x])) by (rewrite length_app; simpl; lia).
  by rewrite <-(assoc_L (++)).
Qed.

Lemma vec_erase_mid_SS l1 x y z l2 i :
  i = S (S (length l1)) → vec_erase i (l1 ++ x :: y :: z :: l2) = Some (l1 ++ x :: y :: l2).
Proof.
  intros ->. change (l1 ++ x :: y :: z :: l2) with (l1 ++ [x;y] ++ z :: l2). rewrite (assoc_L (++)).
  rewrite (vec_erase_mid (l1 ++ [x;y])) by (rewrite length_app; simpl; lia).
  by rewrite <-(assoc_L (++)).
Qed.

Lemma vec_pop_back_snoc l x : vec_pop_back (l ++ [x]) = Some l.
Proof.
  unfold vec_pop_back. destruct (l ++ [x]) as [|y l'] eqn:E; [by destruct l|].
  rewrite <-E, length_app; simpl. replace (length l + 1 - 1) with (length l) by lia.
  by rewrite take_app_length.
Qed.

Lemma list_snoc_inv l : l ≠ [] → ∃ l0 x, l = l0 ++ [x].
Proof. destruct l using rev_ind; [done|]. intros _. by exists l, x. Qed.

Lemma list_split_at l i x : l !! i = Some x → ∃ l1 l2, l = l1 ++ x :: l2 ∧ length l1 = i.
Proof.
  intros H. exists (take i l), (drop (S i) l). split; [by rewrite take_drop_middle|].
  apply length_take_le. apply lookup_lt_Some in H. lia.
Qed.

Lemma list_split_len l i : i ≤ length l → ∃ l1 l2, l = l1 ++ l2 ∧ length l1 = i.
Proof.
  intros H. exists (take i l), (drop i l). split; [by rewrite take_drop|]. by apply length_take_le.
Qed.

End vectors.

(** Rewriting database for indexed access in a vector split around the index. *)
Create Rewrite HintDb vec.
#[export] Hint Rewrite @vec_at_mid @vec_at_mid_S @vec_at_mid_SS @vec_set_mid @vec_set_mid_S
  @vec_insert_mid @vec_insert_mid_S @vec_erase_mid @vec_erase_mid_S @vec_erase_mid_SS
  @vec_pop_back_snoc using (by (rewrite ?length_app; simpl; lia)) : vec.

(** [destruct]s every hypothesis that is a conjunction, an existential or a pair equation. *)
Ltac splits_hyps :=
  repeat match goal with
  | H : _ ∧ _ |- _ => destruct H
  | H : ∃ _, _ |- _ => destruct H
  | H : (_, _) = (_, _) |- _ => injection H as ?; subst
  | H : Some _ = Some _ |- _ => injection H as ?; subst
  end.

(** Case analysis on a byte-string comparison in the goal, with the order facts recorded. *)
Ltac str_cases :=
  repeat match goal with
  | |- context [str_ltb ?a ?b] => destruct (str_ltb_spec a b)
  | |- context [str_leb ?a ?b] => destruct (str_leb_spec a b)
  end.
