(* ===== verification/Numerals.v ===== *)
(** * Numerals: the number printing and parsing of the C++ standard library

    What the sources use of it: [std::to_string] and [operator<<] on integers
    (decimal), [std::stoll]/[std::stoi]/[std::stoull] (decimal with leading
    white space, a sign and the count of consumed characters), and the
    zero-padded hexadecimal stream output of [EncodeIndexKey].  The round-trip
    and order lemmas of this file serve the index keys, the literals of the
    parser, the wire protocol and the persisted files. *)
From S2P Require Import Prelude.
From Stdlib Require Import Ascii OrdersEx.

Open Scope Z_scope.

Definition int64_min : Z := -9223372036854775808.
Definition int64_max : Z := 9223372036854775807.
Definition uint64_modulus : Z := 18446744073709551616.

Definition in_int64 (z : Z) : Prop := int64_min ≤ z ≤ int64_max.
Definition in_uint64 (z : Z) : Prop := 0 ≤ z < uint64_modulus.

#[export] Instance in_int64_dec z : Decision (in_int64 z).
Proof. unfold in_int64. apply _. Defined.
#[export] Instance in_uint64_dec z : Decision (in_uint64 z).
Proof. unfold in_uint64. apply _. Defined.

(** ** Digits *)

Definition digit_char (d : Z) : ascii := ascii_of_nat (48 + Z.to_nat d).

Definition is_digit (c : ascii) : bool :=
  let n := nat_of_ascii c in (48 <=? n)%nat && (n <=? 57)%nat.

Definition digit_value (c : ascii) : Z := Z.of_nat (nat_of_ascii c) - 48.

(** Decimal digits of a non-negative number, most significant first; [fuel]
    bounds the number of digits, and a number below [2 ^ fuel] has fewer. *)
Fixpoint dec_digits (fuel : nat) (n : Z) (acc : string) : string :=
  match fuel with
  | O => String (digit_char (n mod 10)) acc
  | S fuel' =>
      let acc' := String (digit_char (n mod 10)) acc in
      if n <? 10 then acc' else dec_digits fuel' (n / 10) acc'
  end.

Definition nat_to_string (n : Z) : string := dec_digits (Z.to_nat (Z.log2 n)) n "".

(** [std::to_string] and the decimal [operator<<]. *)
Definition to_string (z : Z) : string :=
  if z <? 0 then String "-" (nat_to_string (- z)) else nat_to_string z.

(** ** Parsing *)

(** [std::isspace] in the C locale: space, [\t], [\n], [\v], [\f], [\r]. *)
Definition is_space (c : ascii) : bool :=
  let n := nat_of_ascii c in (n =? 32)%nat || ((9 <=? n)%nat && (n <=? 13)%nat).

Fixpoint skip_spaces (s : string) : nat * string :=
  match s with
  | String c s' => if is_space c then let '(n, r) := skip_spaces s' in (S n, r) else (O, s)
  | EmptyString => (O, s)
  end.

(** The longest prefix of digits: its value (from [acc]) and its length. *)
Fixpoint take_digits (s : string) (acc : Z) : Z * nat :=
  match s with
  | String c s' =>
      if is_digit c then
        let '(v, n) := take_digits s' (acc * 10 + digit_value c) in (v, S n)
      else (acc, O)
  | EmptyString => (acc, O)
  end.

Inductive NumExn :=
| InvalidArgument
| OutOfRange.

(** [std::stoll(s, &idx)] and its siblings: the value and [idx], or the
    exception; [lo] and [hi] are the bounds of the result type. *)
Definition parse_signed (lo hi : Z) (s : string) : NumExn + (Z * nat) :=
  let '(sp, s1) := skip_spaces s in
  let '(neg, sg, s2) :=
    match s1 with
    | String "-" r => (true, 1%nat, r)
    | String "+" r => (false, 1%nat, r)
    | _ => (false, O, s1)
    end in
  let '(v, n) := take_digits s2 0 in
  if (n =? 0)%nat then inl InvalidArgument
  else
    let r := if (neg : bool) then - v else v in
    if (r <? lo) || (hi <? r) then inl OutOfRange else inr (r, (sp + sg + n)%nat).

Definition stoll (s : string) := parse_signed int64_min int64_max s.
Definition stoi (s : string) := parse_signed (-2147483648) 2147483647 s.

(** [std::stoull]: a sign is allowed, and a negative number wraps around. *)
Definition stoull (s : string) : NumExn + (Z * nat) :=
  match parse_signed (1 - uint64_modulus) (uint64_modulus - 1) s with
  | inl e => inl e
  | inr (v, n) => inr (v mod uint64_modulus, n)
  end.

(** ** Hexadecimal keys *)

Definition hex_char (d : Z) : ascii :=
  if d <? 10 then ascii_of_nat (48 + Z.to_nat d) else ascii_of_nat (87 + Z.to_nat d).

(** The [k] low hexadecimal digits of [n], most significant first: what
    [std::hex << std::setw(k) << std::setfill('0')] prints for [n < 16 ^ k]. *)
Fixpoint hex_padded (k : nat) (n : Z) (acc : string) : string :=
  match k with
  | O => acc
  | S k' => hex_padded k' (n / 16) (String (hex_char (n mod 16)) acc)
  end.

(** ** Round trip of decimal numbers *)

Lemma digit_char_spec d : 0 ≤ d < 10 → is_digit (digit_char d) = true ∧ digit_value (digit_char d) = d.
Proof.
  intros H. assert (d = 0 ∨ d = 1 ∨ d = 2 ∨ d = 3 ∨ d = 4 ∨ d = 5 ∨ d = 6 ∨ d = 7 ∨ d = 8 ∨ d = 9) by lia.
  by destruct_or?; subst.
Qed.

(** A string that does not start with a digit. *)
Definition no_digit_head (s : string) : Prop :=
  match s with String c _ => is_digit c = false | EmptyString => True end.

Lemma take_digits_stop s acc : no_digit_head s → take_digits s acc = (acc, O).
Proof. destruct s as [|c s]; [done|]. simpl. by intros ->. Qed.

Lemma take_digits_dec_digits fuel n acc a : 0 ≤ n < 2 ^ (Z.of_nat (S fuel)) →
  ∃ k, (0 < k)%nat ∧ n < 10 ^ Z.of_nat k ∧
  String.length (dec_digits fuel n acc) = (k + String.length acc)%nat ∧
  take_digits (dec_digits fuel n acc) a =
    (let '(v, m) := take_digits acc (a * 10 ^ Z.of_nat k + n) in (v, (k + m)%nat)).
Proof.
  revert n acc a. induction fuel as [|fuel IH]; intros n acc a Hn.
  - exists 1%nat. assert (n < 2) by (cbn in Hn; lia). cbn [dec_digits take_digits].
    rewrite Z.mod_small by lia. destruct (digit_char_spec n) as [-> ->]; [lia|].
    split_and!; [lia|lia|done|]. by rewrite Z.pow_1_r.
  - cbn [dec_digits]. destruct (Z.ltb_spec n 10).
    + exists 1%nat. cbn [take_digits]. rewrite Z.mod_small by lia.
      destruct (digit_char_spec n) as [-> ->]; [lia|].
      split_and!; [lia|lia|done|]. by rewrite Z.pow_1_r.
    + destruct (IH (n / 10) (String (digit_char (n mod 10)) acc) a) as (k & Hk & Hlt & Hlen & Heq).
      { rewrite Nat2Z.inj_succ, Z.pow_succ_r in Hn by lia. split; [apply Z.div_pos; lia|].
        apply Z.div_lt_upper_bound; lia. }
      exists (S k). pose proof (Z.mod_pos_bound n 10 ltac:(lia)).
      pose proof (Z.div_mod n 10 ltac:(lia)).
      rewrite Nat2Z.inj_succ, Z.pow_succ_r by lia. simpl in Hlen. split_and!; [lia|nia|lia|].
      rewrite Heq. cbn [take_digits]. destruct (digit_char_spec (n mod 10)) as [-> ->]; [lia|].
      replace ((a * 10 ^ Z.of_nat k + n / 10) * 10 + n mod 10)
        with (a * (10 * 10 ^ Z.of_nat k) + n) by nia.
      destruct (take_digits acc _) as [v m]. f_equal. lia.
Qed.

Lemma dec_digits_app f m acc s : dec_digits f m acc +:+ s = dec_digits f m (acc +:+ s).
Proof. revert m acc. induction f as [|f IH]; intros m acc; simpl; [done|]. by case_match. Qed.

Lemma nat_to_string_digits n s : 0 ≤ n → no_digit_head s →
  take_digits (nat_to_string n +:+ s) 0 = (n, String.length (nat_to_string n)) ∧
  (0 < String.length (nat_to_string n))%nat.
Proof.
  intros Hn Hs. unfold nat_to_string. set (f := Z.to_nat (Z.log2 n)).
  assert (Hb : 0 ≤ n < 2 ^ Z.of_nat (S f)).
  { subst f. rewrite Nat2Z.inj_succ, Z2Nat.id by apply Z.log2_nonneg.
    destruct (decide (n = 0)) as [->|]; [simpl; lia|]. pose proof (Z.log2_spec n). lia. }
  destruct (take_digits_dec_digits f n ("" +:+ s) 0 Hb) as (k & Hk & _ & Hl & Heq).
  rewrite dec_digits_app, Heq. simpl. rewrite take_digits_stop by done.
  assert (k = String.length (dec_digits f n "")) as ->.
  { rewrite <-dec_digits_app, str_length_app in Hl. simpl in Hl. lia. }
  split; [|done]. f_equal. lia.
Qed.

Lemma nat_to_string_head n : 0 ≤ n → ∃ c s, nat_to_string n = String c s ∧ is_digit c = true.
Proof.
  intros Hn. destruct (nat_to_string_digits n "" Hn I) as [H1 H2].
  destruct (nat_to_string n) as [|c s] eqn:E; simpl in *; [lia|].
  exists c, s. split; [done|]. destruct (is_digit c); [done|]. simplify_eq.
Qed.

Lemma is_digit_not_space c : is_digit c = true → is_space c = false.
Proof.
  unfold is_digit, is_space. cbv zeta. generalize (nat_of_ascii c). intros n H.
  apply andb_true_iff in H as [H1%Nat.leb_le H2%Nat.leb_le].
  apply orb_false_iff; split; [by apply Nat.eqb_neq; lia|].
  apply andb_false_iff; right. by apply Nat.leb_gt; lia.
Qed.

Lemma is_digit_not_sign c : is_digit c = true → c ≠ "-"%char ∧ c ≠ "+"%char.
Proof. intros H. split; intros ->; done. Qed.

(** [parse_signed] inverts [to_string] on the range of the type, and stops
    exactly at the end of the printed number. *)
Lemma parse_to_string lo hi z s : lo ≤ z ≤ hi → no_digit_head s →
  parse_signed lo hi (to_string z +:+ s) = inr (z, String.length (to_string z)).
Proof.
  intros Hz Hs. unfold to_string. destruct (Z.ltb_spec z 0) as [Hneg|Hpos].
  - destruct (nat_to_string_digits (- z) s) as [H1 H2]; [lia|done|].
    unfold parse_signed. simpl. rewrite H1.
    destruct (Nat.eqb_spec (String.length (nat_to_string (- z))) 0); [lia|].
    rewrite Z.opp_involutive. destruct (Z.ltb_spec z lo); [lia|]. destruct (Z.ltb_spec hi z); [lia|].
    done.
  - destruct (nat_to_string_digits z s) as [H1 H2]; [lia|done|].
    destruct (nat_to_string_head z Hpos) as (c & r & E & Hc).
    pose proof (is_digit_not_space c Hc) as Hsp. destruct (is_digit_not_sign c Hc) as [Hm Hp].
    unfold parse_signed. rewrite E in H1 |- *. cbn [String.append skip_spaces]. rewrite Hsp.
    cbn [String.append] in H1.
    assert (Hmatch : (match String c (r +:+ s) with
      | String "-" r => (true, 1%nat, r) | String "+" r => (false, 1%nat, r)
      | _ => (false, O, String c (r +:+ s)) end) = (false, O, String c (r +:+ s))).
    { clear -Hm Hp. destruct c as [[] [] [] [] [] [] [] []]; simpl; congruence. }
    rewrite Hmatch, H1. rewrite E in H2. destruct (Nat.eqb_spec (String.length (String c r)) 0); [lia|].
    destruct (Z.ltb_spec z lo); [lia|]. destruct (Z.ltb_spec hi z); [lia|]. done.
Qed.

Lemma stoll_to_string z : in_int64 z → stoll (to_string z) = inr (z, String.length (to_string z)).
Proof.
  intros H. rewrite <-(str_app_nil_r (to_string z)) at 1. by apply parse_to_string.
Qed.

Lemma stoi_to_string z : -2147483648 ≤ z ≤ 2147483647 →
  stoi (to_string z) = inr (z, String.length (to_string z)).
Proof.
  intros H. rewrite <-(str_app_nil_r (to_string z)) at 1. by apply parse_to_string.
Qed.

Lemma stoull_to_string z : in_uint64 z → stoull (to_string z) = inr (z, String.length (to_string z)).
Proof.
  intros H. unfold stoull, in_uint64 in *. rewrite <-(str_app_nil_r (to_string z)) at 1.
  rewrite parse_to_string by (done || unfold uint64_modulus in *; lia). by rewrite Z.mod_small.
Qed.

(** ** Padded hexadecimal numbers compare like the numbers *)

Lemma hex_char_inj_lt a b : 0 ≤ a < 16 → 0 ≤ b < 16 →
  Ascii_as_OT.compare (hex_char a) (hex_char b) = (a ?= b).
Proof.
  intros Ha Hb.
  assert (∀ x, 0 ≤ x < 16 → x = 0 ∨ x = 1 ∨ x = 2 ∨ x = 3 ∨ x = 4 ∨ x = 5 ∨ x = 6 ∨ x = 7 ∨
    x = 8 ∨ x = 9 ∨ x = 10 ∨ x = 11 ∨ x = 12 ∨ x = 13 ∨ x = 14 ∨ x = 15) as Hx by lia.
  apply Hx in Ha, Hb. clear Hx.
  repeat match goal with H : _ ∨ _ |- _ => destruct H end;
  subst; reflexivity.
Qed.

Lemma hex_padded_compare k m n sm sn : 0 ≤ m < 16 ^ Z.of_nat k → 0 ≤ n < 16 ^ Z.of_nat k →
  String_as_OT.compare (hex_padded k m sm) (hex_padded k n sn) =
    match m ?= n with Eq => String_as_OT.compare sm sn | c => c end.
Proof.
  revert m n sm sn. induction k as [|k IH]; intros m n sm sn Hm Hn.
  - simpl in *. assert (m = 0 ∧ n = 0) as [-> ->] by lia. done.
  - rewrite Nat2Z.inj_succ, Z.pow_succ_r in Hm, Hn by lia. cbn [hex_padded].
    pose proof (Z.mod_pos_bound m 16 ltac:(lia)). pose proof (Z.mod_pos_bound n 16 ltac:(lia)).
    pose proof (Z.div_mod m 16 ltac:(lia)). pose proof (Z.div_mod n 16 ltac:(lia)).
    rewrite IH by (split; [apply Z.div_pos; lia|apply Z.div_lt_upper_bound; lia]).
    cbn [String_as_OT.compare]. rewrite hex_char_inj_lt by lia.
    destruct (Z.compare_spec (m / 16) (n / 16)); destruct (Z.compare_spec m n);
      destruct (Z.compare_spec (m mod 16) (n mod 16)); done || lia.
Qed.

Lemma hex_padded_length k n acc : String.length (hex_padded k n acc) = (k + String.length acc)%nat.
Proof. revert n acc. induction k as [|k IH]; intros n acc; simpl; [done|]. rewrite IH. simpl. lia. Qed.

#[global] Arguments hex_padded : simpl never.
#[global] Arguments to_string : simpl never.
