(* ===== verification/CommonTypes.v ===== *)
(** * CommonTypes: values, rows, errors and results (src/common)

    The value variant of [types.hpp], the error codes and the [Result] wrapper
    of [error.hpp] and [result.hpp], the error contract of
    [error_contract.cpp], and the order-preserving index key of
    [runtime_state.cpp] (the same function is repeated in
    [execution_engine.cpp] and [runtime_persistence.cpp]). *)
From S2P Require Import Prelude Numerals.
From Stdlib Require Import Ascii OrdersEx.

Open Scope Z_scope.

(** ** Errors and results *)

Inductive ErrorCode :=
| kOk
| kParseError
| kSemanticError
| kValidationError
| kStorageError
| kAuthorizationError
| kNetworkError
| kNotFound
| kAlreadyExists
| kConstraintViolation
| kTypeMismatch
| kNotImplemented.

#[export] Instance ErrorCode_eq_dec : EqDecision ErrorCode.
Proof. solve_decision. Defined.

Record Error := MkError { error_code : ErrorCode; error_message : string }.

(** What leaves a function in C++ without a [Result]: an exception that no
    caller catches, or an operation the standard leaves undefined. *)
Inductive CrashKind :=
| BadVariantAccess
| MismatchedTypes
| SignedOverflow
| OutOfBounds
| RegexError
| NumberFormat
| UndefinedBehaviour.

(** [Result<T>] with the two ways not to return one. [Ok] is [MakeSuccess],
    [Err] is [MakeError]. *)
Inductive Outcome (A : Type) :=
| Ok (a : A)
| Err (e : Error)
| Crash (c : CrashKind).
Arguments Ok {_} _.
Arguments Err {_} _.
Arguments Crash {_} _.

Definition MakeError {A} (code : ErrorCode) (message : string) : Outcome A :=
  Err (MkError code message).

Definition obind {A B} (m : Outcome A) (k : A → Outcome B) : Outcome B :=
  match m with Ok a => k a | Err e => Err e | Crash c => Crash c end.

Notation "'let*' x ':=' m 'in' k" := (obind m (λ x, k))
  (at level 10, x binder, k at level 200) : dbms_scope.
Notation "'let*' ' p ':=' m 'in' k" := (obind m (λ x, match x with p => k end))
  (at level 10, p strict pattern, k at level 200) : dbms_scope.

(** An access that [None] marks as undefined. *)
Definition or_crash {A} (c : CrashKind) (m : option A) : Outcome A :=
  match m with Some a => Ok a | None => Crash c end.

(** ** Error contract *)

Definition ErrorCodeName (code : ErrorCode) : string :=
  match code with
  | kOk => "OK"
  | kParseError => "PARSE_ERROR"
  | kSemanticError => "SEMANTIC_ERROR"
  | kValidationError => "VALIDATION_ERROR"
  | kStorageError => "STORAGE_ERROR"
  | kAuthorizationError => "AUTHORIZATION_ERROR"
  | kNetworkError => "NETWORK_ERROR"
  | kNotFound => "NOT_FOUND"
  | kAlreadyExists => "ALREADY_EXISTS"
  | kConstraintViolation => "CONSTRAINT_VIOLATION"
  | kTypeMismatch => "TYPE_MISMATCH"
  | kNotImplemented => "NOT_IMPLEMENTED"
  end.

(** [static_cast<int>(code)]: the position in the enumeration. *)
Definition ErrorCodeNumber (code : ErrorCode) : Z :=
  match code with
  | kOk => 0 | kParseError => 1 | kSemanticError => 2 | kValidationError => 3
  | kStorageError => 4 | kAuthorizationError => 5 | kNetworkError => 6 | kNotFound => 7
  | kAlreadyExists => 8 | kConstraintViolation => 9 | kTypeMismatch => 10
  | kNotImplemented => 11
  end.

Definition dquote : ascii := ascii_of_nat 34.
Definition backslash : ascii := ascii_of_nat 92.

Fixpoint EscapeJsonText (value : string) : string :=
  match value with
  | EmptyString => EmptyString
  | String ch rest =>
      if Ascii.eqb ch dquote || Ascii.eqb ch backslash
      then String backslash (String ch (EscapeJsonText rest))
      else String ch (EscapeJsonText rest)
  end.

Definition FormatErrorContract (error : Error) (sql : string) : string :=
  "type=" +:+ ErrorCodeName (error_code error) +:+ " code=" +:+
  to_string (ErrorCodeNumber (error_code error)) +:+ " message=" +:+
  error_message error +:+ " sql=" +:+ String dquote (EscapeJsonText sql +:+ String dquote "").

(** ** Values and rows *)

Inductive ValueType := kNull | kInt64 | kString.

#[export] Instance ValueType_eq_dec : EqDecision ValueType.
Proof. solve_decision. Defined.

(** [std::shared_ptr<const std::string>]: the object's address and its text,
    which never changes. *)
Record InternedString := MkInterned { intern_addr : nat; intern_text : string }.

#[export] Instance InternedString_eq_dec : EqDecision InternedString.
Proof. solve_decision. Defined.

Inductive Value :=
| VNull
| VInt (z : Z)
| VStr (s : string)
| VInterned (p : InternedString).

#[export] Instance Value_eq_dec : EqDecision Value.
Proof. solve_decision. Defined.

(** [RowId] is [std::uint64_t]; [kInvalidRowId] is its maximum. *)
Definition kInvalidRowId : Z := 18446744073709551615.

Record RowData := MkRow { row_id : Z; row_values : list Value }.

#[export] Instance RowData_eq_dec : EqDecision RowData.
Proof. solve_decision. Defined.

Definition IsNull (value : Value) : bool :=
  match value with VNull => true | _ => false end.

Definition IsStringValue (value : Value) : bool :=
  match value with VStr _ | VInterned _ => true | _ => false end.

(** [AsString] throws [std::bad_variant_access] on a value that is no string. *)
Definition AsString (value : Value) : Outcome string :=
  match value with
  | VStr s => Ok s
  | VInterned p => Ok (intern_text p)
  | _ => Crash BadVariantAccess
  end.

Definition GetInt64 (value : Value) : Outcome Z :=
  match value with VInt z => Ok z | _ => Crash BadVariantAccess end.

Definition GetValueType (value : Value) : ValueType :=
  match value with VNull => kNull | VInt _ => kInt64 | _ => kString end.

(** [std::int64_t] subtraction: overflow is undefined. *)
Definition int64_sub (a b : Z) : Outcome Z :=
  if decide (in_int64 (a - b)) then Ok (a - b) else Crash SignedOverflow.

(** [std::string::compare]: only the sign of the result is specified. *)
Definition string_compare (a b : string) : Z :=
  match String_as_OT.compare a b with Lt => -1 | Eq => 0 | Gt => 1 end.

Definition CompareValues (lhs rhs : Value) : Outcome Z :=
  if negb (bool_decide (GetValueType lhs = GetValueType rhs)) then Crash MismatchedTypes
  else
    match GetValueType lhs with
    | kNull => Ok 0
    | kInt64 => let* a := GetInt64 lhs in let* b := GetInt64 rhs in int64_sub a b
    | kString => let* a := AsString lhs in let* b := AsString rhs in Ok (string_compare a b)
    end.

Definition ValueToString (value : Value) : Outcome string :=
  match value with
  | VNull => Ok "NULL"
  | VInt z => Ok (to_string z)
  | _ => AsString value
  end.

Definition CanAssignToType (value : Value) (type : ValueType) (allow_null : bool) : bool :=
  if IsNull value then allow_null
  else bool_decide (GetValueType value = type).

(** ** Index keys *)

(** [static_cast<std::uint64_t>(v) ^ (1ULL << 63)]. *)
Definition ordered_uint64 (v : Z) : Z := Z.lxor (v mod uint64_modulus) (2 ^ 63).

Definition EncodeIndexKey (value : Value) (type : ValueType) : Outcome string :=
  if IsNull value then Ok "N"
  else if bool_decide (type = kInt64) then
    let* signed_value := GetInt64 value in
    Ok ("I" +:+ hex_padded 16 (ordered_uint64 signed_value) "")
  else
    let* text := AsString value in Ok ("S" +:+ text).

(** ** Well-formed values *)

(** The integers of a value fit their C++ type. *)
Definition value_ok (v : Value) : Prop :=
  match v with VInt z => in_int64 z | _ => True end.

(** A value that a column of type [type] can hold without being null. *)
Definition has_type (type : ValueType) (v : Value) : Prop := GetValueType v = type ∧ v ≠ VNull.

(** The order of the values of one type, as [WHERE] and the index see it. *)
Definition value_lt (a b : Value) : Prop :=
  match a, b with
  | VInt x, VInt y => x < y
  | _, _ => match AsString a, AsString b with Ok x, Ok y => slt x y | _, _ => False end
  end.

(** ** Lemmas *)

Lemma obind_Ok_inv {A B} (m : Outcome A) (k : A → Outcome B) b :
  obind m k = Ok b → ∃ a, m = Ok a ∧ k a = Ok b.
Proof. destruct m; simpl; [eauto|done|done]. Qed.

(** The key map flips the sign bit, so it is the shift by [2 ^ 63]. *)
Lemma ordered_uint64_shift v : in_int64 v → ordered_uint64 v = v + 2 ^ 63.
Proof.
  unfold in_int64, int64_min, int64_max, ordered_uint64, uint64_modulus. intros Hv.
  assert (Hbit : ∀ n, 0 ≤ n < 2 ^ 63 → Z.lxor n (2 ^ 63) = n + 2 ^ 63).
  { intros n Hn. rewrite Z.add_nocarry_lxor; [done|].
    apply Z.bits_inj'. intros i Hi. rewrite Z.land_spec, Z.bits_0.
    destruct (decide (i = 63)) as [->|Hne].
    - by rewrite Z.testbit_odd, Z.shiftr_div_pow2, Z.div_small by lia.
    - rewrite (Z.pow2_bits_false 63 i) by lia. apply andb_false_r. }
  destruct (decide (0 ≤ v)) as [Hp|Hneg].
  - rewrite Z.mod_small by lia. apply Hbit. lia.
  - replace (v mod 18446744073709551616) with ((v + 2 ^ 63) + 2 ^ 63); cycle 1.
    { symmetry. rewrite <-(Z.mod_add _ 1) by lia. rewrite Z.mod_small by lia. lia. }
    rewrite <-(Hbit (v + 2 ^ 63)) by lia. by rewrite Z.lxor_assoc, Z.lxor_nilpotent, Z.lxor_0_r.
Qed.

Lemma encode_int_key z : EncodeIndexKey (VInt z) kInt64 =
  Ok ("I" +:+ hex_padded 16 (ordered_uint64 z) "").
Proof. reflexivity. Qed.

(** The key of a non-null value of the column's type exists. *)
Lemma encode_defined ty v : ty ≠ kNull → has_type ty v → ∃ k, EncodeIndexKey v ty = Ok k.
Proof.
  intros Hty [Ht Hn]. unfold EncodeIndexKey. destruct v; simpl in *; try done; subst ty; simpl; eauto.
Qed.

Lemma slt_cons c a b : slt (String c a) (String c b) ↔ slt a b.
Proof.
  unfold slt. cbn [String_as_OT.compare].
  destruct (Ascii_as_OT.compare_spec c c) as [|H|H]; [done|exfalso..];
    by apply (StrictOrder_Irreflexive (R:=Ascii_as_OT.lt)) in H.
Qed.

(** Every [int64] has a sixteen digit key. *)
Lemma ordered_uint64_bound z : in_int64 z → 0 ≤ ordered_uint64 z < 16 ^ Z.of_nat 16.
Proof.
  intros H. rewrite ordered_uint64_shift by done. revert H.
  unfold in_int64, int64_min, int64_max. simpl. lia.
Qed.

Lemma encode_key_lt ty a b ka kb :
  has_type ty a → has_type ty b → value_ok a → value_ok b →
  EncodeIndexKey a ty = Ok ka → EncodeIndexKey b ty = Ok kb →
  slt ka kb ↔ value_lt a b.
Proof.
  intros [Ta Na] [Tb Nb] Ha Hb Ea Eb.
  destruct a as [|za|sa|pa]; try done; destruct b as [|zb|sb|pb]; subst ty; try done;
    cbv -[hex_padded ordered_uint64] in Ea, Eb; simplify_eq; rewrite slt_cons; try done.
  simpl in Ha, Hb. unfold slt. rewrite hex_padded_compare by (by apply ordered_uint64_bound).
  rewrite !ordered_uint64_shift by done. simpl.
  destruct (Z.compare_spec (za + 2 ^ 63) (zb + 2 ^ 63)); simpl; split; done || lia.
Qed.

Lemma compare_texts x y ka kb c :
  Ok ("S" +:+ x) = Ok ka → Ok ("S" +:+ y) = Ok kb → Ok (string_compare x y) = Ok c →
  (c = 0 → ka = kb) ∧ (c < 0 → slt x y) ∧ (0 < c → slt y x).
Proof.
  intros [= <-] [= <-] [= <-]. unfold string_compare.
  destruct (str_compare_spec x y); split_and!; intros; subst; done || lia.
Qed.

(** Comparing values and comparing their keys. *)
Lemma compare_keys ty a b ka kb c :
  has_type ty a → has_type ty b → value_ok a → value_ok b →
  EncodeIndexKey a ty = Ok ka → EncodeIndexKey b ty = Ok kb → CompareValues a b = Ok c →
  (c = 0 → ka = kb) ∧ (c < 0 → slt ka kb) ∧ (0 < c → slt kb ka).
Proof.
  intros Ta Tb Ha Hb Ea Eb Hc. rewrite (encode_key_lt ty a b ka kb), (encode_key_lt ty b a kb ka) by done.
  destruct Ta as [Ta Na], Tb as [Tb Nb].
  destruct a as [|za|sa|pa]; try done; destruct b as [|zb|sb|pb]; subst ty; try done.
  - change (int64_sub za zb = Ok c) in Hc. unfold int64_sub in Hc. case_decide; [|done]. injection Hc as <-. simpl.
    split_and!; try lia. intros ?. assert (za = zb) as -> by lia. congruence.
  - by apply (compare_texts sa sb).
  - by apply (compare_texts sa (intern_text pb)).
  - by apply (compare_texts (intern_text pa) sb).
  - by apply (compare_texts (intern_text pa) (intern_text pb)).
Qed.

(** C10: index keys preserve the order of the values: for two non-null values
    of the column's type, the encoded byte strings compare as the values do,
    so a range scan of the index visits rows in value order. *)
Theorem encode_index_key_order ty a b ka kb :
  has_type ty a → has_type ty b → value_ok a → value_ok b →
  EncodeIndexKey a ty = Ok ka → EncodeIndexKey b ty = Ok kb →
  slt ka kb ↔ value_lt a b.
Proof. apply encode_key_lt. Qed.

Lemma encode_index_key_order_witness :
  slt "I7ffffffffffffffb" "I8000000000000007" ∧ value_lt (VInt (-5)) (VInt 7).
Proof.
  assert (H : slt "I7ffffffffffffffb" "I8000000000000007" ↔ value_lt (VInt (-5)) (VInt 7)).
  { apply (encode_index_key_order kInt64 (VInt (-5)) (VInt 7)).
    1, 2: split; done.
    1, 2: unfold value_ok, in_int64, int64_min, int64_max; lia.
    all: vm_compute; reflexivity. }
  split; [|apply H]; vm_compute; reflexivity.
Defined.
