(* ===== verification/Storage.v ===== *)
(** * Storage: schemas, catalog, string pool and table heap
    (src/catalog/schema.hpp, src/catalog/catalog.cpp, src/storage)

    The string pool hands out shared pointers to immutable strings, one per
    distinct text; the table heap keeps the rows of a table with their stable
    row identifiers. *)
From S2P Require Import Prelude Numerals CommonTypes.

Open Scope Z_scope.

(** ** Schemas *)

Inductive ColumnConstraint := kNone | kNotNull | kIndexed.

#[export] Instance ColumnConstraint_eq_dec : EqDecision ColumnConstraint.
Proof. solve_decision. Defined.

Record ColumnDefinition := MkColumn {
  col_name : string;
  col_type : ValueType;
  col_constraint : ColumnConstraint;
  col_default : option Value
}.

Record IndexDefinition := MkIndexDef {
  idx_name : string;
  idx_column : string;
  idx_unique : bool;
  idx_primary : bool
}.

Record TableSchema := MkSchema {
  schema_database : string;
  schema_table : string;
  schema_columns : list ColumnDefinition;
  schema_indexes : list IndexDefinition
}.

(** ** Catalog *)

Record Catalog := MkCatalog {
  cat_root : string;
  cat_databases : list string;
  cat_tables : list TableSchema
}.

Definition CreateDatabase (database_name : string) (c : Catalog) : Catalog :=
  MkCatalog (cat_root c) (cat_databases c ++ [database_name]) (cat_tables c).

Definition DropDatabase (database_name : string) (c : Catalog) : Catalog :=
  MkCatalog (cat_root c) (filter (λ d, d ≠ database_name) (cat_databases c)) (cat_tables c).

Definition RegisterTable (schema : TableSchema) (c : Catalog) : Catalog :=
  MkCatalog (cat_root c) (cat_databases c) (cat_tables c ++ [schema]).

Fixpoint find_table (database_name table_name : string) (ts : list TableSchema) : option TableSchema :=
  match ts with
  | [] => None
  | t :: ts' =>
      if bool_decide (schema_database t = database_name) && bool_decide (schema_table t = table_name)
      then Some t else find_table database_name table_name ts'
  end.

Definition FindTable (database_name table_name : string) (c : Catalog) : option TableSchema :=
  find_table database_name table_name (cat_tables c).

(** ** String pool *)

(** [index_] maps a text to the shared object; [pool_next] is the address the
    allocator gives to the next object. *)
Record StringPool := MkPool { pool_index : gmap string InternedString; pool_next : nat }.

Definition empty_pool : StringPool := MkPool ∅ 0.

Definition Intern (value : string) (pool : StringPool) : InternedString * StringPool :=
  match pool_index pool !! value with
  | Some p => (p, pool)
  | None =>
      let owned := MkInterned (pool_next pool) value in
      (owned, MkPool (<[value:=owned]> (pool_index pool)) (S (pool_next pool)))
  end.

Definition UniqueCount (pool : StringPool) : nat := size (pool_index pool).

(** ** Table heap *)

Record TableHeap := MkHeap {
  heap_schema : TableSchema;
  heap_rows : list RowData;
  heap_next : Z
}.

Definition NewTableHeap (schema : TableSchema) : TableHeap := MkHeap schema [] 0.

(** [x + 1] on [std::uint64_t]. *)
Definition uint64_succ (x : Z) : Z := (x + 1) mod uint64_modulus.

Definition HeapInsert (row : RowData) (h : TableHeap) : Z * TableHeap :=
  let '(row, next) :=
    if bool_decide (row_id row = kInvalidRowId)
    then (MkRow (heap_next h) (row_values row), uint64_succ (heap_next h))
    else if bool_decide (heap_next h ≤ row_id row)
    then (row, uint64_succ (row_id row))
    else (row, heap_next h) in
  (row_id row, MkHeap (heap_schema h) (heap_rows h ++ [row]) next).

Definition ScanAll (h : TableHeap) : list RowData := heap_rows h.

Fixpoint find_row (rid : Z) (rows : list RowData) : option RowData :=
  match rows with
  | [] => None
  | row :: rows' => if bool_decide (row_id row = rid) then Some row else find_row rid rows'
  end.

Definition FindByRowId (rid : Z) (h : TableHeap) : option RowData := find_row rid (heap_rows h).

Definition next_after (next : Z) (row : RowData) : Z :=
  if bool_decide (row_id row ≠ kInvalidRowId ∧ next ≤ row_id row)
  then uint64_succ (row_id row) else next.

Definition HeapReplaceAll (rows : list RowData) (h : TableHeap) : TableHeap :=
  MkHeap (heap_schema h) rows (foldl next_after 0 rows).

(** ** Invariants *)

(** Each text has one object, each object one text, and addresses are fresh. *)
Definition pool_wf (pool : StringPool) : Prop :=
  (∀ s p, pool_index pool !! s = Some p → intern_text p = s ∧ (intern_addr p < pool_next pool)%nat) ∧
  (∀ s1 s2 p1 p2, pool_index pool !! s1 = Some p1 → pool_index pool !! s2 = Some p2 →
     intern_addr p1 = intern_addr p2 → s1 = s2).

(** Row identifiers strictly increase from row to row and stay below the next one. *)
Definition ids_below (next : Z) (rows : list RowData) : Prop :=
  StronglySorted Z.lt (map row_id rows) ∧ Forall (λ r, 0 ≤ row_id r < next) rows.

Definition heap_wf (h : TableHeap) : Prop :=
  ids_below (heap_next h) (heap_rows h) ∧ 0 ≤ heap_next h ≤ kInvalidRowId.

(** ** String pool lemmas *)

Lemma empty_pool_wf : pool_wf empty_pool.
Proof. split; simpl; intros; simplify_map_eq. Qed.

Lemma Intern_text value pool : pool_wf pool → intern_text (Intern value pool).1 = value.
Proof. intros [H _]. unfold Intern. case_match eqn:E; [by apply H|done]. Qed.

Lemma Intern_wf value pool : pool_wf pool → pool_wf (Intern value pool).2.
Proof.
  intros [H1 H2]. unfold Intern. destruct (pool_index pool !! value) eqn:E; [done|]. simpl.
  split; simpl.
  - intros s p. rewrite lookup_insert_Some. intros [[<- <-]|[_ Hp]]; simpl; [split; [done|lia]|].
    destruct (H1 s p Hp). split; [done|lia].
  - intros s1 s2 p1 p2. rewrite !lookup_insert_Some.
    intros [[<- <-]|[? Hp1]] [[<- <-]|[? Hp2]] Ha; simpl in *; try done.
    + destruct (H1 s2 p2 Hp2). lia.
    + destruct (H1 s1 p1 Hp1). lia.
    + by eapply H2.
Qed.

Lemma Intern_keeps value pool s p :
  pool_index pool !! s = Some p → pool_index (Intern value pool).2 !! s = Some p.
Proof.
  intros Hp. unfold Intern. destruct (pool_index pool !! value) eqn:E; [done|]. simpl.
  rewrite lookup_insert_ne; [done|]. congruence.
Qed.

Lemma Intern_lookup value pool : pool_index (Intern value pool).2 !! value = Some (Intern value pool).1.
Proof. unfold Intern. case_match eqn:E; simpl; [done|]. apply lookup_insert_eq. Qed.

(** Interning the texts [vs] from left to right. *)
Definition intern_all (vs : list string) (pool : StringPool) : StringPool :=
  foldl (λ p v, (Intern v p).2) pool vs.

Lemma intern_all_keeps vs pool s p :
  pool_index pool !! s = Some p → pool_index (intern_all vs pool) !! s = Some p.
Proof. revert pool. induction vs as [|v vs IH]; intros pool Hp; simpl; auto using Intern_keeps. Qed.

Lemma intern_all_wf vs pool : pool_wf pool → pool_wf (intern_all vs pool).
Proof. revert pool. induction vs as [|v vs IH]; intros pool Hp; simpl; auto using Intern_wf. Qed.

(** The string pool deduplicates: whatever is interned in between, a text
    gets the same object again, two texts share an object only when they are
    equal, and the object holds the text it was asked for. *)
Theorem intern_dedup value other mids pool :
  pool_wf pool →
  let '(p1, pool1) := Intern value pool in
  let '(p2, pool2) := Intern other (intern_all mids pool1) in
  intern_text p1 = value ∧ intern_text p2 = other ∧ pool_wf pool2 ∧
  (intern_addr p1 = intern_addr p2 ↔ value = other) ∧ (value = other → p1 = p2).
Proof.
  intros Hwf. pose proof (Intern_text value pool Hwf) as Ht1.
  pose proof (Intern_wf value pool Hwf) as Hw1. pose proof (Intern_lookup value pool) as Hl1.
  destruct (Intern value pool) as [p1 pool1] eqn:E1. simpl in *.
  pose proof (intern_all_wf mids pool1 Hw1) as Hwm.
  pose proof (Intern_text other _ Hwm) as Ht2. pose proof (Intern_wf other _ Hwm) as Hw2.
  pose proof (Intern_lookup other (intern_all mids pool1)) as Hl2.
  pose proof (Intern_keeps other _ _ _ (intern_all_keeps mids _ _ _ Hl1)) as Hk.
  destruct (Intern other _) as [p2 pool2] eqn:E2. simpl in *.
  assert (value = other → p1 = p2) by (intros <-; congruence).
  split_and!; try done. split; [by apply Hw2|]. intros ?. f_equal. auto.
Qed.

Lemma intern_dedup_witness :
  let '(p1, pool1) := Intern "ann" empty_pool in
  let '(p2, _) := Intern "ann" (intern_all ["bob"; "eve"] pool1) in p1 = p2.
Proof. apply (intern_dedup "ann" "ann" ["bob"; "eve"] empty_pool empty_pool_wf). done. Defined.

(** ** Table heap lemmas *)

Lemma ids_below_app next rows r :
  ids_below next rows → next ≤ row_id r → 0 ≤ next → ids_below (row_id r + 1) (rows ++ [r]).
Proof.
  intros [Hs Hb] Hr H0. split.
  - rewrite map_app. apply StronglySorted_app_2; [|done|repeat constructor].
    intros x y Hx Hy. simpl in Hy. apply list_elem_of_singleton in Hy as ->.
    apply list_elem_of_In, in_map_iff in Hx as (r' & <- & Hin).
    rewrite Forall_forall in Hb. apply list_elem_of_In in Hin. specialize (Hb _ Hin). lia.
  - rewrite Forall_app. split; [|repeat constructor; lia].
    eapply Forall_impl; [exact Hb|]. simpl. lia.
Qed.

Lemma NewTableHeap_wf schema : heap_wf (NewTableHeap schema).
Proof. repeat split; simpl; try constructor; unfold kInvalidRowId; lia. Qed.

Lemma find_row_app_fresh rows r : Forall (λ x, row_id x ≠ row_id r) rows →
  find_row (row_id r) (rows ++ [r]) = Some r.
Proof.
  induction 1 as [|x rows Hx _ IH]; simpl; [by rewrite bool_decide_eq_true_2|].
  by rewrite bool_decide_eq_false_2.
Qed.

Lemma find_row_Some rid rows r : find_row rid rows = Some r → r ∈ rows ∧ row_id r = rid.
Proof.
  induction rows as [|x rows IH]; simpl; [done|]. case_bool_decide; intros Hf.
  - simplify_eq. split; [by left|done].
  - destruct (IH Hf). split; [by right|done].
Qed.

Lemma find_row_In rows r : NoDup (map row_id rows) → r ∈ rows → find_row (row_id r) rows = Some r.
Proof.
  induction rows as [|x rows IH]; intros Hnd Hin; [by apply not_elem_of_nil in Hin|].
  simpl in *. apply NoDup_cons in Hnd as [Hx Hnd]. apply elem_of_cons in Hin as [->|Hin].
  - by rewrite bool_decide_eq_true_2.
  - rewrite bool_decide_eq_false_2; [auto|]. intros Heq. apply Hx. rewrite Heq.
    apply list_elem_of_In, in_map. by apply list_elem_of_In.
Qed.

Lemma StronglySorted_lt_NoDup l : StronglySorted Z.lt l → NoDup l.
Proof.
  induction 1 as [|x l _ IH Hx]; constructor; [|done].
  intros Hin. rewrite Forall_forall in Hx. specialize (Hx _ Hin). lia.
Qed.

Lemma ids_below_NoDup next rows : ids_below next rows → NoDup (map row_id rows).
Proof. intros [H _]. by apply StronglySorted_lt_NoDup. Qed.

(** An insertion without an identifier. *)
Lemma HeapInsert_new h vals :
  heap_wf h → heap_next h < kInvalidRowId →
  HeapInsert (MkRow kInvalidRowId vals) h =
    (heap_next h, MkHeap (heap_schema h) (heap_rows h ++ [MkRow (heap_next h) vals]) (heap_next h + 1)) ∧
  heap_wf (MkHeap (heap_schema h) (heap_rows h ++ [MkRow (heap_next h) vals]) (heap_next h + 1)).
Proof.
  intros [[Hs Hb] Hn] Hlt. unfold HeapInsert. rewrite bool_decide_eq_true_2 by done. simpl.
  unfold uint64_succ. rewrite Z.mod_small by (unfold uint64_modulus, kInvalidRowId in *; lia).
  split; [done|]. split; simpl; [|lia].
  apply (ids_below_app (heap_next h) _ (MkRow (heap_next h) vals)); simpl; [by split|lia|lia].
Qed.

(** A row inserted without an identifier gets a fresh one: it differs from
    the identifiers of all stored rows, the row is found again under it, the
    other rows are untouched, and the heap invariant is kept. *)
Theorem heap_insert_fresh h vals :
  heap_wf h → heap_next h < kInvalidRowId →
  let '(rid, h') := HeapInsert (MkRow kInvalidRowId vals) h in
  heap_wf h' ∧ rid = heap_next h ∧
  Forall (λ r, row_id r ≠ rid) (heap_rows h) ∧
  ScanAll h' = ScanAll h ++ [MkRow rid vals] ∧
  FindByRowId rid h' = Some (MkRow rid vals) ∧
  (∀ r, r ∈ ScanAll h → FindByRowId (row_id r) h' = Some r).
Proof.
  intros Hwf Hlt. destruct (HeapInsert_new h vals Hwf Hlt) as [-> Hwf']. destruct Hwf as [[Hs Hb] Hn].
  assert (Hfresh : Forall (λ r, row_id r ≠ heap_next h) (heap_rows h)).
  { eapply Forall_impl; [exact Hb|]. simpl. lia. }
  split_and!; try done.
  - by apply (find_row_app_fresh _ (MkRow (heap_next h) vals)).
  - intros r Hr. apply find_row_In; [by apply (ids_below_NoDup _ _ (proj1 Hwf'))|]. simpl. unfold ScanAll in Hr. set_solver.
Qed.

Lemma heap_insert_fresh_witness :
  let h := NewTableHeap (MkSchema "db" "t" [] []) in
  FindByRowId 0 (HeapInsert (MkRow kInvalidRowId [VInt 7]) h).2 = Some (MkRow 0 [VInt 7]).
Proof.
  pose proof (heap_insert_fresh (NewTableHeap (MkSchema "db" "t" [] [])) [VInt 7]
    (NewTableHeap_wf _) ltac:(reflexivity)) as H.
  simpl in H |- *. apply H.
Defined.

Lemma next_after_fold rows next :
  Forall (λ r, 0 ≤ row_id r < kInvalidRowId) rows → 0 ≤ next ≤ kInvalidRowId →
  let n := foldl next_after next rows in
  next ≤ n ≤ kInvalidRowId ∧ Forall (λ r, row_id r < n) rows.
Proof.
  intros Hf. revert next. induction Hf as [|r rows Hr Hf IH]; intros next Hn; simpl; [split; [lia|constructor]|].
  assert (next ≤ next_after next r ≤ kInvalidRowId ∧ row_id r < next_after next r) as [H1 H2].
  { unfold next_after, uint64_succ. case_bool_decide as Hd.
    - rewrite Z.mod_small by (unfold uint64_modulus, kInvalidRowId in *; lia). lia.
    - unfold kInvalidRowId in *. split; [lia|]. apply Z.nle_gt. intros ?. apply Hd. lia. }
  destruct (IH (next_after next r)) as [H3 H4]; [lia|]. split; [lia|].
  constructor; [lia|]. done.
Qed.

(** Replacing the rows of a heap by rows with increasing identifiers. *)
Lemma HeapReplaceAll_wf rows h :
  ids_below kInvalidRowId rows → heap_wf (HeapReplaceAll rows h).
Proof.
  intros [Hs Hb]. destruct (next_after_fold rows 0) as [H1 H2]; [done|unfold kInvalidRowId; lia|].
  split; simpl; [|lia]. split; [done|].
  rewrite Forall_forall in Hb, H2 |- *. intros r Hr. specialize (Hb _ Hr). specialize (H2 _ Hr).
  simpl in *. lia.
Qed.

Lemma ids_below_mono next next' rows : next ≤ next' → ids_below next rows → ids_below next' rows.
Proof. intros Hn [Hs Hb]. split; [done|]. eapply Forall_impl; [exact Hb|]. simpl. lia. Qed.

Lemma Forall_sublist {A} (P : A → Prop) l1 l2 : sublist l1 l2 → Forall P l2 → Forall P l1.
Proof. induction 1; intros HF; [done|..]; apply Forall_cons in HF as [? ?]; auto. Qed.

Lemma StronglySorted_sublist {A} (R : relation A) l1 l2 :
  sublist l1 l2 → StronglySorted R l2 → StronglySorted R l1.
Proof.
  induction 1 as [|x l1 l2 Hsub IH|x l1 l2 Hsub IH]; intros Hs; [constructor| |].
  - apply StronglySorted_inv in Hs as [Hs Hx]. constructor; [auto|].
    by eapply Forall_sublist.
  - apply StronglySorted_inv in Hs as [Hs _]. auto.
Qed.

Lemma ids_below_sublist next rows rows' :
  sublist rows' rows → ids_below next rows → ids_below next rows'.
Proof.
  intros Hsub [Hs Hb]. split.
  - eapply StronglySorted_sublist; [|exact Hs].
    clear -Hsub. induction Hsub; simpl; by constructor.
  - by eapply Forall_sublist.
Qed.

Lemma ids_below_same_ids next rows rows' :
  map row_id rows' = map row_id rows → ids_below next rows → ids_below next rows'.
Proof.
  intros Heq [Hs Hb]. split; [by rewrite Heq|].
  assert (Hm : Forall (λ i, 0 ≤ i < next) (map row_id rows')) by (rewrite Heq; by apply Forall_map).
  by apply Forall_map in Hm.
Qed.
