(* ===== verification/Codec.v ===== *)
(** * Codec: backslash-escaped, tab-separated text records

    The sources repeat the same three helpers in the network protocol
    ([src/network/protocol.cpp]), the write-ahead log, the persistence files,
    the access controller and the cluster code: a field escape, its inverse,
    and a splitter that respects escapes.  They are modelled once here, from
    [protocol.cpp]; the components that repeat them refer to these. *)
From S2P Require Import Prelude Numerals CommonTypes.
From Stdlib Require Import Ascii.

Definition tab : ascii := ascii_of_nat 9.
Definition newline : ascii := ascii_of_nat 10.

(** ** The helpers *)

Definition needs_escape (ch : ascii) : bool :=
  Ascii.eqb ch backslash || Ascii.eqb ch tab || Ascii.eqb ch newline.

Fixpoint EscapeField (value : string) : string :=
  match value with
  | EmptyString => EmptyString
  | String ch rest =>
      if needs_escape ch then String backslash (String ch (EscapeField rest))
      else String ch (EscapeField rest)
  end.

Fixpoint unescape_loop (escaped : bool) (value : string) : string :=
  match value with
  | EmptyString => EmptyString
  | String ch rest =>
      if escaped then String ch (unescape_loop false rest)
      else if Ascii.eqb ch backslash then unescape_loop true rest
      else String ch (unescape_loop false rest)
  end.

Definition UnescapeField (value : string) : string := unescape_loop false value.

Definition push_back (s : string) (ch : ascii) : string := s +:+ String ch "".

(** The loop of [SplitByTab] with its [current] and [escaped] variables; the
    parts pushed so far are the front of the result. *)
Fixpoint split_loop (sep : ascii) (current : string) (escaped : bool) (line : string) : list string :=
  match line with
  | EmptyString => [current]
  | String ch rest =>
      if escaped then split_loop sep (push_back current ch) false rest
      else if Ascii.eqb ch backslash then split_loop sep (push_back current ch) true rest
      else if Ascii.eqb ch sep then current :: split_loop sep "" false rest
      else split_loop sep (push_back current ch) false rest
  end.

Definition SplitByTab (line : string) : list string := split_loop tab "" false line.

(** The [ReadLine] of the socket code: the text up to the
    next newline and what follows it; [None] when there is no newline. *)
Fixpoint read_line (stream : string) : option (string * string) :=
  match stream with
  | EmptyString => None
  | String ch rest =>
      if Ascii.eqb ch newline then Some ("", rest)
      else '(line, tail) ← read_line rest; Some (String ch line, tail)
  end.

(** The character [c] does not occur in [s]. *)
Fixpoint no_char (c : ascii) (s : string) : bool :=
  match s with
  | EmptyString => true
  | String ch rest => negb (Ascii.eqb ch c) && no_char c rest
  end.

(** [sep]-separated fields. *)
Fixpoint join (sep : ascii) (parts : list string) : string :=
  match parts with
  | [] => ""
  | [p] => p
  | p :: ps => p +:+ String sep (join sep ps)
  end.

(** ** Lemmas *)

Lemma no_char_app c a b : no_char c (a +:+ b) = no_char c a && no_char c b.
Proof. induction a as [|x a IH]; simpl; [done|]. by rewrite IH, andb_assoc. Qed.

Lemma unescape_escape_app s t : unescape_loop false (EscapeField s +:+ t) = s +:+ unescape_loop false t.
Proof.
  induction s as [|ch s IH]; simpl; [done|].
  destruct (needs_escape ch) eqn:E; simpl; [by rewrite IH|].
  unfold needs_escape in E. apply orb_false_iff in E as [[E _]%orb_false_iff _].
  by rewrite E, IH.
Qed.

(** Unescaping inverts escaping. *)
Lemma unescape_escape s : UnescapeField (EscapeField s) = s.
Proof.
  unfold UnescapeField. rewrite <-(str_app_nil_r (EscapeField s)), unescape_escape_app.
  apply str_app_nil_r.
Qed.

Lemma push_back_app a ch b : push_back a ch +:+ b = a +:+ String ch b.
Proof. unfold push_back. by rewrite <-str_app_assoc. Qed.

(** The splitter runs through an escaped field without splitting it. *)
Lemma split_loop_escaped sep cur s t :
  needs_escape sep = true →
  split_loop sep cur false (EscapeField s +:+ t) = split_loop sep (cur +:+ EscapeField s) false t.
Proof.
  intros Hsep. revert cur. induction s as [|ch s IH]; intros cur; simpl; [by rewrite str_app_nil_r|].
  destruct (needs_escape ch) eqn:E.
  - simpl. by rewrite IH, !push_back_app.
  - assert (Ascii.eqb ch backslash = false ∧ Ascii.eqb ch sep = false) as [E1 E2].
    { split; [by apply orb_false_iff in E as [[? _]%orb_false_iff _]|].
      destruct (Ascii.eqb_spec ch sep) as [->|]; congruence. }
    simpl. by rewrite E1, E2, IH, push_back_app.
Qed.

Lemma split_join_escaped sep f fs :
  needs_escape sep = true → Ascii.eqb sep backslash = false →
  split_loop sep "" false (join sep (map EscapeField (f :: fs))) = map EscapeField (f :: fs).
Proof.
  intros Hsep Hbs. revert f. induction fs as [|g fs IH]; intros f.
  - simpl. rewrite <-(str_app_nil_r (EscapeField f)) at 1. by rewrite split_loop_escaped.
  - change (join sep (map EscapeField (f :: g :: fs)))
      with (EscapeField f +:+ String sep (join sep (map EscapeField (g :: fs)))).
    rewrite split_loop_escaped by done. cbn [split_loop]. rewrite Hbs, Ascii.eqb_refl, IH. done.
Qed.

(** A record of tab-separated escaped fields splits into exactly its
    fields: for any field texts (tabs, backslashes and newlines included), the
    splitter followed by the unescape returns the list that was written. *)
Theorem split_by_tab_roundtrip f fs :
  map UnescapeField (SplitByTab (join tab (map EscapeField (f :: fs)))) = f :: fs.
Proof.
  unfold SplitByTab. rewrite split_join_escaped by done. rewrite map_map.
  simpl. rewrite unescape_escape. f_equal. rewrite <-(map_id fs) at 2.
  apply map_ext. intros. apply unescape_escape.
Qed.

Lemma escape_no_newline s : no_char newline (EscapeField s) = no_char newline s.
Proof.
  induction s as [|ch s IH]; simpl; [done|].
  destruct (needs_escape ch); simpl; by rewrite IH.
Qed.

Lemma read_line_app s t : no_char newline s = true → read_line (s +:+ String newline t) = Some (s, t).
Proof.
  induction s as [|ch s IH]; simpl; [done|]. intros [H1%negb_true_iff H2]%andb_true_iff.
  by rewrite H1, IH.
Qed.

Lemma unescape_lone_backslash s : UnescapeField (EscapeField s +:+ String backslash "") = s.
Proof. unfold UnescapeField. rewrite unescape_escape_app. simpl. apply str_app_nil_r. Qed.

Lemma escape_app a b : EscapeField (a +:+ b) = EscapeField a +:+ EscapeField b.
Proof.
  induction a as [|ch a IH]; simpl; [done|]. destruct (needs_escape ch); simpl; by rewrite IH.
Qed.
