(* ===== verification/Protocol.v ===== *)
(** * Protocol: request and response envelopes on the wire (src/network)

    Requests and responses travel as one line of escaped, tab-separated
    fields; the peer reads a line ([ReadLine] of [entrypoint.cpp] and
    [apps/cli/main.cpp]) and splits it. *)
From S2P Require Import Prelude Numerals CommonTypes Codec.
From Stdlib Require Import Ascii.

Open Scope Z_scope.

Record RequestEnvelope := MkRequest { req_client : string; req_jwt : string; req_payload : string }.
Record ResponseEnvelope := MkResponse { resp_status : Z; resp_payload : string }.

Definition SerializeRequest (request : RequestEnvelope) : string :=
  EscapeField (req_client request) +:+ String tab "" +:+
  EscapeField (req_jwt request) +:+ String tab "" +:+
  EscapeField (req_payload request) +:+ String newline "".

Definition SerializeResponse (response : ResponseEnvelope) : string :=
  to_string (resp_status response) +:+ String tab "" +:+
  EscapeField (resp_payload response) +:+ String newline "".

(** [false] is [None]. *)
Definition DeserializeRequest (wire : string) : option RequestEnvelope :=
  match SplitByTab wire with
  | [p0; p1; p2] => Some (MkRequest (UnescapeField p0) (UnescapeField p1) (UnescapeField p2))
  | _ => None
  end.

Definition DeserializeResponse (wire : string) : option ResponseEnvelope :=
  match SplitByTab wire with
  | [p0; p1] =>
      match stoi p0 with
      | inr (code, _) => Some (MkResponse code (UnescapeField p1))
      | inl _ => None
      end
  | _ => None
  end.

(** What a peer gets from a byte stream: the next line, deserialized, and the rest. *)
Definition receive_request (stream : string) : option (option RequestEnvelope * string) :=
  '(line, rest) ← read_line stream; Some (DeserializeRequest line, rest).

Definition receive_response (stream : string) : option (option ResponseEnvelope * string) :=
  '(line, rest) ← read_line stream; Some (DeserializeResponse line, rest).

Definition request_one_line (r : RequestEnvelope) : bool :=
  no_char newline (req_client r) && no_char newline (req_jwt r) && no_char newline (req_payload r).

(** ** Lemmas *)

Lemma serialize_request_join r :
  SerializeRequest r =
    join tab (map EscapeField [req_client r; req_jwt r; req_payload r]) +:+ String newline "".
Proof. unfold SerializeRequest. cbn [map join]. by str_norm. Qed.

Lemma deserialize_request_line r :
  DeserializeRequest (join tab (map EscapeField [req_client r; req_jwt r; req_payload r])) = Some r.
Proof.
  unfold DeserializeRequest, SplitByTab. rewrite split_join_escaped by done. simpl.
  rewrite !unescape_escape. by destruct r.
Qed.

(** A decimal number needs no escape. *)
Definition plain_char (c : ascii) : bool := is_digit c || Ascii.eqb c "-".

Fixpoint plain (s : string) : bool :=
  match s with EmptyString => true | String c s' => plain_char c && plain s' end.

Lemma plain_push_digit n acc : plain acc = true → plain (String (digit_char (n mod 10)) acc) = true.
Proof.
  intros Ha. destruct (digit_char_spec (n mod 10)) as [Hd _]; [apply Z.mod_pos_bound; lia|].
  cbn [plain]. unfold plain_char. by rewrite Hd.
Qed.

Lemma plain_dec_digits f n acc : plain acc = true → plain (dec_digits f n acc) = true.
Proof.
  revert n acc. induction f as [|f IH]; intros n acc Ha; cbn [dec_digits]; [by apply plain_push_digit|].
  case_match; [by apply plain_push_digit|]. by apply IH, plain_push_digit.
Qed.

Lemma plain_to_string z : plain (to_string z) = true.
Proof.
  unfold to_string, nat_to_string. destruct (Z.ltb_spec z 0); cbn [plain]; by apply plain_dec_digits.
Qed.

Lemma plain_char_spec c : plain_char c = true → needs_escape c = false.
Proof. destruct c as [[] [] [] [] [] [] [] []]; done. Qed.

Lemma escape_plain s : plain s = true → EscapeField s = s.
Proof.
  induction s as [|c s IH]; simpl; [done|]. intros [Hc Hs]%andb_true_iff.
  rewrite plain_char_spec by done. by rewrite IH.
Qed.

Lemma plain_no_newline s : plain s = true → no_char newline s = true.
Proof.
  induction s as [|c s IH]; simpl; [done|]. intros [Hc Hs]%andb_true_iff.
  rewrite IH by done. apply plain_char_spec in Hc. by apply orb_false_iff in Hc as [_ ->].
Qed.

(** A response line, for any continuation [tail] of the payload field. *)
Lemma deserialize_response_line code tail :
  -2147483648 ≤ code ≤ 2147483647 →
  (∀ cur, split_loop tab cur false tail = [cur +:+ tail]) →
  DeserializeResponse (to_string code +:+ String tab tail) = Some (MkResponse code (UnescapeField tail)).
Proof.
  intros Hc Htail. unfold DeserializeResponse, SplitByTab.
  rewrite <-(escape_plain (to_string code)) at 1 by apply plain_to_string.
  rewrite split_loop_escaped by done. cbn [split_loop]. rewrite Htail. simpl.
  rewrite escape_plain by apply plain_to_string. by rewrite stoi_to_string.
Qed.

Lemma split_escaped_tail s cur t :
  (∀ c, split_loop tab c false t = [c +:+ t]) →
  split_loop tab cur false (EscapeField s +:+ t) = [cur +:+ (EscapeField s +:+ t)].
Proof. intros Ht. rewrite split_loop_escaped by done. by rewrite Ht, str_app_assoc. Qed.

Lemma request_received r rest :
  request_one_line r = true →
  receive_request (SerializeRequest r +:+ rest) = Some (Some r, rest).
Proof.
  unfold request_one_line. intros [[H1 H2]%andb_true_iff H3]%andb_true_iff.
  unfold receive_request. rewrite serialize_request_join, <-str_app_assoc. cbn [String.append].
  rewrite read_line_app.
  - cbn [mbind option_bind]. by rewrite deserialize_request_line.
  - simpl. rewrite !no_char_app. simpl. rewrite no_char_app. simpl. by rewrite !escape_no_newline, H1, H2, H3.
Qed.

Lemma response_received r rest :
  -2147483648 ≤ resp_status r ≤ 2147483647 → no_char newline (resp_payload r) = true →
  receive_response (SerializeResponse r +:+ rest) = Some (Some r, rest).
Proof.
  intros Hc Hn. unfold receive_response, SerializeResponse. str_norm.
  change (to_string (resp_status r) +:+ String tab (EscapeField (resp_payload r) +:+ String newline rest))
    with (to_string (resp_status r) +:+ ((String tab (EscapeField (resp_payload r))) +:+ String newline rest)).
  rewrite str_app_assoc, read_line_app.
  - cbn [mbind option_bind]. rewrite <-(str_app_nil_r (EscapeField _)).
    rewrite deserialize_response_line by (done || (intros; apply split_escaped_tail; intros; simpl; by rewrite str_app_nil_r)).
    rewrite str_app_nil_r, unescape_escape. by destruct r.
  - rewrite no_char_app. simpl. rewrite escape_no_newline, Hn.
    by rewrite plain_no_newline by apply plain_to_string.
Qed.

(** C11: requests and responses survive the wire: when no field has a newline,
    the peer that reads the next line of the stream gets the request that was
    sent, tabs and backslashes included, and the rest of the stream is
    untouched; so does the sender of the request with a response that has an
    [int] status. *)
Theorem wire_roundtrip request response rest :
  request_one_line request = true →
  -2147483648 ≤ resp_status response ≤ 2147483647 → no_char newline (resp_payload response) = true →
  receive_request (SerializeRequest request +:+ rest) = Some (Some request, rest) ∧
  receive_response (SerializeResponse response +:+ rest) = Some (Some response, rest).
Proof. intros Hq Hs Hp. split; [by apply request_received|by apply response_received]. Qed.

Lemma wire_roundtrip_witness :
  receive_request (SerializeRequest (MkRequest "cli" "" "SELECT * FROM t;") +:+ "next") =
    Some (Some (MkRequest "cli" "" "SELECT * FROM t;"), "next") ∧
  receive_response (SerializeResponse (MkResponse 200 "rows inserted") +:+ "next") =
    Some (Some (MkResponse 200 "rows inserted"), "next").
Proof. apply wire_roundtrip; simpl; [reflexivity|lia|reflexivity]. Defined.

(** A newline in a payload is escaped but not replaced, and the reader
    stops at it: the response is received, without error, truncated to the
    text before the first newline, and the rest is left in the stream. *)
Lemma response_truncated code first second :
  -2147483648 ≤ code ≤ 2147483647 → no_char newline first = true →
  receive_response (SerializeResponse (MkResponse code (first +:+ String newline second))) =
    Some (Some (MkResponse code first), EscapeField second +:+ String newline "").
Proof.
  intros Hc Hn. unfold receive_response, SerializeResponse. cbn [resp_status resp_payload].
  rewrite escape_app. cbn [EscapeField]. change (needs_escape newline) with true. cbv iota. str_norm.
  replace (to_string code +:+ String tab (EscapeField first +:+
      String backslash (String newline (EscapeField second +:+ String newline ""))))
    with ((to_string code +:+ String tab (EscapeField first +:+ String backslash "")) +:+
      String newline (EscapeField second +:+ String newline ""))
    by (by str_norm).
  rewrite read_line_app.
  - cbn [mbind option_bind]. rewrite deserialize_response_line by
      (done || (intros; apply split_escaped_tail; intros; reflexivity)).
    by rewrite unescape_lone_backslash.
  - rewrite no_char_app, plain_no_newline by apply plain_to_string. simpl.
    by rewrite no_char_app, escape_no_newline, Hn.
Qed.
