(* ===== verification/BStarPlusTree.v ===== *)
(** * BStarPlusTree: the index structure (src/index)

    Nodes are modelled as the tree their [unique_ptr]s build; the two raw
    pointers [next_leaf] and [prev_leaf] that thread the leaves are not tree
    structure, so each leaf carries its address and the pointer fields live in
    a store indexed by that address ([Mem]).  [Null] is a [unique_ptr] whose
    node was moved out.  [None] is undefined behaviour (an index out of range,
    a null or dangling pointer); [InsertRecursive], the one routine that does
    not recurse on a subterm, takes fuel, and [Insert] gives it the height of
    the tree plus one. *)
From S2P Require Import Prelude.

(** ** Data *)

Inductive node :=
| Null
| Leaf (addr : nat) (keys : list string) (values : list (list Z))
| Internal (keys : list string) (children : list node).

Record Link := MkLink { prev_leaf : option nat; next_leaf : option nat }.

(** The pointer fields of the live leaves and the allocator's next address. *)
Record Mem := MkMem { links : gmap nat Link; next_addr : nat }.

Record Split := MkSplit { separator_key : string; split_right : node }.

Record BStarPlusTree := MkTree { max_keys_per_node : nat; root : node; tree_mem : Mem }.

Record IndexEntry := MkEntry { entry_key : string; entry_row_ids : list Z }.

Definition NewTree (max_keys : nat) : BStarPlusTree :=
  MkTree (Nat.max 3 max_keys) (Leaf 0 [] []) (MkMem {[0 := MkLink None None]} 1).

(** [p->is_leaf] and [p->keys]: a null [p] is undefined. *)
Definition is_leaf (n : node) : option bool :=
  match n with Null => None | Leaf _ _ _ => Some true | Internal _ _ => Some false end.

Definition node_keys (n : node) : option (list string) :=
  match n with Null => None | Leaf _ ks _ => Some ks | Internal ks _ => Some ks end.

Fixpoint height (n : node) : nat :=
  match n with
  | Internal _ (c :: _) => S (height c)
  | _ => 0
  end.

(** ** Searching *)

Fixpoint LowerBound (keys : list string) (key : string) : nat :=
  match keys with
  | [] => 0
  | k :: ks => if k <s key then S (LowerBound ks key) else 0
  end.

Fixpoint UpperBound (keys : list string) (key : string) : nat :=
  match keys with
  | [] => 0
  | k :: ks => if key <s k then 0 else S (UpperBound ks key)
  end.

Definition ContainsRowId (row_ids : list Z) (row_id : Z) : bool := bool_decide (row_id ∈ row_ids).

(** [position < keys.size() && keys[position] == key]. *)
Definition key_at (keys : list string) (position : nat) (key : string) : bool :=
  match keys !! position with Some k => String.eqb k key | None => false end.

Fixpoint FindLeaf (n : node) (key : string) : option (nat * list string * list (list Z)) :=
  match n with
  | Null => None
  | Leaf a ks vs => Some (a, ks, vs)
  | Internal ks cs =>
      (fix at_child (i : nat) (l : list node) {struct l} :=
         match l, i with
         | c :: _, 0 => FindLeaf c key
         | _ :: l', S i' => at_child i' l'
         | [], _ => None
         end) (UpperBound ks key) cs
  end.

(** ** Pointer fields *)

Definition set_next (a : nat) (p : option nat) (m : Mem) : option Mem :=
  l ← links m !! a; Some (MkMem (<[a:=MkLink (prev_leaf l) p]> (links m)) (next_addr m)).

Definition set_prev (a : nat) (p : option nat) (m : Mem) : option Mem :=
  l ← links m !! a; Some (MkMem (<[a:=MkLink p (next_leaf l)]> (links m)) (next_addr m)).

(** [if (q != nullptr) q->prev_leaf = p;] *)
Definition set_prev_opt (q : option nat) (p : option nat) (m : Mem) : option Mem :=
  match q with Some a => set_prev a p m | None => Some m end.

Definition get_next (a : nat) (m : Mem) : option (option nat) := next_leaf <$> links m !! a.

(** [std::make_unique<Node>(true)] and the destruction of a leaf. *)
Definition alloc_leaf (m : Mem) : nat * Mem :=
  (next_addr m, MkMem (<[next_addr m:=MkLink None None]> (links m)) (S (next_addr m))).

Definition free_leaf (a : nat) (m : Mem) : Mem := MkMem (delete a (links m)) (next_addr m).

Section operations.

(** [MaxKeys()]. *)
Context (M : nat).

Definition MinLeafKeys : nat := (M + 1) / 2.
Definition MinInternalKeys : nat := (M + 1) / 2.

(** ** Splits *)

Definition SplitLeaf (m : Mem) (a : nat) (keys : list string) (values : list (list Z))
    : option (Mem * node * Split) :=
  let '(r, m) := alloc_leaf m in
  let mid := length keys / 2 in
  let right_keys := drop mid keys in
  let right_values := drop mid values in
  nxt ← get_next a m;
  m ← set_next r nxt m;
  m ← set_prev_opt nxt (Some r) m;
  m ← set_prev r (Some a) m;
  m ← set_next a (Some r) m;
  sep ← head right_keys;
  Some (m, Leaf a (take mid keys) (take mid values),
        MkSplit sep (Leaf r right_keys right_values)).

Definition SplitInternal (keys : list string) (children : list node) : option (node * Split) :=
  let mid := length keys / 2 in
  separator ← keys !! mid;
  Some (Internal (take mid keys) (take (mid + 1) children),
        MkSplit separator (Internal (drop (mid + 1) keys) (drop (mid + 1) children))).

(** ** Redistribution before an insertion

    Each [Try] routine gets the parent's vectors and returns its boolean with
    the parent's vectors after it. *)

Definition Parent : Type := Mem * list string * list node.

Definition TryRedistributeLeafWithLeft (p : Parent) (child_index : nat) : option (bool * Parent) :=
  let '(m, ks, cs) := p in
  if child_index =? 0 then Some (false, p)
  else
    leaf ← cs !! child_index;
    left ← cs !! (child_index - 1);
    match leaf, left with
    | Null, _ | _, Null => None
    | Leaf la lks lvs, Leaf fa fks fvs =>
        if (M <=? length fks) || (length lks =? 0) then Some (false, p)
        else
          k ← head lks;
          v ← head lvs;
          lks' ← vec_pop_front lks;
          lvs' ← vec_pop_front lvs;
          sep ← head lks';
          ks' ← vec_set (child_index - 1) sep ks;
          cs1 ← vec_set (child_index - 1) (Leaf fa (fks ++ [k]) (fvs ++ [v])) cs;
          cs2 ← vec_set child_index (Leaf la lks' lvs') cs1;
          Some (true, (m, ks', cs2))
    | _, _ => Some (false, p)
    end.

Definition TryRedistributeLeafWithRight (p : Parent) (child_index : nat) : option (bool * Parent) :=
  let '(m, ks, cs) := p in
  if length cs <=? child_index + 1 then Some (false, p)
  else
    leaf ← cs !! child_index;
    right ← cs !! (child_index + 1);
    match leaf, right with
    | Null, _ | _, Null => None
    | Leaf la lks lvs, Leaf ra rks rvs =>
        if (M <=? length rks) || (length lks =? 0) then Some (false, p)
        else
          k ← last lks;
          v ← last lvs;
          lks' ← vec_pop_back lks;
          lvs' ← vec_pop_back lvs;
          ks' ← vec_set child_index k ks;
          cs1 ← vec_set child_index (Leaf la lks' lvs') cs;
          cs2 ← vec_set (child_index + 1) (Leaf ra (k :: rks) (v :: rvs)) cs1;
          Some (true, (m, ks', cs2))
    | _, _ => Some (false, p)
    end.

Definition TryTwoToThreeSplitLeafWithRight (p : Parent) (child_index : nat) : option (bool * Parent) :=
  let '(m, ks, cs) := p in
  if (length cs <=? child_index + 1) || (M <=? length ks) then Some (false, p)
  else
    left ← cs !! child_index;
    right ← cs !! (child_index + 1);
    match left, right with
    | Null, _ | _, Null => None
    | Leaf la lks lvs, Leaf ra rks rvs =>
        if (length lks <? M) || (length rks <? M) then Some (false, p)
        else
          let all_keys := lks ++ rks in
          let all_values := lvs ++ rvs in
          let total := length all_keys in
          let first_size := total / 3 in
          let second_size := (total - first_size) / 2 in
          let third_size := total - first_size - second_size in
          if (first_size =? 0) || (second_size =? 0) || (third_size =? 0) then Some (false, p)
          else
            let '(a, m) := alloc_leaf m in
            let mid_keys := take second_size (drop first_size all_keys) in
            let mid_values := take second_size (drop first_size all_values) in
            let right_keys := drop (first_size + second_size) all_keys in
            let right_values := drop (first_size + second_size) all_values in
            m ← set_prev a (Some la) m;
            m ← set_next a (Some ra) m;
            m ← set_prev ra (Some a) m;
            m ← set_next la (Some a) m;
            sep1 ← head mid_keys;
            sep2 ← head right_keys;
            ks1 ← vec_set child_index sep1 ks;
            ks2 ← vec_insert (child_index + 1) sep2 ks1;
            cs1 ← vec_set child_index (Leaf la (take first_size all_keys) (take first_size all_values)) cs;
            cs2 ← vec_set (child_index + 1) (Leaf ra right_keys right_values) cs1;
            cs3 ← vec_insert (child_index + 1) (Leaf a mid_keys mid_values) cs2;
            Some (true, (m, ks2, cs3))
    | _, _ => Some (false, p)
    end.

Definition TryTwoToThreeSplitLeafWithLeft (p : Parent) (child_index : nat) : option (bool * Parent) :=
  let '(_, ks, _) := p in
  if (child_index =? 0) || (M <=? length ks) then Some (false, p)
  else TryTwoToThreeSplitLeafWithRight p (child_index - 1).

Definition TryRedistributeInternalWithLeft (p : Parent) (child_index : nat) : option (bool * Parent) :=
  let '(m, ks, cs) := p in
  if child_index =? 0 then Some (false, p)
  else
    nd ← cs !! child_index;
    left ← cs !! (child_index - 1);
    match nd, left with
    | Null, _ | _, Null => None
    | Internal nks ncs, Internal fks fcs =>
        if (M <=? length fks) || (length nks =? 0) || (length ncs =? 0) then Some (false, p)
        else
          sep ← ks !! (child_index - 1);
          k ← head nks;
          ks' ← vec_set (child_index - 1) k ks;
          nks' ← vec_pop_front nks;
          c ← head ncs;
          ncs' ← vec_pop_front ncs;
          cs1 ← vec_set (child_index - 1) (Internal (fks ++ [sep]) (fcs ++ [c])) cs;
          cs2 ← vec_set child_index (Internal nks' ncs') cs1;
          Some (true, (m, ks', cs2))
    | _, _ => Some (false, p)
    end.

Definition TryRedistributeInternalWithRight (p : Parent) (child_index : nat) : option (bool * Parent) :=
  let '(m, ks, cs) := p in
  if length cs <=? child_index + 1 then Some (false, p)
  else
    nd ← cs !! child_index;
    right ← cs !! (child_index + 1);
    match nd, right with
    | Null, _ | _, Null => None
    | Internal nks ncs, Internal rks rcs =>
        if (M <=? length rks) || (length nks =? 0) || (length ncs =? 0) then Some (false, p)
        else
          sep ← ks !! child_index;
          k ← last nks;
          ks' ← vec_set child_index k ks;
          nks' ← vec_pop_back nks;
          c ← last ncs;
          ncs' ← vec_pop_back ncs;
          cs1 ← vec_set child_index (Internal nks' ncs') cs;
          cs2 ← vec_set (child_index + 1) (Internal (sep :: rks) (c :: rcs)) cs1;
          Some (true, (m, ks', cs2))
    | _, _ => Some (false, p)
    end.

(** The [unique_ptr]s of a vector after its nodes were moved out. *)
Definition moved_out (cs : list node) : list node := map (λ _, Null) cs.

Definition TryTwoToThreeSplitInternalWithRight (p : Parent) (child_index : nat)
    : option (bool * Parent) :=
  let '(m, ks, cs) := p in
  if (length cs <=? child_index + 1) || (M <=? length ks) then Some (false, p)
  else
    left ← cs !! child_index;
    right ← cs !! (child_index + 1);
    match left, right with
    | Null, _ | _, Null => None
    | Internal lks lcs, Internal rks rcs =>
        if (length lks <? M) || (length rks <? M) then Some (false, p)
        else
          sep ← ks !! child_index;
          let all_keys := lks ++ sep :: rks in
          let all_children := lcs ++ rcs in
          let total := length all_keys in
          let nl := total / 3 in
          let nm := (total - nl) / 2 in
          let nr := total - nl - nm - 2 in
          if (nl =? 0) || (nm =? 0) || (nr =? 0) then
            cs1 ← vec_set child_index (Internal lks (moved_out lcs)) cs;
            cs2 ← vec_set (child_index + 1) (Internal rks (moved_out rcs)) cs1;
            Some (false, (m, ks, cs2))
          else
            sep1 ← all_keys !! nl;
            sep2 ← all_keys !! (nl + 1 + nm);
            let left' := Internal (take nl all_keys) (take (nl + 1) all_children) in
            let mid' := Internal (take nm (drop (nl + 1) all_keys))
                                 (take (nm + 1) (drop (nl + 1) all_children)) in
            let right' := Internal (drop (nl + 1 + nm + 1) all_keys)
                                   (take (nr + 1) (drop (nl + 1 + (nm + 1)) all_children)) in
            ks1 ← vec_set child_index sep1 ks;
            ks2 ← vec_insert (child_index + 1) sep2 ks1;
            cs1 ← vec_set child_index left' cs;
            cs2 ← vec_set (child_index + 1) right' cs1;
            cs3 ← vec_insert (child_index + 1) mid' cs2;
            Some (true, (m, ks2, cs3))
    | _, _ => Some (false, p)
    end.

Definition TryTwoToThreeSplitInternalWithLeft (p : Parent) (child_index : nat)
    : option (bool * Parent) :=
  let '(_, ks, _) := p in
  if (child_index =? 0) || (M <=? length ks) then Some (false, p)
  else TryTwoToThreeSplitInternalWithRight p (child_index - 1).

(** [a || b] on [Try] routines that work on the same parent. *)
Definition or_else (r : option (bool * Parent)) (k : Parent → option (bool * Parent))
    : option (bool * Parent) :=
  '(b, p) ← r; if (b : bool) then Some (true, p) else k p.

(** ** Insertion *)

(** The adjustment of a full child before the descent: the parent's vectors
    after it and the index of the child to descend into. *)
Definition AdjustFullChild (p : Parent) (child_index : nat) (child : node) (key : string)
    : option (Parent * nat) :=
  child_keys ← node_keys child;
  if M <=? length child_keys then
    leaf ← is_leaf child;
    '(adjusted, p') ←
      (if (leaf : bool) then
         or_else (or_else (or_else
           (TryRedistributeLeafWithLeft p child_index)
           (λ q, TryRedistributeLeafWithRight q child_index))
           (λ q, TryTwoToThreeSplitLeafWithRight q child_index))
           (λ q, TryTwoToThreeSplitLeafWithLeft q child_index)
       else
         or_else (or_else (or_else
           (TryRedistributeInternalWithLeft p child_index)
           (λ q, TryRedistributeInternalWithRight q child_index))
           (λ q, TryTwoToThreeSplitInternalWithRight q child_index))
           (λ q, TryTwoToThreeSplitInternalWithLeft q child_index));
    let '(_, ks', _) := p' in
    Some (p', if (adjusted : bool) then UpperBound ks' key else child_index)
  else Some (p, child_index).

Definition InsertIntoLeaf (m : Mem) (a : nat) (ks : list string) (vs : list (list Z))
    (key : string) (row_id : Z) : option (Mem * node * option Split) :=
  let position := LowerBound ks key in
  if key_at ks position key then
    row_ids ← vs !! position;
    if ContainsRowId row_ids row_id then Some (m, Leaf a ks vs, None)
    else vs' ← vec_set position (row_ids ++ [row_id]) vs; Some (m, Leaf a ks vs', None)
  else
    ks' ← vec_insert position key ks;
    vs' ← vec_insert position [row_id] vs;
    if length ks' <=? M then Some (m, Leaf a ks' vs', None)
    else '(m', n', s) ← SplitLeaf m a ks' vs'; Some (m', n', Some s).

Fixpoint InsertRecursive (fuel : nat) (m : Mem) (n : node) (key : string) (row_id : Z)
    : option (Mem * node * option Split) :=
  match fuel with
  | 0 => None
  | S fuel =>
      match n with
      | Null => None
      | Leaf a ks vs => InsertIntoLeaf m a ks vs key row_id
      | Internal ks cs =>
          let child_index := UpperBound ks key in
          child ← cs !! child_index;
          '(p, child_index) ← AdjustFullChild (m, ks, cs) child_index child key;
          let '(m, ks, cs) := (p : Parent) in
          child ← cs !! child_index;
          '(m, child', child_split) ← InsertRecursive fuel m child key row_id;
          cs ← vec_set child_index child' cs;
          match (child_split : option Split) with
          | None => Some (m, Internal ks cs, None)
          | Some s =>
              ks ← vec_insert child_index (separator_key s) ks;
              cs ← vec_insert (child_index + 1) (split_right s) cs;
              if length ks <=? M then Some (m, Internal ks cs, None)
              else '(n', s') ← SplitInternal ks cs; Some (m, n', Some s')
          end
      end
  end.

(** ** Deletion: borrowing and merging *)

Definition BorrowForLeaf (p : Parent) (left_index right_index : nat) (borrow_from_left : bool)
    : option Parent :=
  let '(m, ks, cs) := p in
  left ← cs !! left_index;
  right ← cs !! right_index;
  match left, right with
  | Leaf la lks lvs, Leaf ra rks rvs =>
      if borrow_from_left then
        k ← last lks;
        v ← last lvs;
        lks' ← vec_pop_back lks;
        lvs' ← vec_pop_back lvs;
        ks' ← vec_set left_index k ks;
        cs1 ← vec_set left_index (Leaf la lks' lvs') cs;
        cs2 ← vec_set right_index (Leaf ra (k :: rks) (v :: rvs)) cs1;
        Some (m, ks', cs2)
      else
        k ← head rks;
        v ← head rvs;
        rks' ← vec_pop_front rks;
        rvs' ← vec_pop_front rvs;
        sep ← head rks';
        ks' ← vec_set left_index sep ks;
        cs1 ← vec_set left_index (Leaf la (lks ++ [k]) (lvs ++ [v])) cs;
        cs2 ← vec_set right_index (Leaf ra rks' rvs') cs1;
        Some (m, ks', cs2)
  | _, _ => None
  end.

Definition MergeLeaves (p : Parent) (left_index right_index : nat) : option Parent :=
  let '(m, ks, cs) := p in
  left ← cs !! left_index;
  right ← cs !! right_index;
  match left, right with
  | Leaf la lks lvs, Leaf ra rks rvs =>
      nxt ← get_next ra m;
      m ← set_next la nxt m;
      m ← set_prev_opt nxt (Some la) m;
      ks' ← vec_erase left_index ks;
      cs1 ← vec_set left_index (Leaf la (lks ++ rks) (lvs ++ rvs)) cs;
      cs2 ← vec_erase right_index cs1;
      Some (free_leaf ra m, ks', cs2)
  | _, _ => None
  end.

Definition BorrowForInternal (p : Parent) (left_index right_index : nat) (borrow_from_left : bool)
    : option Parent :=
  let '(m, ks, cs) := p in
  left ← cs !! left_index;
  right ← cs !! right_index;
  match left, right with
  | Internal lks lcs, Internal rks rcs =>
      sep ← ks !! left_index;
      if borrow_from_left then
        k ← last lks;
        lks' ← vec_pop_back lks;
        c ← last lcs;
        lcs' ← vec_pop_back lcs;
        ks' ← vec_set left_index k ks;
        cs1 ← vec_set left_index (Internal lks' lcs') cs;
        cs2 ← vec_set right_index (Internal (sep :: rks) (c :: rcs)) cs1;
        Some (m, ks', cs2)
      else
        k ← head rks;
        rks' ← vec_pop_front rks;
        c ← head rcs;
        rcs' ← vec_pop_front rcs;
        ks' ← vec_set left_index k ks;
        cs1 ← vec_set left_index (Internal (lks ++ [sep]) (lcs ++ [c])) cs;
        cs2 ← vec_set right_index (Internal rks' rcs') cs1;
        Some (m, ks', cs2)
  | _, _ => None
  end.

Definition MergeInternal (p : Parent) (left_index right_index : nat) : option Parent :=
  let '(m, ks, cs) := p in
  left ← cs !! left_index;
  right ← cs !! right_index;
  match left, right with
  | Internal lks lcs, Internal rks rcs =>
      sep ← ks !! left_index;
      ks' ← vec_erase left_index ks;
      cs1 ← vec_set left_index (Internal (lks ++ sep :: rks) (lcs ++ rcs)) cs;
      cs2 ← vec_erase right_index cs1;
      Some (m, ks', cs2)
  | _, _ => None
  end.

Definition TryThreeToTwoLeaf (p : Parent) (left_index : nat) : option (bool * Parent) :=
  let '(m, ks, cs) := p in
  if length cs <=? left_index + 2 then Some (false, p)
  else
    left ← cs !! left_index;
    middle ← cs !! (left_index + 1);
    right ← cs !! (left_index + 2);
    match left, middle, right with
    | Null, _, _ | _, Null, _ | _, _, Null => None
    | Leaf la lks lvs, Leaf ma mks mvs, Leaf ra rks rvs =>
        let all_keys := lks ++ mks ++ rks in
        let all_values := lvs ++ mvs ++ rvs in
        let total := length all_keys in
        if 2 * M <? total then Some (false, p)
        else if total <? MinLeafKeys * 2 then Some (false, p)
        else
          let left_size := total / 2 in
          let right_size := total - left_size in
          if (left_size <? MinLeafKeys) || (right_size <? MinLeafKeys) then Some (false, p)
          else
            nxt ← get_next ra m;
            m ← set_next ma nxt m;
            m ← set_prev_opt nxt (Some ma) m;
            m ← set_prev ma (Some la) m;
            m ← set_next la (Some ma) m;
            let mid_keys := drop left_size all_keys in
            sep ← head mid_keys;
            ks1 ← vec_set left_index sep ks;
            ks2 ← vec_erase (left_index + 1) ks1;
            cs1 ← vec_set left_index (Leaf la (take left_size all_keys) (take left_size all_values)) cs;
            cs2 ← vec_set (left_index + 1) (Leaf ma mid_keys (drop left_size all_values)) cs1;
            cs3 ← vec_erase (left_index + 2) cs2;
            Some (true, (free_leaf ra m, ks2, cs3))
    | _, _, _ => Some (false, p)
    end.

Definition TryThreeToTwoInternal (p : Parent) (left_index : nat) : option (bool * Parent) :=
  let '(m, ks, cs) := p in
  if length cs <=? left_index + 2 then Some (false, p)
  else
    left ← cs !! left_index;
    middle ← cs !! (left_index + 1);
    right ← cs !! (left_index + 2);
    match left, middle, right with
    | Null, _, _ | _, Null, _ | _, _, Null => None
    | Internal lks lcs, Internal mks mcs, Internal rks rcs =>
        sep1 ← ks !! left_index;
        sep2 ← ks !! (left_index + 1);
        let all_keys := lks ++ sep1 :: mks ++ sep2 :: rks in
        let all_children := lcs ++ mcs ++ rcs in
        let total := length all_keys in
        let left_key_count := total / 2 in
        let right_key_count := total - left_key_count - 1 in
        if (2 * M + 1 <? total) || (total <? MinInternalKeys * 2 + 1)
           || (left_key_count <? MinInternalKeys) || (right_key_count <? MinInternalKeys) then
          cs1 ← vec_set left_index (Internal lks (moved_out lcs)) cs;
          cs2 ← vec_set (left_index + 1) (Internal mks (moved_out mcs)) cs1;
          cs3 ← vec_set (left_index + 2) (Internal rks (moved_out rcs)) cs2;
          Some (false, (m, ks, cs3))
        else
          new_separator ← all_keys !! left_key_count;
          ks1 ← vec_set left_index new_separator ks;
          ks2 ← vec_erase (left_index + 1) ks1;
          cs1 ← vec_set left_index (Internal (take left_key_count all_keys)
                  (take (left_key_count + 1) all_children)) cs;
          cs2 ← vec_set (left_index + 1) (Internal (drop (left_key_count + 1) all_keys)
                  (take (right_key_count + 1) (drop (left_key_count + 1) all_children))) cs1;
          cs3 ← vec_erase (left_index + 2) cs2;
          Some (true, (m, ks2, cs3))
    | _, _, _ => Some (false, p)
    end.

Definition TryThreeToTwo (leaf : bool) (p : Parent) (left_index : nat) : option (bool * Parent) :=
  if leaf then TryThreeToTwoLeaf p left_index else TryThreeToTwoInternal p left_index.

(** The three positions that [FixChildUnderflow] tries, each only [when] its
    condition holds. *)
Definition try_when (cond : bool) (leaf : bool) (left_index : nat) (p : Parent)
    : option (bool * Parent) :=
  if cond then TryThreeToTwo leaf p left_index else Some (false, p).

Definition FixByMerging (p : Parent) (child_index : nat) (leaf : bool) : option Parent :=
  let '(_, _, cs) := p in
  let size := length cs in
  '(fixed, p) ←
    (if 3 <=? size then
       or_else (or_else
         (try_when ((0 <? child_index) && (child_index + 1 <? size)) leaf (child_index - 1) p)
         (try_when (child_index + 2 <? size) leaf child_index))
         (try_when (2 <=? child_index) leaf (child_index - 2))
     else Some (false, p));
  let '(_, _, cs) := (p : Parent) in
  if (fixed : bool) then Some p
  else if length cs =? 2 then
    if 0 <? child_index then
      if leaf then MergeLeaves p (child_index - 1) child_index
      else MergeInternal p (child_index - 1) child_index
    else
      if leaf then MergeLeaves p child_index (child_index + 1)
      else MergeInternal p child_index (child_index + 1)
  else Some p.

(** The number of keys of the child at [i], when the branch looks at it. *)
Definition keys_size (cs : list node) (i : nat) : option nat :=
  c ← cs !! i; ks ← node_keys c; Some (length ks).

Definition FixChildUnderflow (p : Parent) (child_index : nat) : option Parent :=
  let '(m, ks, cs) := p in
  child ← cs !! child_index;
  leaf ← is_leaf child;
  child_keys ← node_keys child;
  let min_keys := if (leaf : bool) then MinLeafKeys else MinInternalKeys in
  if (min_keys <=? length child_keys) || (length cs =? 1) then Some p
  else
    left_size ← (if 0 <? child_index then keys_size cs (child_index - 1) else Some 0);
    if (0 <? child_index) && (min_keys <? left_size) then
      if leaf then BorrowForLeaf p (child_index - 1) child_index true
      else BorrowForInternal p (child_index - 1) child_index true
    else
      right_size ← (if child_index + 1 <? length cs then keys_size cs (child_index + 1) else Some 0);
      if (child_index + 1 <? length cs) && (min_keys <? right_size) then
        if leaf then BorrowForLeaf p child_index (child_index + 1) false
        else BorrowForInternal p child_index (child_index + 1) false
      else FixByMerging p child_index leaf.

(** [row_ids.erase(std::find(...))]: the first occurrence. *)
Fixpoint erase_first (row_id : Z) (row_ids : list Z) : list Z :=
  match row_ids with
  | [] => []
  | r :: rs => if bool_decide (r = row_id) then rs else r :: erase_first row_id rs
  end.

Definition RemoveFromLeaf (a : nat) (ks : list string) (vs : list (list Z)) (key : string) (row_id : Z)
    : option (bool * node) :=
  let position := LowerBound ks key in
  if negb (key_at ks position key) then Some (false, Leaf a ks vs)
  else
    row_ids ← vs !! position;
    if negb (ContainsRowId row_ids row_id) then Some (false, Leaf a ks vs)
    else
      let row_ids' := erase_first row_id row_ids in
      match row_ids' with
      | [] =>
          ks' ← vec_erase position ks;
          vs' ← vec_erase position vs;
          Some (true, Leaf a ks' vs')
      | _ :: _ => vs' ← vec_set position row_ids' vs; Some (true, Leaf a ks vs')
      end.

Fixpoint RemoveRecursive (m : Mem) (n : node) (key : string) (row_id : Z) : option (bool * Mem * node) :=
  match n with
  | Null => None
  | Leaf a ks vs => '(removed, n') ← RemoveFromLeaf a ks vs key row_id; Some (removed, m, n')
  | Internal ks cs =>
      let child_index := UpperBound ks key in
      '(removed, m, child') ←
        (fix at_child (i : nat) (l : list node) {struct l} :=
           match l, i with
           | c :: _, 0 => RemoveRecursive m c key row_id
           | _ :: l', S i' => at_child i' l'
           | [], _ => None
           end) child_index cs;
      cs ← vec_set child_index child' cs;
      if negb (removed : bool) then Some (false, m, Internal ks cs)
      else
        '(m, ks, cs) ← FixChildUnderflow (m, ks, cs) child_index;
        Some (true, m, Internal ks cs)
  end.

End operations.

(** ** The public operations *)

Definition Insert (t : BStarPlusTree) (key : string) (row_id : Z) : option BStarPlusTree :=
  let M := max_keys_per_node t in
  '(m, n, split) ← InsertRecursive M (S (height (root t))) (tree_mem t) (root t) key row_id;
  match (split : option Split) with
  | None => Some (MkTree M n m)
  | Some s => Some (MkTree M (Internal [separator_key s] [n; split_right s]) m)
  end.

Definition Remove (t : BStarPlusTree) (key : string) (row_id : Z) : option BStarPlusTree :=
  let M := max_keys_per_node t in
  '(_, m, n) ← RemoveRecursive M (tree_mem t) (root t) key row_id;
  match n with
  | Internal _ [c] => Some (MkTree M c m)
  | _ => Some (MkTree M n m)
  end.

Definition Find (t : BStarPlusTree) (key : string) : option (list Z) :=
  '(_, ks, vs) ← FindLeaf (root t) key;
  let position := LowerBound ks key in
  if key_at ks position key then vs !! position else Some [].

(** The loop of [RangeScan] over one leaf: whether it returned, and the
    entries it pushed. *)
Fixpoint scan_leaf (lower upper : string) (keys : list string) (values : list (list Z))
    : option (bool * list IndexEntry) :=
  match keys with
  | [] => Some (false, [])
  | k :: ks =>
      if k <s lower then scan_leaf lower upper ks (tail values)
      else if upper <=s k then Some (true, [])
      else
        v ← head values;
        '(stop, es) ← scan_leaf lower upper ks (tail values);
        Some (stop, MkEntry k v :: es)
  end.

(** The leaves of a tree from left to right, with their addresses. *)
Fixpoint leaf_list (n : node) : list (nat * (list string * list (list Z))) :=
  match n with
  | Null => []
  | Leaf a ks vs => [(a, (ks, vs))]
  | Internal _ cs => flat_map leaf_list cs
  end.

(** Dereference of a leaf pointer. *)
Definition deref (n : node) (a : nat) : option (list string * list (list Z)) :=
  snd <$> find (λ l, Nat.eqb (fst l) a) (leaf_list n).

(** The [while] loop of [RangeScan]: at most as many steps as there are leaves. *)
Fixpoint scan_leaves (fuel : nat) (t : BStarPlusTree) (lower upper : string) (leaf : option nat)
    : option (list IndexEntry) :=
  match leaf with
  | None => Some []
  | Some a =>
      match fuel with
      | 0 => None
      | S fuel =>
          '(ks, vs) ← deref (root t) a;
          '(stop, es) ← scan_leaf lower upper ks vs;
          if (stop : bool) then Some es
          else
            nxt ← get_next a (tree_mem t);
            es' ← scan_leaves fuel t lower upper nxt;
            Some (es ++ es')
      end
  end.

Definition RangeScan (t : BStarPlusTree) (lower_bound upper_bound : string) : option (list IndexEntry) :=
  '(a, _, _) ← FindLeaf (root t) lower_bound;
  scan_leaves (length (leaf_list (root t))) t lower_bound upper_bound (Some a).

(** ** Validation *)

(** [previous_leaf]: the address and the keys of the leaf visited last. *)
Definition PrevLeaf : Type := option (nat * list string).

Fixpoint keys_increasing (keys : list string) : bool :=
  match keys with
  | k1 :: ((k2 :: _) as ks) => if k2 <=s k1 then false else keys_increasing ks
  | _ => true
  end.

Definition above_min (min_key : option string) (key : string) : bool :=
  match min_key with Some b => negb (key <s b) | None => true end.

Definition below_max (max_key : option string) (key : string) : bool :=
  match max_key with Some b => negb (b <=s key) | None => true end.

Definition ValidateLeaf (m : Mem) (a : nat) (ks : list string) (vs : list (list Z))
    (depth_ok : bool) (min_key max_key : option string) (prev : PrevLeaf) : bool * PrevLeaf :=
  let contents_ok :=
    depth_ok && (length vs =? length ks) &&
    forallb (λ k, above_min min_key k && below_max max_key k) ks &&
    forallb (λ v : list Z, negb (length v =? 0)) vs in
  let links_ok :=
    match prev, links m !! a with
    | _, None => false
    | Some (pa, pks), Some l =>
        match links m !! pa with
        | None => false
        | Some pl =>
            bool_decide (next_leaf pl = Some a) && bool_decide (prev_leaf l = Some pa) &&
            match last pks, head ks with
            | Some k1, Some k2 => negb (k2 <=s k1)
            | _, _ => true
            end
        end
    | None, Some l => bool_decide (prev_leaf l = None)
    end in
  if contents_ok && links_ok then (true, Some (a, ks)) else (false, prev).

Fixpoint ValidateNode (M : nat) (m : Mem) (expected : nat) (n : node) (is_root parent_is_root : bool)
    (depth : nat) (min_key max_key : option string) (prev : PrevLeaf) : bool * PrevLeaf :=
  match n with
  | Null => (false, prev)
  | Leaf a ks vs =>
      if (M <? length ks) || negb (keys_increasing ks) then (false, prev)
      else if negb is_root && negb parent_is_root && (length ks <? MinLeafKeys M) then (false, prev)
      else ValidateLeaf m a ks vs (depth =? expected) min_key max_key prev
  | Internal ks cs =>
      if (M <? length ks) || negb (keys_increasing ks) then (false, prev)
      else if negb is_root && negb parent_is_root && (length ks <? MinInternalKeys M) then (false, prev)
      else if negb (length cs =? length ks + 1) then (false, prev)
      else
        (fix loop (ks : list string) (cs : list node) (min_key : option string) (prev : PrevLeaf) {struct cs} :=
           match cs, ks with
           | [], _ => (false, prev)
           | c :: _, [] =>
               ValidateNode M m expected c false is_root (S depth) min_key max_key prev
           | c :: cs', k :: ks' =>
               let '(ok, prev) := ValidateNode M m expected c false is_root (S depth)
                                    min_key (Some k) prev in
               if (ok : bool) then loop ks' cs' (Some k) prev else (false, prev)
           end) ks cs min_key prev
  end.

Definition ValidateCanonicalInvariants (t : BStarPlusTree) : bool :=
  let '(ok, prev) := ValidateNode (max_keys_per_node t) (tree_mem t) (height (root t)) (root t)
                       true false 0 None None None in
  if negb ok then false
  else
    match prev with
    | Some (a, _) => bool_decide (get_next a (tree_mem t) = Some None)
    | None => true
    end.
