(* ===== verification/BStarPlusTreeInv.v ===== *)
(** * BStarPlusTreeInv: the invariant of the index structure and its algebra

    The order invariant of a node between two bounds ([wf_node]), the contents
    of a tree as a sorted association list ([entries]), the doubly linked list
    of leaves ([mem_ok]), and the lemmas by which every rebalancing step is
    proved: neighbouring nodes join and split again. *)
From S2P Require Import Prelude BStarPlusTree.

(** ** Contents *)

Fixpoint entries (n : node) : list (string * list Z) :=
  match n with
  | Null => []
  | Leaf _ ks vs => zip ks vs
  | Internal _ cs => flat_map entries cs
  end.

Definition leaves (n : node) : list nat := map fst (leaf_list n).

(** ** Bounds *)

(** [lo <= k] and [k < hi]; [None] is no bound. *)
Definition in_lo (lo : option string) (k : string) : Prop :=
  match lo with Some b => sle b k | None => True end.

Definition in_hi (hi : option string) (k : string) : Prop :=
  match hi with Some b => slt k b | None => True end.

(** ** Leaves and nodes *)

Record leaf_ok (lo hi : option string) (ks : list string) (vs : list (list Z)) : Prop := {
  lk_len : length vs = length ks;
  lk_sorted : StronglySorted slt ks;
  lk_lo : Forall (in_lo lo) ks;
  lk_hi : Forall (in_hi hi) ks;
  lk_vals : Forall (λ v, v ≠ []) vs
}.

(** Children [cs] separated by the keys [ks], between [lo] and [hi]. *)
Fixpoint wf_seq (P : option string → option string → node → Prop) (lo hi : option string)
    (ks : list string) (cs : list node) : Prop :=
  match ks, cs with
  | [], [c] => P lo hi c
  | k :: ks', c :: cs' => P lo (Some k) c ∧ wf_seq P (Some k) hi ks' cs'
  | _, _ => False
  end.

(** A node of depth [d] with [mn] to [mx] keys whose descendants have between
    [h] and [2 * h] keys each. *)
Fixpoint wf_node (h d mn mx : nat) (lo hi : option string) (n : node) : Prop :=
  match d, n with
  | 0, Leaf _ ks vs => mn ≤ length ks ≤ mx ∧ leaf_ok lo hi ks vs
  | S d, Internal ks cs =>
      mn ≤ length ks ≤ mx ∧ wf_seq (wf_node h d h (2 * h)) lo hi ks cs
  | _, _ => False
  end.

(** ** The chain of leaves *)

(** The leaves [ls] are linked in order, with [p] before and [e] after them. *)
Fixpoint chain (lk : gmap nat Link) (p : option nat) (ls : list nat) (e : option nat) : Prop :=
  match ls with
  | [] => True
  | a :: rest =>
      lk !! a = Some (MkLink p (match rest with [] => e | b :: _ => Some b end)) ∧
      chain lk (Some a) rest e
  end.

Definition mem_ok (m : Mem) (ls : list nat) : Prop :=
  chain (links m) None ls None ∧ NoDup ls ∧ Forall (λ a, a < next_addr m) ls.

(** ** Lemmas: chains *)

Definition first_or (ls : list nat) (e : option nat) : option nat :=
  match ls with [] => e | a :: _ => Some a end.

Definition last_or (p : option nat) (ls : list nat) : option nat :=
  match last ls with Some a => Some a | None => p end.

Lemma last_or_cons p a ls : last_or p (a :: ls) = last_or (Some a) ls.
Proof. unfold last_or. rewrite last_cons. by destruct (last ls). Qed.

Lemma chain_app lk p l1 l2 e :
  chain lk p (l1 ++ l2) e ↔ chain lk p l1 (first_or l2 e) ∧ chain lk (last_or p l1) l2 e.
Proof.
  revert p. induction l1 as [|a l1 IH]; intros p; simpl; [unfold last_or; simpl; naive_solver|].
  rewrite IH, last_or_cons. destruct l1, l2; simpl; tauto.
Qed.

Lemma chain_insert lk p ls e a l : a ∉ ls → chain lk p ls e → chain (<[a:=l]> lk) p ls e.
Proof.
  revert p. induction ls as [|b ls IH]; intros p Ha; simpl; [done|].
  apply not_elem_of_cons in Ha as [Hab Ha]. intros [H1 H2]. split; [by rewrite lookup_insert_ne|auto].
Qed.

Lemma chain_delete lk p ls e a : a ∉ ls → chain lk p ls e → chain (delete a lk) p ls e.
Proof.
  revert p. induction ls as [|b ls IH]; intros p Ha; simpl; [done|].
  apply not_elem_of_cons in Ha as [Hab Ha]. intros [H1 H2]. split; [by rewrite lookup_delete_ne|auto].
Qed.

(** The chain behind a new predecessor. *)
Lemma chain_set_prev lk p q b rest e :
  b ∉ rest → chain lk p (b :: rest) e →
  chain (<[b:=MkLink q (first_or rest e)]> lk) q (b :: rest) e.
Proof.
  intros Hb [_ H2]. simpl. split; [|by apply chain_insert].
  rewrite lookup_insert_eq. by destruct rest.
Qed.

(** Splits a list of leaf addresses without duplicates around its middle. *)
Ltac nodup_split :=
  repeat match goal with
  | H : NoDup (_ ++ _) |- _ => apply NoDup_app in H as (? & ? & ?)
  | H : NoDup (_ :: _) |- _ => apply NoDup_cons in H as [? ?]
  | H : Forall _ (_ ++ _) |- _ => apply Forall_app in H as [? ?]
  | H : Forall _ (_ :: _) |- _ => apply Forall_cons in H as [? ?]
  end.

Lemma fresh_notin n ls : Forall (λ a, a < n) ls → n ∉ ls.
Proof. intros H Hin. rewrite Forall_forall in H. specialize (H _ Hin). lia. Qed.

Lemma Forall_lt_S n ls : Forall (λ a, a < n) ls → Forall (λ a, a < S n) ls.
Proof. intros H. eapply Forall_impl; [exact H|]. simpl. lia. Qed.

Lemma NoDup_insert_mid (pre : list nat) a r post :
  NoDup (pre ++ a :: post) → r ∉ pre ++ a :: post → NoDup (pre ++ a :: r :: post).
Proof.
  intros Hnd Hr. replace (pre ++ a :: r :: post) with ((pre ++ [a]) ++ r :: post) by by rewrite <-app_assoc.
  replace (pre ++ a :: post) with ((pre ++ [a]) ++ post) in Hnd, Hr by by rewrite <-app_assoc.
  apply NoDup_app in Hnd as (H1 & H2 & H3). apply NoDup_app. split_and!; [done| |].
  - intros x Hx. apply not_elem_of_cons. split; [|by apply H2]. set_solver.
  - apply NoDup_cons. split; [set_solver|done].
Qed.

(** The links after a fresh leaf [r] was put behind [a]. *)
Definition linked_after (lk : gmap nat Link) (p : option nat) (a r : nat) (post : list nat) : gmap nat Link :=
  <[a:=MkLink p (Some r)]> (<[r:=MkLink (Some a) (first_or post None)]>
    match post with
    | [] => lk
    | b :: rest => <[b:=MkLink (Some r) (first_or rest None)]> lk
    end).

Lemma mem_ok_linked_after m pre a post :
  mem_ok m (pre ++ a :: post) →
  mem_ok (MkMem (linked_after (links m) (last_or None pre) a (next_addr m) post) (S (next_addr m)))
         (pre ++ a :: next_addr m :: post).
Proof.
  intros (Hc & Hnd & Hlt). set (r := next_addr m) in *.
  assert (Hr : r ∉ pre ++ a :: post) by (apply fresh_notin, Hlt).
  split_and!; simpl.
  - apply chain_app in Hc as [Hpre Hpost]. apply chain_app. simpl in Hpre |- *.
    apply NoDup_app in Hnd as (Hn1 & Hn2 & Hn3). apply NoDup_cons in Hn3 as [Ha Hn3].
    assert (Hap : a ∉ pre) by (intros ?; apply (Hn2 a); [done|by left]).
    unfold linked_after. split.
    + apply chain_insert; [done|]. apply chain_insert; [set_solver|].
      destruct post as [|b rest]; [done|]. apply chain_insert; [|done].
      intros ?. apply (Hn2 b); [done|]. right. by left.
    + assert (a ≠ r) by set_solver. simpl in Hpost. destruct Hpost as [Hla Hpost].
      split; [by rewrite lookup_insert_eq|]. split.
      { rewrite lookup_insert_ne by done. by rewrite lookup_insert_eq; destruct post. }
      apply chain_insert; [done|]. apply chain_insert; [set_solver|].
      destruct post as [|b rest]; [done|]. apply NoDup_cons in Hn3 as [Hb _].
      by eapply chain_set_prev.
  - by apply NoDup_insert_mid.
  - apply Forall_app in Hlt as [H1 H2]. apply Forall_cons in H2 as [H2 H3].
    apply Forall_app. split; [by apply Forall_lt_S|].
    repeat (apply Forall_cons; split; [lia|]). by apply Forall_lt_S.
Qed.

Lemma mem_ok_lookup m pre a post : mem_ok m (pre ++ a :: post) →
  links m !! a = Some (MkLink (last_or None pre) (first_or post None)).
Proof. intros (Hc & _ & _). apply chain_app in Hc as [_ [Hc _]]. by destruct post. Qed.

Lemma mem_ok_lookup_next m pre a b post : mem_ok m (pre ++ a :: b :: post) →
  links m !! b = Some (MkLink (Some a) (first_or post None)).
Proof. intros (Hc & _ & _). apply chain_app in Hc as [_ [_ [Hc _]]]. by destruct post. Qed.

Lemma mem_ok_distinct m pre a post : mem_ok m (pre ++ a :: post) → a ∉ post ∧ a < next_addr m.
Proof.
  intros (_ & Hnd & Hlt). nodup_split. done.
Qed.

(** The links after the leaf behind [a] was taken out. *)
Lemma mem_ok_unlink m pre a r post :
  mem_ok m (pre ++ a :: r :: post) →
  mem_ok (MkMem (delete r (<[a:=MkLink (last_or None pre) (first_or post None)]>
    match post with
    | [] => links m
    | b :: rest => <[b:=MkLink (Some a) (first_or rest None)]> (links m)
    end)) (next_addr m)) (pre ++ a :: post).
Proof.
  intros (Hc & Hnd & Hlt). split_and!; simpl.
  - apply chain_app in Hc as [Hpre Hpost]. apply chain_app. simpl in Hpre |- *.
    apply NoDup_app in Hnd as (Hn1 & Hn2 & Hn3). apply NoDup_cons in Hn3 as [Ha Hn3].
    apply NoDup_cons in Hn3 as [Hr Hn3].
    assert (Hap : a ∉ pre) by (intros ?; apply (Hn2 a); [done|by left]).
    assert (Hrp : r ∉ pre) by (intros ?; apply (Hn2 r); [done|right; by left]).
    destruct Hpost as (Hla & Hlr & Hpost). split.
    + apply chain_delete; [done|]. apply chain_insert; [done|].
      destruct post as [|b rest]; [done|]. apply chain_insert; [|done].
      intros ?. apply (Hn2 b); [done|]. do 2 right. by left.
    + split; [rewrite lookup_delete_ne by set_solver; rewrite lookup_insert_eq; by destruct post|].
      apply chain_delete; [done|]. apply chain_insert; [set_solver|].
      destruct post as [|b rest]; [done|]. apply NoDup_cons in Hn3 as [Hb _].
      by eapply chain_set_prev.
  - eapply NoDup_Permutation_proper in Hnd; [|apply (Permutation_app_head pre), Permutation_swap].
    replace (pre ++ r :: a :: post) with (pre ++ [r] ++ a :: post) in Hnd by done.
    apply NoDup_app in Hnd as (H1 & H2 & H3). apply NoDup_cons in H3 as [_ H3].
    apply NoDup_app. split_and!; [done| |done]. intros x Hx Hx2. apply (H2 x); [done|]. by right.
  - apply Forall_app in Hlt as [? Hlt]. apply Forall_cons in Hlt as [? Hlt].
    apply Forall_cons in Hlt as [? ?]. apply Forall_app; split; [done|]. by apply Forall_cons.
Qed.

(** ** Lemmas: bounds and leaves *)

Lemma StronglySorted_slt_app l1 l2 :
  StronglySorted slt (l1 ++ l2) ↔
  StronglySorted slt l1 ∧ StronglySorted slt l2 ∧ (∀ x y, x ∈ l1 → y ∈ l2 → slt x y).
Proof. rewrite StronglySorted_app. naive_solver. Qed.

Lemma in_lo_mono lo k k' : in_lo lo k → sle k k' → in_lo lo k'.
Proof. destruct lo; simpl; [|done]. intros. sorder. Qed.

Lemma in_hi_mono hi k k' : in_hi hi k → sle k' k → in_hi hi k'.
Proof. destruct hi; simpl; [|done]. intros. sorder. Qed.

(** Neighbouring leaves are one ordered run of entries ... *)
Lemma leaf_ok_join lo hi k ks1 vs1 ks2 vs2 :
  in_lo lo k → in_hi hi k →
  leaf_ok lo (Some k) ks1 vs1 → leaf_ok (Some k) hi ks2 vs2 →
  leaf_ok lo hi (ks1 ++ ks2) (vs1 ++ vs2).
Proof.
  intros Hlo Hhi [L1 S1 A1 B1 V1] [L2 S2 A2 B2 V2]. split.
  - rewrite !length_app. lia.
  - apply StronglySorted_slt_app. split_and!; [done..|]. intros x y Hx Hy.
    rewrite Forall_forall in B1, A2. specialize (B1 _ Hx). specialize (A2 _ Hy). simpl in *. sorder.
  - apply Forall_app. split; [done|]. eapply Forall_impl; [exact A2|].
    intros x Hx. simpl in Hx. by eapply in_lo_mono.
  - apply Forall_app. split; [|done]. eapply Forall_impl; [exact B1|].
    intros x Hx. simpl in Hx. eapply in_hi_mono; [done|]. sorder.
  - by apply Forall_app.
Qed.

(** ... and an ordered run splits into two leaves at any of its keys. *)
Lemma leaf_ok_split lo hi ks1 vs1 k ks2 vs2 :
  length vs1 = length ks1 →
  leaf_ok lo hi (ks1 ++ k :: ks2) (vs1 ++ vs2) →
  leaf_ok lo (Some k) ks1 vs1 ∧ leaf_ok (Some k) hi (k :: ks2) vs2 ∧ in_lo lo k ∧ in_hi hi k.
Proof.
  intros Hl [L S A B V]. rewrite !length_app in L. apply StronglySorted_slt_app in S as (S1 & S2 & S3).
  apply Forall_app in A as [A1 A2]. apply Forall_app in B as [B1 B2]. apply Forall_app in V as [V1 V2].
  apply Forall_cons in A2 as [Ak A2]. apply Forall_cons in B2 as [Bk B2].
  split_and!; [split; try done..|done|done].
  - rewrite Forall_forall. intros x Hx. apply S3; [done|by left].
  - simpl in *. lia.
  - apply Forall_cons. split; [simpl; reflexivity|]. apply StronglySorted_inv in S2 as [_ S2].
    eapply Forall_impl; [exact S2|]. intros x Hx. simpl. sorder.
  - by apply Forall_cons.
Qed.

Lemma leaf_ok_widen lo hi lo' hi' ks vs :
  (∀ k, in_lo lo k → in_lo lo' k) → (∀ k, in_hi hi k → in_hi hi' k) →
  leaf_ok lo hi ks vs → leaf_ok lo' hi' ks vs.
Proof. intros H1 H2 [L S A B V]. split; eauto using Forall_impl. Qed.

Lemma zip_app {A B} (l1 l2 : list A) (k1 k2 : list B) :
  length k1 = length l1 → zip (l1 ++ l2) (k1 ++ k2) = zip l1 k1 ++ zip l2 k2.
Proof. intros H. by apply zip_with_app. Qed.

(** ** Lemmas: sequences of children *)

Section sequences.
Context (P : option string → option string → node → Prop).

Lemma wf_seq_length lo hi ks cs : wf_seq P lo hi ks cs → length cs = S (length ks).
Proof.
  revert lo cs. induction ks as [|k ks IH]; intros lo cs; simpl.
  - destruct cs as [|c [|]]; done.
  - destruct cs as [|c cs]; [done|]. intros [_ H]. simpl. by erewrite IH.
Qed.

(** Two sequences joined by a separator are one sequence, and conversely. *)
Lemma wf_seq_join lo hi k ks1 ks2 cs1 cs2 :
  length cs1 = S (length ks1) →
  wf_seq P lo hi (ks1 ++ k :: ks2) (cs1 ++ cs2) ↔
  wf_seq P lo (Some k) ks1 cs1 ∧ wf_seq P (Some k) hi ks2 cs2.
Proof.
  revert lo cs1. induction ks1 as [|k1 ks1 IH]; intros lo cs1 Hl; simpl.
  - destruct cs1 as [|c [|]]; naive_solver.
  - destruct cs1 as [|c cs1]; simpl in *; [naive_solver|]. rewrite IH by lia. naive_solver.
Qed.

(** Children with the key to the right of each. *)
Fixpoint wf_pre (lo : option string) (ks : list string) (cs : list node) : Prop :=
  match ks, cs with
  | [], [] => True
  | k :: ks', c :: cs' => P lo (Some k) c ∧ wf_pre (Some k) ks' cs'
  | _, _ => False
  end.

(** Children with the key to the left of each. *)
Fixpoint wf_post (hi : option string) (ks : list string) (cs : list node) : Prop :=
  match ks, cs with
  | [], [] => True
  | k :: ks', c :: cs' =>
      P (Some k) (match ks' with [] => hi | k' :: _ => Some k' end) c ∧ wf_post hi ks' cs'
  | _, _ => False
  end.

Definition lo_after (lo : option string) (ks : list string) : option string :=
  match last ks with Some k => Some k | None => lo end.

Definition hi_before (ks : list string) (hi : option string) : option string :=
  match ks with [] => hi | k :: _ => Some k end.

Lemma lo_after_cons lo k ks : lo_after lo (k :: ks) = lo_after (Some k) ks.
Proof. unfold lo_after. rewrite last_cons. by destruct (last ks). Qed.

Lemma lo_after_snoc lo k ks : lo_after lo (ks ++ [k]) = Some k.
Proof. unfold lo_after. by rewrite last_snoc. Qed.

Lemma wf_seq_pre lo hi ks1 ks2 cs1 cs2 :
  length ks1 = length cs1 →
  wf_seq P lo hi (ks1 ++ ks2) (cs1 ++ cs2) ↔ wf_pre lo ks1 cs1 ∧ wf_seq P (lo_after lo ks1) hi ks2 cs2.
Proof.
  revert lo cs1. induction ks1 as [|k ks1 IH]; intros lo [|c cs1] Hl; simplify_eq/=.
  - naive_solver.
  - rewrite IH, lo_after_cons by done. naive_solver.
Qed.

Lemma wf_seq_post lo hi ks1 ks2 cs1 cs2 :
  length cs1 = S (length ks1) → length ks2 = length cs2 →
  wf_seq P lo hi (ks1 ++ ks2) (cs1 ++ cs2) ↔ wf_seq P lo (hi_before ks2 hi) ks1 cs1 ∧ wf_post hi ks2 cs2.
Proof.
  revert lo ks1 cs1 cs2. induction ks2 as [|k ks2 IH]; intros lo ks1 cs1 [|c cs2] Hl1 Hl2; simplify_eq/=.
  - rewrite !app_nil_r. naive_solver.
  - rewrite wf_seq_join by done. change (c :: cs2) with ([c] ++ cs2).
    rewrite (IH (Some k) [] [c] cs2) by done. simpl. done.
Qed.

(** A segment of children in the middle of a sequence. *)
Lemma wf_seq_mid lo hi ks1 ksA ks2 cs1 csA cs2 :
  length ks1 = length cs1 → length csA = S (length ksA) → length ks2 = length cs2 →
  wf_seq P lo hi (ks1 ++ ksA ++ ks2) (cs1 ++ csA ++ cs2) ↔
  wf_pre lo ks1 cs1 ∧ wf_seq P (lo_after lo ks1) (hi_before ks2 hi) ksA csA ∧ wf_post hi ks2 cs2.
Proof. intros H1 H2 H3. rewrite wf_seq_pre, wf_seq_post by done. done. Qed.

End sequences.
