(* ===== verification/BStarPlusTreeSteps.v ===== *)
(** * BStarPlusTreeSteps: every rebalancing step keeps the invariant

    For an even order [2 * h] with [h >= 3]: each redistribution, split, borrow
    and merge of [BStarPlusTree] is defined (no index out of range, no null or
    dangling pointer), keeps the order invariant between the bounds of the
    parent, the contents and the linked list of leaves. *)
From S2P Require Import Prelude BStarPlusTree BStarPlusTreeInv.

(** Normal form of the contents and the leaves of a list of nodes. *)
Ltac flat_norm :=
  repeat (progress (cbn [flat_map entries leaf_list app] in *;
                    rewrite ?flat_map_app, ?map_app, ?app_nil_r, <-?app_assoc in * )).

(** ** The pointer updates of the leaf operations *)

Lemma mem_ok_ext m m' ls :
  (∀ a, links m !! a = links m' !! a) → next_addr m = next_addr m' → mem_ok m ls → mem_ok m' ls.
Proof. intros H1 H2. destruct m, m'; simpl in *. apply map_eq in H1. by subst. Qed.

(** Equality of two stores, address by address. *)
Ltac mem_ext H :=
  refine (mem_ok_ext _ _ _ _ _ H); [|reflexivity];
  intros ?; simpl; rewrite ?lookup_delete, ?lookup_insert; repeat (case_decide; simplify_eq); try done.

(** Computes a pointer update, given the links of the leaves it reads. *)
Ltac mem_step :=
  unfold get_next, set_prev_opt, set_next, set_prev; simpl;
  repeat (rewrite ?lookup_insert_eq, ?lookup_insert_ne by (done || lia || congruence));
  repeat match goal with H : _ !! _ = Some _ |- _ => rewrite H end; simpl.

Lemma merge_mem m pre la ra post :
  mem_ok m (pre ++ la :: ra :: post) →
  ∃ nxt m1 m2, get_next ra m = Some nxt ∧ set_next la nxt m = Some m1 ∧
    set_prev_opt nxt (Some la) m1 = Some m2 ∧ mem_ok (free_leaf ra m2) (pre ++ la :: post).
Proof.
  intros Hm. pose proof (mem_ok_unlink _ _ _ _ _ Hm) as Hu.
  pose proof (mem_ok_lookup _ _ _ _ Hm) as Hla. pose proof (mem_ok_lookup_next _ _ _ _ _ Hm) as Hra.
  destruct (mem_ok_distinct _ _ _ _ Hm) as [Hd _].
  destruct post as [|b rest]; simpl in *.
  - exists None. eexists _, _. split_and!; [by mem_step|by mem_step|by mem_step|].
    by unfold free_leaf.
  - assert (Hb : links m !! b = Some (MkLink (Some ra) (first_or rest None))).
    { apply (mem_ok_lookup_next _ (pre ++ [la])). by rewrite <-app_assoc. }
    assert (la ≠ b) by set_solver.
    exists (Some b). eexists _, _. split_and!; [by mem_step|by mem_step|by mem_step|].
    unfold free_leaf; simpl. mem_ext Hu.
Qed.

Lemma split_mem m pre a post :
  mem_ok m (pre ++ a :: post) →
  ∃ nxt m1 m2 m3 m4, get_next a (snd (alloc_leaf m)) = Some nxt ∧
    set_next (next_addr m) nxt (snd (alloc_leaf m)) = Some m1 ∧
    set_prev_opt nxt (Some (next_addr m)) m1 = Some m2 ∧
    set_prev (next_addr m) (Some a) m2 = Some m3 ∧
    set_next a (Some (next_addr m)) m3 = Some m4 ∧
    mem_ok m4 (pre ++ a :: next_addr m :: post).
Proof.
  intros Hm. pose proof (mem_ok_linked_after _ _ _ _ Hm) as Hu.
  pose proof (mem_ok_lookup _ _ _ _ Hm) as Ha.
  destruct (mem_ok_distinct _ _ _ _ Hm) as [Hd Hlt].
  assert (next_addr m ≠ a) by lia. unfold linked_after in Hu.
  destruct post as [|b rest]; simpl in *.
  - exists None. do 4 eexists. split_and!; [by mem_step..|]. mem_ext Hu.
  - pose proof (mem_ok_lookup_next _ _ _ _ _ Hm) as Hb.
    assert (a ≠ b) by set_solver.
    assert (next_addr m ≠ b).
    { destruct Hm as (_ & _ & Hf). nodup_split. lia. }
    exists (Some b). do 4 eexists. split_and!; [by mem_step..|]. mem_ext Hu.
Qed.

Lemma two_to_three_mem m pre la ra post :
  mem_ok m (pre ++ la :: ra :: post) →
  ∃ m1 m2 m3 m4, set_prev (next_addr m) (Some la) (snd (alloc_leaf m)) = Some m1 ∧
    set_next (next_addr m) (Some ra) m1 = Some m2 ∧
    set_prev ra (Some (next_addr m)) m2 = Some m3 ∧
    set_next la (Some (next_addr m)) m3 = Some m4 ∧
    mem_ok m4 (pre ++ la :: next_addr m :: ra :: post).
Proof.
  intros Hm. pose proof (mem_ok_linked_after _ _ _ _ Hm) as Hu.
  pose proof (mem_ok_lookup _ _ _ _ Hm) as Ha. pose proof (mem_ok_lookup_next _ _ _ _ _ Hm) as Hb.
  destruct (mem_ok_distinct _ _ _ _ Hm) as [Hd Hlt].
  assert (la ≠ ra) by set_solver.
  assert (next_addr m ≠ ra ∧ next_addr m ≠ la) as [? ?].
  { destruct Hm as (_ & _ & Hf). nodup_split. lia. }
  unfold linked_after in Hu; simpl in *.
  do 4 eexists. split_and!; [by mem_step..|]. mem_ext Hu.
Qed.

Lemma three_to_two_mem m pre la ma ra post :
  mem_ok m (pre ++ la :: ma :: ra :: post) →
  ∃ nxt m1 m2 m3 m4, get_next ra m = Some nxt ∧ set_next ma nxt m = Some m1 ∧
    set_prev_opt nxt (Some ma) m1 = Some m2 ∧ set_prev ma (Some la) m2 = Some m3 ∧
    set_next la (Some ma) m3 = Some m4 ∧ mem_ok (free_leaf ra m4) (pre ++ la :: ma :: post).
Proof.
  intros Hm. pose proof (mem_ok_lookup _ _ _ _ Hm) as Hla.
  assert (Hm' : mem_ok m ((pre ++ [la]) ++ ma :: ra :: post)) by by rewrite <-app_assoc.
  pose proof (mem_ok_unlink _ _ _ _ _ Hm') as Hu. rewrite <-app_assoc in Hu.
  pose proof (mem_ok_lookup _ _ _ _ Hm') as Hma. pose proof (mem_ok_lookup_next _ _ _ _ _ Hm') as Hra.
  unfold last_or in Hma, Hu. rewrite last_snoc in Hma, Hu.
  assert (la ≠ ma ∧ la ≠ ra ∧ ma ≠ ra ∧ la ∉ post ∧ ma ∉ post) as (? & ? & ? & ? & ?).
  { destruct Hm as (_ & Hf & _). nodup_split. set_solver. }
  destruct post as [|b rest]; simpl in *.
  - exists None. do 4 eexists. split_and!; [by mem_step..|]. unfold free_leaf; simpl. mem_ext Hu.
  - assert (Hb : links m !! b = Some (MkLink (Some ra) (first_or rest None))).
    { apply (mem_ok_lookup_next _ (pre ++ [la; ma])). by rewrite <-app_assoc. }
    assert (la ≠ b ∧ ma ≠ b) as [? ?] by set_solver.
    exists (Some b). do 4 eexists. split_and!; [by mem_step..|]. unfold free_leaf; simpl. mem_ext Hu.
Qed.

(** ** Runs of children as one node, and back *)

Section runs.
Context (h : nat).
Context (Hh : 3 ≤ h).

(** A node that satisfies the invariant, and one that may lack a key. *)
Definition good (d : nat) : option string → option string → node → Prop := wf_node h d h (2 * h).
Definition loose (d : nat) : option string → option string → node → Prop := wf_node h d (h - 1) (2 * h).

Lemma good_loose d lo hi n : good d lo hi n → loose d lo hi n.
Proof. unfold good, loose. destruct d, n; simpl; try done; intros [? ?]; (split; [lia|done]). Qed.

(** Every node that is not empty holds a key between its bounds. *)
Lemma wf_seq_inhabited (P : option string → option string → node → Prop) lo hi ks cs :
  (∀ lo hi n, P lo hi n → ∃ x, in_lo lo x ∧ in_hi hi x) →
  wf_seq P lo hi ks cs → ∃ x, in_lo lo x ∧ in_hi hi x.
Proof.
  intros HP. revert lo cs. induction ks as [|k ks IH]; intros lo cs Hs; simpl in Hs.
  - destruct cs as [|c [|]]; try done. by eapply HP.
  - destruct cs as [|c cs]; [done|]. destruct Hs as [Hc Hs].
    apply HP in Hc as (x & Hx1 & Hx2). apply IH in Hs as (y & Hy1 & Hy2).
    exists y. split; [|done]. simpl in *. eapply in_lo_mono; [done|sorder].
Qed.

Lemma wf_node_inhabited d mn mx lo hi n :
  1 ≤ mn → wf_node h d mn mx lo hi n → ∃ x, in_lo lo x ∧ in_hi hi x.
Proof.
  revert mn mx lo hi n. induction d as [|d IH]; intros mn mx lo hi [|a ks vs|ks cs] Hmn; simpl; try done.
  - intros [Hl [_ _ A B _]]. destruct ks as [|k ks]; simpl in *; [lia|].
    apply Forall_cons in A as [A _]. apply Forall_cons in B as [B _]. by exists k.
  - intros [_ Hs]. eapply wf_seq_inhabited; [|exact Hs]. intros. eapply IH; [|done]. lia.
Qed.

Lemma loose_inhabited d lo hi n : loose d lo hi n → ∃ x, in_lo lo x ∧ in_hi hi x.
Proof. apply wf_node_inhabited. lia. Qed.

Lemma loose_sep d lo hi k n1 n2 : loose d lo (Some k) n1 → loose d (Some k) hi n2 → in_lo lo k ∧ in_hi hi k.
Proof.
  intros (x & Hx1 & Hx2)%loose_inhabited (y & Hy1 & Hy2)%loose_inhabited. simpl in *.
  split; [eapply in_lo_mono; [done|sorder]|eapply in_hi_mono; [done|sorder]].
Qed.

Lemma join_leaves2 lo hi k a1 ks1 vs1 a2 ks2 vs2 :
  wf_seq (loose 0) lo hi [k] [Leaf a1 ks1 vs1; Leaf a2 ks2 vs2] →
  leaf_ok lo hi (ks1 ++ ks2) (vs1 ++ vs2) ∧ length vs1 = length ks1 ∧ length vs2 = length ks2.
Proof.
  simpl. intros (H1 & H2). destruct (loose_sep _ _ _ _ _ _ H1 H2) as [Hlo Hhi].
  destruct H1 as [_ H1], H2 as [_ H2]. split_and!; [|apply H1|apply H2]. by eapply leaf_ok_join.
Qed.

Lemma join_leaves3 lo hi k1 k2 a1 ks1 vs1 a2 ks2 vs2 a3 ks3 vs3 :
  wf_seq (loose 0) lo hi [k1; k2] [Leaf a1 ks1 vs1; Leaf a2 ks2 vs2; Leaf a3 ks3 vs3] →
  leaf_ok lo hi (ks1 ++ ks2 ++ ks3) (vs1 ++ vs2 ++ vs3) ∧
  length vs1 = length ks1 ∧ length vs2 = length ks2 ∧ length vs3 = length ks3.
Proof.
  intros [H1 H2]. pose proof (join_leaves2 _ _ _ _ _ _ _ _ _ H2) as (H3 & L2 & L3).
  destruct H2 as [H2 _]. destruct (loose_sep _ _ _ _ _ _ H1 H2) as [Hlo _].
  assert (in_hi hi k1) as Hhi.
  { destruct H2 as [Hl [_ _ A B _]]. destruct H3 as [_ _ A3 B3 _]. destruct ks2 as [|x ks2]; [simpl in Hl; lia|].
    apply Forall_cons in A as [A _]. apply Forall_cons in B3 as [B3 _]. simpl in A. by eapply in_hi_mono. }
  destruct H1 as [_ H1]. split_and!; [|apply H1|done|done]. by eapply leaf_ok_join.
Qed.

Lemma split_leaves2 lo hi a1 ks1 vs1 a2 k ks2 vs2 :
  length vs1 = length ks1 → h ≤ length ks1 ≤ 2 * h → h ≤ S (length ks2) ≤ 2 * h →
  leaf_ok lo hi (ks1 ++ k :: ks2) (vs1 ++ vs2) →
  wf_seq (good 0) lo hi [k] [Leaf a1 ks1 vs1; Leaf a2 (k :: ks2) vs2].
Proof.
  intros HL H1 H2 (Ha & Hb & _)%leaf_ok_split; [|done]. simpl. done.
Qed.

Lemma split_leaves3 lo hi a1 ks1 vs1 a2 k2 ks2 vs2 a3 k3 ks3 vs3 :
  length vs1 = length ks1 → length vs2 = S (length ks2) →
  h ≤ length ks1 ≤ 2 * h → h ≤ S (length ks2) ≤ 2 * h → h ≤ S (length ks3) ≤ 2 * h →
  leaf_ok lo hi (ks1 ++ (k2 :: ks2) ++ k3 :: ks3) (vs1 ++ vs2 ++ vs3) →
  wf_seq (good 0) lo hi [k2; k3] [Leaf a1 ks1 vs1; Leaf a2 (k2 :: ks2) vs2; Leaf a3 (k3 :: ks3) vs3].
Proof.
  intros L1 L2 H1 H2 H3 (Ha & Hb & _)%leaf_ok_split; [|done].
  split; [done|]. apply split_leaves2; done.
Qed.

Lemma join_internals2 d lo hi k ks1 cs1 ks2 cs2 :
  wf_seq (loose (S d)) lo hi [k] [Internal ks1 cs1; Internal ks2 cs2] →
  wf_seq (good d) lo hi (ks1 ++ k :: ks2) (cs1 ++ cs2) ∧
  length cs1 = S (length ks1) ∧ length cs2 = S (length ks2).
Proof.
  intros [[_ H1] [_ H2]]. pose proof (wf_seq_length _ _ _ _ _ H1). pose proof (wf_seq_length _ _ _ _ _ H2).
  split_and!; [|done|done]. by apply wf_seq_join.
Qed.

Lemma join_internals3 d lo hi k1 k2 ks1 cs1 ks2 cs2 ks3 cs3 :
  wf_seq (loose (S d)) lo hi [k1; k2] [Internal ks1 cs1; Internal ks2 cs2; Internal ks3 cs3] →
  wf_seq (good d) lo hi (ks1 ++ k1 :: ks2 ++ k2 :: ks3) (cs1 ++ cs2 ++ cs3) ∧
  length cs1 = S (length ks1) ∧ length cs2 = S (length ks2) ∧ length cs3 = S (length ks3).
Proof.
  intros [[Hl H1] H2]. apply join_internals2 in H2 as (H2 & L2 & L3). pose proof (wf_seq_length _ _ _ _ _ H1).
  split_and!; [|done..]. by apply wf_seq_join.
Qed.

Lemma split_internals2 d lo hi ks1 cs1 k ks2 cs2 :
  length cs1 = S (length ks1) → h ≤ length ks1 ≤ 2 * h → h ≤ length ks2 ≤ 2 * h →
  wf_seq (good d) lo hi (ks1 ++ k :: ks2) (cs1 ++ cs2) →
  wf_seq (good (S d)) lo hi [k] [Internal ks1 cs1; Internal ks2 cs2].
Proof. intros L H1 H2 [? ?]%wf_seq_join; [|done]. simpl. done. Qed.

Lemma split_internals3 d lo hi ks1 cs1 k2 ks2 cs2 k3 ks3 cs3 :
  length cs1 = S (length ks1) → length cs2 = S (length ks2) →
  h ≤ length ks1 ≤ 2 * h → h ≤ length ks2 ≤ 2 * h → h ≤ length ks3 ≤ 2 * h →
  wf_seq (good d) lo hi (ks1 ++ k2 :: ks2 ++ k3 :: ks3) (cs1 ++ cs2 ++ cs3) →
  wf_seq (good (S d)) lo hi [k2; k3] [Internal ks1 cs1; Internal ks2 cs2; Internal ks3 cs3].
Proof.
  intros L1 L2 H1 H2 H3 [? ?]%wf_seq_join; [|done]. split; [done|]. by apply split_internals2.
Qed.

(** ** Cutting a run at given sizes *)

Lemma head_drop {A} n (l : list A) : n < length l → ∃ x, head (drop n l) = Some x ∧ drop n l = x :: drop (S n) l.
Proof.
  intros Hn. destruct (lookup_lt_is_Some_2 l n Hn) as [x Hx]. exists x.
  by rewrite (drop_S _ _ _ Hx).
Qed.

Lemma zip_take_drop {A B} n (l : list A) (k : list B) : zip (take n l) (take n k) ++ zip (drop n l) (drop n k) = zip l k.
Proof.
  revert n k. induction l as [|x l IH]; intros [|n] [|y k]; simpl; try done.
  - by destruct (drop n l).
  - by rewrite IH.
Qed.

Lemma cut_leaves2 lo hi n ks vs a1 a2 :
  leaf_ok lo hi ks vs → h ≤ n ≤ 2 * h → h ≤ length ks - n ≤ 2 * h →
  ∃ k, head (drop n ks) = Some k ∧
    wf_seq (good 0) lo hi [k] [Leaf a1 (take n ks) (take n vs); Leaf a2 (drop n ks) (drop n vs)].
Proof.
  intros Hl H1 H2. destruct (head_drop n ks) as (k & Hk & Hd); [lia|]. exists k. split; [done|].
  pose proof (lk_len _ _ _ _ Hl). rewrite Hd. apply split_leaves2; rewrite ?length_take, ?length_drop; try lia.
  by rewrite <-Hd, !take_drop.
Qed.

Lemma cut_leaves3 lo hi n1 n2 ks vs a1 a2 a3 :
  leaf_ok lo hi ks vs → h ≤ n1 ≤ 2 * h → h ≤ n2 ≤ 2 * h → h ≤ length ks - n1 - n2 ≤ 2 * h →
  ∃ k1 k2, head (take n2 (drop n1 ks)) = Some k1 ∧ head (drop (n1 + n2) ks) = Some k2 ∧
    wf_seq (good 0) lo hi [k1; k2]
      [Leaf a1 (take n1 ks) (take n1 vs); Leaf a2 (take n2 (drop n1 ks)) (take n2 (drop n1 vs));
       Leaf a3 (drop (n1 + n2) ks) (drop (n1 + n2) vs)].
Proof.
  intros Hl H1 H2 H3. destruct (head_drop n1 ks) as (k & Hk & Hd); [lia|].
  rewrite <-!drop_drop. exists k. pose proof (lk_len _ _ _ _ Hl) as HL.
  assert (Hl' : leaf_ok lo (Some k) (take n1 ks) (take n1 vs) ∧ leaf_ok (Some k) hi (drop n1 ks) (drop n1 vs)).
  { rewrite <-(take_drop n1 ks), <-(take_drop n1 vs), Hd in Hl.
    apply leaf_ok_split in Hl as (Ha & Hb & _); [by rewrite Hd|]. rewrite !length_take; lia. }
  destruct Hl' as [Ha Hb].
  destruct (cut_leaves2 _ _ n2 _ _ a2 a3 Hb) as (k2 & Hk2 & Hw); [lia|rewrite length_drop; lia|].
  exists k2. split_and!; [|done|].
  - rewrite Hd. destruct n2; [lia|done].
  - split; [|done]. split; [rewrite length_take; lia|done].
Qed.

Lemma cut_internals2 d lo hi n ks cs :
  wf_seq (good d) lo hi ks cs → h ≤ n ≤ 2 * h → h ≤ length ks - n - 1 ≤ 2 * h →
  ∃ k, ks !! n = Some k ∧
    wf_seq (good (S d)) lo hi [k]
      [Internal (take n ks) (take (n + 1) cs); Internal (drop (n + 1) ks) (drop (n + 1) cs)].
Proof.
  intros Hw H1 H2. pose proof (wf_seq_length _ _ _ _ _ Hw) as HL.
  destruct (lookup_lt_is_Some_2 ks n) as [k Hk]; [lia|]. exists k. split; [done|].
  apply split_internals2; rewrite ?length_take, ?length_drop; try lia.
  rewrite take_drop. replace (n + 1) with (S n) by lia. by rewrite take_drop_middle.
Qed.

Lemma cut_internals3 d lo hi n1 n2 ks cs :
  wf_seq (good d) lo hi ks cs → h ≤ n1 ≤ 2 * h → h ≤ n2 ≤ 2 * h → h ≤ length ks - n1 - n2 - 2 ≤ 2 * h →
  ∃ k1 k2, ks !! n1 = Some k1 ∧ ks !! (n1 + 1 + n2) = Some k2 ∧
    wf_seq (good (S d)) lo hi [k1; k2]
      [Internal (take n1 ks) (take (n1 + 1) cs);
       Internal (take n2 (drop (n1 + 1) ks)) (take (n2 + 1) (drop (n1 + 1) cs));
       Internal (drop (n1 + 1 + n2 + 1) ks) (drop (n1 + 1 + (n2 + 1)) cs)].
Proof.
  intros Hw H1 H2 H3. pose proof (wf_seq_length _ _ _ _ _ Hw) as HL.
  destruct (lookup_lt_is_Some_2 ks n1) as [k Hk]; [lia|].
  assert (Hw' : wf_seq (good d) lo (Some k) (take n1 ks) (take (n1 + 1) cs) ∧
                wf_seq (good d) (Some k) hi (drop (n1 + 1) ks) (drop (n1 + 1) cs)).
  { apply wf_seq_join; [rewrite !length_take; lia|]. rewrite take_drop.
    replace (n1 + 1) with (S n1) by lia. by rewrite take_drop_middle. }
  destruct Hw' as [Ha Hb]. destruct (cut_internals2 _ _ _ n2 _ _ Hb) as (k2 & Hk2 & Hc);
    [lia|rewrite length_drop; lia|].
  rewrite lookup_drop in Hk2. rewrite !drop_drop in Hc. exists k, k2.
  split_and!; [done|done|]. split; [split; [rewrite length_take; lia|done]|].
  by rewrite <-(Nat.add_assoc (n1 + 1) n2 1).
Qed.

(** ** Steps on a segment of children, and on the whole parent *)

(** [csA] became [csB], separated by [ksB], between the same bounds, with the
    same contents and a consistent list of leaves. *)
Record seg_step (d : nat) (lo hi : option string) (pre post : list nat) (csA : list node)
    (m' : Mem) (ksB : list string) (csB : list node) : Prop := {
  ss_wf : wf_seq (good d) lo hi ksB csB;
  ss_entries : flat_map entries csB = flat_map entries csA;
  ss_mem : mem_ok m' (pre ++ flat_map leaves csB ++ post)
}.

Lemma seg_step_lift d lo hi pre post ks1 ks2 cs1 cs2 csA m' ksB csB :
  length ks1 = length cs1 → length ks2 = length cs2 →
  wf_pre (good d) lo ks1 cs1 → wf_post (good d) hi ks2 cs2 →
  seg_step d (lo_after lo ks1) (hi_before ks2 hi)
    (pre ++ flat_map leaves cs1) (flat_map leaves cs2 ++ post) csA m' ksB csB →
  seg_step d lo hi pre post (cs1 ++ csA ++ cs2) m' (ks1 ++ ksB ++ ks2) (cs1 ++ csB ++ cs2).
Proof.
  intros L1 L2 H1 H2 [W E Hm]. split.
  - apply wf_seq_mid; [done|by eapply wf_seq_length|done|done].
  - by rewrite !flat_map_app, E.
  - rewrite !flat_map_app. by rewrite <-!app_assoc in *.
Qed.

Lemma leaf_move_left lo hi pre post m k a1 ks1 vs1 a2 x y ks2 v vs2 :
  wf_seq (loose 0) lo hi [k] [Leaf a1 ks1 vs1; Leaf a2 (x :: y :: ks2) (v :: vs2)] →
  length ks1 < 2 * h → h ≤ S (length ks2) →
  mem_ok m (pre ++ [a1; a2] ++ post) →
  seg_step 0 lo hi pre post [Leaf a1 ks1 vs1; Leaf a2 (x :: y :: ks2) (v :: vs2)]
    m [y] [Leaf a1 (ks1 ++ [x]) (vs1 ++ [v]); Leaf a2 (y :: ks2) vs2].
Proof.
  intros Hw Hl1 Hl2 Hm. pose proof (join_leaves2 _ _ _ _ _ _ _ _ _ Hw) as (J & L1 & L2).
  destruct Hw as [[[? ?] _] [[? ?] _]]. simpl in *. split; [|simpl|done].
  - apply split_leaves2; rewrite ?length_app; simpl; try lia. by rewrite <-!app_assoc.
  - by rewrite zip_app, <-!app_assoc by lia.
Qed.

Lemma leaf_move_right lo hi pre post m k a1 ks1 vs1 a2 x ks2 v vs2 :
  wf_seq (loose 0) lo hi [k] [Leaf a1 (ks1 ++ [x]) (vs1 ++ [v]); Leaf a2 ks2 vs2] →
  length ks2 < 2 * h → h ≤ length ks1 →
  mem_ok m (pre ++ [a1; a2] ++ post) →
  seg_step 0 lo hi pre post [Leaf a1 (ks1 ++ [x]) (vs1 ++ [v]); Leaf a2 ks2 vs2]
    m [x] [Leaf a1 ks1 vs1; Leaf a2 (x :: ks2) (v :: vs2)].
Proof.
  intros Hw Hl1 Hl2 Hm. pose proof (join_leaves2 _ _ _ _ _ _ _ _ _ Hw) as (J & L1 & L2).
  destruct Hw as [[[? ?] _] [[? ?] _]]. rewrite !length_app in *. simpl in *. split; [|simpl|done].
  - apply split_leaves2; simpl; try lia. by rewrite <-!app_assoc in J.
  - by rewrite zip_app, <-!app_assoc by lia.
Qed.

Lemma internal_move_left d lo hi pre post m k ks1 cs1 x ks2 c cs2 :
  wf_seq (loose (S d)) lo hi [k] [Internal ks1 cs1; Internal (x :: ks2) (c :: cs2)] →
  length ks1 < 2 * h → h ≤ length ks2 →
  mem_ok m (pre ++ flat_map leaves [Internal ks1 cs1; Internal (x :: ks2) (c :: cs2)] ++ post) →
  seg_step (S d) lo hi pre post [Internal ks1 cs1; Internal (x :: ks2) (c :: cs2)]
    m [x] [Internal (ks1 ++ [k]) (cs1 ++ [c]); Internal ks2 cs2].
Proof.
  intros Hw Hl1 Hl2 Hm. pose proof (join_internals2 _ _ _ _ _ _ _ _ Hw) as (J & L1 & L2).
  destruct Hw as [[[? ?] _] [[? ?] _]]. simpl in *. split.
  - apply split_internals2; rewrite ?length_app; simpl; try lia. by rewrite <-!app_assoc.
  - by flat_norm.
  - unfold leaves in *. by flat_norm.
Qed.

Lemma internal_move_right d lo hi pre post m k ks1 cs1 x ks2 c cs2 :
  wf_seq (loose (S d)) lo hi [k] [Internal (ks1 ++ [x]) (cs1 ++ [c]); Internal ks2 cs2] →
  length ks2 < 2 * h → h ≤ length ks1 →
  mem_ok m (pre ++ flat_map leaves [Internal (ks1 ++ [x]) (cs1 ++ [c]); Internal ks2 cs2] ++ post) →
  seg_step (S d) lo hi pre post [Internal (ks1 ++ [x]) (cs1 ++ [c]); Internal ks2 cs2]
    m [x] [Internal ks1 cs1; Internal (k :: ks2) (c :: cs2)].
Proof.
  intros Hw Hl1 Hl2 Hm. pose proof (join_internals2 _ _ _ _ _ _ _ _ Hw) as (J & L1 & L2).
  destruct Hw as [[[? ?] _] [[? ?] _]]. rewrite !length_app in *. simpl in *. split.
  - apply split_internals2; simpl; try lia. by rewrite <-!app_assoc in J.
  - by flat_norm.
  - unfold leaves in *. by flat_norm.
Qed.

End runs.
