(* ===== verification/BStarPlusTreeRebalance.v ===== *)
(** * BStarPlusTreeRebalance: the [Try] routines, borrows and merges on a parent

    Each routine of [BStarPlusTree] that works on a parent's vectors, applied
    at a child of a parent that satisfies the invariant: it is defined, and
    either leaves the parent as it was or performs a [seg_step]. *)
From Stdlib Require Import ZifyNat.
From S2P Require Import Prelude BStarPlusTree BStarPlusTreeInv BStarPlusTreeSteps.

Section rebalance.
Context (h : nat).
Context (Hh : 3 ≤ h).

Lemma min_keys_even : MinLeafKeys (2 * h) = h.
Proof. unfold MinLeafKeys. replace (2 * h + 1) with (1 + h * 2) by lia. by rewrite Nat.div_add. Qed.

(** A parent seen from its child [c]: the children and keys to the left and to
    the right of it satisfy the invariant, the child itself may lack a key. *)
Record around (d : nat) (lo hi : option string) (pre post : list nat) (m : Mem)
    (ks1 : list string) (cs1 : list node) (c : node) (ks2 : list string) (cs2 : list node) : Prop := {
  ar_len1 : length ks1 = length cs1;
  ar_len2 : length ks2 = length cs2;
  ar_pre : wf_pre (good h d) lo ks1 cs1;
  ar_child : loose h d (lo_after lo ks1) (hi_before ks2 hi) c;
  ar_post : wf_post (good h d) hi ks2 cs2;
  ar_mem : mem_ok m (pre ++ flat_map leaves (cs1 ++ c :: cs2) ++ post)
}.

Lemma wf_pre_snoc P lo ks k cs c : length ks = length cs →
  wf_pre P lo (ks ++ [k]) (cs ++ [c]) ↔ wf_pre P lo ks cs ∧ P (lo_after lo ks) (Some k) c.
Proof.
  revert lo cs. induction ks as [|k' ks IH]; intros lo [|c' cs] HL; simplify_eq/=.
  - unfold lo_after; simpl. naive_solver.
  - rewrite IH, lo_after_cons by done. naive_solver.
Qed.

(** What a routine needs to know about the two children it works on. *)
Record pair_at (d : nat) (lo hi : option string) (pre post : list nat) (m : Mem)
    (ks1 : list string) (cs1 : list node) (k : string) (n1 n2 : node)
    (ks2 : list string) (cs2 : list node) : Prop := {
  pr_len1 : length ks1 = length cs1;
  pr_len2 : length ks2 = length cs2;
  pr_pre : wf_pre (good h d) lo ks1 cs1;
  pr_post : wf_post (good h d) hi ks2 cs2;
  pr_seq : wf_seq (loose h d) (lo_after lo ks1) (hi_before ks2 hi) [k] [n1; n2];
  pr_mem : mem_ok m ((pre ++ flat_map leaves cs1) ++ flat_map leaves [n1; n2] ++ (flat_map leaves cs2 ++ post))
}.

Lemma around_left d lo hi pre post m ks1 cs1 k f c ks2 cs2 :
  around d lo hi pre post m (ks1 ++ [k]) (cs1 ++ [f]) c ks2 cs2 →
  pair_at d lo hi pre post m ks1 cs1 k f c ks2 cs2 ∧ good h d (lo_after lo ks1) (Some k) f.
Proof.
  intros [L1 L2 H1 Hc H2 Hm]. rewrite !length_app in L1. simpl in L1.
  assert (L1' : length ks1 = length cs1) by lia.
  apply wf_pre_snoc in H1 as [H1 Hf]; [|done]. rewrite lo_after_snoc in Hc.
  split; [|done]. split; try done.
  - simpl. split; [by apply good_loose|done].
  - by flat_norm.
Qed.

Lemma around_right d lo hi pre post m ks1 cs1 k c r ks2 cs2 :
  around d lo hi pre post m ks1 cs1 c (k :: ks2) (r :: cs2) →
  pair_at d lo hi pre post m ks1 cs1 k c r ks2 cs2 ∧ good h d (Some k) (hi_before ks2 hi) r.
Proof.
  intros [L1 L2 H1 Hc H2 Hm]. simplify_eq/=. destruct H2 as [Hr H2]. split; [|done]. split; try done.
  - simpl. split; [done|by apply good_loose].
  - by flat_norm.
Qed.

(** A routine that returns [false] left the parent alone; one that returns
    [true] made a step, and the parent lost no key and has at most [2 * h]. *)
Definition try_ok (d : nat) (lo hi : option string) (pre post : list nat)
    (p : Parent) (r : option (bool * Parent)) : Prop :=
  r = Some (false, p) ∨
  ∃ m' ks' cs', r = Some (true, (m', ks', cs')) ∧
    seg_step h d lo hi pre post (snd p) m' ks' cs' ∧ length (snd (fst p)) ≤ length ks' ≤ 2 * h.

Lemma or_else_ok d lo hi pre post p r k :
  try_ok d lo hi pre post p r → (r = Some (false, p) → try_ok d lo hi pre post p (k p)) →
  try_ok d lo hi pre post p (or_else r k).
Proof. intros [-> | (m' & ks' & cs' & -> & H)] Hk; simpl; [by apply Hk|]. right. by exists m', ks', cs'. Qed.

(** A pair became [n1'] and [n2'] around the separator [k']. *)
Lemma pair_step d lo hi pre post m m' ks1 cs1 k n1 n2 ks2 cs2 ksB csB :
  pair_at d lo hi pre post m ks1 cs1 k n1 n2 ks2 cs2 →
  seg_step h d (lo_after lo ks1) (hi_before ks2 hi) (pre ++ flat_map leaves cs1)
    (flat_map leaves cs2 ++ post) [n1; n2] m' ksB csB →
  seg_step h d lo hi pre post (cs1 ++ n1 :: n2 :: cs2) m' (ks1 ++ ksB ++ ks2) (cs1 ++ csB ++ cs2).
Proof. intros [L1 L2 H1 H2 _ _] Hs. apply (seg_step_lift h d lo hi pre post ks1 ks2 cs1 cs2 [n1; n2]); done. Qed.

(** Evaluates a routine on vectors split around the index it works at. *)
Ltac vec_run :=
  repeat (progress (autorewrite with vec; cbn [mbind option_bind head vec_pop_front fmap option_fmap option_map])).

(** Destructs a list that is known not to be empty. *)
Ltac split_first l x l' := destruct l as [|x l']; [simpl in *; lia|].
Ltac split_last l l' x :=
  destruct (list_snoc_inv l) as (l' & x & ->); [by intros ->; simpl in *; lia|].

Ltac div_lia := zify; Z.to_euclidean_division_equations; lia.
Ltac len := repeat (progress (simpl in *; rewrite ?length_app in * )); lia.

Lemma try_pair d lo hi pre post m m' ks1 cs1 k n1 n2 ks2 cs2 ksB csB :
  pair_at d lo hi pre post m ks1 cs1 k n1 n2 ks2 cs2 →
  seg_step h d (lo_after lo ks1) (hi_before ks2 hi) (pre ++ flat_map leaves cs1)
    (flat_map leaves cs2 ++ post) [n1; n2] m' ksB csB →
  1 ≤ length ksB → length (ks1 ++ ksB ++ ks2) ≤ 2 * h →
  try_ok d lo hi pre post (m, ks1 ++ k :: ks2, cs1 ++ n1 :: n2 :: cs2)
    (Some (true, (m', ks1 ++ ksB ++ ks2, cs1 ++ csB ++ cs2))).
Proof.
  intros Hp Hs H1 H2. right. do 3 eexists. split; [done|]. split; [by eapply pair_step|len].
Qed.

(** *** Insertion: moving an entry to a sibling *)

Lemma redistribute_leaf_left lo hi pre post m ks1 cs1 k f a ks vs ks2 cs2 :
  pair_at 0 lo hi pre post m ks1 cs1 k f (Leaf a ks vs) ks2 cs2 →
  length ks = 2 * h → length (ks1 ++ k :: ks2) ≤ 2 * h →
  try_ok 0 lo hi pre post (m, ks1 ++ k :: ks2, cs1 ++ f :: Leaf a ks vs :: cs2)
    (TryRedistributeLeafWithLeft (2 * h) (m, ks1 ++ k :: ks2, cs1 ++ f :: Leaf a ks vs :: cs2) (S (length cs1))).
Proof.
  intros Hp Hfull Hks. pose proof (pr_len1 _ _ _ _ _ _ _ _ _ _ _ _ _ Hp) as L1.
  destruct (pr_seq _ _ _ _ _ _ _ _ _ _ _ _ _ Hp) as [Hf Hc].
  destruct f as [|fa fks fvs|]; try done. simpl in Hf, Hc. destruct Hf as [Hf Of], Hc as [Hc Oc].
  pose proof (lk_len _ _ _ _ Oc). split_first ks x ks. split_first ks y ks. split_first vs v vs.
  unfold TryRedistributeLeafWithLeft. replace (S (length cs1) - 1) with (length cs1) by lia.
  replace (S (length cs1) =? 0) with false by done. vec_run.
  destruct (Nat.leb_spec (2 * h) (length fks)); simpl orb; cbv iota; [by left|].
  vec_run. eapply (try_pair 0 _ _ _ _ m m _ _ _ _ _ _ _ [y] [_; _]); [exact Hp| |len..].
  eapply leaf_move_left; [done|apply Hp|len|len|apply Hp].
Qed.

Lemma redistribute_leaf_right lo hi pre post m ks1 cs1 k r a ks vs ks2 cs2 :
  pair_at 0 lo hi pre post m ks1 cs1 k (Leaf a ks vs) r ks2 cs2 →
  length ks = 2 * h → length (ks1 ++ k :: ks2) ≤ 2 * h →
  try_ok 0 lo hi pre post (m, ks1 ++ k :: ks2, cs1 ++ Leaf a ks vs :: r :: cs2)
    (TryRedistributeLeafWithRight (2 * h) (m, ks1 ++ k :: ks2, cs1 ++ Leaf a ks vs :: r :: cs2) (length cs1)).
Proof.
  intros Hp Hfull Hks. pose proof (pr_len1 _ _ _ _ _ _ _ _ _ _ _ _ _ Hp) as L1.
  destruct (pr_seq _ _ _ _ _ _ _ _ _ _ _ _ _ Hp) as [Hc Hr].
  destruct r as [|ra rks rvs|]; try done. simpl in Hr, Hc. destruct Hr as [Hr Or], Hc as [Hc Oc].
  pose proof (lk_len _ _ _ _ Oc). split_last ks ks' x. split_last vs vs' v.
  unfold TryRedistributeLeafWithRight. rewrite (proj2 (Nat.leb_gt _ _)) by len.
  replace (length cs1 + 1) with (S (length cs1)) by lia. vec_run.
  destruct (Nat.leb_spec (2 * h) (length rks)); simpl orb; cbv iota; [by left|].
  rewrite (proj2 (Nat.eqb_neq _ 0)) by len. rewrite !last_snoc. vec_run.
  eapply (try_pair 0 _ _ _ _ m m _ _ _ _ _ _ _ [x] [_; _]); [exact Hp| |len..].
  eapply leaf_move_right; [done|apply Hp|len|len|apply Hp].
Qed.

Lemma redistribute_internal_left d lo hi pre post m ks1 cs1 k f ks cs ks2 cs2 :
  pair_at (S d) lo hi pre post m ks1 cs1 k f (Internal ks cs) ks2 cs2 →
  length ks = 2 * h → length (ks1 ++ k :: ks2) ≤ 2 * h →
  try_ok (S d) lo hi pre post (m, ks1 ++ k :: ks2, cs1 ++ f :: Internal ks cs :: cs2)
    (TryRedistributeInternalWithLeft (2 * h) (m, ks1 ++ k :: ks2, cs1 ++ f :: Internal ks cs :: cs2)
       (S (length cs1))).
Proof.
  intros Hp Hfull Hks. pose proof (pr_len1 _ _ _ _ _ _ _ _ _ _ _ _ _ Hp) as L1.
  destruct (pr_seq _ _ _ _ _ _ _ _ _ _ _ _ _ Hp) as [Hf Hc].
  destruct f as [| |fks fcs]; try done. simpl in Hf, Hc. destruct Hf as [Hf Of], Hc as [Hc Oc].
  pose proof (wf_seq_length _ _ _ _ _ Oc). split_first ks x ks. split_first cs c cs.
  unfold TryRedistributeInternalWithLeft. replace (S (length cs1) - 1) with (length cs1) by lia.
  replace (S (length cs1) =? 0) with false by done. vec_run.
  destruct (Nat.leb_spec (2 * h) (length fks)); simpl orb; cbv iota; [by left|].
  vec_run. eapply (try_pair (S d) _ _ _ _ m m _ _ _ _ _ _ _ [x] [_; _]); [exact Hp| |len..].
  eapply internal_move_left; [done|apply Hp|len|len|apply Hp].
Qed.

Lemma redistribute_internal_right d lo hi pre post m ks1 cs1 k r ks cs ks2 cs2 :
  pair_at (S d) lo hi pre post m ks1 cs1 k (Internal ks cs) r ks2 cs2 →
  length ks = 2 * h → length (ks1 ++ k :: ks2) ≤ 2 * h →
  try_ok (S d) lo hi pre post (m, ks1 ++ k :: ks2, cs1 ++ Internal ks cs :: r :: cs2)
    (TryRedistributeInternalWithRight (2 * h) (m, ks1 ++ k :: ks2, cs1 ++ Internal ks cs :: r :: cs2)
       (length cs1)).
Proof.
  intros Hp Hfull Hks. pose proof (pr_len1 _ _ _ _ _ _ _ _ _ _ _ _ _ Hp) as L1.
  destruct (pr_seq _ _ _ _ _ _ _ _ _ _ _ _ _ Hp) as [Hc Hr].
  destruct r as [| |rks rcs]; try done. simpl in Hr, Hc. destruct Hr as [Hr Or], Hc as [Hc Oc].
  pose proof (wf_seq_length _ _ _ _ _ Oc). split_last ks ks' x. split_last cs cs' c.
  unfold TryRedistributeInternalWithRight. rewrite (proj2 (Nat.leb_gt _ _)) by len.
  replace (length cs1 + 1) with (S (length cs1)) by lia. vec_run.
  destruct (Nat.leb_spec (2 * h) (length rks)); simpl orb; cbv iota; [by left|].
  rewrite (proj2 (Nat.eqb_neq (length (ks' ++ _)) 0)), (proj2 (Nat.eqb_neq (length (cs' ++ _)) 0)) by len.
  cbn [orb]. rewrite !last_snoc. vec_run.
  eapply (try_pair (S d) _ _ _ _ m m _ _ _ _ _ _ _ [x] [_; _]); [exact Hp| |len..].
  eapply internal_move_right; [done|apply Hp|len|len|apply Hp].
Qed.

(** *** Insertion: two full siblings become three *)

Lemma flat_leaves_cons a ks vs cs : flat_map leaves (Leaf a ks vs :: cs) = a :: flat_map leaves cs.
Proof. done. Qed.

Lemma two_to_three_leaf lo hi pre post m ks1 cs1 k n1 n2 ks2 cs2 :
  pair_at 0 lo hi pre post m ks1 cs1 k n1 n2 ks2 cs2 →
  try_ok 0 lo hi pre post (m, ks1 ++ k :: ks2, cs1 ++ n1 :: n2 :: cs2)
    (TryTwoToThreeSplitLeafWithRight (2 * h) (m, ks1 ++ k :: ks2, cs1 ++ n1 :: n2 :: cs2) (length cs1)).
Proof.
  intros Hp. pose proof (pr_len1 _ _ _ _ _ _ _ _ _ _ _ _ _ Hp) as L1.
  pose proof (pr_seq _ _ _ _ _ _ _ _ _ _ _ _ _ Hp) as Hs. destruct Hs as [H1 H2].
  destruct n1 as [|la lks lvs|]; try done. destruct n2 as [|ra rks rvs|]; try done.
  simpl in H1, H2. destruct H1 as [H1 O1], H2 as [H2 O2].
  unfold TryTwoToThreeSplitLeafWithRight.
  replace (length cs1 + 1) with (S (length cs1)) by lia.
  rewrite (proj2 (Nat.leb_gt (length (cs1 ++ _)) _)) by len. cbn [orb].
  destruct (Nat.leb_spec (2 * h) (length (ks1 ++ k :: ks2))) as [|Hks]; [by left|]. vec_run.
  destruct (Nat.ltb_spec (length lks) (2 * h)); [by left|].
  destruct (Nat.ltb_spec (length rks) (2 * h)); [by left|]. cbn [orb].
  assert (Ht : length (lks ++ rks) = 4 * h) by len. rewrite Ht.
  set (n1 := 4 * h / 3). set (n2 := (4 * h - n1) / 2).
  assert (h ≤ n1 ≤ 2 * h ∧ h ≤ n2 ≤ 2 * h ∧ h ≤ 4 * h - n1 - n2 ≤ 2 * h) as (B1 & B2 & B3) by (subst n1 n2; div_lia).
  rewrite !(proj2 (Nat.eqb_neq _ 0)) by lia. cbn [orb].
  destruct (join_leaves2 h Hh _ _ _ _ _ _ _ _ _ (pr_seq _ _ _ _ _ _ _ _ _ _ _ _ _ Hp)) as (J & _ & _).
  destruct (cut_leaves3 h Hh _ _ n1 n2 _ _ la (next_addr m) ra J) as (k1 & k2 & Hk1 & Hk2 & Hw); [lia..|].
  pose proof (pr_mem _ _ _ _ _ _ _ _ _ _ _ _ _ Hp) as Hm. rewrite !flat_leaves_cons in Hm.
  destruct (two_to_three_mem _ _ _ _ _ Hm) as (m1 & m2 & m3 & m4 & E1 & E2 & E3 & E4 & Hm').
  unfold alloc_leaf in *. cbn [snd] in E1. rewrite E1; cbn [mbind option_bind].
  rewrite E2; cbn [mbind option_bind]. rewrite E3; cbn [mbind option_bind]. rewrite E4; cbn [mbind option_bind].
  rewrite Hk1, Hk2. vec_run.
  eapply (try_pair 0 _ _ _ _ m _ _ _ _ _ _ _ _ [k1; k2] [_; _; _]); [exact Hp| |len..].
  split; [exact Hw| |exact Hm']. cbn [flat_map entries]. rewrite !app_nil_r, <-!drop_drop, !zip_take_drop.
  apply zip_app, O1.
Qed.

Lemma flat_internal2 {A} (f : node → list A) ks1 cs1 ks2 cs2 :
  (∀ ks cs, f (Internal ks cs) = flat_map f cs) →
  flat_map f [Internal ks1 cs1; Internal ks2 cs2] = flat_map f (cs1 ++ cs2).
Proof. intros Hf. simpl. by rewrite !Hf, flat_map_app, app_nil_r. Qed.

Lemma flat_internal3 {A} (f : node → list A) ks1 cs1 ks2 cs2 ks3 cs3 :
  (∀ ks cs, f (Internal ks cs) = flat_map f cs) →
  flat_map f [Internal ks1 cs1; Internal ks2 cs2; Internal ks3 cs3] = flat_map f (cs1 ++ cs2 ++ cs3).
Proof. intros Hf. simpl. by rewrite !Hf, !flat_map_app, app_nil_r. Qed.

Lemma leaves_internal ks cs : leaves (Internal ks cs) = flat_map leaves cs.
Proof.
  unfold leaves. simpl. induction cs as [|c cs IH]; simpl; [done|]. by rewrite map_app, IH.
Qed.

Lemma two_to_three_internal d lo hi pre post m ks1 cs1 k n1 n2 ks2 cs2 :
  pair_at (S d) lo hi pre post m ks1 cs1 k n1 n2 ks2 cs2 →
  try_ok (S d) lo hi pre post (m, ks1 ++ k :: ks2, cs1 ++ n1 :: n2 :: cs2)
    (TryTwoToThreeSplitInternalWithRight (2 * h) (m, ks1 ++ k :: ks2, cs1 ++ n1 :: n2 :: cs2) (length cs1)).
Proof.
  intros Hp. pose proof (pr_len1 _ _ _ _ _ _ _ _ _ _ _ _ _ Hp) as L1.
  pose proof (pr_seq _ _ _ _ _ _ _ _ _ _ _ _ _ Hp) as Hs. destruct Hs as [H1 H2].
  destruct n1 as [| |lks lcs]; try done. destruct n2 as [| |rks rcs]; try done.
  simpl in H1, H2. destruct H1 as [H1 _], H2 as [H2 _].
  unfold TryTwoToThreeSplitInternalWithRight.
  replace (length cs1 + 1) with (S (length cs1)) by lia.
  rewrite (proj2 (Nat.leb_gt (length (cs1 ++ _)) _)) by len. cbn [orb].
  destruct (Nat.leb_spec (2 * h) (length (ks1 ++ k :: ks2))) as [|Hks]; [by left|]. vec_run.
  destruct (Nat.ltb_spec (length lks) (2 * h)); [by left|].
  destruct (Nat.ltb_spec (length rks) (2 * h)); [by left|]. cbn [orb].
  assert (Ht : length (lks ++ k :: rks) = 4 * h + 1) by len. rewrite Ht.
  set (n1 := (4 * h + 1) / 3). set (n2 := (4 * h + 1 - n1) / 2).
  assert (h ≤ n1 ≤ 2 * h ∧ h ≤ n2 ≤ 2 * h ∧ h ≤ 4 * h + 1 - n1 - n2 - 2 ≤ 2 * h) as (B1 & B2 & B3)
    by (subst n1 n2; div_lia).
  rewrite !(proj2 (Nat.eqb_neq _ 0)) by lia. cbn [orb].
  destruct (join_internals2 h d _ _ _ _ _ _ _ (pr_seq _ _ _ _ _ _ _ _ _ _ _ _ _ Hp)) as (J & J1 & J2).
  destruct (cut_internals3 h Hh d _ _ n1 n2 _ _ J) as (k1 & k2 & Hk1 & Hk2 & Hw); [lia..|].
  rewrite Hk1, Hk2. rewrite (take_ge (drop (n1 + 1 + (n2 + 1)) _)) by (rewrite length_drop; len). vec_run.
  eapply (try_pair (S d) _ _ _ _ m m _ _ _ _ _ _ _ [k1; k2] [_; _; _]); [exact Hp| |len..].
  split; [exact Hw| |].
  - rewrite flat_internal2, flat_internal3 by done. by rewrite <-(drop_drop _ (n2 + 1) (n1 + 1)), !take_drop.
  - pose proof (pr_mem _ _ _ _ _ _ _ _ _ _ _ _ _ Hp) as Hm.
    rewrite flat_internal2 in Hm by apply leaves_internal. rewrite flat_internal3 by apply leaves_internal.
    by rewrite <-(drop_drop _ (n2 + 1) (n1 + 1)), !take_drop.
Qed.

(** *** The adjustment of a full child *)

(** A routine for the left (right) sibling, applied at any child. *)
Lemma at_left (R : Parent → nat → option (bool * Parent)) d lo hi pre post m ks1 cs1 c ks2 cs2 :
  around d lo hi pre post m ks1 cs1 c ks2 cs2 →
  (∀ p, R p 0 = Some (false, p)) →
  (∀ ks0 cs0 k f, pair_at d lo hi pre post m ks0 cs0 k f c ks2 cs2 → length (ks0 ++ k :: ks2) ≤ 2 * h →
     try_ok d lo hi pre post (m, ks0 ++ k :: ks2, cs0 ++ f :: c :: cs2)
       (R (m, ks0 ++ k :: ks2, cs0 ++ f :: c :: cs2) (S (length cs0)))) →
  length (ks1 ++ ks2) ≤ 2 * h →
  try_ok d lo hi pre post (m, ks1 ++ ks2, cs1 ++ c :: cs2) (R (m, ks1 ++ ks2, cs1 ++ c :: cs2) (length cs1)).
Proof.
  intros Ha H0 HS Hl. pose proof (ar_len1 _ _ _ _ _ _ _ _ _ _ _ Ha) as HL.
  destruct cs1 as [|f cs0 _] using rev_ind; [left; apply H0|].
  destruct ks1 as [|k ks0 _] using rev_ind; [len|].
  apply around_left in Ha as [Hp _]. rewrite <-!app_assoc in *. cbn [app] in *.
  rewrite length_app, Nat.add_comm. by apply HS.
Qed.

Lemma at_right (R : Parent → nat → option (bool * Parent)) d lo hi pre post m ks1 cs1 c ks2 cs2 :
  around d lo hi pre post m ks1 cs1 c ks2 cs2 →
  (∀ p i, length (snd p) = i + 1 → R p i = Some (false, p)) →
  (∀ ks3 cs3 k r, pair_at d lo hi pre post m ks1 cs1 k c r ks3 cs3 → length (ks1 ++ k :: ks3) ≤ 2 * h →
     try_ok d lo hi pre post (m, ks1 ++ k :: ks3, cs1 ++ c :: r :: cs3)
       (R (m, ks1 ++ k :: ks3, cs1 ++ c :: r :: cs3) (length cs1))) →
  length (ks1 ++ ks2) ≤ 2 * h →
  try_ok d lo hi pre post (m, ks1 ++ ks2, cs1 ++ c :: cs2) (R (m, ks1 ++ ks2, cs1 ++ c :: cs2) (length cs1)).
Proof.
  intros Ha H0 HS Hl. pose proof (ar_len2 _ _ _ _ _ _ _ _ _ _ _ Ha) as HL.
  destruct cs2 as [|r cs3]; [left; apply H0; len|]. destruct ks2 as [|k ks3]; [done|].
  apply around_right in Ha as [Hp _]. by apply HS.
Qed.

Lemma try_full_leaf lo hi pre post m ks1 cs1 a ks vs ks2 cs2 :
  let p := (m, ks1 ++ ks2, cs1 ++ Leaf a ks vs :: cs2) in
  let i := length cs1 in
  around 0 lo hi pre post m ks1 cs1 (Leaf a ks vs) ks2 cs2 →
  length ks = 2 * h → length (ks1 ++ ks2) ≤ 2 * h →
  try_ok 0 lo hi pre post p
    (or_else (or_else (or_else
       (TryRedistributeLeafWithLeft (2 * h) p i)
       (λ q, TryRedistributeLeafWithRight (2 * h) q i))
       (λ q, TryTwoToThreeSplitLeafWithRight (2 * h) q i))
       (λ q, TryTwoToThreeSplitLeafWithLeft (2 * h) q i)).
Proof.
  intros p i Ha Hk Hl. repeat (apply or_else_ok; [|intros _]).
  - apply at_left; [done|by intros [[? ?] ?]| |done]. intros. by apply redistribute_leaf_left.
  - apply at_right; try done.
    + intros [[? ?] ?] j Hj. simpl in Hj. unfold TryRedistributeLeafWithRight.
      by rewrite Hj, Nat.leb_refl.
    + intros. by apply redistribute_leaf_right.
  - apply at_right; try done.
    + intros [[? ?] ?] j Hj. simpl in Hj. unfold TryTwoToThreeSplitLeafWithRight.
      by rewrite Hj, Nat.leb_refl.
    + intros. by apply two_to_three_leaf.
  - apply at_left; try done; [by intros [[? ?] ?]|]. intros ks0 cs0 k f Hp _.
    unfold TryTwoToThreeSplitLeafWithLeft. cbn [Nat.eqb orb].
    destruct (2 * h <=? _); [by left|]. rewrite Nat.sub_succ, Nat.sub_0_r. by apply two_to_three_leaf.
Qed.

Lemma try_full_internal d lo hi pre post m ks1 cs1 ks cs ks2 cs2 :
  let p := (m, ks1 ++ ks2, cs1 ++ Internal ks cs :: cs2) in
  let i := length cs1 in
  around (S d) lo hi pre post m ks1 cs1 (Internal ks cs) ks2 cs2 →
  length ks = 2 * h → length (ks1 ++ ks2) ≤ 2 * h →
  try_ok (S d) lo hi pre post p
    (or_else (or_else (or_else
       (TryRedistributeInternalWithLeft (2 * h) p i)
       (λ q, TryRedistributeInternalWithRight (2 * h) q i))
       (λ q, TryTwoToThreeSplitInternalWithRight (2 * h) q i))
       (λ q, TryTwoToThreeSplitInternalWithLeft (2 * h) q i)).
Proof.
  intros p i Ha Hk Hl. repeat (apply or_else_ok; [|intros _]).
  - apply at_left; [done|by intros [[? ?] ?]| |done]. intros. by apply redistribute_internal_left.
  - apply at_right; try done.
    + intros [[? ?] ?] j Hj. simpl in Hj. unfold TryRedistributeInternalWithRight.
      by rewrite Hj, Nat.leb_refl.
    + intros. by apply redistribute_internal_right.
  - apply at_right; try done.
    + intros [[? ?] ?] j Hj. simpl in Hj. unfold TryTwoToThreeSplitInternalWithRight.
      by rewrite Hj, Nat.leb_refl.
    + intros. by apply two_to_three_internal.
  - apply at_left; try done; [by intros [[? ?] ?]|]. intros ks0 cs0 k f Hp _.
    unfold TryTwoToThreeSplitInternalWithLeft. cbn [Nat.eqb orb].
    destruct (2 * h <=? _); [by left|]. rewrite Nat.sub_succ, Nat.sub_0_r. by apply two_to_three_internal.
Qed.

Lemma adjust_full_child d lo hi pre post m ks1 cs1 c ks2 cs2 key :
  around d lo hi pre post m ks1 cs1 c ks2 cs2 → good h d (lo_after lo ks1) (hi_before ks2 hi) c →
  length (ks1 ++ ks2) ≤ 2 * h → UpperBound (ks1 ++ ks2) key = length cs1 →
  ∃ m' ks' cs', AdjustFullChild (2 * h) (m, ks1 ++ ks2, cs1 ++ c :: cs2) (length cs1) c key =
      Some ((m', ks', cs'), UpperBound ks' key) ∧
    seg_step h d lo hi pre post (cs1 ++ c :: cs2) m' ks' cs' ∧ length (ks1 ++ ks2) ≤ length ks' ≤ 2 * h.
Proof.
  intros Ha Hc Hl Hi.
  assert (Hself : seg_step h d lo hi pre post (cs1 ++ c :: cs2) m (ks1 ++ ks2) (cs1 ++ c :: cs2)).
  { destruct Ha as [L1 L2 H1 _ H2 Hm]. split; [|done|done].
    change (c :: cs2) with ([c] ++ cs2). apply (wf_seq_mid _ lo hi ks1 [] ks2); done. }
  assert (Hdone : ∀ r, try_ok d lo hi pre post (m, ks1 ++ ks2, cs1 ++ c :: cs2) r →
    ∃ m' ks' cs', ('(adjusted, p') ← r; let '(_, ks', _) := p' in
        Some (p', if (adjusted : bool) then UpperBound ks' key else length cs1)) =
        Some ((m', ks', cs'), UpperBound ks' key) ∧
      seg_step h d lo hi pre post (cs1 ++ c :: cs2) m' ks' cs' ∧ length (ks1 ++ ks2) ≤ length ks' ≤ 2 * h).
  { intros r [-> | (m' & ks' & cs' & -> & Hs & Hlen)].
    - exists m, (ks1 ++ ks2), (cs1 ++ c :: cs2). split; [|split; [done|lia]]. simpl. by rewrite Hi.
    - exists m', ks', cs'. done. }
  unfold AdjustFullChild. destruct d as [|d], c as [|a ks vs|ks cs]; try done; simpl node_keys; cbn [mbind option_bind];
    destruct Hc as [[_ Hsz] _];
    (destruct (Nat.leb_spec (2 * h) (length ks));
      [|exists m, (ks1 ++ ks2); eexists; split; [by rewrite Hi|split; [done|lia]]]); simpl is_leaf; cbn [mbind option_bind].
  - apply Hdone. apply try_full_leaf; [done|lia|done].
  - apply Hdone. apply try_full_internal; [done|lia|done].
Qed.

(** *** Deletion: borrowing from a sibling *)

(** The parent after a deletion step has lost at most one key. *)
Definition fix_ok (d : nat) (lo hi : option string) (pre post : list nat) (p : Parent)
    (r : option Parent) : Prop :=
  ∃ m' ks' cs', r = Some (m', ks', cs') ∧ seg_step h d lo hi pre post (snd p) m' ks' cs' ∧
    length (snd (fst p)) - 1 ≤ length ks' ≤ length (snd (fst p)).

Lemma fix_pair d lo hi pre post m m' ks1 cs1 k n1 n2 ks2 cs2 ksB csB :
  pair_at d lo hi pre post m ks1 cs1 k n1 n2 ks2 cs2 →
  seg_step h d (lo_after lo ks1) (hi_before ks2 hi) (pre ++ flat_map leaves cs1)
    (flat_map leaves cs2 ++ post) [n1; n2] m' ksB csB →
  length ksB ≤ 1 →
  fix_ok d lo hi pre post (m, ks1 ++ k :: ks2, cs1 ++ n1 :: n2 :: cs2)
    (Some (m', ks1 ++ ksB ++ ks2, cs1 ++ csB ++ cs2)).
Proof. intros Hp Hs H1. do 3 eexists. split; [done|]. split; [by eapply pair_step|len]. Qed.

Lemma borrow_leaf lo hi pre post m ks1 cs1 k la lks lvs ra rks rvs ks2 cs2 (from_left : bool) :
  pair_at 0 lo hi pre post m ks1 cs1 k (Leaf la lks lvs) (Leaf ra rks rvs) ks2 cs2 →
  (if from_left then h < length lks ∧ length rks < h else length lks < h ∧ h < length rks) →
  fix_ok 0 lo hi pre post (m, ks1 ++ k :: ks2, cs1 ++ Leaf la lks lvs :: Leaf ra rks rvs :: cs2)
    (BorrowForLeaf (m, ks1 ++ k :: ks2, cs1 ++ Leaf la lks lvs :: Leaf ra rks rvs :: cs2)
       (length cs1) (S (length cs1)) from_left).
Proof.
  intros Hp Hsz. pose proof (pr_len1 _ _ _ _ _ _ _ _ _ _ _ _ _ Hp) as L1.
  destruct (pr_seq _ _ _ _ _ _ _ _ _ _ _ _ _ Hp) as [Hl Hr]. simpl in Hl, Hr.
  destruct Hl as [Hl Ol], Hr as [Hr Or]. pose proof (lk_len _ _ _ _ Ol). pose proof (lk_len _ _ _ _ Or).
  unfold BorrowForLeaf. vec_run. destruct from_left.
  - split_last lks lks' x. split_last lvs lvs' v. rewrite !last_snoc. vec_run.
    eapply (fix_pair 0 _ _ _ _ m m _ _ _ _ _ _ _ [x] [_; _]); [exact Hp| |done].
    eapply leaf_move_right; [done|apply Hp|len|len|apply Hp].
  - split_first rks x rks. split_first rks y rks. split_first rvs v rvs. vec_run.
    eapply (fix_pair 0 _ _ _ _ m m _ _ _ _ _ _ _ [y] [_; _]); [exact Hp| |done].
    eapply leaf_move_left; [done|apply Hp|len|len|apply Hp].
Qed.

Lemma borrow_internal d lo hi pre post m ks1 cs1 k lks lcs rks rcs ks2 cs2 (from_left : bool) :
  pair_at (S d) lo hi pre post m ks1 cs1 k (Internal lks lcs) (Internal rks rcs) ks2 cs2 →
  (if from_left then h < length lks ∧ length rks < h else length lks < h ∧ h < length rks) →
  fix_ok (S d) lo hi pre post (m, ks1 ++ k :: ks2, cs1 ++ Internal lks lcs :: Internal rks rcs :: cs2)
    (BorrowForInternal (m, ks1 ++ k :: ks2, cs1 ++ Internal lks lcs :: Internal rks rcs :: cs2)
       (length cs1) (S (length cs1)) from_left).
Proof.
  intros Hp Hsz. pose proof (pr_len1 _ _ _ _ _ _ _ _ _ _ _ _ _ Hp) as L1.
  destruct (pr_seq _ _ _ _ _ _ _ _ _ _ _ _ _ Hp) as [Hl Hr]. simpl in Hl, Hr.
  destruct Hl as [Hl Ol], Hr as [Hr Or].
  pose proof (wf_seq_length _ _ _ _ _ Ol). pose proof (wf_seq_length _ _ _ _ _ Or).
  unfold BorrowForInternal. vec_run. destruct from_left.
  - split_last lks lks' x. split_last lcs lcs' c. rewrite !last_snoc. vec_run.
    eapply (fix_pair (S d) _ _ _ _ m m _ _ _ _ _ _ _ [x] [_; _]); [exact Hp| |done].
    eapply internal_move_right; [done|apply Hp|len|len|apply Hp].
  - split_first rks x rks. split_first rcs c rcs. vec_run.
    eapply (fix_pair (S d) _ _ _ _ m m _ _ _ _ _ _ _ [x] [_; _]); [exact Hp| |done].
    eapply internal_move_left; [done|apply Hp|len|len|apply Hp].
Qed.

(** *** Deletion: merging two siblings *)

Lemma merge_leaves lo hi pre post m ks1 cs1 k la lks lvs ra rks rvs ks2 cs2 :
  pair_at 0 lo hi pre post m ks1 cs1 k (Leaf la lks lvs) (Leaf ra rks rvs) ks2 cs2 →
  h ≤ length lks + length rks ≤ 2 * h →
  fix_ok 0 lo hi pre post (m, ks1 ++ k :: ks2, cs1 ++ Leaf la lks lvs :: Leaf ra rks rvs :: cs2)
    (MergeLeaves (m, ks1 ++ k :: ks2, cs1 ++ Leaf la lks lvs :: Leaf ra rks rvs :: cs2)
       (length cs1) (S (length cs1))).
Proof.
  intros Hp Hsz. pose proof (pr_len1 _ _ _ _ _ _ _ _ _ _ _ _ _ Hp) as L1.
  pose proof (pr_mem _ _ _ _ _ _ _ _ _ _ _ _ _ Hp) as Hm. rewrite !flat_leaves_cons in Hm.
  destruct (merge_mem _ _ _ _ _ Hm) as (nxt & m1 & m2 & E1 & E2 & E3 & Hm').
  destruct (join_leaves2 h Hh _ _ _ _ _ _ _ _ _ (pr_seq _ _ _ _ _ _ _ _ _ _ _ _ _ Hp)) as (J & J1 & J2).
  unfold MergeLeaves. vec_run. rewrite E1; cbn [mbind option_bind]. rewrite E2; cbn [mbind option_bind].
  rewrite E3; cbn [mbind option_bind]. vec_run.
  eapply (fix_pair 0 _ _ _ _ m _ _ _ _ _ _ _ _ [] [_]); [exact Hp| |len].
  split; [split; [len|exact J]| |exact Hm'].
  simpl. by rewrite zip_app, !app_nil_r by done.
Qed.

Lemma merge_internals d lo hi pre post m ks1 cs1 k lks lcs rks rcs ks2 cs2 :
  pair_at (S d) lo hi pre post m ks1 cs1 k (Internal lks lcs) (Internal rks rcs) ks2 cs2 →
  h ≤ length lks + length rks < 2 * h →
  fix_ok (S d) lo hi pre post (m, ks1 ++ k :: ks2, cs1 ++ Internal lks lcs :: Internal rks rcs :: cs2)
    (MergeInternal (m, ks1 ++ k :: ks2, cs1 ++ Internal lks lcs :: Internal rks rcs :: cs2)
       (length cs1) (S (length cs1))).
Proof.
  intros Hp Hsz. pose proof (pr_len1 _ _ _ _ _ _ _ _ _ _ _ _ _ Hp) as L1.
  destruct (join_internals2 h d _ _ _ _ _ _ _ (pr_seq _ _ _ _ _ _ _ _ _ _ _ _ _ Hp)) as (J & J1 & J2).
  pose proof (pr_mem _ _ _ _ _ _ _ _ _ _ _ _ _ Hp) as Hm. unfold MergeInternal. vec_run.
  eapply (fix_pair (S d) _ _ _ _ m m _ _ _ _ _ _ _ [] [_]); [exact Hp| |len].
  rewrite flat_internal2 in Hm by apply leaves_internal.
  split; [split; [len|exact J]| |].
  - rewrite flat_internal2 by done. simpl. by rewrite app_nil_r.
  - cbn [flat_map]. by rewrite leaves_internal, app_nil_r.
Qed.

(** *** Deletion: three siblings become two *)

Record triple_at (d : nat) (lo hi : option string) (pre post : list nat) (m : Mem)
    (ks1 : list string) (cs1 : list node) (k k' : string) (n1 n2 n3 : node)
    (ks2 : list string) (cs2 : list node) : Prop := {
  tr_len1 : length ks1 = length cs1;
  tr_len2 : length ks2 = length cs2;
  tr_pre : wf_pre (good h d) lo ks1 cs1;
  tr_post : wf_post (good h d) hi ks2 cs2;
  tr_seq : wf_seq (loose h d) (lo_after lo ks1) (hi_before ks2 hi) [k; k'] [n1; n2; n3];
  tr_mem : mem_ok m ((pre ++ flat_map leaves cs1) ++ flat_map leaves [n1; n2; n3] ++ (flat_map leaves cs2 ++ post))
}.

(** The number of keys of a node. *)
Definition key_count (n : node) : nat :=
  match n with Null => 0 | Leaf _ ks _ | Internal ks _ => length ks end.

Definition is_leaf_depth (d : nat) : bool := match d with 0 => true | S _ => false end.

Lemma three_to_two_leaf lo hi pre post m ks1 cs1 k k' n1 n2 n3 ks2 cs2 :
  triple_at 0 lo hi pre post m ks1 cs1 k k' n1 n2 n3 ks2 cs2 →
  3 * h - 1 ≤ key_count n1 + key_count n2 + key_count n3 < 4 * h →
  ∃ m' ks' cs', TryThreeToTwoLeaf (2 * h) (m, ks1 ++ k :: k' :: ks2, cs1 ++ n1 :: n2 :: n3 :: cs2)
      (length cs1) = Some (true, (m', ks', cs')) ∧
    seg_step h 0 lo hi pre post (cs1 ++ n1 :: n2 :: n3 :: cs2) m' ks' cs' ∧
    length ks' = S (length (ks1 ++ ks2)).
Proof.
  intros [L1 L2 H1 H2 Hs Hm] Hsz.
  destruct n1 as [|la lks lvs|]; try (by destruct Hs as [? _]).
  destruct n2 as [|ma mks mvs|]; try (by destruct Hs as (_ & ? & _)).
  destruct n3 as [|ra rks rvs|]; try (by destruct Hs as (_ & _ & ?)).
  destruct (join_leaves3 h Hh _ _ _ _ _ _ _ _ _ _ _ _ _ Hs) as (J & J1 & J2 & J3).
  rewrite !flat_leaves_cons in Hm.
  destruct (three_to_two_mem _ _ _ _ _ _ Hm) as (nxt & m1 & m2 & m3 & m4 & E1 & E2 & E3 & E4 & E5 & Hm').
  unfold TryThreeToTwoLeaf. rewrite (proj2 (Nat.leb_gt (length (cs1 ++ _)) _)) by len.
  replace (length cs1 + 1) with (S (length cs1)) by lia.
  replace (length cs1 + 2) with (S (S (length cs1))) by lia. vec_run.
  set (T := length (lks ++ mks ++ rks)). assert (3 * h - 1 ≤ T < 4 * h) as HT by (subst T; len).
  set (n := T / 2). rewrite !min_keys_even.
  assert (h ≤ n ≤ 2 * h ∧ h ≤ T - n ≤ 2 * h) as [B1 B2] by (subst n; div_lia).
  rewrite (proj2 (Nat.ltb_ge (2 * (2 * h)) T)), (proj2 (Nat.ltb_ge T (h * 2))),
    (proj2 (Nat.ltb_ge n h)), (proj2 (Nat.ltb_ge (T - n) h)) by lia. cbn [orb].
  rewrite E1; cbn [mbind option_bind]. rewrite E2; cbn [mbind option_bind]. rewrite E3; cbn [mbind option_bind].
  rewrite E4; cbn [mbind option_bind]. rewrite E5; cbn [mbind option_bind].
  destruct (cut_leaves2 h Hh _ _ n _ _ la ma J) as (k1 & Hk1 & Hw); [lia|subst T; lia|].
  rewrite Hk1. vec_run. do 3 eexists. split; [done|]. split; [|len].
  apply (seg_step_lift h 0 lo hi pre post ks1 ks2 cs1 cs2 [_; _; _] _ [k1] [_; _]); try done.
  split; [exact Hw| |exact Hm']. simpl. rewrite !app_nil_r, zip_take_drop.
  by rewrite !zip_app by done.
Qed.

Lemma three_to_two_internal d lo hi pre post m ks1 cs1 k k' n1 n2 n3 ks2 cs2 :
  triple_at (S d) lo hi pre post m ks1 cs1 k k' n1 n2 n3 ks2 cs2 →
  3 * h - 1 ≤ key_count n1 + key_count n2 + key_count n3 < 4 * h →
  ∃ m' ks' cs', TryThreeToTwoInternal (2 * h) (m, ks1 ++ k :: k' :: ks2, cs1 ++ n1 :: n2 :: n3 :: cs2)
      (length cs1) = Some (true, (m', ks', cs')) ∧
    seg_step h (S d) lo hi pre post (cs1 ++ n1 :: n2 :: n3 :: cs2) m' ks' cs' ∧
    length ks' = S (length (ks1 ++ ks2)).
Proof.
  intros [L1 L2 H1 H2 Hs Hm] Hsz.
  destruct n1 as [| |lks lcs]; try (by destruct Hs as [? _]).
  destruct n2 as [| |mks mcs]; try (by destruct Hs as (_ & ? & _)).
  destruct n3 as [| |rks rcs]; try (by destruct Hs as (_ & _ & ?)).
  destruct (join_internals3 h d _ _ _ _ _ _ _ _ _ _ Hs) as (J & J1 & J2 & J3).
  unfold TryThreeToTwoInternal. rewrite (proj2 (Nat.leb_gt (length (cs1 ++ _)) _)) by len.
  replace (length cs1 + 1) with (S (length cs1)) by lia.
  replace (length cs1 + 2) with (S (S (length cs1))) by lia. vec_run.
  set (all := lks ++ k :: mks ++ k' :: rks) in *. set (T := length all).
  assert (3 * h + 1 ≤ T < 4 * h + 2) as HT by (subst T all; len).
  set (n := T / 2). replace (MinInternalKeys (2 * h)) with h by (symmetry; apply min_keys_even).
  assert (h ≤ n ≤ 2 * h ∧ h ≤ T - n - 1 ≤ 2 * h) as [B1 B2] by (subst n; div_lia).
  rewrite (proj2 (Nat.ltb_ge (2 * (2 * h) + 1) T)), (proj2 (Nat.ltb_ge T (h * 2 + 1))),
    (proj2 (Nat.ltb_ge n h)), (proj2 (Nat.ltb_ge (T - n - 1) h)) by lia. cbn [orb].
  destruct (cut_internals2 h Hh d _ _ n _ _ J) as (k1 & Hk1 & Hw); [lia|subst T; lia|].
  pose proof (wf_seq_length _ _ _ _ _ J) as HL.
  rewrite Hk1, (take_ge (drop (n + 1) _)) by (rewrite length_drop; subst T; lia). vec_run.
  do 3 eexists. split; [done|]. split; [|len].
  apply (seg_step_lift h (S d) lo hi pre post ks1 ks2 cs1 cs2 [_; _; _] _ [k1] [_; _]); try done.
  rewrite flat_internal3 in Hm by apply leaves_internal.
  split; [exact Hw| |].
  - rewrite flat_internal2, flat_internal3 by done. by rewrite take_drop.
  - rewrite flat_internal2 by apply leaves_internal. by rewrite take_drop.
Qed.

Lemma three_to_two d lo hi pre post m ks1 cs1 k k' n1 n2 n3 ks2 cs2 :
  triple_at d lo hi pre post m ks1 cs1 k k' n1 n2 n3 ks2 cs2 →
  3 * h - 1 ≤ key_count n1 + key_count n2 + key_count n3 < 4 * h →
  ∃ m' ks' cs', TryThreeToTwo (2 * h) (is_leaf_depth d)
      (m, ks1 ++ k :: k' :: ks2, cs1 ++ n1 :: n2 :: n3 :: cs2) (length cs1) = Some (true, (m', ks', cs')) ∧
    seg_step h d lo hi pre post (cs1 ++ n1 :: n2 :: n3 :: cs2) m' ks' cs' ∧
    length ks' = S (length (ks1 ++ ks2)).
Proof. destruct d; [apply three_to_two_leaf|apply three_to_two_internal]. Qed.

(** *** The repair of a child that lacks a key *)

Lemma wf_node_size d mn mx lo hi n : wf_node h d mn mx lo hi n → mn ≤ key_count n ≤ mx.
Proof. by destruct d, n; simpl; try done; intros [? _]. Qed.

Lemma wf_node_kind d mn mx lo hi n : wf_node h d mn mx lo hi n →
  is_leaf n = Some (is_leaf_depth d) ∧ ∃ ks, node_keys n = Some ks ∧ length ks = key_count n.
Proof. destruct d, n; simpl; try done; intros _; split; eauto. Qed.

Lemma merge_pair d lo hi pre post m ks1 cs1 k n1 n2 ks2 cs2 :
  pair_at d lo hi pre post m ks1 cs1 k n1 n2 ks2 cs2 → h ≤ key_count n1 + key_count n2 < 2 * h →
  let p := (m, ks1 ++ k :: ks2, cs1 ++ n1 :: n2 :: cs2) in
  fix_ok d lo hi pre post p
    (if is_leaf_depth d then MergeLeaves p (length cs1) (S (length cs1))
     else MergeInternal p (length cs1) (S (length cs1))).
Proof.
  intros Hp Hsz p. destruct (pr_seq _ _ _ _ _ _ _ _ _ _ _ _ _ Hp) as [H1 H2].
  destruct d as [|d], n1, n2; try done; simpl in *.
  - apply merge_leaves; [done|lia].
  - apply merge_internals; [done|lia].
Qed.

Lemma borrow_pair d lo hi pre post m ks1 cs1 k n1 n2 ks2 cs2 (from_left : bool) :
  pair_at d lo hi pre post m ks1 cs1 k n1 n2 ks2 cs2 →
  (if from_left then h < key_count n1 ∧ key_count n2 < h else key_count n1 < h ∧ h < key_count n2) →
  let p := (m, ks1 ++ k :: ks2, cs1 ++ n1 :: n2 :: cs2) in
  fix_ok d lo hi pre post p
    (if is_leaf_depth d then BorrowForLeaf p (length cs1) (S (length cs1)) from_left
     else BorrowForInternal p (length cs1) (S (length cs1)) from_left).
Proof.
  intros Hp Hsz p. destruct (pr_seq _ _ _ _ _ _ _ _ _ _ _ _ _ Hp) as [H1 H2].
  destruct d as [|d], n1, n2; try done; simpl in *.
  - by apply borrow_leaf.
  - by apply borrow_internal.
Qed.

(** [FixByMerging] with a triple of siblings at [j]. *)
Lemma fix_triple d lo hi pre post m ks1 cs1 k k' n1 n2 n3 ks2 cs2 i :
  triple_at d lo hi pre post m ks1 cs1 k k' n1 n2 n3 ks2 cs2 →
  3 * h - 1 ≤ key_count n1 + key_count n2 + key_count n3 < 4 * h →
  (i = S (length cs1) ∨ (i = 0 ∧ cs1 = []) ∨ (i = S (S (length cs1)) ∧ cs2 = [])) →
  fix_ok d lo hi pre post (m, ks1 ++ k :: k' :: ks2, cs1 ++ n1 :: n2 :: n3 :: cs2)
    (FixByMerging (2 * h) (m, ks1 ++ k :: k' :: ks2, cs1 ++ n1 :: n2 :: n3 :: cs2) i (is_leaf_depth d)).
Proof.
  intros Ht Hsz Hi. destruct (three_to_two _ _ _ _ _ _ _ _ _ _ _ _ _ _ _ Ht Hsz) as (m' & ks' & cs' & E & Hs & HL).
  assert (Hfix : fix_ok d lo hi pre post (m, ks1 ++ k :: k' :: ks2, cs1 ++ n1 :: n2 :: n3 :: cs2)
    (Some (m', ks', cs'))) by (exists m', ks', cs'; split; [done|split; [done|len]]).
  unfold FixByMerging. set (sz := length (cs1 ++ n1 :: n2 :: n3 :: cs2)).
  assert (3 + length cs1 + length cs2 = sz) as Hz by (subst sz; len).
  rewrite (proj2 (Nat.leb_le 3 sz)) by lia. unfold try_when.
  destruct Hi as [-> | [[-> ->] | [-> ->]]]; simpl in Hz.
  - rewrite (proj2 (Nat.ltb_lt 0 _)), (proj2 (Nat.ltb_lt (S _ + 1) sz)) by lia.
    replace (S (length cs1) - 1) with (length cs1) by lia. cbn [andb]. by rewrite E.
  - replace (0 <? 0) with false by done. rewrite (proj2 (Nat.ltb_lt (0 + 2) sz)) by lia.
    cbn [andb or_else mbind option_bind]. simpl length in E. by rewrite E.
  - rewrite (proj2 (Nat.ltb_ge (S (S _) + 1) sz)), (proj2 (Nat.ltb_ge (S (S _) + 2) sz)) by lia.
    rewrite andb_false_r, (proj2 (Nat.leb_le 2 (S _))) by lia.
    replace (S (S (length cs1)) - 2) with (length cs1) by lia.
    cbn [or_else mbind option_bind]. by rewrite E.
Qed.

Lemma around_triple d lo hi pre post m ks1 cs1 k f c k' r ks2 cs2 :
  around d lo hi pre post m (ks1 ++ [k]) (cs1 ++ [f]) c (k' :: ks2) (r :: cs2) →
  triple_at d lo hi pre post m ks1 cs1 k k' f c r ks2 cs2.
Proof.
  intros Ha. pose proof (around_right _ _ _ _ _ _ _ _ _ _ _ _ _ Ha) as [_ Hr].
  apply around_left in Ha as [[L1 L2 H1 H2 [Hf Hc] Hm] _]. simpl in *. simplify_eq/=.
  destruct H2 as [_ H2]. split; try done.
  - simpl. split_and!; [done|done|by apply good_loose].
  - by flat_norm.
Qed.

Lemma around_triple_right d lo hi pre post m ks1 cs1 c k r k' r' ks2 cs2 :
  around d lo hi pre post m ks1 cs1 c (k :: k' :: ks2) (r :: r' :: cs2) →
  triple_at d lo hi pre post m ks1 cs1 k k' c r r' ks2 cs2.
Proof.
  intros [[L1 L2 H1 H2 [Hc Hr] Hm] _]%around_right. simpl in *. simplify_eq/=.
  destruct H2 as [Hr' H2]. split; try done.
  - simpl. split_and!; [done|done|by apply good_loose].
  - by flat_norm.
Qed.

Lemma around_triple_left d lo hi pre post m ks1 cs1 k f' k' f c ks2 cs2 :
  around d lo hi pre post m (ks1 ++ [k; k']) (cs1 ++ [f'; f]) c ks2 cs2 →
  triple_at d lo hi pre post m ks1 cs1 k k' f' f c ks2 cs2.
Proof.
  rewrite (app_assoc ks1 [k] [k'] : ks1 ++ [k; k'] = _), (app_assoc cs1 [f'] [f] : cs1 ++ [f'; f] = _).
  intros [[L1 L2 H1 H2 [Hf Hc] Hm] _]%around_left. rewrite !length_app in L1. simpl in L1.
  apply wf_pre_snoc in H1 as [H1 Hf']; [|lia]. rewrite lo_after_snoc in Hf. split; try done.
  - lia.
  - simpl. split_and!; [by apply good_loose|done|done].
  - by flat_norm.
Qed.

(** [FixByMerging] on a parent with two children. *)
Lemma fix_two d lo hi pre post m k n1 n2 i :
  pair_at d lo hi pre post m [] [] k n1 n2 [] [] → h ≤ key_count n1 + key_count n2 < 2 * h → i < 2 →
  fix_ok d lo hi pre post (m, [k], [n1; n2]) (FixByMerging (2 * h) (m, [k], [n1; n2]) i (is_leaf_depth d)).
Proof.
  intros Hp Hsz Hi. pose proof (merge_pair _ _ _ _ _ _ _ _ _ _ _ _ _ Hp Hsz) as Hmp.
  destruct i as [|[|]]; [| |lia]; exact Hmp.
Qed.

Lemma fix_by_merging d lo hi pre post m ks1 cs1 c ks2 cs2 :
  around d lo hi pre post m ks1 cs1 c ks2 cs2 → 1 ≤ length (ks1 ++ ks2) → key_count c = h - 1 →
  (∀ cs0 f, cs1 = cs0 ++ [f] → key_count f ≤ h) → (∀ r cs3, cs2 = r :: cs3 → key_count r ≤ h) →
  fix_ok d lo hi pre post (m, ks1 ++ ks2, cs1 ++ c :: cs2)
    (FixByMerging (2 * h) (m, ks1 ++ ks2, cs1 ++ c :: cs2) (length cs1) (is_leaf_depth d)).
Proof.
  intros Ha Hne Hc Hleft Hright.
  pose proof (ar_len1 _ _ _ _ _ _ _ _ _ _ _ Ha) as L1. pose proof (ar_len2 _ _ _ _ _ _ _ _ _ _ _ Ha) as L2.
  destruct cs1 as [|f cs0 _] using rev_ind.
  - destruct ks1; [|done]. destruct cs2 as [|r [|r' cs3]], ks2 as [|k [|k' ks3]]; try (simpl in *; lia).
    + apply around_right in Ha as [Hp Hr%wf_node_size]. specialize (Hright _ _ eq_refl).
      apply fix_two; [done|lia|simpl; lia].
    + pose proof (around_triple_right _ _ _ _ _ _ _ _ _ _ _ _ _ _ _ Ha) as Ht.
      pose proof (tr_post _ _ _ _ _ _ _ _ _ _ _ _ _ _ _ Ht). destruct (ar_post _ _ _ _ _ _ _ _ _ _ _ Ha) as (Hr & Hr' & _).
      apply wf_node_size in Hr, Hr'. specialize (Hright _ _ eq_refl).
      apply (fix_triple d lo hi pre post m [] [] k k' c r r'); [done|lia|by right; left].
  - destruct ks1 as [|k ks0 _] using rev_ind; [len|]. specialize (Hleft _ _ eq_refl).
    pose proof (around_left _ _ _ _ _ _ _ _ _ _ _ _ _ Ha) as [Hp Hf%wf_node_size].
    destruct cs2 as [|r cs2], ks2 as [|k' ks2]; try done; [|specialize (Hright _ _ eq_refl)].
    + rewrite !length_app in L1. simpl in L1.
      destruct cs0 as [|f' cs0 _] using rev_ind.
      * destruct ks0; [|simpl in L1; lia]. apply fix_two; [done|lia|simpl; lia].
      * destruct ks0 as [|k' ks0 _] using rev_ind; [len|]. rewrite <-!app_assoc in *. cbn [app] in *.
        pose proof (around_triple_left _ _ _ _ _ _ _ _ _ _ _ _ _ _ _ Ha) as Ht.
        assert (h ≤ key_count f' ≤ 2 * h).
        { pose proof (pr_pre _ _ _ _ _ _ _ _ _ _ _ _ _ Hp) as Hpre.
          apply wf_pre_snoc in Hpre as [_ Hf'%wf_node_size]; [done|len]. }
        replace (length (cs0 ++ [f'; f])) with (S (S (length cs0))) by len.
        apply fix_triple; [done|lia|by right; right].
    + pose proof (around_triple _ _ _ _ _ _ _ _ _ _ _ _ _ _ _ Ha) as Ht.
      destruct (ar_post _ _ _ _ _ _ _ _ _ _ _ Ha) as [Hr%wf_node_size _].
      rewrite <-!app_assoc in *. cbn [app] in *.
      replace (length (cs0 ++ [f])) with (S (length cs0)) by len.
      apply fix_triple; [done|lia|by left].
Qed.

Lemma keys_size_at cs i n d mn mx lo hi : cs !! i = Some n → wf_node h d mn mx lo hi n → keys_size cs i = Some (key_count n).
Proof.
  intros Hi Hn. destruct (wf_node_kind _ _ _ _ _ _ Hn) as (_ & ks & Hk & HL).
  unfold keys_size. rewrite Hi; cbn [mbind option_bind]. rewrite Hk; cbn [mbind option_bind]. by rewrite HL.
Qed.

(** The second half of [FixChildUnderflow]: no left sibling can lend a key. *)
Lemma fix_from_right d lo hi pre post m ks1 cs1 c ks2 cs2 :
  let p := (m, ks1 ++ ks2, cs1 ++ c :: cs2) in
  let i := length cs1 in
  around d lo hi pre post m ks1 cs1 c ks2 cs2 → 1 ≤ length (ks1 ++ ks2) → key_count c = h - 1 →
  (∀ cs0 f, cs1 = cs0 ++ [f] → key_count f ≤ h) →
  fix_ok d lo hi pre post p
    (right_size ← (if i + 1 <? length (cs1 ++ c :: cs2) then keys_size (cs1 ++ c :: cs2) (i + 1) else Some 0);
     if (i + 1 <? length (cs1 ++ c :: cs2)) && (h <? right_size) then
       if is_leaf_depth d then BorrowForLeaf p i (i + 1) false else BorrowForInternal p i (i + 1) false
     else FixByMerging (2 * h) p i (is_leaf_depth d)).
Proof.
  intros p i Ha Hne Hc Hleft. subst p i. pose proof (ar_len2 _ _ _ _ _ _ _ _ _ _ _ Ha) as L2.
  destruct cs2 as [|r cs2].
  - rewrite (proj2 (Nat.ltb_ge _ (length (cs1 ++ _)))) by len. cbn [mbind option_bind andb].
    by apply fix_by_merging.
  - destruct ks2 as [|k ks2]; [done|]. rewrite (proj2 (Nat.ltb_lt _ (length (cs1 ++ _)))) by len.
    pose proof (around_right _ _ _ _ _ _ _ _ _ _ _ _ _ Ha) as [Hp Hr].
    replace (length cs1 + 1) with (S (length cs1)) by lia.
    rewrite (keys_size_at _ _ r _ _ _ _ _ (vec_at_mid_S cs1 c r cs2 _ eq_refl) Hr). cbn [mbind option_bind andb].
    destruct (Nat.ltb_spec h (key_count r)).
    + apply borrow_pair; [done|lia].
    + apply fix_by_merging; try done. by intros ? ? [= <- _].
Qed.

(** [FixChildUnderflow] after the child at its index lost a key. *)
Lemma fix_child_underflow d lo hi pre post m ks1 cs1 c ks2 cs2 :
  around d lo hi pre post m ks1 cs1 c ks2 cs2 → 1 ≤ length (ks1 ++ ks2) →
  fix_ok d lo hi pre post (m, ks1 ++ ks2, cs1 ++ c :: cs2)
    (FixChildUnderflow (2 * h) (m, ks1 ++ ks2, cs1 ++ c :: cs2) (length cs1)).
Proof.
  intros Ha Hne. pose proof (ar_len1 _ _ _ _ _ _ _ _ _ _ _ Ha) as L1.
  pose proof (ar_len2 _ _ _ _ _ _ _ _ _ _ _ Ha) as L2.
  pose proof (ar_child _ _ _ _ _ _ _ _ _ _ _ Ha) as Hc. pose proof (wf_node_size _ _ _ _ _ _ Hc) as Hsz.
  destruct (wf_node_kind _ _ _ _ _ _ Hc) as (Hk & cks & Hcks & HL).
  unfold FixChildUnderflow. rewrite vec_at_mid by done. cbn [mbind option_bind].
  rewrite Hk; cbn [mbind option_bind]. rewrite Hcks; cbn [mbind option_bind]. rewrite HL.
  replace (MinInternalKeys (2 * h)) with h by (symmetry; apply min_keys_even).
  rewrite min_keys_even. replace (if is_leaf_depth d then h else h) with h by by destruct d.
  rewrite (proj2 (Nat.eqb_neq (length (cs1 ++ _)) 1)), orb_false_r by len.
  destruct (Nat.leb_spec h (key_count c)) as [Hge|Hlt].
  - do 3 eexists. split; [done|]. split; [|simpl; lia].
    change (c :: cs2) with ([c] ++ cs2). apply (seg_step_lift h d lo hi pre post ks1 ks2 cs1 cs2 [c] m [] [c]);
      try apply Ha. split; [|done|].
    + simpl. destruct d, c; try done; (split; [simpl in Hge, Hsz; simpl; lia|apply Hc]).
    + pose proof (ar_mem _ _ _ _ _ _ _ _ _ _ _ Ha). by flat_norm.
  - destruct cs1 as [|f cs0 _] using rev_ind.
    + cbn [length Nat.ltb Nat.leb mbind option_bind andb].
      apply (fix_from_right d lo hi pre post m ks1 [] c ks2 cs2); [done|done|lia|]. by intros [|? ?] f.
    + destruct ks1 as [|k ks0 _] using rev_ind; [len|].
      pose proof (around_left _ _ _ _ _ _ _ _ _ _ _ _ _ Ha) as [Hp Hf].
      rewrite (proj2 (Nat.ltb_lt 0 _)) by len.
      assert (Hkf : keys_size ((cs0 ++ [f]) ++ c :: cs2) (length (cs0 ++ [f]) - 1) = Some (key_count f)).
      { eapply keys_size_at; [|exact Hf]. rewrite <-app_assoc. apply vec_at_mid. len. }
      rewrite Hkf. cbn [mbind option_bind andb]. destruct (Nat.ltb_spec h (key_count f)).
      * rewrite <-!app_assoc. replace (length (cs0 ++ [f]) - 1) with (length cs0) by len.
        replace (length (cs0 ++ [f])) with (S (length cs0)) by len. apply borrow_pair; [done|lia].
      * apply fix_from_right; [done|done|lia|]. intros ? ? [_ <-]%app_inj_tail. lia.
Qed.

End rebalance.
