(* ===== verification/BStarPlusTreeCorrect.v ===== *)
(** * BStarPlusTreeCorrect: the index structure implements an ordered multimap

    [Insert], [Remove], [Find] and [RangeScan] against the sorted association
    list of a tree's contents, for even orders from 6 up (the order the
    database uses is 8), with memory safety ([Some]) and the tree's own
    validation routine as a consequence of the invariant. *)
From Stdlib Require Import ZifyNat.
From S2P Require Import Prelude BStarPlusTree BStarPlusTreeInv BStarPlusTreeSteps BStarPlusTreeRebalance.

(** ** The reference: a sorted association list *)

(** Adds [row] to the row ids of [key]. *)
Fixpoint ins_entries (key : string) (row : Z) (l : list (string * list Z)) : list (string * list Z) :=
  match l with
  | [] => [(key, [row])]
  | (k, v) :: l' =>
      if key <s k then (key, [row]) :: l
      else if k <s key then (k, v) :: ins_entries key row l'
      else (k, if bool_decide (row ∈ v) then v else v ++ [row]) :: l'
  end.

(** Takes [row] out of the row ids of [key]; a key without row ids goes away. *)
Fixpoint rem_entries (key : string) (row : Z) (l : list (string * list Z)) : list (string * list Z) :=
  match l with
  | [] => []
  | (k, v) :: l' =>
      if key <s k then l
      else if k <s key then (k, v) :: rem_entries key row l'
      else match erase_first row v with [] => l' | v' => (k, v') :: l' end
  end.

Fixpoint find_entries (key : string) (l : list (string * list Z)) : list Z :=
  match l with
  | [] => []
  | (k, v) :: l' => if key <s k then [] else if k <s key then find_entries key l' else v
  end.

(** The entries in [[lower, upper)]. *)
Definition range_entries (lower upper : string) (l : list (string * list Z)) : list IndexEntry :=
  map (λ e, MkEntry e.1 e.2) (filter (λ e, sle lower e.1 ∧ slt e.1 upper) l).

Definition below (key : string) (e : string * list Z) : Prop := slt e.1 key.
Definition above (key : string) (e : string * list Z) : Prop := slt key e.1.

Lemma ins_skip key row l1 l2 : Forall (below key) l1 → ins_entries key row (l1 ++ l2) = l1 ++ ins_entries key row l2.
Proof.
  induction 1 as [|[k v] l1 Hk _ IH]; simpl; [done|]. unfold below in Hk; simpl in Hk.
  destruct (str_ltb_spec key k); [sorder|]. destruct (str_ltb_spec k key); [by rewrite IH|sorder].
Qed.

Lemma ins_stop key row l2 l3 : Forall (above key) l3 → ins_entries key row (l2 ++ l3) = ins_entries key row l2 ++ l3.
Proof.
  intros H3. induction l2 as [|[k v] l2 IH]; simpl.
  - destruct H3 as [|[k v] l3 Hk _]; simpl; [done|]. unfold above in Hk; simpl in Hk.
    destruct (str_ltb_spec key k); [done|sorder].
  - destruct (key <s k); [done|]. destruct (k <s key); [by rewrite IH|done].
Qed.

Lemma rem_skip key row l1 l2 : Forall (below key) l1 → rem_entries key row (l1 ++ l2) = l1 ++ rem_entries key row l2.
Proof.
  induction 1 as [|[k v] l1 Hk _ IH]; simpl; [done|]. unfold below in Hk; simpl in Hk.
  destruct (str_ltb_spec key k); [sorder|]. destruct (str_ltb_spec k key); [by rewrite IH|sorder].
Qed.

Lemma rem_stop key row l2 l3 : Forall (above key) l3 → rem_entries key row (l2 ++ l3) = rem_entries key row l2 ++ l3.
Proof.
  intros H3. induction l2 as [|[k v] l2 IH]; simpl.
  - destruct H3 as [|[k v] l3 Hk _]; simpl; [done|]. unfold above in Hk; simpl in Hk.
    destruct (str_ltb_spec key k); [done|sorder].
  - destruct (key <s k); [done|]. destruct (k <s key); [by rewrite IH|]. by destruct (erase_first row v).
Qed.

Lemma find_skip key l1 l2 : Forall (below key) l1 → find_entries key (l1 ++ l2) = find_entries key l2.
Proof.
  induction 1 as [|[k v] l1 Hk _ IH]; simpl; [done|]. unfold below in Hk; simpl in Hk.
  destruct (str_ltb_spec key k); [sorder|]. destruct (str_ltb_spec k key); [done|sorder].
Qed.

Lemma find_stop key l2 l3 : Forall (above key) l3 → find_entries key (l2 ++ l3) = find_entries key l2.
Proof.
  intros H3. induction l2 as [|[k v] l2 IH]; simpl.
  - destruct H3 as [|[k v] l3 Hk _]; simpl; [done|]. unfold above in Hk; simpl in Hk.
    destruct (str_ltb_spec key k); [done|sorder].
  - destruct (key <s k); [done|]. by destruct (k <s key).
Qed.

(** ** Searching in the keys of a node *)

Lemma LowerBound_split keys key : StronglySorted slt keys →
  ∃ k1 k2, keys = k1 ++ k2 ∧ length k1 = LowerBound keys key ∧
    Forall (λ k, slt k key) k1 ∧ Forall (λ k, sle key k) k2.
Proof.
  induction 1 as [|k keys Hs IH Hk]; simpl; [by exists [], []|].
  destruct (str_ltb_spec k key).
  - destruct IH as (k1 & k2 & -> & <- & H1 & H2). exists (k :: k1), k2. simpl. auto.
  - exists [], (k :: keys). split_and!; [done|done|done|]. constructor; [done|].
    eapply Forall_impl; [exact Hk|]. simpl. intros. sorder.
Qed.

(** The child a search descends into, with its bounds. *)
Lemma UpperBound_split P lo hi keys cs key :
  wf_seq P lo hi keys cs → in_lo lo key → in_hi hi key →
  ∃ ks1 ks2 cs1 c cs2, keys = ks1 ++ ks2 ∧ cs = cs1 ++ c :: cs2 ∧ length ks1 = length cs1 ∧
    length ks2 = length cs2 ∧ UpperBound keys key = length cs1 ∧
    wf_pre P lo ks1 cs1 ∧ P (lo_after lo ks1) (hi_before ks2 hi) c ∧ wf_post P hi ks2 cs2 ∧
    in_lo (lo_after lo ks1) key ∧ in_hi (hi_before ks2 hi) key.
Proof.
  revert lo cs. induction keys as [|k keys IH]; intros lo cs Hw Hlo Hhi; simpl in Hw.
  - destruct cs as [|c [|]]; try done. by exists [], [], [], c, [].
  - destruct cs as [|c cs]; [done|]. simpl. destruct (str_ltb_spec key k) as [Hk|Hk].
    + exists [], (k :: keys), [], c, cs. split_and!; try done; simpl.
      * destruct Hw as [_ ->%wf_seq_length]. done.
      * apply Hw.
      * apply (wf_seq_post P lo hi [] (k :: keys) [c] cs); [done| |done].
        destruct Hw as [_ ->%wf_seq_length]. done.
    + destruct Hw as [Hc Hw]. destruct (IH _ _ Hw Hk Hhi) as
        (ks1 & ks2 & cs1 & c' & cs2 & -> & -> & L1 & L2 & -> & H1 & H2 & H3 & H4 & H5).
      exists (k :: ks1), ks2, (c :: cs1), c', cs2. rewrite lo_after_cons. simpl. split_and!; try done. lia.
Qed.

(** ** Contents between bounds *)

Section correct.
Context (h : nat).
Context (Hh : 3 ≤ h).

Definition between (lo hi : option string) (e : string * list Z) : Prop := in_lo lo e.1 ∧ in_hi hi e.1.

Lemma leaf_ok_between lo hi ks vs : leaf_ok lo hi ks vs → Forall (between lo hi) (zip ks vs).
Proof.
  intros [L _ A B _]. revert vs L. induction ks as [|k ks IH]; intros [|v vs] L; simpl; try done.
  apply Forall_cons in A as [A1 A2]. apply Forall_cons in B as [B1 B2]. constructor; [done|].
  apply IH; try done. by injection L.
Qed.

Lemma good_inhabited d lo hi n : good h d lo hi n → ∃ x, in_lo lo x ∧ in_hi hi x.
Proof. apply wf_node_inhabited; [done|lia]. Qed.

(** Entries left of the child that [key] belongs to are below [key], ... *)
Lemma pre_below d lo ks cs key :
  (∀ lo hi n, good h d lo hi n → Forall (between lo hi) (entries n)) →
  length ks = length cs → wf_pre (good h d) lo ks cs → in_lo (lo_after lo ks) key →
  Forall (below key) (flat_map entries cs) ∧ in_lo lo key.
Proof.
  intros Hent. revert key ks. induction cs as [|c cs IH] using rev_ind; intros key ks HL Hw Hk.
  - destruct ks; [|done]. simpl. done.
  - destruct ks as [|k ks _] using rev_ind; [rewrite length_app in HL; simpl in HL; lia|].
    rewrite !length_app in HL. simpl in HL. apply wf_pre_snoc in Hw as [Hw Hc]; [|lia].
    rewrite lo_after_snoc in Hk. simpl in Hk.
    destruct (good_inhabited _ _ _ _ Hc) as (x & Hx1 & Hx2). simpl in Hx2.
    destruct (IH key ks) as [H1 H2]; [lia|done|eapply in_lo_mono; [done|sorder]|].
    split; [|done]. rewrite flat_map_app. apply Forall_app. split; [done|]. simpl. rewrite app_nil_r.
    eapply Forall_impl; [by apply (Hent _ _ _ Hc)|]. intros e [_ He]. simpl in He. unfold below. sorder.
Qed.

(** ... and entries right of it are above. *)
Lemma post_above d hi ks cs key :
  (∀ lo hi n, good h d lo hi n → Forall (between lo hi) (entries n)) →
  wf_post (good h d) hi ks cs → in_hi (hi_before ks hi) key →
  Forall (above key) (flat_map entries cs) ∧ in_hi hi key.
Proof.
  intros Hent. revert ks. induction cs as [|c cs IH]; intros [|k ks] Hw Hk; try done; simpl in *.
  destruct Hw as [Hc Hw].
  destruct (good_inhabited _ _ _ _ Hc) as (x & Hx1 & Hx2). simpl in Hx1.
  change (in_hi (hi_before ks hi) x) in Hx2.
  destruct (IH ks Hw) as [H1 H2]; [eapply in_hi_mono; [exact Hx2|sorder]|].
  split; [|done]. apply Forall_app. split; [|done].
  eapply Forall_impl; [by apply (Hent _ _ _ Hc)|]. intros e [He _]. simpl in He. unfold above. sorder.
Qed.

Lemma wf_seq_between d lo hi ks cs :
  (∀ lo hi n, good h d lo hi n → Forall (between lo hi) (entries n)) →
  wf_seq (good h d) lo hi ks cs → Forall (between lo hi) (flat_map entries cs).
Proof.
  intros Hent. revert lo cs. induction ks as [|k ks IH]; intros lo cs Hw; simpl in Hw.
  - destruct cs as [|c [|]]; try done. simpl. rewrite app_nil_r. by apply Hent.
  - destruct cs as [|c cs]; [done|]. destruct Hw as [Hc Hw]. simpl.
    destruct (good_inhabited _ _ _ _ Hc) as (x & Hx1 & Hx2).
    destruct (wf_seq_inhabited _ _ _ _ _ (good_inhabited d) Hw) as (y & Hy1 & Hy2). simpl in *.
    apply Forall_app. split.
    + eapply Forall_impl; [by apply (Hent _ _ _ Hc)|]. intros e [He1 He2]. simpl in He2. split; [done|].
      eapply in_hi_mono; [exact Hy2|sorder].
    + eapply Forall_impl; [by apply IH|]. intros e [He1 He2]. simpl in He1. split; [|done].
      eapply in_lo_mono; [exact Hx1|sorder].
Qed.

Lemma entries_between d mn mx lo hi n : wf_node h d mn mx lo hi n → Forall (between lo hi) (entries n).
Proof.
  revert mn mx lo hi n. induction d as [|d IH]; intros mn mx lo hi [|a ks vs|ks cs]; simpl; try done.
  - intros [_ Hl]. by apply leaf_ok_between.
  - intros [_ Hw]. eapply wf_seq_between; [|exact Hw]. intros. by eapply IH.
Qed.

(** The contents around the child that [key] belongs to. *)
Lemma around_contents d lo hi ks1 cs1 ks2 cs2 key :
  length ks1 = length cs1 → wf_pre (good h d) lo ks1 cs1 → wf_post (good h d) hi ks2 cs2 →
  in_lo (lo_after lo ks1) key → in_hi (hi_before ks2 hi) key →
  Forall (below key) (flat_map entries cs1) ∧ Forall (above key) (flat_map entries cs2).
Proof.
  intros L H1 H2 Hlo Hhi. split.
  - eapply pre_below; try done. intros. by eapply entries_between.
  - eapply post_above; try done. intros. by eapply entries_between.
Qed.

(** ** Insertion *)

(** What [InsertRecursive] returns for a node: the node with the entry added,
    possibly split in two. *)
Definition ins_ok (d mn : nat) (lo hi : option string) (pre post : list nat) (n : node)
    (key : string) (row : Z) (r : option (Mem * node * option Split)) : Prop :=
  (∃ m' n', r = Some (m', n', None) ∧ wf_node h d mn (2 * h) lo hi n' ∧
     entries n' = ins_entries key row (entries n) ∧ mem_ok m' (pre ++ leaves n' ++ post)) ∨
  (∃ m' n' s r', r = Some (m', n', Some (MkSplit s r')) ∧ wf_seq (good h d) lo hi [s] [n'; r'] ∧
     flat_map entries [n'; r'] = ins_entries key row (entries n) ∧
     mem_ok m' (pre ++ flat_map leaves [n'; r'] ++ post)).

Lemma Forall_zip_fst (P : string → Prop) (Q : string * list Z → Prop) ks vs :
  (∀ k v, P k → Q (k, v)) → Forall P ks → Forall Q (zip ks vs).
Proof. intros HPQ H. revert vs. induction H; intros [|v vs]; simpl; constructor; auto. Qed.

(** A leaf cut at the position of [key]. *)
Lemma leaf_ok_at lo hi ks vs key : leaf_ok lo hi ks vs →
  ∃ k1 k2 v1 v2, ks = k1 ++ k2 ∧ vs = v1 ++ v2 ∧ length k1 = LowerBound ks key ∧ length v1 = length k1 ∧
    length v2 = length k2 ∧ Forall (below key) (zip k1 v1) ∧ Forall (λ k, slt k key) k1 ∧ Forall (λ k, sle key k) k2.
Proof.
  intros Hl. destruct (LowerBound_split ks key (lk_sorted _ _ _ _ Hl)) as (k1 & k2 & -> & L & H1 & H2).
  pose proof (lk_len _ _ _ _ Hl) as HL. rewrite length_app in HL.
  destruct (list_split_len vs (length k1)) as (v1 & v2 & -> & Lv); [lia|]. rewrite length_app in HL.
  exists k1, k2, v1, v2. split_and!; try done; [lia|]. by eapply Forall_zip_fst; [|exact H1].
Qed.

Lemma leaf_ok_set lo hi k1 k k2 v1 v v' v2 :
  length v1 = length k1 → v' ≠ [] →
  leaf_ok lo hi (k1 ++ k :: k2) (v1 ++ v :: v2) → leaf_ok lo hi (k1 ++ k :: k2) (v1 ++ v' :: v2).
Proof.
  intros HL Hv [L S A B V]. split; try done.
  - rewrite !length_app in *. done.
  - apply Forall_app in V as [V1 V2]. apply Forall_cons in V2 as [_ V2]. apply Forall_app. auto.
Qed.

Lemma leaf_ok_add lo hi k1 k k2 v1 v v2 :
  v ≠ [] → in_lo lo k → in_hi hi k → Forall (λ x, slt x k) k1 → Forall (λ x, slt k x) k2 →
  leaf_ok lo hi (k1 ++ k2) (v1 ++ v2) → leaf_ok lo hi (k1 ++ k :: k2) (v1 ++ v :: v2).
Proof.
  intros Hv Hlo Hhi H1 H2 [L S A B V]. apply StronglySorted_slt_app in S as (S1 & S2 & S3).
  apply Forall_app in A as [A1 A2]. apply Forall_app in B as [B1 B2]. apply Forall_app in V as [V1 V2].
  rewrite Forall_forall in H1. split.
  - rewrite !length_app in *. simpl. lia.
  - apply StronglySorted_slt_app. split_and!; [done|by constructor|].
    intros x y Hx [->|Hy]%elem_of_cons; auto.
  - apply Forall_app. auto.
  - apply Forall_app. auto.
  - apply Forall_app. auto.
Qed.

(** [SplitLeaf] of a leaf with one key too many. *)
Lemma split_leaf lo hi pre post m a ks vs :
  leaf_ok lo hi ks vs → length ks = S (2 * h) → mem_ok m (pre ++ [a] ++ post) →
  ∃ m' n' s r', SplitLeaf m a ks vs = Some (m', n', MkSplit s r') ∧
    wf_seq (good h 0) lo hi [s] [n'; r'] ∧ flat_map entries [n'; r'] = zip ks vs ∧
    mem_ok m' (pre ++ flat_map leaves [n'; r'] ++ post).
Proof.
  intros Hl HL Hm. destruct (split_mem _ _ _ _ Hm) as (nxt & m1 & m2 & m3 & m4 & E1 & E2 & E3 & E4 & E5 & Hm').
  unfold SplitLeaf. unfold alloc_leaf in *. cbn [snd] in E1, E2. rewrite HL.
  replace (S (2 * h) / 2) with h by lia.
  rewrite E1; cbn [mbind option_bind]. rewrite E2; cbn [mbind option_bind]. rewrite E3; cbn [mbind option_bind].
  rewrite E4; cbn [mbind option_bind]. rewrite E5; cbn [mbind option_bind].
  destruct (cut_leaves2 h Hh _ _ h _ _ a (next_addr m) Hl) as (k & Hk & Hw); [lia..|].
  rewrite Hk. cbn [mbind option_bind]. do 4 eexists. split; [done|]. split; [exact Hw|]. split; [|exact Hm'].
  simpl. by rewrite app_nil_r, zip_take_drop.
Qed.

(** Case analysis on whether [key] is the first of the keys not below it. *)
Lemma key_at_split k1 k2 (v1 v2 : list (list Z)) key :
  length v2 = length k2 → Forall (λ k, sle key k) k2 → StronglySorted slt (k1 ++ k2) →
  (key_at (k1 ++ k2) (length k1) key = true ∧
     ∃ k2' v v2', k2 = key :: k2' ∧ v2 = v :: v2' ∧ (v1 ++ v2) !! length v1 = Some v ∧ Forall (λ k, slt key k) k2') ∨
  (key_at (k1 ++ k2) (length k1) key = false ∧ Forall (λ k, slt key k) k2).
Proof.
  intros L H2 HS. apply StronglySorted_slt_app in HS as (_ & HS & _). unfold key_at.
  destruct k2 as [|k k2]; [right; rewrite app_nil_r, lookup_ge_None_2 by done; done|].
  rewrite list_lookup_middle by done. apply StronglySorted_inv in HS as [HS Hk].
  apply Forall_cons in H2 as [Hkk H2]. destruct (String.eqb_spec k key) as [->|Hne].
  - left. split; [done|]. destruct v2 as [|v v2]; [done|]. exists k2, v, v2.
    split_and!; [done|done|by apply list_lookup_middle|done].
  - right. split; [done|]. assert (slt key k) by sorder. constructor; [done|].
    eapply Forall_impl; [exact Hk|]. simpl. intros. sorder.
Qed.

Lemma insert_into_leaf mn lo hi pre post m a ks vs key row :
  wf_node h 0 mn (2 * h) lo hi (Leaf a ks vs) → in_lo lo key → in_hi hi key →
  mem_ok m (pre ++ leaves (Leaf a ks vs) ++ post) →
  ins_ok 0 mn lo hi pre post (Leaf a ks vs) key row (InsertIntoLeaf (2 * h) m a ks vs key row).
Proof.
  intros [Hsz Hl] Hlo Hhi Hm.
  destruct (leaf_ok_at _ _ _ _ key Hl) as (k1 & k2 & v1 & v2 & -> & -> & Lk & L1 & L2 & Hb & Hb1 & Ha).
  unfold InsertIntoLeaf. rewrite <-Lk.
  destruct (key_at_split k1 k2 v1 v2 key L2 Ha (lk_sorted _ _ _ _ Hl)) as
    [(-> & k2' & v & v2' & -> & -> & Hv & Hab)|(-> & Hab)].
  - rewrite <-L1, Hv. cbn [mbind option_bind]. unfold ContainsRowId.
    assert (Hins : ins_entries key row (zip (k1 ++ key :: k2') (v1 ++ v :: v2')) =
      zip (k1 ++ key :: k2') (v1 ++ (if bool_decide (row ∈ v) then v else v ++ [row]) :: v2')).
    { rewrite !zip_app, ins_skip by done. simpl. destruct (str_ltb_spec key key); [sorder|done]. }
    left. revert Hins. destruct (bool_decide (row ∈ v)); intros Hins.
    + do 2 eexists. split; [done|]. split; [done|]. split; [|done]. by cbn [entries]; rewrite Hins.
    + rewrite vec_set_mid by done. cbn [mbind option_bind]. do 2 eexists. split; [done|].
      split; [|split; [|exact Hm]].
      * split; [done|]. eapply leaf_ok_set; [done| |done]. by destruct v.
      * by cbn [entries]; rewrite Hins.
  - assert (Hl' : leaf_ok lo hi (k1 ++ key :: k2) (v1 ++ [row] :: v2)) by by apply leaf_ok_add.
    assert (Hins : ins_entries key row (zip (k1 ++ k2) (v1 ++ v2)) = zip (k1 ++ key :: k2) (v1 ++ [row] :: v2)).
    { rewrite !zip_app, ins_skip by done. f_equal. destruct k2 as [|k k2]; [by destruct v2|].
      destruct v2 as [|v v2]; [done|]. simpl. apply Forall_cons in Hab as [Hk _].
      destruct (str_ltb_spec key k); [done|sorder]. }
    rewrite !vec_insert_mid by done. cbn [mbind option_bind].
    assert (HL : length (k1 ++ key :: k2) = S (length (k1 ++ k2))) by (rewrite !length_app; simpl; lia).
    destruct (Nat.leb_spec (length (k1 ++ key :: k2)) (2 * h)).
    + left. do 2 eexists. split; [done|]. split; [|split; [by cbn [entries]; rewrite Hins|exact Hm]].
      split; [lia|done].
    + right. destruct (split_leaf _ _ pre post m a _ _ Hl') as (m' & n' & s & r' & E & Hw & He & Hm'); [lia|done|].
      rewrite E. cbn [mbind option_bind]. do 4 eexists. split; [done|]. split; [done|]. split; [|done].
      by cbn [entries]; rewrite He, Hins.
Qed.

(** [SplitInternal] of a node with one key too many. *)
Lemma split_internal d lo hi ks cs :
  wf_seq (good h d) lo hi ks cs → length ks = S (2 * h) →
  ∃ n' s r', SplitInternal ks cs = Some (n', MkSplit s r') ∧ wf_seq (good h (S d)) lo hi [s] [n'; r'] ∧
    flat_map entries [n'; r'] = flat_map entries cs ∧ flat_map leaves [n'; r'] = flat_map leaves cs.
Proof.
  intros Hw HL. unfold SplitInternal. rewrite HL. replace (S (2 * h) / 2) with h by lia.
  destruct (cut_internals2 h Hh _ _ _ h _ _ Hw) as (k & Hk & Hw'); [lia..|].
  rewrite Hk. cbn [mbind option_bind]. do 3 eexists. split; [done|]. split; [exact Hw'|].
  rewrite !flat_internal2 by (done || apply leaves_internal). by rewrite take_drop.
Qed.

Lemma insert_recursive d fuel mn lo hi pre post m n key row :
  d < fuel → wf_node h d mn (2 * h) lo hi n → in_lo lo key → in_hi hi key →
  mem_ok m (pre ++ leaves n ++ post) →
  ins_ok d mn lo hi pre post n key row (InsertRecursive (2 * h) fuel m n key row).
Proof.
  revert fuel mn lo hi pre post m n. induction d as [|d IH];
    intros [|fuel] mn lo hi pre post m [|a ks vs|ks cs] Hf Hn Hlo Hhi Hm; try (done || lia).
  { by apply insert_into_leaf. }
  destruct Hn as [Hsz Hw]. rewrite leaves_internal in Hm.
  destruct (UpperBound_split _ _ _ _ _ _ Hw Hlo Hhi) as
    (ks1 & ks2 & cs1 & c & cs2 & -> & -> & L1 & L2 & Hub & H1 & H2 & H3 & H4 & H5).
  cbn [InsertRecursive]. rewrite Hub, vec_at_mid by done. cbn [mbind option_bind].
  destruct (adjust_full_child h Hh d lo hi pre post m ks1 cs1 c ks2 cs2 key) as
    (m1 & ks' & cs' & -> & [Hw' He' Hm'] & Hlen); [|done|lia|done|].
  { split; try done. by apply good_loose. }
  cbn [mbind option_bind].
  destruct (UpperBound_split _ _ _ _ _ _ Hw' Hlo Hhi) as
    (ka & kb & ca & c' & cb & -> & -> & La & Lb & -> & Ha & Hc & Hb & Hka & Hkb).
  rewrite vec_at_mid by done. cbn [mbind option_bind].
  destruct (around_contents _ _ _ _ _ _ _ _ La Ha Hb Hka Hkb) as [Hbe Hab].
  assert (Hins : ins_entries key row (flat_map entries (cs1 ++ c :: cs2)) =
    flat_map entries ca ++ ins_entries key row (entries c') ++ flat_map entries cb).
  { rewrite <-He', flat_map_app. cbn [flat_map]. by rewrite ins_skip, ins_stop by done. }
  specialize (IH fuel h _ _ (pre ++ flat_map leaves ca) (flat_map leaves cb ++ post) m1 c' ltac:(lia) Hc Hka Hkb).
  destruct IH as [(m2 & n' & -> & Hn' & En' & Mn') | (m2 & n' & s & r' & -> & Hn' & En' & Mn')].
  { flat_norm. done. }
  - cbn [mbind option_bind]. rewrite vec_set_mid by done. cbn [mbind option_bind].
    left. do 2 eexists. split; [done|]. split; [split; [lia|]|split].
    + change (n' :: cb) with ([n'] ++ cb). by apply (wf_seq_mid _ lo hi ka [] kb ca [n'] cb).
    + cbn [entries]. rewrite Hins, flat_map_app. cbn [flat_map]. by rewrite En'.
    + rewrite leaves_internal. by flat_norm.
  - cbn [mbind option_bind]. rewrite vec_set_mid by done. cbn [mbind option_bind separator_key split_right].
    rewrite (vec_insert_mid ka s kb) by lia. cbn [mbind option_bind].
    rewrite vec_insert_mid_S by lia. cbn [mbind option_bind].
    assert (HL : length (ka ++ s :: kb) = S (length (ka ++ kb))) by (rewrite !length_app; simpl; lia).
    assert (Hw2 : wf_seq (good h d) lo hi (ka ++ s :: kb) (ca ++ n' :: r' :: cb)).
    { by apply (wf_seq_mid _ lo hi ka [s] kb ca [n'; r'] cb). }
    assert (He2 : flat_map entries (ca ++ n' :: r' :: cb) = ins_entries key row (flat_map entries (cs1 ++ c :: cs2))).
    { rewrite Hins, <-En', flat_map_app. cbn [flat_map]. by rewrite <-!app_assoc, app_nil_l. }
    assert (Hm2 : mem_ok m2 (pre ++ flat_map leaves (ca ++ n' :: r' :: cb) ++ post)) by (flat_norm; done).
    destruct (Nat.leb_spec (length (ka ++ s :: kb)) (2 * h)).
    + left. do 2 eexists. split; [done|]. split; [split; [lia|done]|]. split; [done|by rewrite leaves_internal].
    + right. destruct (split_internal _ _ _ _ _ Hw2) as (n'' & s' & r'' & -> & Hs & Es & Ls); [lia|].
      cbn [mbind option_bind]. do 4 eexists. split; [done|]. split; [done|]. by rewrite Es, Ls.
Qed.

(** ** Deletion *)

Lemma RemoveRecursive_internal M m ks cs key row :
  RemoveRecursive M m (Internal ks cs) key row =
  (child ← cs !! UpperBound ks key;
   '(removed, m, child') ← RemoveRecursive M m child key row;
   cs ← vec_set (UpperBound ks key) child' cs;
   if negb (removed : bool) then Some (false, m, Internal ks cs)
   else '(m, ks, cs) ← FixChildUnderflow M (m, ks, cs) (UpperBound ks key); Some (true, m, Internal ks cs)).
Proof.
  cbn [RemoveRecursive]. match goal with |- ?f _ _ ≫= _ = _ => set (at_child := f) end.
  assert (H : ∀ l i, at_child i l = (c ← l !! i; RemoveRecursive M m c key row)).
  { induction l as [|c l IHl]; intros [|i]; try done. apply IHl. }
  rewrite H. by destruct (cs !! _).
Qed.

Definition rem_ok (d mn : nat) (lo hi : option string) (pre post : list nat) (m : Mem) (n : node)
    (key : string) (row : Z) (r : option (bool * Mem * node)) : Prop :=
  ∃ m' n', r = Some (bool_decide (row ∈ find_entries key (entries n)), m', n') ∧
    wf_node h d (mn - 1) (2 * h) lo hi n' ∧ entries n' = rem_entries key row (entries n) ∧
    mem_ok m' (pre ++ leaves n' ++ post) ∧
    (row ∉ find_entries key (entries n) → m' = m ∧ n' = n).

Lemma erase_first_notin row v : row ∉ v → erase_first row v = v.
Proof.
  induction v as [|x v IH]; [done|]. intros [H1 H2]%not_elem_of_cons. simpl.
  rewrite bool_decide_false by done. by rewrite IH.
Qed.

Lemma rem_entries_absent key row l :
  Forall (λ e, e.2 ≠ []) l → row ∉ find_entries key l → rem_entries key row l = l.
Proof.
  induction 1 as [|[k v] l Hv Hl IH]; simpl; [done|]. destruct (str_ltb_spec key k); [done|].
  destruct (str_ltb_spec k key); [by intros Hr; rewrite IH|]. intros Hr. rewrite erase_first_notin by done.
  by destruct v.
Qed.

Lemma leaf_ok_drop lo hi k1 k k2 v1 v v2 : length v1 = length k1 →
  leaf_ok lo hi (k1 ++ k :: k2) (v1 ++ v :: v2) → leaf_ok lo hi (k1 ++ k2) (v1 ++ v2).
Proof.
  intros HL [L S A B V]. apply StronglySorted_slt_app in S as (S1 & S2 & S3).
  apply StronglySorted_inv in S2 as [S2 _].
  apply Forall_app in A as [A1 A2]. apply Forall_app in B as [B1 B2]. apply Forall_app in V as [V1 V2].
  apply Forall_cons in A2 as [_ A2]. apply Forall_cons in B2 as [_ B2]. apply Forall_cons in V2 as [_ V2].
  split; [| |by apply Forall_app..].
  - rewrite !length_app in *. simpl in L. lia.
  - apply StronglySorted_slt_app. split_and!; [done..|]. intros x y Hx Hy. apply S3; [done|by right].
Qed.

Lemma remove_from_leaf mn lo hi pre post m a ks vs key row :
  wf_node h 0 mn (2 * h) lo hi (Leaf a ks vs) → mem_ok m (pre ++ leaves (Leaf a ks vs) ++ post) →
  rem_ok 0 mn lo hi pre post m (Leaf a ks vs) key row (RemoveRecursive (2 * h) m (Leaf a ks vs) key row).
Proof.
  intros [Hsz Hl] Hm.
  destruct (leaf_ok_at _ _ _ _ key Hl) as (k1 & k2 & v1 & v2 & -> & -> & Lk & L1 & L2 & Hb & Hb1 & Ha).
  assert (Hself : wf_node h 0 (mn - 1) (2 * h) lo hi (Leaf a (k1 ++ k2) (v1 ++ v2))) by (split; [lia|done]).
  cbn [RemoveRecursive]. unfold RemoveFromLeaf. rewrite <-Lk.
  unfold rem_ok. cbn [entries]. rewrite zip_app, find_skip, rem_skip by done.
  destruct (key_at_split k1 k2 v1 v2 key L2 Ha (lk_sorted _ _ _ _ Hl)) as
    [(-> & k2' & v & v2' & -> & -> & Hv & Hab)|(-> & Hab)]; cbn [negb].
  - cbn [zip zip_with find_entries rem_entries]. destruct (str_ltb_spec key key); [sorder|].
    rewrite <-L1, Hv. cbn [mbind option_bind]. unfold ContainsRowId.
    assert (v ≠ []) as Hvne.
    { pose proof (lk_vals _ _ _ _ Hl) as V. apply Forall_app in V as [_ V]. by apply Forall_cons in V as [? _]. }
    case_bool_decide as Hin; cbn [negb mbind option_bind].
    + destruct (erase_first row v) as [|x v'] eqn:Hev.
      * rewrite (vec_erase_mid v1), (vec_erase_mid k1) by lia. cbn [mbind option_bind].
        do 2 eexists. split; [done|]. split; [|split; [|split; [exact Hm|done]]].
        -- split; [rewrite !length_app in *; simpl in *; lia|by eapply leaf_ok_drop].
        -- cbn [entries]. by rewrite zip_app by done.
      * rewrite vec_set_mid by done. cbn [mbind option_bind].
        do 2 eexists. split; [done|]. split; [|split; [|split; [exact Hm|done]]].
        -- split; [rewrite !length_app in *; simpl in *; lia|by eapply leaf_ok_set].
        -- cbn [entries]. by rewrite zip_app by done.
    + do 2 eexists. split; [done|]. split; [done|]. split; [|done]. rewrite erase_first_notin by done.
      cbn [entries]. rewrite zip_app by done. by destruct v.
  - cbn [mbind option_bind]. destruct k2 as [|k k2], v2 as [|v v2]; try done; simpl.
    + do 2 eexists. split; [done|]. split; [done|]. split; [|done]. by rewrite !app_nil_r.
    + apply Forall_cons in Hab as [Hk _]. destruct (str_ltb_spec key k); [|sorder].
      do 2 eexists. split; [done|]. split; [done|]. split; [|done]. cbn [entries]; by rewrite zip_app by done.
Qed.

Lemma entries_nonempty d mn mx lo hi n : wf_node h d mn mx lo hi n → Forall (λ e, e.2 ≠ []) (entries n).
Proof.
  revert mn mx lo hi n. induction d as [|d IH]; intros mn mx lo hi [|a ks vs|ks cs]; simpl; try done.
  - intros [_ [L _ _ _ V]]. clear -L V. revert vs L V. induction ks as [|k ks IH]; intros [|v vs] L V; try done.
    apply Forall_cons in V as [? ?]. simpl. constructor; [done|]. apply IH; [by injection L|done].
  - intros [_ Hw]. revert lo cs Hw. induction ks as [|k ks IHk]; intros lo cs Hw; simpl in Hw.
    + destruct cs as [|c [|]]; try done. simpl. rewrite app_nil_r. by eapply IH.
    + destruct cs as [|c cs]; [done|]. destruct Hw as [Hc Hw]. simpl. apply Forall_app.
      split; [by eapply IH|by eapply IHk].
Qed.

Lemma remove_recursive d mn lo hi pre post m n key row :
  (d = 0 ∨ 1 ≤ mn) → wf_node h d mn (2 * h) lo hi n → in_lo lo key → in_hi hi key →
  mem_ok m (pre ++ leaves n ++ post) →
  rem_ok d mn lo hi pre post m n key row (RemoveRecursive (2 * h) m n key row).
Proof.
  revert mn lo hi pre post m n. induction d as [|d IH];
    intros mn lo hi pre post m [|a ks vs|ks cs] Hmn Hn Hlo Hhi Hm; try done.
  { by apply remove_from_leaf. }
  pose proof (entries_nonempty _ _ _ _ _ _ Hn) as Hne.
  destruct Hn as [Hsz Hw]. rewrite leaves_internal in Hm.
  destruct (UpperBound_split _ _ _ _ _ _ Hw Hlo Hhi) as
    (ks1 & ks2 & cs1 & c & cs2 & -> & -> & L1 & L2 & Hub & H1 & H2 & H3 & H4 & H5).
  rewrite RemoveRecursive_internal, Hub, vec_at_mid by done. cbn [mbind option_bind].
  destruct (around_contents _ _ _ _ _ _ _ _ L1 H1 H3 H4 H5) as [Hbe Hab].
  destruct (IH h _ _ (pre ++ flat_map leaves cs1) (flat_map leaves cs2 ++ post) m c ltac:(lia) H2 H4 H5) as
    (m' & c' & -> & Hc' & Ec & Mc & Hsame).
  { flat_norm. done. }
  cbn [mbind option_bind]. rewrite vec_set_mid by done. cbn [mbind option_bind].
  assert (Hfind : find_entries key (entries (Internal (ks1 ++ ks2) (cs1 ++ c :: cs2))) = find_entries key (entries c)).
  { cbn [entries]. rewrite flat_map_app. cbn [flat_map]. by rewrite find_skip, find_stop by done. }
  unfold rem_ok. rewrite Hfind. case_bool_decide as Hin; cbn [negb].
  - assert (Hrem : rem_entries key row (entries (Internal (ks1 ++ ks2) (cs1 ++ c :: cs2))) =
      flat_map entries cs1 ++ rem_entries key row (entries c) ++ flat_map entries cs2).
    { cbn [entries]. rewrite flat_map_app. cbn [flat_map]. by rewrite rem_skip, rem_stop by done. }
    destruct (fix_child_underflow h Hh d lo hi pre post m' ks1 cs1 c' ks2 cs2) as
      (m2 & ks' & cs' & -> & [Hw' He' Hm'] & Hlen); [split; try done; by flat_norm|lia|].
    cbn [mbind option_bind]. do 2 eexists. split; [done|]. simpl in Hlen.
    split; [split; [lia|done]|]. split; [|split; [by rewrite leaves_internal|done]].
    rewrite Hrem. cbn [entries]. rewrite He'. cbn [snd]. rewrite flat_map_app. cbn [flat_map]. by rewrite Ec.
  - destruct (Hsame Hin) as [-> ->]. do 2 eexists. split; [done|].
    split; [split; [lia|done]|]. split; [|split; [by rewrite leaves_internal|done]].
    rewrite rem_entries_absent; [done|done|]. by rewrite Hfind.
Qed.

(** ** Searching *)

Lemma FindLeaf_internal ks cs key :
  FindLeaf (Internal ks cs) key = (c ← cs !! UpperBound ks key; FindLeaf c key).
Proof.
  cbn [FindLeaf]. match goal with |- ?f _ _ = _ => set (at_child := f) end.
  assert (H : ∀ l i, at_child i l = (c ← l !! i; FindLeaf c key)); [|apply H].
  induction l as [|c l IHl]; intros [|i]; try done. apply IHl.
Qed.

(** The contents of a list of leaves. *)
Definition contents (l : list (nat * (list string * list (list Z)))) : list (string * list Z) :=
  flat_map (λ x, zip x.2.1 x.2.2) l.

Lemma entries_contents : ∀ n, entries n = contents (leaf_list n).
Proof.
  fix IH 1. intros [|a ks vs|ks cs]; simpl; [done|by rewrite app_nil_r|].
  induction cs as [|c cs IHc]; simpl; [done|]. unfold contents in *. by rewrite flat_map_app, IH, IHc.
Qed.

Lemma flat_entries_contents cs : flat_map entries cs = contents (flat_map leaf_list cs).
Proof. exact (entries_contents (Internal [] cs)). Qed.

(** The leaf [FindLeaf] returns, and the leaves around it. *)
Lemma find_leaf d mn mx lo hi n key :
  wf_node h d mn mx lo hi n → in_lo lo key → in_hi hi key →
  ∃ l1 a ks vs l2 lo' hi', FindLeaf n key = Some (a, ks, vs) ∧ leaf_list n = l1 ++ (a, (ks, vs)) :: l2 ∧
    leaf_ok lo' hi' ks vs ∧ Forall (below key) (contents l1) ∧ Forall (above key) (contents l2).
Proof.
  revert mn mx lo hi n. induction d as [|d IH]; intros mn mx lo hi [|a ks vs|ks cs] Hn Hlo Hhi; try done.
  - exists [], a, ks, vs, [], lo, hi. split_and!; try done. apply Hn.
  - destruct Hn as [_ Hw]. destruct (UpperBound_split _ _ _ _ _ _ Hw Hlo Hhi) as
      (ks1 & ks2 & cs1 & c & cs2 & -> & -> & L1 & L2 & Hub & H1 & H2 & H3 & H4 & H5).
    destruct (around_contents _ _ _ _ _ _ _ _ L1 H1 H3 H4 H5) as [Hbe Hab].
    destruct (IH _ _ _ _ _ H2 H4 H5) as (l1 & a & ks & vs & l2 & lo' & hi' & Hf & Hl & Hok & Hb & Ha).
    exists (flat_map leaf_list cs1 ++ l1), a, ks, vs, (l2 ++ flat_map leaf_list cs2), lo', hi'.
    rewrite FindLeaf_internal, Hub, vec_at_mid by done. rewrite flat_entries_contents in Hbe, Hab.
    split_and!; [done| |done| |].
    + cbn [leaf_list]. rewrite flat_map_app. cbn [flat_map]. rewrite Hl. by rewrite <-!app_assoc.
    + unfold contents in *. rewrite flat_map_app. by apply Forall_app.
    + unfold contents in *. rewrite flat_map_app. by apply Forall_app.
Qed.

Lemma find_correct d mn mx m n M key : wf_node h d mn mx None None n →
  Find (MkTree M n m) key = Some (find_entries key (entries n)).
Proof.
  intros Hn. destruct (find_leaf _ _ _ _ _ _ key Hn) as
    (l1 & a & ks & vs & l2 & lo' & hi' & Hf & Hl & Hok & Hb & Ha); [done..|].
  unfold Find. cbn [root]. rewrite Hf. cbn [mbind option_bind].
  rewrite entries_contents, Hl. unfold contents in *. rewrite flat_map_app. cbn [flat_map fst snd].
  rewrite find_skip, find_stop by done.
  destruct (leaf_ok_at _ _ _ _ key Hok) as (k1 & k2 & v1 & v2 & -> & -> & Lk & L1 & L2 & Hbe & _ & Hab).
  rewrite <-Lk, zip_app, find_skip by done.
  destruct (key_at_split k1 k2 v1 v2 key L2 Hab (lk_sorted _ _ _ _ Hok)) as
    [(-> & k2' & v & v2' & -> & -> & Hv & _)|(-> & Hgt)].
  - rewrite <-L1, Hv. simpl. destruct (str_ltb_spec key key); [sorder|done].
  - destruct k2 as [|k k2], v2 as [|v v2]; try done; simpl.
    apply Forall_cons in Hgt as [Hgt _]. destruct (str_ltb_spec key k); [done|sorder].
Qed.

(** ** Sortedness of the contents *)

Lemma leaf_ok_fst lo hi ks vs : leaf_ok lo hi ks vs → map fst (zip ks vs) = ks.
Proof. intros [L _ _ _ _]. apply fst_zip. lia. Qed.

Lemma between_key lo hi l x : Forall (between lo hi) l → x ∈ map fst l → in_lo lo x ∧ in_hi hi x.
Proof.
  intros H Hx. apply list_elem_of_fmap in Hx as (e & -> & He). rewrite Forall_forall in H. by apply H.
Qed.

Lemma entries_sorted d mn mx lo hi n : wf_node h d mn mx lo hi n → StronglySorted slt (map fst (entries n)).
Proof.
  revert mn mx lo hi n. induction d as [|d IH]; intros mn mx lo hi [|a ks vs|ks cs]; simpl; try done.
  - intros [_ Hl]. rewrite (leaf_ok_fst _ _ _ _ Hl). apply Hl.
  - intros [_ Hw]. revert lo cs Hw. induction ks as [|k ks IHk]; intros lo cs Hw; simpl in Hw.
    + destruct cs as [|c [|]]; try done. simpl. rewrite app_nil_r. by eapply IH.
    + destruct cs as [|c cs]; [done|]. destruct Hw as [Hc Hw]. simpl. rewrite map_app.
      apply StronglySorted_slt_app. split_and!; [by eapply IH|by eapply IHk|].
      intros x y Hx Hy.
      apply (between_key lo (Some k)) in Hx as [_ Hx]; [|by eapply entries_between].
      apply (between_key (Some k) hi) in Hy as [Hy _]; [simpl in *; sorder|].
      eapply wf_seq_between; [|exact Hw]. intros. by eapply entries_between.
Qed.

(** ** Range scans *)

Lemma range_entries_app lower upper l1 l2 :
  range_entries lower upper (l1 ++ l2) = range_entries lower upper l1 ++ range_entries lower upper l2.
Proof. unfold range_entries. by rewrite filter_app, map_app. Qed.

Lemma range_entries_nil lower upper l :
  Forall (λ e, ¬ (sle lower e.1 ∧ slt e.1 upper)) l → range_entries lower upper l = [].
Proof.
  intros H. unfold range_entries. induction H as [|e l He _ IH]; [done|]. by rewrite filter_cons_False.
Qed.

Lemma scan_leaf_correct lower upper ks vs :
  length vs = length ks → StronglySorted slt ks →
  ∃ stop, scan_leaf lower upper ks vs = Some (stop, range_entries lower upper (zip ks vs)) ∧
    (stop = true → ∃ k, k ∈ ks ∧ sle upper k).
Proof.
  intros L HS. revert vs L. induction HS as [|k ks HS IH Hk]; intros vs L; [by exists false|].
  destruct vs as [|v vs]; [done|]. destruct (IH vs) as (stop & E & Hst); [by injection L|]. simpl.
  unfold range_entries in *. destruct (str_ltb_spec k lower).
  - exists stop. cbn [tail]. rewrite E, filter_cons_False by (simpl; intros [? ?]; sorder). split; [done|].
    intros (k' & ? & ?)%Hst. exists k'. split; [by right|done].
  - destruct (str_leb_spec upper k) as [Hu|Hu].
    + exists true. split; [|intros _; exists k; split; [by left|done]].
      rewrite filter_cons_False by (simpl; intros [? ?]; sorder). do 2 f_equal. symmetry.
      apply (range_entries_nil lower upper). eapply Forall_zip_fst; [|exact Hk].
      simpl. intros k' v' Hk' [_ ?]. sorder.
    + exists stop. cbn [head tail mbind option_bind]. rewrite E, filter_cons_True by (simpl; split; done).
      split; [done|]. intros (k' & ? & ?)%Hst. exists k'. split; [by right|done].
Qed.

Lemma deref_at n l1 a ks vs l2 :
  leaf_list n = l1 ++ (a, (ks, vs)) :: l2 → NoDup (leaves n) → deref n a = Some (ks, vs).
Proof.
  unfold deref, leaves. intros -> Hnd. rewrite map_app in Hnd. simpl in Hnd.
  assert (Ha : a ∉ map fst l1). { apply NoDup_app in Hnd as (_ & Hd & _). intros Hin. apply (Hd a Hin). by left. }
  induction l1 as [|[b x] l1 IH]; simpl; [by rewrite Nat.eqb_refl|].
  simpl in Ha. apply not_elem_of_cons in Ha as [Hb Ha]. rewrite (proj2 (Nat.eqb_neq b a)) by congruence.
  apply IH; [|done]. simpl in Hnd. by apply NoDup_cons in Hnd as [_ ?].
Qed.

Lemma scan_leaves_correct d mn mx M n m lower upper l2 l1 a ks vs fuel :
  wf_node h d mn mx None None n → mem_ok m (leaves n) →
  leaf_list n = l1 ++ (a, (ks, vs)) :: l2 → length l2 < fuel →
  Forall (λ l, length l.2.2 = length l.2.1) (leaf_list n) →
  scan_leaves fuel (MkTree M n m) lower upper (Some a) =
    Some (range_entries lower upper (contents ((a, (ks, vs)) :: l2))).
Proof.
  intros Hn Hm. revert l1 a ks vs fuel.
  induction l2 as [|[b [ks' vs']] l2 IH]; intros l1 a ks vs [|fuel] Hl Hf Hlens; try lia;
    cbn [scan_leaves root tree_mem]; rewrite (deref_at _ _ _ _ _ _ Hl) by apply Hm; cbn [mbind option_bind];
    pose proof (entries_sorted _ _ _ _ _ _ Hn) as HS; rewrite entries_contents, Hl in HS; unfold contents in HS;
    rewrite flat_map_app, map_app in HS; cbn [flat_map fst snd] in HS; rewrite map_app in HS;
    apply StronglySorted_slt_app in HS as (_ & HS & _); apply StronglySorted_slt_app in HS as (HS1 & _ & HS2);
    pose proof Hlens as Hlen; rewrite Hl in Hlen; apply Forall_app in Hlen as [_ Hlen];
    apply Forall_cons in Hlen as [Hlen _]; simpl in Hlen;
    rewrite fst_zip in HS1, HS2 by lia;
    destruct (scan_leaf_correct lower upper ks vs Hlen HS1) as (stop & -> & Hstop); cbn [mbind option_bind];
    pose proof Hm as Hm'; unfold leaves in Hm'; rewrite Hl, map_app in Hm'; cbn [map fst] in Hm';
    pose proof (mem_ok_lookup _ _ _ _ Hm') as Hnext; unfold contents; cbn [flat_map fst snd]; rewrite range_entries_app.
  - unfold get_next. rewrite Hnext. cbn [first_or mbind option_bind fmap option_fmap option_map next_leaf].
    change (range_entries lower upper []) with (@nil IndexEntry).
    destruct stop; [by rewrite app_nil_r|]. by destruct fuel.
  - unfold get_next. rewrite Hnext. cbn [first_or mbind option_bind fmap option_fmap option_map next_leaf].
    destruct stop.
    + f_equal. symmetry. destruct (Hstop eq_refl) as (k & Hk & Hku).
      rewrite (range_entries_nil _ _ (zip ks' vs' ++ _)); [by rewrite app_nil_r|]. apply Forall_forall. intros e He [_ ?].
      assert (slt k e.1); [|sorder]. apply HS2; [done|]. apply list_elem_of_fmap. by exists e.
    + rewrite (IH (l1 ++ [(a, (ks, vs))]) b ks' vs'); [done|by rewrite <-app_assoc|simpl in Hf; lia|done].
Qed.

Lemma leaf_list_lens d mn mx lo hi n : wf_node h d mn mx lo hi n →
  Forall (λ l, length l.2.2 = length l.2.1) (leaf_list n).
Proof.
  revert mn mx lo hi n. induction d as [|d IH]; intros mn mx lo hi [|a ks vs|ks cs]; simpl; try done.
  - intros [_ Hl]. constructor; [apply Hl|done].
  - intros [_ Hw]. revert lo cs Hw. induction ks as [|k ks IHk]; intros lo cs Hw; simpl in Hw.
    + destruct cs as [|c [|]]; try done. simpl. rewrite app_nil_r. by eapply IH.
    + destruct cs as [|c cs]; [done|]. destruct Hw as [Hc Hw]. simpl. apply Forall_app.
      split; [by eapply IH|by eapply IHk].
Qed.

Lemma range_scan_correct d mn mx M n m lower upper :
  wf_node h d mn mx None None n → mem_ok m (leaves n) →
  RangeScan (MkTree M n m) lower upper = Some (range_entries lower upper (entries n)).
Proof.
  intros Hn Hm. destruct (find_leaf _ _ _ _ _ _ lower Hn) as
    (l1 & a & ks & vs & l2 & lo' & hi' & Hf & Hl & Hok & Hb & Ha); [done..|].
  unfold RangeScan. cbn [root]. rewrite Hf. cbn [mbind option_bind].
  rewrite (scan_leaves_correct _ _ _ _ _ _ _ _ _ _ _ _ _ _ Hn Hm Hl); [| |by eapply leaf_list_lens].
  - rewrite entries_contents, Hl. unfold contents in *. rewrite flat_map_app, range_entries_app.
    rewrite (range_entries_nil _ _ (flat_map _ l1)); [done|]. eapply Forall_impl; [exact Hb|].
    unfold below. simpl. intros e He [? _]. sorder.
  - rewrite Hl, length_app. simpl. lia.
Qed.

(** ** The tree's own validation *)

Lemma keys_increasing_sorted ks : StronglySorted slt ks → keys_increasing ks = true.
Proof.
  induction 1 as [|k ks HS IH Hk]; [done|]. destruct ks as [|k' ks]; [done|].
  cbn [keys_increasing]. apply Forall_cons in Hk as [Hk _]. destruct (str_leb_spec k' k); [sorder|done].
Qed.

Lemma separators_sorted d lo hi ks cs : wf_seq (good h d) lo hi ks cs →
  StronglySorted slt ks ∧ (∀ x, x ∈ ks → in_lo lo x ∧ in_hi hi x).
Proof.
  revert lo cs. induction ks as [|k ks IH]; intros lo cs Hw; simpl in Hw.
  - split; [constructor|]. intros x Hx. by apply not_elem_of_nil in Hx.
  - destruct cs as [|c cs]; [done|]. destruct Hw as [Hc Hw]. destruct (IH _ _ Hw) as [HS Hin].
    destruct (good_inhabited _ _ _ _ Hc) as (x & Hx1 & Hx2).
    destruct (wf_seq_inhabited _ _ _ _ _ (good_inhabited d) Hw) as (y & Hy1 & Hy2).
    assert (Hk : in_lo lo k ∧ in_hi hi k).
    { simpl in *. split; [eapply in_lo_mono; [done|sorder]|eapply in_hi_mono; [done|sorder]]. }
    assert (Hlt : Forall (slt k) ks).
    { destruct ks as [|k' ks]; [done|]. destruct cs as [|c' cs]; [done|]. destruct Hw as [Hc' _].
      destruct (good_inhabited _ _ _ _ Hc') as (z & Hz1 & Hz2). simpl in Hz1, Hz2.
      apply StronglySorted_inv in HS as [_ HS]. constructor; [sorder|].
      eapply Forall_impl; [exact HS|]. simpl. intros. sorder. }
    split; [by constructor|]. intros z [->|Hz]%elem_of_cons; [done|].
    destruct (Hin z Hz) as [Hz1 Hz2]. split; [|done]. simpl in Hz1. destruct Hk as [Hk _].
    by eapply in_lo_mono.
Qed.

Lemma above_min_true lo k : in_lo lo k → above_min lo k = true.
Proof. destruct lo as [b|]; simpl; [|done]. intros. destruct (str_ltb_spec k b); [sorder|done]. Qed.

Lemma below_max_true hi k : in_hi hi k → below_max hi k = true.
Proof. destruct hi as [b|]; simpl; [|done]. intros. destruct (str_leb_spec b k); [sorder|done]. Qed.

(** The leaf visited before, whose keys are below the bound [lo]. *)
Definition prev_ok (lo : option string) (pre : list nat) (prev : PrevLeaf) : Prop :=
  match prev with
  | None => pre = []
  | Some (pa, pks) => last pre = Some pa ∧ ∃ b, lo = Some b ∧ Forall (λ k, slt k b) pks
  end.

Lemma forallb_Forall {A} (f : A → bool) l : Forall (λ x, f x = true) l → forallb f l = true.
Proof. induction 1 as [|x l H _ IH]; simpl; [done|]. by rewrite H, IH. Qed.

Lemma validate_leaf m a ks vs lo hi pre post prev :
  leaf_ok lo hi ks vs → mem_ok m (pre ++ [a] ++ post) → prev_ok lo pre prev →
  ValidateLeaf m a ks vs true lo hi prev = (true, Some (a, ks)).
Proof.
  intros [L HS A B V] Hm Hp. unfold ValidateLeaf. rewrite L, Nat.eqb_refl.
  rewrite (forallb_Forall (λ k, above_min lo k && below_max hi k)).
  2: { apply Forall_forall. intros k Hk. rewrite Forall_forall in A, B.
       by rewrite above_min_true, below_max_true by auto. }
  rewrite (forallb_Forall (λ v : list Z, negb (length v =? 0))).
  2: { eapply Forall_impl; [exact V|]. intros v Hv. by destruct v. }
  cbn [andb]. pose proof (mem_ok_lookup _ _ _ _ Hm) as Ha. rewrite Ha.
  destruct prev as [[pa pks]|]; simpl in Hp.
  - destruct Hp as [Hlast (b & -> & Hb)]. destruct (list_snoc_inv pre) as (pre' & x & ->); [by intros ->|].
    rewrite last_snoc in Hlast. injection Hlast as ->. unfold last_or. rewrite last_snoc.
    rewrite <-app_assoc in Hm. rewrite (mem_ok_lookup _ _ _ _ Hm). cbn [next_leaf prev_leaf first_or app].
    rewrite !bool_decide_true by done. cbn [andb].
    destruct (last pks) as [k1|] eqn:E1; [|done]. destruct ks as [|k2 ks]; [done|]. cbn [head].
    apply last_Some_elem_of in E1. rewrite Forall_forall in Hb. specialize (Hb _ E1).
    apply Forall_cons in A as [A _]. simpl in A. destruct (str_leb_spec k2 k1); [sorder|done].
  - subst pre. by rewrite bool_decide_true.
Qed.

(** The loop of [ValidateNode] over the children of a node. *)
Fixpoint validate_children (M : nat) (m : Mem) (expected : nat) (is_root : bool) (depth : nat) (hi : option string)
    (ks : list string) (cs : list node) (lo : option string) (prev : PrevLeaf) : bool * PrevLeaf :=
  match cs, ks with
  | [], _ => (false, prev)
  | c :: _, [] => ValidateNode M m expected c false is_root (S depth) lo hi prev
  | c :: cs', k :: ks' =>
      let '(ok, prev) := ValidateNode M m expected c false is_root (S depth) lo (Some k) prev in
      if (ok : bool) then validate_children M m expected is_root depth hi ks' cs' (Some k) prev else (false, prev)
  end.

Lemma ValidateNode_internal M m expected ks cs is_root pr depth lo hi prev :
  ValidateNode M m expected (Internal ks cs) is_root pr depth lo hi prev =
  if (M <? length ks) || negb (keys_increasing ks) then (false, prev)
  else if negb is_root && negb pr && (length ks <? MinInternalKeys M) then (false, prev)
  else if negb (length cs =? length ks + 1) then (false, prev)
  else validate_children M m expected is_root depth hi ks cs lo prev.
Proof.
  cbn [ValidateNode]. destruct (_ || _); [done|]. destruct (_ && _); [done|].
  destruct (negb _); [done|]. clear pr. revert ks lo prev. induction cs as [|c cs IH]; intros [|k ks] lo prev; try done.
  cbn [validate_children]. destruct (ValidateNode M m expected c false is_root (S depth) lo (Some k) prev) as [[|] p];
    [apply IH|done].
Qed.

(** What a successful visit of the subtree with leaves [ls] leaves behind. *)
Definition visited (ls : list nat) (hi : option string) (r : bool * PrevLeaf) : Prop :=
  ∃ a ks, r = (true, Some (a, ks)) ∧ last ls = Some a ∧ Forall (in_hi hi) ks.

Lemma visited_prev ls k pre a ks : last ls = Some a → Forall (in_hi (Some k)) ks → prev_ok (Some k) (pre ++ ls) (Some (a, ks)).
Proof. intros Hl Hf. split; [by rewrite last_app, Hl|by exists k]. Qed.

Lemma validate_children_ok d (IH : ∀ (pr : bool) lo hi pre post depth expected m n prev,
    good h d lo hi n → mem_ok m (pre ++ leaves n ++ post) → prev_ok lo pre prev → depth + d = expected →
    visited (leaves n) hi (ValidateNode (2 * h) m expected n false pr depth lo hi prev))
  lo hi pre post depth expected m is_root ks cs prev :
  wf_seq (good h d) lo hi ks cs → mem_ok m (pre ++ flat_map leaves cs ++ post) → prev_ok lo pre prev →
  depth + S d = expected →
  visited (flat_map leaves cs) hi (validate_children (2 * h) m expected is_root depth hi ks cs lo prev).
Proof.
  revert lo pre cs prev. induction ks as [|k ks IHk]; intros lo pre cs prev Hw Hm Hp Hd; simpl in Hw.
  - destruct cs as [|c [|]]; try done. cbn [flat_map validate_children] in *. rewrite app_nil_r in *.
    eapply IH; try done. lia.
  - destruct cs as [|c cs]; [done|]. destruct Hw as [Hc Hw]. cbn [flat_map validate_children] in *.
    rewrite <-app_assoc in Hm.
    edestruct (IH is_root lo (Some k) pre _ (S depth) expected m c prev Hc Hm Hp) as (a & ks' & -> & Hla & Hf); [lia|].
    rewrite app_assoc in Hm.
    destruct (IHk (Some k) (pre ++ leaves c) cs (Some (a, ks')) Hw Hm) as (a' & ks'' & -> & Hla' & Hf');
      [by apply visited_prev|lia|].
    exists a', ks''. split_and!; [done| |done]. by rewrite last_app, Hla'.
Qed.

Lemma validate_node d (is_root pr : bool) mn lo hi pre post depth expected m n prev :
  wf_node h d mn (2 * h) lo hi n → (is_root = false → pr = false → h ≤ mn) →
  mem_ok m (pre ++ leaves n ++ post) → prev_ok lo pre prev → depth + d = expected →
  visited (leaves n) hi (ValidateNode (2 * h) m expected n is_root pr depth lo hi prev).
Proof.
  revert is_root pr mn lo hi pre post depth expected m n prev.
  induction d as [|d IH]; intros is_root pr mn lo hi pre post depth expected m [|a ks vs|ks cs] prev Hn Hmn Hm Hp Hd;
    try done; destruct Hn as [Hsz Hw].
  - cbn [ValidateNode]. rewrite (proj2 (Nat.ltb_ge (2 * h) _)), keys_increasing_sorted by (lia || apply Hw).
    cbn [orb negb]. rewrite min_keys_even by done.
    assert (Hmin : negb is_root && negb pr && (length ks <? h) = false).
    { destruct is_root, pr; try done. simpl. apply Nat.ltb_ge. specialize (Hmn eq_refl eq_refl). lia. }
    rewrite Hmin. replace (depth =? expected) with true by (symmetry; apply Nat.eqb_eq; lia).
    rewrite (validate_leaf _ _ _ _ _ _ pre post) by done. exists a, ks. split_and!; [done|done|apply Hw].
  - rewrite ValidateNode_internal. rewrite leaves_internal in *.
    rewrite (proj2 (Nat.ltb_ge (2 * h) _)), keys_increasing_sorted by (lia || by eapply separators_sorted).
    cbn [orb negb]. replace (MinInternalKeys (2 * h)) with h by (symmetry; by apply min_keys_even).
    assert (Hmin : negb is_root && negb pr && (length ks <? h) = false).
    { destruct is_root, pr; try done. simpl. apply Nat.ltb_ge. specialize (Hmn eq_refl eq_refl). lia. }
    rewrite Hmin. rewrite (wf_seq_length _ _ _ _ _ Hw), Nat.add_comm, Nat.eqb_refl. cbn [negb].
    eapply validate_children_ok; try done. intros. by eapply IH.
Qed.

Lemma wf_node_height d mn mx lo hi n : wf_node h d mn mx lo hi n → height n = d.
Proof.
  revert mn mx lo hi n. induction d as [|d IH]; intros mn mx lo hi [|a ks vs|ks cs] Hn; try done.
  destruct Hn as [_ Hw]. destruct cs as [|c cs]; [by destruct ks|]. simpl.
  destruct ks as [|k ks]; [destruct cs; [|done]|destruct Hw as [Hw _]]; f_equal; by eapply IH.
Qed.

Lemma validate_correct d mn m n : wf_node h d mn (2 * h) None None n → mem_ok m (leaves n) →
  ValidateCanonicalInvariants (MkTree (2 * h) n m) = true.
Proof.
  intros Hn Hm. unfold ValidateCanonicalInvariants. cbn [max_keys_per_node tree_mem root].
  destruct (validate_node d true false mn None None [] [] 0 (height n) m n None) as (a & ks & -> & Ha & _); try done.
  { by rewrite app_nil_r. }
  { symmetry. by eapply wf_node_height. }
  cbn [negb]. apply bool_decide_eq_true. apply last_Some in Ha as (l & Hl). rewrite Hl in Hm.
  unfold get_next. by rewrite (mem_ok_lookup _ _ _ _ Hm).
Qed.

End correct.
