(* ===== verification/IndexSpec.v ===== *)
(** * IndexSpec: what the database relies on from an index

    The abstract state of an index is a finite map from encoded keys to the row
    ids stored under them.  [IndexOps] are the operations the executor and the
    runtime state call, [IndexLaws] what they promise; the clients are proved
    against these, and [BStarPlusTreeSpec] discharges them for the tree. *)
From S2P Require Import Prelude BStarPlusTree.

Notation multimap := (gmap string (list Z)).

Definition mm_find (g : multimap) (key : string) : list Z := default [] (g !! key).

(** A row id is stored at most once per key, behind those already there. *)
Definition mm_insert (g : multimap) (key : string) (row : Z) : multimap :=
  if bool_decide (row ∈ mm_find g key) then g else <[key := mm_find g key ++ [row]]> g.

(** A key without row ids is no key. *)
Definition mm_remove (g : multimap) (key : string) (row : Z) : multimap :=
  match erase_first row (mm_find g key) with
  | [] => delete key g
  | v => <[key := v]> g
  end.

(** The entries of a range scan: ascending, and those of the map in [[lower, upper)]. *)
Definition range_of (g : multimap) (lower upper : string) (es : list IndexEntry) : Prop :=
  StronglySorted slt (map entry_key es) ∧
  ∀ k v, MkEntry k v ∈ es ↔ sle lower k ∧ slt k upper ∧ g !! k = Some v.

Class IndexOps (T : Type) := {
  index_new : T;
  index_insert : T → string → Z → option T;
  index_remove : T → string → Z → option T;
  index_find : T → string → option (list Z);
  index_range : T → string → string → option (list IndexEntry);
  index_valid : T → bool
}.

(** [index_ok t g]: the index [t] is well formed and holds [g]. *)
Class IndexLaws (T : Type) `{!IndexOps T} := {
  index_ok : T → multimap → Prop;
  index_new_ok : index_ok index_new ∅;
  index_insert_ok t g key row : index_ok t g →
    ∃ t', index_insert t key row = Some t' ∧ index_ok t' (mm_insert g key row);
  index_remove_ok t g key row : index_ok t g →
    ∃ t', index_remove t key row = Some t' ∧ index_ok t' (mm_remove g key row);
  index_find_ok t g key : index_ok t g → index_find t key = Some (mm_find g key);
  index_range_ok t g lower upper : index_ok t g →
    ∃ es, index_range t lower upper = Some es ∧ range_of g lower upper es;
  index_valid_ok t g : index_ok t g → index_valid t = true
}.

Lemma mm_find_insert g key row key' :
  mm_find (mm_insert g key row) key' =
  if decide (key = key') then
    (if bool_decide (row ∈ mm_find g key) then mm_find g key else mm_find g key ++ [row])
  else mm_find g key'.
Proof.
  unfold mm_insert. destruct (bool_decide (row ∈ mm_find g key)).
  - by case_decide; subst.
  - unfold mm_find at 1. rewrite lookup_insert. by case_decide.
Qed.

Lemma elem_of_mm_insert g key row key' row' :
  row' ∈ mm_find (mm_insert g key row) key' ↔ row' ∈ mm_find g key' ∨ (key' = key ∧ row' = row).
Proof.
  rewrite mm_find_insert. case_decide as Hk; [subst|naive_solver].
  case_bool_decide; [naive_solver|]. rewrite elem_of_app, list_elem_of_singleton. naive_solver.
Qed.
