(* ===== verification/BStarPlusTreeSpec.v ===== *)
(** * BStarPlusTreeSpec: the theorems about the index structure

    The tree as a client sees it: every public operation on a tree built by
    the public operations is defined, keeps the invariant the tree itself
    validates, and acts on the multimap of its contents. *)
From S2P Require Import Prelude BStarPlusTree BStarPlusTreeInv BStarPlusTreeSteps BStarPlusTreeRebalance.
From S2P Require Import BStarPlusTreeCorrect IndexSpec.

(** ** Contents as a finite map *)

Definition to_map (l : list (string * list Z)) : multimap := list_to_map l.
#[local] Arguments to_map : simpl never.

Lemma sorted_NoDup l : StronglySorted slt l → NoDup l.
Proof.
  induction 1 as [|k l HS IH Hk]; constructor; [|done]. intros Hin.
  rewrite Forall_forall in Hk. specialize (Hk _ Hin). by apply slt_irrefl in Hk.
Qed.

Lemma to_map_above key l : Forall (slt key) (map fst l) → to_map l !! key = None.
Proof.
  intros H. apply not_elem_of_list_to_map. intros Hin. rewrite Forall_forall in H.
  specialize (H _ Hin). by apply slt_irrefl in H.
Qed.

Lemma mm_find_skip k v l key : slt k key → mm_find (to_map ((k, v) :: l)) key = mm_find (to_map l) key.
Proof. intros. unfold mm_find, to_map. simpl. rewrite lookup_insert_ne; [done|intros ->; sorder]. Qed.

Lemma mm_find_here k v l : mm_find (to_map ((k, v) :: l)) k = v.
Proof. unfold mm_find, to_map. simpl. by rewrite lookup_insert_eq. Qed.

Lemma find_entries_map key l : StronglySorted slt (map fst l) → find_entries key l = mm_find (to_map l) key.
Proof.
  induction l as [|[k v] l IH]; simpl; [done|]. intros [HS Hk]%StronglySorted_inv.
  destruct (str_ltb_spec key k).
  - unfold mm_find. rewrite to_map_above; [done|]. simpl. constructor; [done|].
    eapply Forall_impl; [exact Hk|]. simpl. intros. sorder.
  - destruct (str_ltb_spec k key); [rewrite mm_find_skip by done; by apply IH|].
    assert (k = key) as -> by sorder. by rewrite mm_find_here.
Qed.

Lemma ins_entries_map key row l : StronglySorted slt (map fst l) →
  to_map (ins_entries key row l) = mm_insert (to_map l) key row.
Proof.
  unfold mm_insert. induction l as [|[k v] l IH]; simpl; [done|]. intros [HS Hk]%StronglySorted_inv.
  destruct (str_ltb_spec key k).
  - assert (Hn : mm_find (to_map ((k, v) :: l)) key = []).
    { unfold mm_find. rewrite to_map_above; [done|]. simpl. constructor; [done|].
      eapply Forall_impl; [exact Hk|]. simpl. intros. sorder. }
    rewrite Hn. done.
  - destruct (str_ltb_spec k key).
    + rewrite mm_find_skip by done. unfold to_map in *. simpl. rewrite IH by done.
      case_bool_decide; [done|]. rewrite insert_insert_ne; [done|intros ->; sorder].
    + assert (k = key) as -> by sorder. rewrite mm_find_here. unfold to_map. simpl.
      destruct (bool_decide (row ∈ v)); [done|]. by rewrite insert_insert_eq.
Qed.

Lemma rem_entries_map key row l : StronglySorted slt (map fst l) → Forall (λ e, e.2 ≠ []) l →
  to_map (rem_entries key row l) = mm_remove (to_map l) key row.
Proof.
  unfold mm_remove. induction l as [|[k v] l IH]; simpl; [symmetry; apply (delete_empty (M:=gmap string))|].
  intros [HS Hk]%StronglySorted_inv [Hv Hne]%Forall_cons. simpl in Hv.
  destruct (str_ltb_spec key k).
  - assert (Hn : to_map ((k, v) :: l) !! key = None).
    { rewrite to_map_above; [done|]. simpl. constructor; [done|].
      eapply Forall_impl; [exact Hk|]. simpl. intros. sorder. }
    unfold mm_find. rewrite Hn. simpl. by rewrite delete_id.
  - destruct (str_ltb_spec k key).
    + rewrite mm_find_skip by done. unfold to_map in *. simpl. rewrite IH by done.
      destruct (erase_first _ _); [rewrite delete_insert_ne|rewrite insert_insert_ne]; try done; intros ->; sorder.
    + assert (k = key) as -> by sorder. rewrite mm_find_here. unfold to_map. simpl.
      destruct (erase_first row v).
      * rewrite delete_insert_eq, delete_id; [done|]. by apply to_map_above.
      * by rewrite insert_insert_eq.
Qed.

Lemma range_entries_map lower upper l : StronglySorted slt (map fst l) →
  range_of (to_map l) lower upper (range_entries lower upper l).
Proof.
  intros HS. unfold range_of, range_entries. split.
  - rewrite map_map. simpl. clear -HS. induction l as [|[k v] l IH]; [constructor|].
    apply StronglySorted_inv in HS as [HS Hk]. rewrite filter_cons. case_decide; simpl; [|auto].
    constructor; [auto|]. apply Forall_forall. intros x (e & -> & He)%list_elem_of_fmap.
    rewrite Forall_forall in Hk. apply Hk. apply list_elem_of_fmap. exists e. split; [done|].
    by apply list_elem_of_filter in He as [_ ?].
  - intros k v. unfold to_map. rewrite <-(elem_of_list_to_map (M:=gmap string)) by (by apply sorted_NoDup).
    split.
    + intros ([k' v'] & [= -> ->] & [[? ?] ?]%list_elem_of_filter)%list_elem_of_fmap. done.
    + intros (? & ? & ?). apply list_elem_of_fmap. exists (k, v). split; [done|]. by apply list_elem_of_filter.
Qed.

(** ** Well-formed trees *)

(** The root is a leaf, or has at least one key. *)
Definition root_min (d : nat) : nat := match d with 0 => 0 | S _ => 1 end.

(** A tree of even order from 6 up that holds the map [g]. *)
Definition tree_ok (t : BStarPlusTree) (g : multimap) : Prop :=
  ∃ h d, 3 ≤ h ∧ max_keys_per_node t = 2 * h ∧
    wf_node h d (root_min d) (2 * h) None None (root t) ∧
    mem_ok (tree_mem t) (leaves (root t)) ∧ g = to_map (entries (root t)).

Lemma NewTree_tree_ok h : 3 ≤ h → tree_ok (NewTree (2 * h)) ∅.
Proof.
  intros Hh. exists h, 0. split; [done|]. split; [cbn [NewTree max_keys_per_node]; lia|].
  split; [split; [simpl; lia|by repeat constructor]|]. split; [|done].
  split_and!; simpl; [by rewrite lookup_singleton_eq|apply NoDup_singleton|].
  apply Forall_singleton. simpl. lia.
Qed.

Lemma wf_root h d n : 3 ≤ h → wf_node h d h (2 * h) None None n →
  wf_node h d (root_min d) (2 * h) None None n.
Proof. destruct d, n; simpl; try done; intros ? [? ?]; (split; [lia|done]). Qed.

Lemma Insert_ok t g key row : tree_ok t g →
  ∃ t', Insert t key row = Some t' ∧ tree_ok t' (mm_insert g key row).
Proof.
  intros (h & d & Hh & HM & Hw & Hm & ->). unfold Insert. rewrite HM.
  pose proof (entries_sorted h Hh _ _ _ _ _ _ Hw) as HS. rewrite (wf_node_height h _ _ _ _ _ _ Hw).
  destruct (insert_recursive h Hh d (S d) (root_min d) None None [] [] (tree_mem t) (root t) key row) as
    [(m' & n' & -> & Hw' & He & Hm')|(m' & n' & s & r & -> & Hw' & He & Hm')]; try done; try lia;
    [by rewrite app_nil_r|..]; cbn [mbind option_bind]; eexists; split; try done; rewrite app_nil_r in Hm'.
  - exists h, d. split_and!; try done. simpl. by rewrite He, ins_entries_map.
  - exists h, (S d). split; [done|]. split; [done|]. split; [split; [simpl; lia|exact Hw']|].
    cbn [tree_mem root entries separator_key split_right].
    split; [by rewrite leaves_internal|]. by rewrite He, ins_entries_map.
Qed.

Lemma Remove_ok t g key row : tree_ok t g →
  ∃ t', Remove t key row = Some t' ∧ tree_ok t' (mm_remove g key row).
Proof.
  intros (h & d & Hh & HM & Hw & Hm & ->). unfold Remove. rewrite HM.
  pose proof (entries_sorted h Hh _ _ _ _ _ _ Hw) as HS. pose proof (entries_nonempty h _ _ _ _ _ _ Hw) as Hne.
  destruct (remove_recursive h Hh d (root_min d) None None [] [] (tree_mem t) (root t) key row) as
    (m' & n' & -> & Hw' & He & Hm' & _); [| |done|done|by rewrite app_nil_r|]; [|exact Hw|].
  { destruct d; [by left|by right]. }
  cbn [mbind option_bind]. rewrite app_nil_r in Hm'. cbn [app] in Hm'. rewrite <-rem_entries_map, <-He by done.
  destruct d as [|d], n' as [|a ks vs|ks cs]; try done.
  - eexists. split; [done|]. by exists h, 0.
  - destruct Hw' as [Hsz Hw']. destruct ks as [|k ks].
    + destruct cs as [|c [|]]; try done. eexists. split; [done|]. simpl in Hw'.
      exists h, d. split_and!; try done; [by apply wf_root| |by simpl; rewrite app_nil_r].
      rewrite leaves_internal in Hm'. simpl in Hm'. by rewrite app_nil_r in Hm'.
    + pose proof (wf_seq_length _ _ _ _ _ Hw') as HL. destruct cs as [|c [|c' cs]]; try done.
      eexists. split; [done|]. exists h, (S d). split_and!; try done. split; [simpl in *; lia|done].
Qed.

Lemma Find_ok t g key : tree_ok t g → Find t key = Some (mm_find g key).
Proof.
  intros (h & d & Hh & HM & Hw & Hm & ->). destruct t as [M n m]; simpl in *.
  rewrite (find_correct h Hh _ _ _ _ _ _ _ Hw). f_equal. apply find_entries_map. by eapply entries_sorted.
Qed.

Lemma RangeScan_ok t g lower upper : tree_ok t g →
  ∃ es, RangeScan t lower upper = Some es ∧ range_of g lower upper es.
Proof.
  intros (h & d & Hh & HM & Hw & Hm & ->). destruct t as [M n m]; simpl in *.
  rewrite (range_scan_correct h Hh _ _ _ _ _ _ _ _ Hw Hm). eexists. split; [done|].
  apply range_entries_map. by eapply entries_sorted.
Qed.

Lemma Validate_ok t g : tree_ok t g → ValidateCanonicalInvariants t = true.
Proof.
  intros (h & d & Hh & HM & Hw & Hm & ->). destruct t as [M n m]; simpl in *. subst M.
  by eapply validate_correct.
Qed.

(** ** The interface, discharged for the default order 8 *)

#[export] Instance bstar_index_ops : IndexOps BStarPlusTree := {|
  index_new := NewTree 8;
  index_insert := Insert;
  index_remove := Remove;
  index_find := Find;
  index_range := RangeScan;
  index_valid := ValidateCanonicalInvariants
|}.

#[export] Program Instance bstar_index_laws : IndexLaws BStarPlusTree := {| index_ok := tree_ok |}.
Next Obligation. apply (NewTree_tree_ok 4). lia. Qed.
Next Obligation. intros. by apply Insert_ok. Qed.
Next Obligation. intros. by apply Remove_ok. Qed.
Next Obligation. intros. by apply Find_ok. Qed.
Next Obligation. intros. by apply RangeScan_ok. Qed.
Next Obligation. intros. by eapply Validate_ok. Qed.

(** ** Sequences of operations *)

Inductive IndexOp :=
| OpInsert (key : string) (row_id : Z)
| OpRemove (key : string) (row_id : Z).

Definition apply_op (t : BStarPlusTree) (op : IndexOp) : option BStarPlusTree :=
  match op with
  | OpInsert key row => Insert t key row
  | OpRemove key row => Remove t key row
  end.

Fixpoint run_index (t : BStarPlusTree) (ops : list IndexOp) : option BStarPlusTree :=
  match ops with
  | [] => Some t
  | op :: ops => t' ← apply_op t op; run_index t' ops
  end.

Definition mm_apply (g : multimap) (op : IndexOp) : multimap :=
  match op with
  | OpInsert key row => mm_insert g key row
  | OpRemove key row => mm_remove g key row
  end.

Lemma run_index_ok ops t g : tree_ok t g →
  ∃ t', run_index t ops = Some t' ∧ tree_ok t' (foldl mm_apply g ops).
Proof.
  revert t g. induction ops as [|op ops IH]; intros t g Ht; simpl; [by exists t|].
  assert (∃ t', apply_op t op = Some t' ∧ tree_ok t' (mm_apply g op)) as (t' & -> & Ht').
  { destruct op; [by apply Insert_ok|by apply Remove_ok]. }
  apply (IH _ _ Ht').
Qed.

(** C1: for every even order from 6 up, every sequence of insertions and
    removals on a new tree is free of undefined behaviour and refines the same
    sequence on a finite multimap: the resulting tree passes the tree's own
    canonical validation, point lookups return exactly the row ids of the
    multimap, and range scans return its entries in the half-open range in
    ascending key order. *)
Theorem bstar_refines_multimap (h : nat) (ops : list IndexOp) :
  3 ≤ h →
  let g := foldl mm_apply ∅ ops in
  ∃ t, run_index (NewTree (2 * h)) ops = Some t ∧
    ValidateCanonicalInvariants t = true ∧
    (∀ key, Find t key = Some (mm_find g key)) ∧
    (∀ lower upper, ∃ es, RangeScan t lower upper = Some es ∧ range_of g lower upper es).
Proof.
  intros Hh g. destruct (run_index_ok ops _ _ (NewTree_tree_ok h Hh)) as (t & Ht & Hok).
  exists t. split_and!; [done|by eapply Validate_ok|intros; by apply Find_ok|intros; by apply RangeScan_ok].
Qed.

Definition sample_ops : list IndexOp :=
  [OpInsert "b" 1; OpInsert "a" 2; OpInsert "b" 3; OpInsert "c" 4; OpRemove "a" 2]%Z.

Lemma bstar_refines_multimap_witness :
  3 ≤ 4 ∧ ∃ t, run_index (NewTree 8) sample_ops = Some t ∧ Find t "b" = Some [1; 3]%Z.
Proof.
  split; [lia|]. destruct (bstar_refines_multimap 4 sample_ops) as (t & Ht & _ & Hf & _); [lia|].
  exists t. split; [exact Ht|]. rewrite Hf. vm_compute. reflexivity.
Defined.

(** ** Depth *)

(** A subtree of depth [d] whose nodes have at least [h] keys. *)
Lemma entries_lower_bound h d mn mx lo hi n : 3 ≤ h → wf_node h d mn mx lo hi n →
  match d with 0 => mn | S d => S mn * (h * S h ^ d) end ≤ length (entries n).
Proof.
  intros Hh. revert mn mx lo hi n. induction d as [|d IH]; intros mn mx lo hi [|a ks vs|ks cs]; try done.
  - intros [Hsz Hl]. simpl. rewrite length_zip_with. rewrite (lk_len _ _ _ _ Hl). lia.
  - intros [Hsz Hw]. assert (Hge : S (length ks) * (h * S h ^ d) ≤ length (flat_map entries cs)).
    { clear Hsz. revert lo cs Hw. induction ks as [|k ks IHk]; intros lo cs Hw; simpl in Hw.
      - destruct cs as [|c [|]]; try done. simpl. rewrite app_nil_r.
        specialize (IH _ _ _ _ _ Hw). destruct d as [|d]; simpl in *; lia.
      - destruct cs as [|c cs]; [done|]. destruct Hw as [Hc Hw]. specialize (IHk _ _ Hw).
        specialize (IH _ _ _ _ _ Hc). simpl flat_map. rewrite length_app. simpl length.
        destruct d as [|d]; simpl in *; lia. }
    cbn [entries]. etransitivity; [|exact Hge]. apply Nat.mul_le_mono_r. lia.
Qed.

(** A tree of order [2 * h] and height [S d]. *)
Lemma tree_ok_depth (t : BStarPlusTree) (g : multimap) (h d : nat) :
  tree_ok t g → max_keys_per_node t = 2 * h → height (root t) = S d → 2 * (h * S h ^ d) ≤ size g.
Proof.
  intros (h' & d' & Hh & HM & Hw & Hm & ->) Hmax Hd. assert (h' = h) as -> by lia.
  pose proof (wf_node_height _ _ _ _ _ _ _ Hw) as Hd'. assert (d' = S d) as -> by lia.
  pose proof (entries_lower_bound h (S d) _ _ _ _ _ Hh Hw) as Hl. unfold to_map.
  replace (size (list_to_map (entries (root t)) : multimap)) with (length (entries (root t))); [exact Hl|].
  assert (HN : NoDup (entries (root t)).*1) by (eapply sorted_NoDup, entries_sorted; done).
  rewrite <-(length_fmap fst), <-size_dom. rewrite dom_list_to_map_L. by rewrite size_list_to_set.
Qed.

(** The operations keep the order. *)
Lemma run_index_order ops t t' : run_index t ops = Some t' → max_keys_per_node t' = max_keys_per_node t.
Proof.
  revert t. induction ops as [|op ops IH]; intros t; simpl; [by intros [= <-]|].
  destruct (apply_op t op) as [u|] eqn:E; simpl; [|done]. intros ->%IH. destruct op as [key row|key row]; simpl in E.
  - unfold Insert in E. destruct (InsertRecursive _ _ _ _ _ _) as [[[m n] [s|]]|]; simpl in E; by simplify_eq.
  - unfold Remove in E. destruct (RemoveRecursive _ _ _ _ _) as [[[b m] n]|]; simpl in E; [|done].
    destruct n as [|a ks vs|ks [|c [|c' cs]]]; by simplify_eq.
Qed.

(** C6: the tree stays shallow: for every even order [2 * h] from 6 up, every
    sequence of insertions and removals on a new tree ends in a tree of height
    [S d] (the path of a lookup has one node more) only if at least
    [2 * h * (h + 1) ^ d] keys are left, so that the height is logarithmic in
    the number of keys, also after removals. *)
Theorem bstar_depth_logarithmic (h : nat) (ops : list IndexOp) :
  3 ≤ h →
  ∃ t, run_index (NewTree (2 * h)) ops = Some t ∧
    ∀ d, height (root t) = S d → 2 * (h * S h ^ d) ≤ size (foldl mm_apply ∅ ops).
Proof.
  intros Hh. destruct (run_index_ok ops _ _ (NewTree_tree_ok h Hh)) as (t & Ht & Hok). exists t. split; [done|].
  intros d. apply tree_ok_depth; [done|]. rewrite (run_index_order _ _ _ Ht). cbn [NewTree max_keys_per_node]. lia.
Qed.

(** Fifteen ascending keys make a tree of order 6 with a root above its leaves,
    and so it stays when one is removed. *)
Definition ascending_keys (n : nat) : list string := map (λ i, String (Ascii.ascii_of_nat i) "") (seq 65 n).

Definition ascending_ops (n : nat) : list IndexOp := map (λ k, OpInsert k 1%Z) (ascending_keys n).

Lemma bstar_depth_logarithmic_witness :
  (height ∘ root <$> run_index (NewTree (2 * 3)) (ascending_ops 15 ++ [OpRemove "A" 1%Z])) = Some 1 ∧
  6 ≤ size (foldl mm_apply ∅ (ascending_ops 15 ++ [OpRemove "A" 1%Z])).
Proof.
  split; [vm_compute; reflexivity|].
  destruct (bstar_depth_logarithmic 3 (ascending_ops 15 ++ [OpRemove "A" 1%Z])) as (t & Ht & Hd); [lia|].
  refine (Hd 0 _).
  assert (Heq : (height ∘ root <$> run_index (NewTree (2 * 3)) (ascending_ops 15 ++ [OpRemove "A" 1%Z])) = Some 1)
    by (vm_compute; reflexivity).
  rewrite Ht in Heq. injection Heq as Heq. exact Heq.
Defined.

(** the restriction to even orders from 6 up is needed: with order 3, which
    the constructor accepts, 32 insertions of ascending keys give a tree that
    the tree's own canonical validation rejects. *)
Theorem order_three_breaks_invariants :
  (ValidateCanonicalInvariants <$> run_index (NewTree 3) (ascending_ops 31)) = Some true ∧
  (ValidateCanonicalInvariants <$> run_index (NewTree 3) (ascending_ops 32)) = Some false.
Proof. split; vm_compute; reflexivity. Qed.
