(* ===== verification/Ast.v ===== *)
(** * Ast: the SQL syntax tree (src/parser/ast.hpp)

    Shared by the parser, the planner and the executor.  [unique_ptr] children
    are subterms; the statement variant keeps the source's alternatives. *)
From S2P Require Import Prelude CommonTypes.

Inductive AggregateKind := kSum | kCount | kAvg.

Inductive ComparisonOperator := kEqual | kNotEqual | kLess | kGreater | kLessEqual | kGreaterEqual.

Inductive LogicalOperator := kAnd | kOr.

#[export] Instance AggregateKind_eq_dec : EqDecision AggregateKind.
Proof. solve_decision. Defined.
#[export] Instance ComparisonOperator_eq_dec : EqDecision ComparisonOperator.
Proof. solve_decision. Defined.
#[export] Instance LogicalOperator_eq_dec : EqDecision LogicalOperator.
Proof. solve_decision. Defined.

Inductive Expression :=
| LiteralExpression (value : Value)
| ColumnReferenceExpression (database_name table_name : option string) (column_name : string)
| BinaryComparisonExpression (op : ComparisonOperator) (left right : Expression)
| LogicalExpression (op : LogicalOperator) (left right : Expression)
| BetweenExpression (value lower_bound upper_bound : Expression)
| LikeExpression (value pattern : Expression)
| AggregateCallExpression (kind : AggregateKind) (column_name : string).

Record QualifiedName := MkQName { q_database : option string; q_object : string }.

Record ColumnSpec := MkColumnSpec {
  cs_name : string;
  cs_type : ValueType;
  cs_not_null : bool;
  cs_indexed : bool;
  cs_default : option Value
}.

Record SelectItem := MkItem {
  item_wildcard : bool;
  item_column : string;
  item_alias : option string;
  item_aggregate : option AggregateKind
}.

Record Assignment := MkAssign { assign_column : string; assign_value : Expression }.

Inductive RevertMode := kAtOrBefore | kExact | kLatest.

#[export] Instance RevertMode_eq_dec : EqDecision RevertMode.
Proof. solve_decision. Defined.

Inductive Statement :=
| UnknownStatement (raw_sql : string)
| CreateDatabaseStatement (database_name : string)
| DropDatabaseStatement (database_name : string)
| UseDatabaseStatement (database_name : string)
| CreateTableStatement (table_name : QualifiedName) (columns : list ColumnSpec)
| DropTableStatement (table_name : QualifiedName)
| InsertStatement (table_name : QualifiedName) (column_names : list string) (rows : list (list Expression))
| UpdateStatement (table_name : QualifiedName) (assignments : list Assignment) (where_ : option Expression)
| DeleteStatement (table_name : QualifiedName) (where_ : option Expression)
| SelectStatement (table_name : QualifiedName) (items : list SelectItem) (where_ : option Expression)
| RevertStatement (table_name : QualifiedName) (timestamp : string) (mode : RevertMode)
| BeginTransactionStatement
| CommitTransactionStatement
| RollbackTransactionStatement
| CheckIndexStatement
| RebuildIndexStatement.

(** [QualifiedNameToString], the same in planner.cpp and execution_engine.cpp. *)
Definition QualifiedNameToString (name : QualifiedName) : string :=
  match q_database name with
  | Some d => d +:+ "." +:+ q_object name
  | None => q_object name
  end.
