(* ===== verification/VersionStore.v ===== *)
(** * VersionStore: the append-only change log behind REVERT (src/versioning)

    Records in the order they were appended.  The system clock and the local
    time zone are the environment: [GenerateTimestamp] formats the broken-down
    time that [localtime_r] returned with the microseconds of the clock. *)
From S2P Require Import Prelude Numerals CommonTypes Storage.
From Stdlib Require Import Ascii OrdersEx.

Open Scope Z_scope.

Inductive ChangeKind :=
| kCreateDatabase
| kDropDatabase
| kCreateTable
| kDropTable
| kInsertRow
| kUpdateRow
| kDeleteRow.

#[export] Instance ChangeKind_eq_dec : EqDecision ChangeKind.
Proof. solve_decision. Defined.

Record ChangeRecord := MkChange {
  ch_kind : ChangeKind;
  ch_database : string;
  ch_table : string;
  ch_timestamp : string;
  ch_row_id : Z;
  ch_schema : option TableSchema;
  ch_before : option RowData;
  ch_after : option RowData
}.

(** [records_]. *)
Definition VersionStore : Type := list ChangeRecord.

(** ** Timestamps *)

(** The fields of [std::tm] that the format uses (calendar values, so
    [tm_year] is the full year and [tm_mon] starts at 1), and the microseconds. *)
Record Tm := MkTm {
  tm_year : Z; tm_mon : Z; tm_mday : Z; tm_hour : Z; tm_min : Z; tm_sec : Z; tm_micros : Z
}.

(** A number with leading zeros in [w] digits, as [%m], [%d] ... and
    [setw(6) << setfill('0')] print it. *)
Fixpoint zero_padded (w : nat) (n : Z) (acc : string) : string :=
  match w with
  | O => acc
  | S w => zero_padded w (n / 10) (String (digit_char (n mod 10)) acc)
  end.

Definition GenerateTimestamp (t : Tm) : string :=
  zero_padded 4 (tm_year t) (String "." (zero_padded 2 (tm_mon t) (String "." (zero_padded 2 (tm_mday t)
  (String "-" (zero_padded 2 (tm_hour t) (String ":" (zero_padded 2 (tm_min t) (String ":"
  (zero_padded 2 (tm_sec t) (String "." (zero_padded 6 (tm_micros t) "")))))))))))).

(** ** Operations *)

(** [Append]: an empty timestamp is replaced by the one of the clock. *)
Definition Append (now : Tm) (record : ChangeRecord) (records : VersionStore) : string * VersionStore :=
  let ts := match ch_timestamp record with EmptyString => GenerateTimestamp now | s => s end in
  (ts, records ++ [MkChange (ch_kind record) (ch_database record) (ch_table record) ts
                     (ch_row_id record) (ch_schema record) (ch_before record) (ch_after record)]).

Definition ReplaceAll (records' records : VersionStore) : VersionStore := records'.

Definition Clear (records : VersionStore) : VersionStore := [].

Definition of_table (database_name table_name : string) (record : ChangeRecord) : bool :=
  bool_decide (ch_database record = database_name) && bool_decide (ch_table record = table_name).

Definition HistoryForTable (database_name table_name : string) (records : VersionStore) : list ChangeRecord :=
  filter (λ r, of_table database_name table_name r = true) records.

Fixpoint latest_loop (database_name table_name : string) (latest : option string)
    (records : VersionStore) : option string :=
  match records with
  | [] => latest
  | r :: rs =>
      if negb (of_table database_name table_name r) then latest_loop database_name table_name latest rs
      else
        let take := match latest with None => true | Some l => l <s ch_timestamp r end in
        latest_loop database_name table_name (if take then Some (ch_timestamp r) else latest) rs
  end.

Definition LatestTimestampForTable (database_name table_name : string) (records : VersionStore)
    : option string := latest_loop database_name table_name None records.

Fixpoint best_loop (database_name table_name timestamp : string) (best : option string)
    (records : VersionStore) : option string :=
  match records with
  | [] => best
  | r :: rs =>
      if negb (of_table database_name table_name r) || (timestamp <s ch_timestamp r)
      then best_loop database_name table_name timestamp best rs
      else
        let take := match best with None => true | Some l => l <s ch_timestamp r end in
        best_loop database_name table_name timestamp (if take then Some (ch_timestamp r) else best) rs
  end.

Definition LatestTimestampAtOrBefore (database_name table_name timestamp : string)
    (records : VersionStore) : option string :=
  best_loop database_name table_name timestamp None records.

Fixpoint HasExactTimestampForTable (database_name table_name timestamp : string)
    (records : VersionStore) : bool :=
  match records with
  | [] => false
  | r :: rs =>
      if of_table database_name table_name r && bool_decide (ch_timestamp r = timestamp) then true
      else HasExactTimestampForTable database_name table_name timestamp rs
  end.

(** The pattern of REVERT: [^\d{4}\.\d{2}\.\d{2}-\d{2}:\d{2}:\d{2}\.\d{6}$],
    matched against the whole text ([std::regex_match]). *)
Fixpoint match_digits (w : nat) (s : string) : option string :=
  match w with
  | O => Some s
  | S w => match s with String c s => if is_digit c then match_digits w s else None | EmptyString => None end
  end.

Definition match_char (c : ascii) (s : string) : option string :=
  match s with String c' s => if Ascii.eqb c' c then Some s else None | EmptyString => None end.

Definition timestamp_pattern (s : string) : bool :=
  match
    s ← match_digits 4 s; s ← match_char "." s; s ← match_digits 2 s; s ← match_char "." s;
    s ← match_digits 2 s; s ← match_char "-" s; s ← match_digits 2 s; s ← match_char ":" s;
    s ← match_digits 2 s; s ← match_char ":" s; s ← match_digits 2 s; s ← match_char "." s;
    match_digits 6 s
  with
  | Some EmptyString => true
  | _ => false
  end.

(** ** Order and format of timestamps *)

Definition tm_ok (t : Tm) : Prop :=
  1000 ≤ tm_year t ≤ 9999 ∧ 1 ≤ tm_mon t ≤ 12 ∧ 1 ≤ tm_mday t ≤ 31 ∧ 0 ≤ tm_hour t ≤ 23 ∧
  0 ≤ tm_min t ≤ 59 ∧ 0 ≤ tm_sec t ≤ 60 ∧ 0 ≤ tm_micros t < 1000000.

Definition tm_fields (t : Tm) : list Z :=
  [tm_year t; tm_mon t; tm_mday t; tm_hour t; tm_min t; tm_sec t; tm_micros t].

(** Lexicographic comparison of the fields, most significant first. *)
Fixpoint fields_compare (a b : list Z) : comparison :=
  match a, b with
  | x :: a, y :: b => match x ?= y with Eq => fields_compare a b | c => c end
  | _, _ => Eq
  end.

Lemma digit_char_compare m n : 0 ≤ m < 10 → 0 ≤ n < 10 →
  Ascii_as_OT.compare (digit_char m) (digit_char n) = (m ?= n).
Proof.
  intros Hm Hn.
  assert (m = 0 ∨ m = 1 ∨ m = 2 ∨ m = 3 ∨ m = 4 ∨ m = 5 ∨ m = 6 ∨ m = 7 ∨ m = 8 ∨ m = 9) as Em by lia.
  assert (n = 0 ∨ n = 1 ∨ n = 2 ∨ n = 3 ∨ n = 4 ∨ n = 5 ∨ n = 6 ∨ n = 7 ∨ n = 8 ∨ n = 9) as En by lia.
  by destruct_or? Em; destruct_or? En; subst; vm_compute.
Qed.

Lemma str_compare_cons c d s t : String_as_OT.compare (String c s) (String d t) =
  match Ascii_as_OT.compare c d with Eq => String_as_OT.compare s t | r => r end.
Proof. done. Qed.

Lemma zero_padded_compare w m n sm sn : 0 ≤ m < 10 ^ Z.of_nat w → 0 ≤ n < 10 ^ Z.of_nat w →
  String_as_OT.compare (zero_padded w m sm) (zero_padded w n sn) =
    match m ?= n with Eq => String_as_OT.compare sm sn | c => c end.
Proof.
  revert m n sm sn. induction w as [|w IH]; intros m n sm sn Hm Hn.
  - simpl in *. assert (m = 0 ∧ n = 0) as [-> ->] by lia. done.
  - rewrite Nat2Z.inj_succ, Z.pow_succ_r in Hm, Hn by lia. cbn [zero_padded].
    pose proof (Z.mod_pos_bound m 10 ltac:(lia)). pose proof (Z.mod_pos_bound n 10 ltac:(lia)).
    pose proof (Z.div_mod m 10 ltac:(lia)). pose proof (Z.div_mod n 10 ltac:(lia)).
    rewrite IH by (split; [apply Z.div_pos; lia|apply Z.div_lt_upper_bound; lia]).
    rewrite str_compare_cons, digit_char_compare by lia.
    destruct (Z.compare_spec (m / 10) (n / 10)); destruct (Z.compare_spec m n);
      destruct (Z.compare_spec (m mod 10) (n mod 10)); done || lia.
Qed.

Lemma str_compare_same c s t : String_as_OT.compare (String c s) (String c t) = String_as_OT.compare s t.
Proof.
  rewrite str_compare_cons. destruct (Ascii_as_OT.compare_spec c c) as [_|H|H]; [done|..];
    exfalso; exact (StrictOrder_Irreflexive (R:=Ascii_as_OT.lt) c H).
Qed.

(** Compares two padded fields at the head of two texts. *)
Ltac padded_fields :=
  repeat (rewrite zero_padded_compare by (simpl; lia);
          match goal with |- match ?a ?= ?b with _ => _ end = _ => destruct (a ?= b) eqn:?; try done end;
          rewrite ?str_compare_same).

Lemma GenerateTimestamp_compare a b : tm_ok a → tm_ok b →
  String_as_OT.compare (GenerateTimestamp a) (GenerateTimestamp b) = fields_compare (tm_fields a) (tm_fields b).
Proof.
  unfold tm_ok. intros Ha Hb. destruct_and? Ha. destruct_and? Hb. unfold GenerateTimestamp, tm_fields.
  cbn [fields_compare]. padded_fields.
Qed.

Lemma match_digits_padded w n s : 0 ≤ n < 10 ^ Z.of_nat w → match_digits w (zero_padded w n s) = Some s.
Proof.
  assert (H : ∀ v w n s, 0 ≤ n → ∃ t, zero_padded w n s = t ∧ match_digits (w + v) t = match_digits v s).
  { clear. intros v w. revert v. induction w as [|w IH]; intros v n s Hn; [by exists s|].
    cbn [zero_padded]. pose proof (Z.mod_pos_bound n 10 ltac:(lia)).
    destruct (IH (S v) (n / 10) (String (digit_char (n mod 10)) s)) as (t & -> & Ht); [by apply Z.div_pos|].
    exists t. split; [done|]. replace (S w + v)%nat with (w + S v)%nat by lia. rewrite Ht. cbn [match_digits].
    by destruct (digit_char_spec (n mod 10)) as [-> _]. }
  intros [Hn _]. destruct (H 0%nat w n s Hn) as (t & -> & Ht). by rewrite Nat.add_0_r in Ht.
Qed.

(** the text order of generated timestamps is the order of time, which is
    what the string comparisons of the version store and of REVERT rely on. *)
Theorem timestamp_order (a b : Tm) :
  tm_ok a → tm_ok b →
  slt (GenerateTimestamp a) (GenerateTimestamp b) ↔ fields_compare (tm_fields a) (tm_fields b) = Lt.
Proof. intros Ha Hb. unfold slt. by rewrite GenerateTimestamp_compare. Qed.

Lemma timestamp_order_witness :
  slt (GenerateTimestamp (MkTm 2025 9 30 23 59 59 999999)) (GenerateTimestamp (MkTm 2025 10 1 0 0 0 0)).
Proof. apply timestamp_order; [unfold tm_ok; simpl; lia|unfold tm_ok; simpl; lia|reflexivity]. Defined.

Lemma match_char_same c s : match_char c (String c s) = Some s.
Proof. unfold match_char. by rewrite Ascii.eqb_refl. Qed.

(** Every timestamp the version store generates is accepted by the format
    check of REVERT. *)
Theorem generated_timestamp_accepted (t : Tm) :
  tm_ok t → timestamp_pattern (GenerateTimestamp t) = true.
Proof.
  intros Ht. unfold tm_ok in Ht. destruct_and? Ht. unfold timestamp_pattern, GenerateTimestamp.
  repeat (rewrite match_digits_padded by (simpl; lia); cbn [mbind option_bind];
          rewrite ?match_char_same; cbn [mbind option_bind]; try reflexivity).
Qed.

Lemma generated_timestamp_accepted_witness :
  timestamp_pattern (GenerateTimestamp (MkTm 2026 2 3 4 5 6 7)) = true.
Proof. apply generated_timestamp_accepted. unfold tm_ok; simpl; lia. Defined.
