(* ===== verification/RuntimeState.v ===== *)
(** * RuntimeState: tables with their heaps and indexes (src/core/runtime_state)

    The model is over any index structure that satisfies [IndexOps]; the
    theorems need its [IndexLaws].  An [unordered_map] is a [gmap]; the order
    in which the standard library iterates over one is unspecified, and the
    model visits the elements in the order of [map_to_list]. *)
From S2P Require Import Prelude Numerals CommonTypes Storage BStarPlusTree IndexSpec.

Section data.
Context (T : Type).

Record TableRuntime := MkTable {
  t_schema : TableSchema;
  t_heap : TableHeap;
  t_indexes : gmap string T
}.

Record DatabaseRuntime := MkDatabase {
  db_name : string;
  db_tables : gmap string TableRuntime
}.

Record RuntimeState := MkRuntime { databases : gmap string DatabaseRuntime }.

End data.
Arguments MkTable {T} _ _ _.
Arguments t_schema {T} _.
Arguments t_heap {T} _.
Arguments t_indexes {T} _.
Arguments MkDatabase {T} _ _.
Arguments db_name {T} _.
Arguments db_tables {T} _.
Arguments MkRuntime {T} _.
Arguments databases {T} _.

Fixpoint find_column (columns : list ColumnDefinition) (column_name : string) : option nat :=
  match columns with
  | [] => None
  | c :: cs =>
      if bool_decide (col_name c = column_name) then Some 0%nat
      else S <$> find_column cs column_name
  end.

Definition FindColumnIndex (schema : TableSchema) (column_name : string) : option nat :=
  find_column (schema_columns schema) column_name.

(** [row.values[column_index]] and [schema.columns[column_index].type]. *)
Definition value_at (row : RowData) (i : nat) : Outcome Value :=
  or_crash OutOfBounds (row_values row !! i).

Definition column_at (schema : TableSchema) (i : nat) : Outcome ColumnDefinition :=
  or_crash OutOfBounds (schema_columns schema !! i).

(** The index key of a row in the column at [i]. *)
Definition key_of (schema : TableSchema) (i : nat) (row : RowData) : Outcome string :=
  let* value := value_at row i in
  let* column := column_at schema i in
  EncodeIndexKey value (col_type column).

Section operations.
Context {T : Type} `{!IndexOps T}.

(** [indexes.emplace(column, make_unique<BStarPlusTree>())] for each index of
    the schema: a column that is already there keeps its tree. *)
Definition emplace {A} (k : string) (a : A) (m : gmap string A) : gmap string A :=
  match m !! k with Some _ => m | None => <[k := a]> m end.

Definition new_indexes (schema : TableSchema) : gmap string T :=
  foldl (λ m d, emplace (idx_column d) index_new m) ∅ (schema_indexes schema).

(** A loop over an index map that updates each tree in place: the map when it
    ended, and how it ended. *)
Fixpoint update_indexes (f : string → T → Outcome T) (l : list (string * T)) (acc : gmap string T)
    : gmap string T * Outcome unit :=
  match l with
  | [] => (acc, Ok tt)
  | (c, t) :: l =>
      match f c t with
      | Ok t' => update_indexes f l (<[c := t']> acc)
      | Err e => (acc, Err e)
      | Crash k => (acc, Crash k)
      end
  end.

(** Adds rows, one after the other, to every index. *)
Fixpoint index_rows (f : RowData → string → T → Outcome T) (rows : list RowData) (m : gmap string T)
    : gmap string T * Outcome unit :=
  match rows with
  | [] => (m, Ok tt)
  | row :: rows =>
      match update_indexes (f row) (map_to_list m) m with
      | (m, Ok _) => index_rows f rows m
      | stopped => stopped
      end
  end.

Definition tree_insert (t : T) (key : string) (row : Z) : Outcome T :=
  or_crash UndefinedBehaviour (index_insert t key row).

(** ** [CloneTableRuntime], [CloneRuntimeState] *)

Definition clone_index_row (schema : TableSchema) (row : RowData) (column_name : string) (t : T) : Outcome T :=
  match FindColumnIndex schema column_name with
  | None => Ok t
  | Some i => let* key := key_of schema i row in tree_insert t key (row_id row)
  end.

Definition CloneTableRuntime (source : TableRuntime T) : Outcome (TableRuntime T) :=
  let schema := t_schema source in
  let rows := ScanAll (t_heap source) in
  let heap := foldl (λ h row, (HeapInsert row h).2) (NewTableHeap schema) rows in
  let '(indexes, ended) := index_rows (clone_index_row schema) rows (new_indexes schema) in
  let* _ := ended in Ok (MkTable schema heap indexes).

(** [for (auto &[name, x] : source) cloned.emplace(name, f(x))]. *)
Fixpoint clone_entries {A B} (f : A → Outcome B) (l : list (string * A)) (acc : gmap string B)
    : Outcome (gmap string B) :=
  match l with
  | [] => Ok acc
  | (n, a) :: l => let* b := f a in clone_entries f l (emplace n b acc)
  end.

Definition clone_database (d : DatabaseRuntime T) : Outcome (DatabaseRuntime T) :=
  let* tables := clone_entries CloneTableRuntime (map_to_list (db_tables d)) ∅ in
  Ok (MkDatabase (db_name d) tables).

Definition CloneRuntimeState (source : RuntimeState T) : Outcome (RuntimeState T) :=
  let* dbs := clone_entries clone_database (map_to_list (databases source)) ∅ in Ok (MkRuntime dbs).

(** ** [ValidateRuntimeIndexConsistency] *)

Definition index_label (database_name table_name column : string) : string :=
  database_name +:+ "." +:+ table_name +:+ "." +:+ column.

Fixpoint validate_rows (label : string) (schema : TableSchema) (i : nat) (t : T) (seen : gset string)
    (rows : list RowData) : Outcome unit :=
  match rows with
  | [] => Ok tt
  | row :: rows =>
      let* encoded := key_of schema i row in
      if bool_decide (encoded ∈ seen) then
        MakeError kStorageError ("duplicate indexed key in heap for " +:+ label)
      else
        let* found := or_crash UndefinedBehaviour (index_find t encoded) in
        match found with
        | [rid] =>
            if bool_decide (rid = row_id row) then validate_rows label schema i t ({[encoded]} ∪ seen) rows
            else MakeError kStorageError ("index lookup mismatch for " +:+ label)
        | _ => MakeError kStorageError ("index lookup mismatch for " +:+ label)
        end
  end.

Definition validate_index (database_name table_name : string) (schema : TableSchema) (rows : list RowData)
    (column : string) (t : T) : Outcome unit :=
  let label := index_label database_name table_name column in
  if negb (index_valid t) then MakeError kStorageError ("index invariants broken for " +:+ label)
  else
    match FindColumnIndex schema column with
    | None => MakeError kStorageError ("indexed column missing in schema: " +:+ label)
    | Some i => validate_rows label schema i t ∅ rows
    end.

(** A [for] loop that stops at the first error. *)
Fixpoint for_each {A} (f : A → Outcome unit) (l : list A) : Outcome unit :=
  match l with
  | [] => Ok tt
  | x :: l => let* _ := f x in for_each f l
  end.

Definition validate_table (database_name table_name : string) (t : TableRuntime T) : Outcome unit :=
  for_each (λ '(c, tree), validate_index database_name table_name (t_schema t) (ScanAll (t_heap t)) c tree)
    (map_to_list (t_indexes t)).

Definition ValidateRuntimeIndexConsistency (s : RuntimeState T) : Outcome bool :=
  let* _ := for_each (λ '(n, d), for_each (λ '(tn, t), validate_table n tn t) (map_to_list (db_tables d)))
              (map_to_list (databases s)) in
  Ok true.

(** ** [RebuildRuntimeIndexes]

    The state after the loop is kept also when it stops with an error. *)

Definition rebuild_index_row (database_name table_name : string) (schema : TableSchema) (row : RowData)
    (column : string) (t : T) : Outcome T :=
  match FindColumnIndex schema column with
  | None => MakeError kStorageError ("indexed column missing in schema during rebuild: " +:+
                                     index_label database_name table_name column)
  | Some i => let* key := key_of schema i row in tree_insert t key (row_id row)
  end.

Definition rebuild_table (database_name table_name : string) (t : TableRuntime T)
    : TableRuntime T * Outcome unit :=
  let '(indexes, ended) :=
    index_rows (rebuild_index_row database_name table_name (t_schema t))
      (ScanAll (t_heap t)) (new_indexes (t_schema t)) in
  (MkTable (t_schema t) (t_heap t) indexes, ended).

Fixpoint rebuild_tables (database_name : string) (l : list (string * TableRuntime T))
    (acc : gmap string (TableRuntime T)) : gmap string (TableRuntime T) * Outcome unit :=
  match l with
  | [] => (acc, Ok tt)
  | (n, t) :: l =>
      match rebuild_table database_name n t with
      | (t', Ok _) => rebuild_tables database_name l (<[n := t']> acc)
      | (t', stopped) => (<[n := t']> acc, stopped)
      end
  end.

Fixpoint rebuild_databases (l : list (string * DatabaseRuntime T)) (acc : gmap string (DatabaseRuntime T))
    : gmap string (DatabaseRuntime T) * Outcome unit :=
  match l with
  | [] => (acc, Ok tt)
  | (n, d) :: l =>
      match rebuild_tables n (map_to_list (db_tables d)) (db_tables d) with
      | (tables, Ok _) => rebuild_databases l (<[n := MkDatabase (db_name d) tables]> acc)
      | (tables, stopped) => (<[n := MkDatabase (db_name d) tables]> acc, stopped)
      end
  end.

Definition RebuildRuntimeIndexes (s : RuntimeState T) : RuntimeState T * Outcome bool :=
  let '(dbs, ended) := rebuild_databases (map_to_list (databases s)) (databases s) in
  let s' := MkRuntime dbs in
  (s', let* _ := ended in ValidateRuntimeIndexConsistency s').

End operations.
