(* ===== verification/RuntimeFacts.v ===== *)
(** * RuntimeFacts: the invariant of a table and its maintenance

    A table is consistent when its heap is well formed, its rows fit the
    schema, and every index holds exactly the keys of the rows, each key once.
    Cloning, rebuilding and validating are proved against that invariant. *)
From S2P Require Import Prelude Numerals CommonTypes Storage BStarPlusTree IndexSpec RuntimeState.

Open Scope nat_scope.

(** ** The invariant *)

Definition allow_null (c : ColumnDefinition) : bool :=
  negb (bool_decide (col_constraint c = kNotNull)) && negb (bool_decide (col_constraint c = kIndexed)).

(** A value that the column accepts. *)
Definition cell_ok (v : Value) (c : ColumnDefinition) : Prop :=
  CanAssignToType v (col_type c) (allow_null c) = true ∧ value_ok v.

Definition row_ok (schema : TableSchema) (row : RowData) : Prop :=
  Forall2 cell_ok (row_values row) (schema_columns schema).

(** The key of a row when it has one. *)
Definition key_text (schema : TableSchema) (i : nat) (row : RowData) : string :=
  match key_of schema i row with Ok k => k | _ => "" end.

Definition index_keys (schema : TableSchema) (i : nat) (rows : list RowData) : list string :=
  map (key_text schema i) rows.

(** The contents an index over column [i] must have. *)
Definition index_contents (schema : TableSchema) (i : nat) (rows : list RowData) : multimap :=
  foldl (λ g row, mm_insert g (key_text schema i row) (row_id row)) ∅ rows.

Definition not_null_at (i : nat) (row : RowData) : Prop := row_values row !! i ≠ Some VNull.

Section invariant.
Context {T : Type} `{!IndexOps T} `{!IndexLaws T}.

Record index_consistent (schema : TableSchema) (rows : list RowData) (i : nat) (t : T) : Prop := {
  ic_ok : index_ok t (index_contents schema i rows);
  ic_unique : NoDup (index_keys schema i rows);
  ic_not_null : Forall (not_null_at i) rows
}.

Record indexes_consistent (schema : TableSchema) (rows : list RowData) (m : gmap string T) : Prop := {
  ix_dom : dom m = list_to_set (map idx_column (schema_indexes schema));
  ix_each c t : m !! c = Some t → ∃ i, FindColumnIndex schema c = Some i ∧ index_consistent schema rows i t
}.

Record table_ok (t : TableRuntime T) : Prop := {
  tok_heap : heap_wf (t_heap t);
  tok_next : heap_next (t_heap t) = foldl next_after 0%Z (heap_rows (t_heap t));
  tok_schema : heap_schema (t_heap t) = t_schema t;
  tok_rows : Forall (row_ok (t_schema t)) (heap_rows (t_heap t));
  tok_indexes : indexes_consistent (t_schema t) (heap_rows (t_heap t)) (t_indexes t)
}.

Definition database_ok (d : DatabaseRuntime T) : Prop := map_Forall (λ _, table_ok) (db_tables d).

Definition runtime_ok (s : RuntimeState T) : Prop := map_Forall (λ _, database_ok) (databases s).

(** ** Keys of rows *)

Lemma find_column_lt columns c i : find_column columns c = Some i → i < length columns.
Proof.
  revert i. induction columns as [|d ds IH]; intros i; simpl; [done|]. case_bool_decide; [intros [= <-]; lia|].
  destruct (find_column ds c) as [j|]; [|done]. intros [= <-]. specialize (IH j eq_refl). lia.
Qed.

Lemma encode_ok v ty : value_ok v → (IsNull v = true ∨ GetValueType v = ty) → ∃ k, EncodeIndexKey v ty = Ok k.
Proof.
  intros _ H. unfold EncodeIndexKey. destruct v; simpl in *; [by eexists|..];
    (destruct H as [|<-]; [done|]); simpl; by eexists.
Qed.

Lemma key_of_ok schema i row : row_ok schema row → i < length (schema_columns schema) →
  key_of schema i row = Ok (key_text schema i row).
Proof.
  intros Hrow Hi. destruct (lookup_lt_is_Some_2 _ _ Hi) as [c Hc].
  destruct (Forall2_lookup_r _ _ _ _ _ Hrow Hc) as (v & Hv & Hcell & Hok).
  unfold key_text, key_of, value_at, column_at. rewrite Hv, Hc. simpl.
  destruct (encode_ok v (col_type c) Hok) as [k ->]; [|done].
  unfold CanAssignToType in Hcell. destruct (IsNull v); [by left|right]. by apply bool_decide_eq_true in Hcell.
Qed.

Lemma index_contents_snoc schema i rows row :
  index_contents schema i (rows ++ [row]) = mm_insert (index_contents schema i rows) (key_text schema i row) (row_id row).
Proof. unfold index_contents. by rewrite foldl_app. Qed.

Lemma elem_of_index_contents schema i rows key rid :
  rid ∈ mm_find (index_contents schema i rows) key ↔
  ∃ row, row ∈ rows ∧ key_text schema i row = key ∧ row_id row = rid.
Proof.
  induction rows as [|row rows IH] using rev_ind.
  - unfold index_contents, mm_find. simpl. rewrite lookup_empty. simpl.
    split; [intros H; by apply not_elem_of_nil in H|intros (r & H & _); by apply not_elem_of_nil in H].
  - rewrite index_contents_snoc, elem_of_mm_insert, IH. split.
    + intros [(r & Hr & ? & ?)|[-> ->]]; [exists r|exists row]; rewrite elem_of_app; set_solver.
    + intros (r & [Hr|Hr%list_elem_of_singleton]%elem_of_app & Hk & Hid); [left; by exists r|right].
      subst. done.
Qed.

Lemma mm_find_NoDup schema i rows key : NoDup (mm_find (index_contents schema i rows) key).
Proof.
  induction rows as [|row rows IH] using rev_ind.
  - unfold index_contents, mm_find. simpl. rewrite lookup_empty. constructor.
  - rewrite index_contents_snoc, mm_find_insert. case_decide as Hk; [subst key|done].
    case_bool_decide; [done|]. apply NoDup_app. split_and!; [done| |apply NoDup_singleton]. set_solver.
Qed.

Lemma mm_find_row schema i rows row :
  NoDup (index_keys schema i rows) → row ∈ rows →
  mm_find (index_contents schema i rows) (key_text schema i row) = [row_id row].
Proof.
  intros Hu Hr. pose proof (mm_find_NoDup schema i rows (key_text schema i row)) as Hnd.
  assert (Hall : ∀ rid, rid ∈ mm_find (index_contents schema i rows) (key_text schema i row) ↔ rid = row_id row).
  { intros rid. rewrite elem_of_index_contents. split.
    - intros (r & Hr' & Hk & <-). f_equal.
      apply list_elem_of_lookup in Hr as [x Hx]. apply list_elem_of_lookup in Hr' as [y Hy].
      assert (x = y) as ->; [|congruence].
      eapply NoDup_lookup; [exact Hu| |]; unfold index_keys; rewrite list_lookup_fmap.
      + rewrite Hx. done.
      + rewrite Hy. simpl. by rewrite Hk.
    - intros ->. by exists row. }
  destruct (mm_find _ _) as [|x [|y l]].
  - exfalso. by eapply not_elem_of_nil, (Hall (row_id row)).
  - f_equal. apply Hall. by left.
  - exfalso. assert (x = y) as ->.
    { transitivity (row_id row); [apply Hall; by left|symmetry; apply Hall; right; by left]. }
    apply NoDup_cons in Hnd as [Hnd _]. apply Hnd. by left.
Qed.

(** ** Loops over index maps *)

Lemma update_indexes_all (Q : string → T → T → Prop) f l acc :
  (∀ c t, (c, t) ∈ l → ∃ t', f c t = Ok t' ∧ Q c t t') → NoDup l.*1 →
  ∃ m', update_indexes f l acc = (m', Ok tt) ∧ (∀ c, c ∉ l.*1 → m' !! c = acc !! c) ∧
    (∀ c t, (c, t) ∈ l → ∃ t', m' !! c = Some t' ∧ Q c t t').
Proof.
  revert acc. induction l as [|[c t] l IH]; intros acc Hf Hnd; simpl.
  { exists acc. split_and!; [done|done|]. intros ? ? []%not_elem_of_nil. }
  destruct (Hf c t) as (t' & -> & HQ); [by left|]. simpl in Hnd. apply NoDup_cons in Hnd as [Hc Hnd].
  destruct (IH (<[c:=t']> acc)) as (m' & -> & Hout & Hin); [intros; apply Hf; by right|done|].
  exists m'. split_and!; [done| |].
  - intros d [Hd1 Hd2]%not_elem_of_cons. rewrite Hout by done. by rewrite lookup_insert_ne.
  - intros d u [[= -> ->]|Hd]%elem_of_cons; [|by apply Hin].
    exists t'. split; [|done]. by rewrite Hout, lookup_insert_eq.
Qed.

Lemma update_indexes_map (Q : string → T → T → Prop) f m :
  (∀ c t, m !! c = Some t → ∃ t', f c t = Ok t' ∧ Q c t t') →
  ∃ m', update_indexes f (map_to_list m) m = (m', Ok tt) ∧ dom m' = dom m ∧
    (∀ c t', m' !! c = Some t' → ∃ t, m !! c = Some t ∧ Q c t t').
Proof.
  intros Hf. destruct (update_indexes_all Q f (map_to_list m) m) as (m' & -> & Hout & Hin).
  { intros c t Hct. apply Hf. by apply elem_of_map_to_list. }
  { apply NoDup_fst_map_to_list. }
  assert (Hlk : ∀ c, match m !! c with Some t => ∃ t', m' !! c = Some t' ∧ Q c t t' | None => m' !! c = None end).
  { intros c. destruct (m !! c) as [t|] eqn:E.
    - apply Hin. by apply elem_of_map_to_list.
    - rewrite Hout; [done|]. intros ([c' t'] & -> & Hct)%list_elem_of_fmap.
      apply elem_of_map_to_list in Hct. simpl in E. congruence. }
  exists m'. split_and!; [done| |].
  - apply set_eq. intros c. rewrite !elem_of_dom. specialize (Hlk c).
    destruct (m !! c) as [t|]; [destruct Hlk as (t' & -> & _); done|by rewrite Hlk].
  - intros c t' Hc. specialize (Hlk c). destruct (m !! c) as [t|].
    + destruct Hlk as (t'' & Hc' & HQ). exists t. split; [done|]. congruence.
    + congruence.
Qed.

(** A property [P done c t] of each tree after the rows [done] were added. *)
Lemma index_rows_all (P : list RowData → string → T → Prop) f rows done m :
  (∀ c t, m !! c = Some t → P done c t) →
  (∀ done row c t, row ∈ rows → P done c t → ∃ t', f row c t = Ok t' ∧ P (done ++ [row]) c t') →
  ∃ m', index_rows f rows m = (m', Ok tt) ∧ dom m' = dom m ∧ (∀ c t, m' !! c = Some t → P (done ++ rows) c t).
Proof.
  revert done m. induction rows as [|row rows IH]; intros done m Hm Hf; simpl.
  { exists m. by rewrite app_nil_r. }
  destruct (update_indexes_map (λ c _ t', P (done ++ [row]) c t') (f row) m) as (m1 & -> & Hdom & Hm1).
  { intros c t Hc. apply Hf; [by left|by apply Hm]. }
  destruct (IH (done ++ [row]) m1) as (m2 & -> & Hdom2 & Hm2).
  { intros c t Hc. by destruct (Hm1 c t Hc) as (? & ? & ?). }
  { intros. apply Hf; [by right|done]. }
  exists m2. split_and!; [done|congruence|]. by rewrite <-app_assoc in Hm2.
Qed.

(** The same from a loop that is known to have ended well. *)
Lemma update_indexes_inv (f : string → T → Outcome T) l acc m' :
  update_indexes f l acc = (m', Ok tt) → ∀ c t, (c, t) ∈ l → ∃ t', f c t = Ok t'.
Proof.
  revert acc. induction l as [|[c t] l IH]; intros acc; simpl; [intros _ ? ? []%not_elem_of_nil|].
  destruct (f c t) as [t'| |] eqn:E; try done. intros H c0 t0 [[= -> ->]|Hin]%elem_of_cons; [by exists t'|].
  by eapply IH.
Qed.

Lemma index_rows_inv (P : list RowData → string → T → Prop) f rows done m m' :
  (∀ c t, m !! c = Some t → P done c t) →
  (∀ done row c t t', row ∈ rows → P done c t → f row c t = Ok t' → P (done ++ [row]) c t') →
  index_rows f rows m = (m', Ok tt) →
  dom m' = dom m ∧ (∀ c t, m' !! c = Some t → P (done ++ rows) c t).
Proof.
  revert done m. induction rows as [|row rows IH]; intros done m Hm Hf; simpl.
  { intros [= <-]. by rewrite app_nil_r. }
  destruct (update_indexes (f row) (map_to_list m) m) as [m1 [[]| |]] eqn:E; try done. intros Hrest.
  destruct (update_indexes_map (λ c t t', f row c t = Ok t') (f row) m) as (m2 & E2 & Hdom & Hm1).
  { intros c t Hc. destruct (update_indexes_inv _ _ _ _ E c t) as [t' Ht']; [by apply elem_of_map_to_list|]. by exists t'. }
  rewrite E in E2. injection E2 as <-.
  destruct (IH (done ++ [row]) m1) as [Hd Hp]; [| |done|].
  { intros c t Hc. destruct (Hm1 c t Hc) as (t0 & Ht0 & Hft). eapply Hf; [by left|by apply Hm|done]. }
  { intros. eapply Hf; [by right|done|done]. }
  split; [congruence|]. by rewrite <-app_assoc in Hp.
Qed.

Lemma new_indexes_spec (schema : TableSchema) :
  dom (new_indexes schema : gmap string T) = list_to_set (map idx_column (schema_indexes schema)) ∧
  (∀ c t, (new_indexes schema : gmap string T) !! c = Some t → t = index_new).
Proof.
  unfold new_indexes. induction (schema_indexes schema) as [|d ds IH] using rev_ind; simpl.
  - split; [by rewrite dom_empty_L|]. intros c t. by rewrite lookup_empty.
  - rewrite foldl_app. simpl. rewrite map_app, list_to_set_app_L. simpl. destruct IH as [IH1 IH2].
    set (m := foldl _ _ _) in *. unfold emplace. destruct (m !! idx_column d) eqn:E.
    + split; [|done]. rewrite <-IH1. apply elem_of_dom_2 in E. set_solver.
    + split; [rewrite dom_insert_L, IH1; set_solver|]. intros c t. rewrite lookup_insert_Some.
      intros [[_ <-]|[_ ?]]; [done|by eapply IH2].
Qed.

(** Adding rows in order fills new indexes with the contents of those rows. *)
Definition filled (schema : TableSchema) (rows : list RowData) (c : string) (t : T) : Prop :=
  ∀ i, FindColumnIndex schema c = Some i → index_ok t (index_contents schema i rows).

Lemma filled_new schema c t : (new_indexes schema : gmap string T) !! c = Some t → filled schema [] c t.
Proof. intros Hc%(proj2 (new_indexes_spec schema)) i _. subst t. apply index_new_ok. Qed.

Lemma filled_step schema rows row c t i :
  FindColumnIndex schema c = Some i → row_ok schema row → filled schema rows c t →
  ∃ t', (let* key := key_of schema i row in tree_insert t key (row_id row)) = Ok t' ∧ filled schema (rows ++ [row]) c t'.
Proof.
  intros Hi Hrow Hf. rewrite key_of_ok by (done || by eapply find_column_lt). simpl.
  destruct (index_insert_ok t _ (key_text schema i row) (row_id row) (Hf i Hi)) as (t' & E & Ht').
  exists t'. unfold tree_insert. rewrite E. split; [done|]. intros j Hj.
  assert (i = j) as <- by congruence. by rewrite index_contents_snoc.
Qed.

Lemma filled_consistent schema rows (m m' : gmap string T) :
  indexes_consistent schema rows m → dom m' = dom m → (∀ c t, m' !! c = Some t → filled schema rows c t) →
  indexes_consistent schema rows m'.
Proof.
  intros [Hdom Heach] Hd Hf. split; [congruence|]. intros c t Hc.
  assert (is_Some (m !! c)) as [t0 Ht0] by (apply elem_of_dom; rewrite <-Hd; by eapply elem_of_dom_2).
  destruct (Heach c t0 Ht0) as (i & Hi & [_ Hu Hn]). exists i. split; [done|].
  split; [by eapply Hf|done|done].
Qed.

(** ** Cloning *)

Lemma HeapInsert_keeps_id row (h : TableHeap) : row_id row ≠ kInvalidRowId →
  (HeapInsert row h).2 = MkHeap (heap_schema h) (heap_rows h ++ [row]) (next_after (heap_next h) row).
Proof.
  intros Hid. unfold HeapInsert, next_after. rewrite bool_decide_false by done.
  case_bool_decide as H1; case_bool_decide as H2; simpl; try done; exfalso; naive_solver.
Qed.

Lemma heap_copy schema rows h : Forall (λ r, row_id r ≠ kInvalidRowId) rows → heap_schema h = schema →
  foldl (λ h row, (HeapInsert row h).2) h rows =
  MkHeap schema (heap_rows h ++ rows) (foldl next_after (heap_next h) rows).
Proof.
  intros H. revert h. induction H as [|row rows Hr _ IH]; intros h Hs; simpl.
  - rewrite app_nil_r. by destruct h; simpl in *; subst.
  - rewrite IH by by rewrite HeapInsert_keeps_id. rewrite HeapInsert_keeps_id by done. simpl. by rewrite <-app_assoc.
Qed.

Lemma heap_wf_ids h : heap_wf h → Forall (λ r, row_id r ≠ kInvalidRowId) (heap_rows h).
Proof.
  intros [[_ Hb] Hn]. eapply Forall_impl; [exact Hb|]. simpl. intros r Hr. lia.
Qed.

(** Same schema, rows and row ids; the indexes may be different trees. *)
Definition table_equiv (t t' : TableRuntime T) : Prop := t_schema t' = t_schema t ∧ t_heap t' = t_heap t.

Definition database_equiv (d d' : DatabaseRuntime T) : Prop :=
  db_name d' = db_name d ∧ ∀ n, option_Forall2 table_equiv (db_tables d !! n) (db_tables d' !! n).

Definition runtime_equiv (s s' : RuntimeState T) : Prop :=
  ∀ n, option_Forall2 database_equiv (databases s !! n) (databases s' !! n).

Lemma clone_table t : table_ok t → ∃ t', CloneTableRuntime t = Ok t' ∧ table_ok t' ∧ table_equiv t t'.
Proof.
  intros [Hh Hn Hs Hr Hi]. unfold CloneTableRuntime, ScanAll.
  destruct (index_rows_all (filled (t_schema t)) (clone_index_row (t_schema t)) (heap_rows (t_heap t)) []
    (new_indexes (t_schema t))) as (m' & -> & Hdom & Hm').
  { apply filled_new. }
  { intros done row c u Hrow Hf. unfold clone_index_row. rewrite Forall_forall in Hr.
    destruct (FindColumnIndex (t_schema t) c) as [i|] eqn:E.
    - apply filled_step; auto.
    - exists u. split; [done|]. intros i Hi'. congruence. }
  simpl. eexists. split; [done|].
  assert (Hcopy : foldl (λ h row, (HeapInsert row h).2) (NewTableHeap (t_schema t)) (heap_rows (t_heap t)) = t_heap t).
  { rewrite (heap_copy (t_schema t)); [|by apply heap_wf_ids|done]. simpl.
    destruct (t_heap t); simpl in *. by rewrite <-Hn, Hs. }
  rewrite Hcopy. split; [|done]. split; simpl; try done.
  eapply filled_consistent; [exact Hi| |done]. rewrite Hdom, (proj1 (new_indexes_spec (t_schema t))). by destruct Hi.
Qed.

Lemma clone_entries_all {A B} (R : A → B → Prop) (f : A → Outcome B) l acc :
  (∀ n a, (n, a) ∈ l → ∃ b, f a = Ok b ∧ R a b) → NoDup l.*1 → (∀ n, n ∈ l.*1 → acc !! n = None) →
  ∃ m, clone_entries f l acc = Ok m ∧ (∀ n, n ∉ l.*1 → m !! n = acc !! n) ∧
    (∀ n a, (n, a) ∈ l → ∃ b, m !! n = Some b ∧ R a b).
Proof.
  revert acc. induction l as [|[n a] l IH]; intros acc Hf Hnd Hacc; simpl.
  { exists acc. split_and!; [done|done|]. intros ? ? []%not_elem_of_nil. }
  destruct (Hf n a) as (b & -> & HR); [by left|]. simpl in *. apply NoDup_cons in Hnd as [Hn Hnd].
  unfold emplace. rewrite (Hacc n) by by left.
  destruct (IH (<[n:=b]> acc)) as (m & -> & Hout & Hin); [intros; eapply Hf; by right|done| |].
  { intros k Hk. rewrite lookup_insert_ne by (by intros ->). apply Hacc. by right. }
  exists m. split_and!; [done| |].
  - intros k [H1 H2]%not_elem_of_cons. by rewrite Hout, lookup_insert_ne.
  - intros k c [[= -> ->]|Hk]%elem_of_cons; [|by apply Hin]. exists b. by rewrite Hout, lookup_insert_eq.
Qed.

Lemma clone_entries_map {A B} (R : A → B → Prop) (f : A → Outcome B) (m : gmap string A) :
  map_Forall (λ _ a, ∃ b, f a = Ok b ∧ R a b) m →
  ∃ m', clone_entries f (map_to_list m) ∅ = Ok m' ∧ ∀ n, option_Forall2 R (m !! n) (m' !! n).
Proof.
  intros Hf. destruct (clone_entries_all R f (map_to_list m) ∅) as (m' & -> & Hout & Hin).
  { intros n a Hna%elem_of_map_to_list. by apply (Hf n). }
  { apply NoDup_fst_map_to_list. }
  { intros. apply lookup_empty. }
  exists m'. split; [done|]. intros n. destruct (m !! n) as [a|] eqn:E.
  - destruct (Hin n a) as (b & -> & HR); [by apply elem_of_map_to_list|]. by constructor.
  - rewrite Hout, lookup_empty; [constructor|]. intros ([k c] & -> & Hkc)%list_elem_of_fmap.
    apply elem_of_map_to_list in Hkc. simpl in E. congruence.
Qed.

Lemma option_Forall2_map_Forall {A B} (P : B → Prop) (R : A → B → Prop) (m : gmap string A) (m' : gmap string B) :
  (∀ a b, R a b → P b) → (∀ n, option_Forall2 R (m !! n) (m' !! n)) → map_Forall (λ _, P) m'.
Proof. intros HP H n b Hb. specialize (H n). rewrite Hb in H. inversion H; eauto. Qed.

Lemma option_Forall2_weaken {A B} (R R' : A → B → Prop) mx my :
  (∀ a b, R a b → R' a b) → option_Forall2 R mx my → option_Forall2 R' mx my.
Proof. intros H []; constructor; auto. Qed.

Lemma clone_runtime s : runtime_ok s → ∃ s', CloneRuntimeState s = Ok s' ∧ runtime_ok s' ∧ runtime_equiv s s'.
Proof.
  intros Hs. unfold CloneRuntimeState.
  destruct (clone_entries_map (λ d d', database_equiv d d' ∧ database_ok d') clone_database (databases s)) as (m & -> & Hm).
  { intros n d Hd. specialize (Hs n d Hd). unfold clone_database.
    destruct (clone_entries_map (λ t t', table_ok t' ∧ table_equiv t t') CloneTableRuntime (db_tables d)) as (ts & -> & Hts).
    { intros tn t Ht. by apply clone_table, (Hs tn). }
    simpl. eexists. split; [done|]. split.
    - split; [done|]. intros tn. eapply option_Forall2_weaken; [|apply Hts]. naive_solver.
    - eapply option_Forall2_map_Forall; [|exact Hts]. naive_solver. }
  simpl. eexists. split; [done|]. split.
  - eapply option_Forall2_map_Forall; [|exact Hm]. naive_solver.
  - intros n. eapply option_Forall2_weaken; [|apply Hm]. naive_solver.
Qed.

(** ** Validation *)

Lemma validate_rows_ok label schema i t before rows seen :
  index_ok t (index_contents schema i (before ++ rows)) → NoDup (index_keys schema i (before ++ rows)) →
  i < length (schema_columns schema) → Forall (row_ok schema) rows →
  seen = list_to_set (index_keys schema i before) →
  validate_rows label schema i t seen rows = Ok tt.
Proof.
  revert before seen. induction rows as [|row rows IH]; intros before seen Ht Hu Hi Hr Hseen; simpl; [done|].
  apply Forall_cons in Hr as [Hrow Hr]. rewrite key_of_ok by done. simpl.
  rewrite bool_decide_false.
  2: { rewrite Hseen, elem_of_list_to_set. unfold index_keys in Hu. rewrite map_app in Hu. simpl in Hu.
       apply NoDup_app in Hu as (_ & Hd & _). intros Hin. apply (Hd _ Hin). by left. }
  rewrite (index_find_ok _ _ _ Ht), mm_find_row by (done || set_solver). simpl.
  rewrite bool_decide_true by done. apply (IH (before ++ [row])); try done; try by rewrite <-app_assoc.
  unfold index_keys. rewrite map_app, list_to_set_app_L. simpl. unfold index_keys in Hseen. set_solver.
Qed.

Lemma for_each_ok {A} (f : A → Outcome unit) l : (∀ x, x ∈ l → f x = Ok tt) → for_each f l = Ok tt.
Proof.
  induction l as [|x l IH]; intros Hf; simpl; [done|]. rewrite Hf by by left. apply IH. intros. apply Hf. by right.
Qed.

Lemma for_each_inv {A} (f : A → Outcome unit) l : for_each f l = Ok tt → ∀ x, x ∈ l → f x = Ok tt.
Proof.
  induction l as [|y l IH]; simpl; intros H x; [intros []%not_elem_of_nil|].
  destruct (f y) as [[]| |] eqn:E; try done. intros [->|Hx]%elem_of_cons; [done|by apply IH].
Qed.

Lemma validate_table_ok n tn t : table_ok t → validate_table n tn t = Ok tt.
Proof.
  intros [_ _ _ Hr [_ Hi]]. apply for_each_ok. intros [c tree] Hc%elem_of_map_to_list.
  destruct (Hi c tree Hc) as (i & Hfi & [Hok Hu _]). unfold validate_index.
  rewrite (index_valid_ok _ _ Hok), Hfi. simpl.
  eapply (validate_rows_ok _ _ _ _ []); try done. by eapply find_column_lt.
Qed.

Lemma validate_runtime_ok s : runtime_ok s → ValidateRuntimeIndexConsistency s = Ok true.
Proof.
  intros Hs. unfold ValidateRuntimeIndexConsistency. rewrite for_each_ok; [done|].
  intros [n d] Hd%elem_of_map_to_list. apply for_each_ok. intros [tn t] Ht%elem_of_map_to_list.
  by eapply validate_table_ok, (Hs n d).
Qed.

Lemma validate_rows_sound label schema i t rows seen :
  validate_rows label schema i t seen rows = Ok tt →
  NoDup (index_keys schema i rows) ∧ (∀ k, k ∈ index_keys schema i rows → k ∉ seen) ∧
  ∀ row, row ∈ rows → key_of schema i row = Ok (key_text schema i row) ∧
    index_find t (key_text schema i row) = Some [row_id row].
Proof.
  revert seen. induction rows as [|row rows IH]; intros seen; simpl.
  { intros _. split_and!; [constructor|intros ? []%not_elem_of_nil..]. }
  unfold key_text at 1 2. destruct (key_of schema i row) as [k| |] eqn:Ek; simpl; try done.
  case_bool_decide as Hk; [done|]. destruct (index_find t k) as [[|rid [|]]|] eqn:Ef; simpl; try done.
  case_bool_decide as Hrid; [subst rid|done]. intros Hv. apply IH in Hv as (Hnd & Hdisj & Hfind).
  split_and!.
  - constructor; [|done]. intros Hin. apply (Hdisj k Hin). set_solver.
  - intros x [->|Hx]%elem_of_cons; [done|]. specialize (Hdisj x Hx). set_solver.
  - intros r [->|Hr]%elem_of_cons; [|by apply Hfind]. unfold key_text. by rewrite Ek.
Qed.

(** ** Rebuilding *)

(** What rebuilding needs of a table: everything but its present indexes. *)
Record table_rebuildable (t : TableRuntime T) : Prop := {
  rb_heap : heap_wf (t_heap t);
  rb_next : heap_next (t_heap t) = foldl next_after 0%Z (heap_rows (t_heap t));
  rb_schema : heap_schema (t_heap t) = t_schema t;
  rb_rows : Forall (row_ok (t_schema t)) (heap_rows (t_heap t));
  rb_columns d : d ∈ schema_indexes (t_schema t) → ∃ i, FindColumnIndex (t_schema t) (idx_column d) = Some i ∧
    NoDup (index_keys (t_schema t) i (heap_rows (t_heap t))) ∧ Forall (not_null_at i) (heap_rows (t_heap t))
}.

Lemma table_ok_rebuildable t : table_ok t → table_rebuildable t.
Proof.
  intros [Hh Hn Hs Hr [Hd Hi]]. split; try done. intros d Hin.
  assert (is_Some (t_indexes t !! idx_column d)) as [tree Htree].
  { apply elem_of_dom. rewrite Hd. apply elem_of_list_to_set, list_elem_of_fmap. by exists d. }
  destruct (Hi _ _ Htree) as (i & ? & [_ ? ?]). by exists i.
Qed.

Lemma new_indexes_columns (schema : TableSchema) c : c ∈ dom (new_indexes schema : gmap string T) →
  ∃ d, d ∈ schema_indexes schema ∧ idx_column d = c.
Proof.
  rewrite (proj1 (new_indexes_spec schema)), elem_of_list_to_set.
  intros (d & -> & Hd)%list_elem_of_fmap. by exists d.
Qed.

(** New indexes that were filled row by row are consistent. *)
Lemma filled_new_consistent schema rows (m : gmap string T) :
  dom m = dom (new_indexes schema : gmap string T) → (∀ c t, m !! c = Some t → filled schema rows c t) →
  (∀ d, d ∈ schema_indexes schema → ∃ i, FindColumnIndex schema (idx_column d) = Some i ∧
     NoDup (index_keys schema i rows) ∧ Forall (not_null_at i) rows) →
  indexes_consistent schema rows m.
Proof.
  intros Hdom Hf Hcols. split; [by rewrite Hdom, (proj1 (new_indexes_spec schema))|].
  intros c t Hc. destruct (new_indexes_columns schema c) as (d & Hd & <-); [rewrite <-Hdom; by eapply elem_of_dom_2|].
  destruct (Hcols d Hd) as (i & Hi & Hu & Hn). exists i. split; [done|]. split; [by apply (Hf _ _ Hc)|done|done].
Qed.

Lemma rebuild_table_ok n tn t : table_rebuildable t →
  ∃ t', rebuild_table n tn t = (t', Ok tt) ∧ table_ok t' ∧ table_equiv t t'.
Proof.
  intros [Hh Hn Hs Hr Hc]. unfold rebuild_table, ScanAll.
  destruct (index_rows_all (λ done c t', filled (t_schema t) done c t' ∧ c ∈ dom (new_indexes (t_schema t) : gmap string T))
    (rebuild_index_row n tn (t_schema t)) (heap_rows (t_heap t)) [] (new_indexes (t_schema t))) as (m' & -> & Hdom & Hm').
  { intros c u Hu. split; [by apply filled_new|by eapply elem_of_dom_2]. }
  { intros done row c u Hrow [Hf Hdom]. unfold rebuild_index_row. rewrite Forall_forall in Hr.
    destruct (new_indexes_columns _ _ Hdom) as (d & Hd & <-). destruct (Hc d Hd) as (i & Hi & _). rewrite Hi.
    destruct (filled_step (t_schema t) done row _ u i Hi) as (u' & -> & Hu'); auto. by exists u'. }
  eexists. split; [done|]. split; [|done]. split; simpl; try done.
  apply filled_new_consistent; [done|intros; by eapply Hm'|done].
Qed.

(** A loop that rewrites the entries of a map in place. *)
Lemma rebuild_tables_all n l acc :
  (∀ tn t, (tn, t) ∈ l → table_rebuildable t) → NoDup l.*1 → (∀ tn t, (tn, t) ∈ l → acc !! tn = Some t) →
  ∃ m, rebuild_tables n l acc = (m, Ok tt) ∧ (∀ tn, tn ∉ l.*1 → m !! tn = acc !! tn) ∧
    (∀ tn t, (tn, t) ∈ l → ∃ t', m !! tn = Some t' ∧ table_ok t' ∧ table_equiv t t').
Proof.
  revert acc. induction l as [|[tn t] l IH]; intros acc Hf Hnd Hacc; simpl.
  { exists acc. split_and!; [done|done|]. intros ? ? []%not_elem_of_nil. }
  destruct (rebuild_table_ok n tn t) as (t' & -> & Ht'); [eapply Hf; by left|].
  simpl in Hnd. apply NoDup_cons in Hnd as [Hn Hnd].
  destruct (IH (<[tn:=t']> acc)) as (m & -> & Hout & Hin); [intros; eapply Hf; by right|done| |].
  { intros k u Hk. rewrite lookup_insert_ne; [apply Hacc; by right|]. intros ->. apply Hn.
    apply list_elem_of_fmap. by exists (k, u). }
  exists m. split_and!; [done| |].
  - intros k [H1 H2]%not_elem_of_cons. by rewrite Hout, lookup_insert_ne.
  - intros k c [[= -> ->]|Hk]%elem_of_cons; [|by apply Hin]. exists t'. by rewrite Hout, lookup_insert_eq.
Qed.

(** Entries that were all visited: the map agrees with the old one entry by entry. *)
Lemma visited_all {A} (R : A → A → Prop) (m m' : gmap string A) :
  (∀ n, n ∉ (map_to_list m).*1 → m' !! n = m !! n) →
  (∀ n a, (n, a) ∈ map_to_list m → ∃ a', m' !! n = Some a' ∧ R a a') →
  ∀ n, option_Forall2 R (m !! n) (m' !! n).
Proof.
  intros Hout Hin n. destruct (m !! n) as [a|] eqn:E.
  - destruct (Hin n a) as (b & -> & HR); [by apply elem_of_map_to_list|]. by constructor.
  - rewrite Hout, E; [constructor|]. intros ([k c] & -> & Hkc)%list_elem_of_fmap.
    apply elem_of_map_to_list in Hkc. simpl in E. congruence.
Qed.

Definition database_rebuildable (d : DatabaseRuntime T) : Prop := map_Forall (λ _, table_rebuildable) (db_tables d).

Definition runtime_rebuildable (s : RuntimeState T) : Prop := map_Forall (λ _, database_rebuildable) (databases s).

Lemma rebuild_tables_ok n (m : gmap string (TableRuntime T)) : map_Forall (λ _, table_rebuildable) m →
  ∃ m', rebuild_tables n (map_to_list m) m = (m', Ok tt) ∧
    ∀ tn, option_Forall2 (λ t t', table_ok t' ∧ table_equiv t t') (m !! tn) (m' !! tn).
Proof.
  intros Hm. destruct (rebuild_tables_all n (map_to_list m) m) as (m' & -> & Hout & Hin).
  { intros tn t Ht%elem_of_map_to_list. by apply (Hm tn). }
  { apply NoDup_fst_map_to_list. }
  { intros tn t. apply elem_of_map_to_list. }
  exists m'. split; [done|]. by apply visited_all.
Qed.

Lemma rebuild_databases_all l acc :
  (∀ n d, (n, d) ∈ l → database_rebuildable d) → NoDup l.*1 →
  ∃ m, rebuild_databases l acc = (m, Ok tt) ∧ (∀ n, n ∉ l.*1 → m !! n = acc !! n) ∧
    (∀ n d, (n, d) ∈ l → ∃ d', m !! n = Some d' ∧ database_ok d' ∧ database_equiv d d').
Proof.
  revert acc. induction l as [|[n d] l IH]; intros acc Hf Hnd; simpl.
  { exists acc. split_and!; [done|done|]. intros ? ? []%not_elem_of_nil. }
  destruct (rebuild_tables_ok n (db_tables d)) as (m & -> & Hm); [eapply Hf; by left|].
  simpl in Hnd. apply NoDup_cons in Hnd as [Hn Hnd].
  destruct (IH (<[n:=MkDatabase (db_name d) m]> acc)) as (m' & -> & Hout & Hin); [intros; eapply Hf; by right|done|].
  exists m'. split_and!; [done| |].
  - intros k [H1 H2]%not_elem_of_cons. by rewrite Hout, lookup_insert_ne.
  - intros k c [[= -> ->]|Hk]%elem_of_cons; [|by apply Hin]. rewrite Hout, lookup_insert_eq by done.
    eexists. split; [done|]. split.
    + eapply option_Forall2_map_Forall; [|exact Hm]. naive_solver.
    + split; [done|]. intros tn. eapply option_Forall2_weaken; [|apply Hm]. naive_solver.
Qed.

Lemma rebuild_runtime s : runtime_rebuildable s →
  ∃ s', RebuildRuntimeIndexes s = (s', Ok true) ∧ runtime_ok s' ∧ runtime_equiv s s'.
Proof.
  intros Hs. unfold RebuildRuntimeIndexes.
  destruct (rebuild_databases_all (map_to_list (databases s)) (databases s)) as (m & -> & Hout & Hin).
  { intros n d Hd%elem_of_map_to_list. by apply (Hs n). }
  { apply NoDup_fst_map_to_list. }
  pose proof (visited_all (λ d d', database_ok d' ∧ database_equiv d d') _ _ Hout Hin) as Hm.
  assert (Hok : runtime_ok (MkRuntime m)).
  { eapply option_Forall2_map_Forall; [|exact Hm]. naive_solver. }
  eexists. split; [|split; [exact Hok|]].
  - simpl. by rewrite validate_runtime_ok.
  - intros n. eapply option_Forall2_weaken; [|apply Hm]. naive_solver.
Qed.

(** ** Theorems *)

(** C7: cloning a consistent runtime state (what BEGIN does) succeeds without
    undefined behaviour; the clone is consistent and has the same databases,
    tables, schemas, rows and next row ids. *)
Theorem clone_preserves_state (s : RuntimeState T) :
  runtime_ok s →
  ∃ s', CloneRuntimeState s = Ok s' ∧ runtime_ok s' ∧ runtime_equiv s s'.
Proof. apply clone_runtime. Qed.

(** CHECK INDEX is complete: it passes on every consistent state. *)
Theorem check_index_complete (s : RuntimeState T) :
  runtime_ok s → ValidateRuntimeIndexConsistency s = Ok true.
Proof. apply validate_runtime_ok. Qed.

(** C8: CHECK INDEX is sound: when it passes, every index is valid, no two
    rows of a table share an index key, and looking up the key of a row finds
    exactly that row. *)
Theorem check_index_sound (s : RuntimeState T) :
  ValidateRuntimeIndexConsistency s = Ok true →
  ∀ n d tn t c tree, databases s !! n = Some d → db_tables d !! tn = Some t → t_indexes t !! c = Some tree →
    index_valid tree = true ∧ ∃ i, FindColumnIndex (t_schema t) c = Some i ∧
      NoDup (index_keys (t_schema t) i (heap_rows (t_heap t))) ∧
      ∀ row, row ∈ heap_rows (t_heap t) → index_find tree (key_text (t_schema t) i row) = Some [row_id row].
Proof.
  unfold ValidateRuntimeIndexConsistency. intros Hv n d tn t c tree Hd Ht Hc.
  destruct (for_each _ (map_to_list (databases s))) as [[]| |] eqn:E; try done.
  pose proof (for_each_inv _ _ E (n, d)) as Hn. simpl in Hn.
  specialize (Hn ltac:(by apply elem_of_map_to_list)).
  pose proof (for_each_inv _ _ Hn (tn, t)) as Htn. simpl in Htn.
  specialize (Htn ltac:(by apply elem_of_map_to_list)).
  pose proof (for_each_inv _ _ Htn (c, tree)) as Hcv. simpl in Hcv.
  specialize (Hcv ltac:(by apply elem_of_map_to_list)). unfold validate_index in Hcv.
  destruct (index_valid tree) eqn:Hval; [|done]. simpl in Hcv. split; [done|].
  destruct (FindColumnIndex (t_schema t) c) as [i|]; [|done]. exists i. split; [done|].
  apply validate_rows_sound in Hcv as (Hu & _ & Hf). split; [done|]. intros row Hrow. by apply Hf.
Qed.

(** C9: REBUILD INDEX repairs any index damage: whenever the heaps are well
    formed, whatever the indexes hold, rebuilding gives a consistent state with
    the same rows and reports success. *)
Theorem rebuild_index_repairs (s : RuntimeState T) :
  runtime_rebuildable s →
  ∃ s', RebuildRuntimeIndexes s = (s', Ok true) ∧ runtime_ok s' ∧ runtime_equiv s s'.
Proof. apply rebuild_runtime. Qed.

End invariant.
