(* ===== verification/Predicates.v ===== *)
(** * Predicates: expressions, WHERE clauses and the access paths of a scan

    [EvaluateValueExpression], [EvaluatePredicate] and [FilterRows] of
    src/execution/execution_engine.cpp.  The regular expressions of LIKE are
    those of [std::regex]; they enter as the function [regex_match], which may
    end in the exception of an invalid pattern. *)
From S2P Require Import Prelude Numerals CommonTypes Storage BStarPlusTree IndexSpec RuntimeState Ast.
From Stdlib Require Import Ascii.

Open Scope Z_scope.

Section predicates.
Context (regex_match : string → string → Outcome bool).

(** ** Scalar expressions *)

Definition EvaluateValueExpression (expr : Expression) (schema : TableSchema) (row : RowData) : Outcome Value :=
  match expr with
  | LiteralExpression v => Ok v
  | ColumnReferenceExpression _ _ column_name =>
      match FindColumnIndex schema column_name with
      | None => MakeError kSemanticError ("unknown column: " +:+ column_name)
      | Some i => value_at row i
      end
  | _ => MakeError kNotImplemented "expression is not a scalar value expression"
  end.

(** An evaluation whose error the caller replaces. *)
Definition settled {A} (m : Outcome A) : Outcome (option A) :=
  match m with Ok a => Ok (Some a) | Err _ => Ok None | Crash c => Crash c end.

Definition compare_result (op : ComparisonOperator) (compared : Z) : bool :=
  match op with
  | kEqual => compared =? 0
  | kNotEqual => negb (compared =? 0)
  | kLess => compared <? 0
  | kGreater => 0 <? compared
  | kLessEqual => compared <=? 0
  | kGreaterEqual => 0 <=? compared
  end.

(** ** Predicates *)

Fixpoint EvaluatePredicate (expr : Expression) (schema : TableSchema) (row : RowData) : Outcome bool :=
  match expr with
  | LogicalExpression op e1 e2 =>
      let* l := EvaluatePredicate e1 schema row in
      let* r := EvaluatePredicate e2 schema row in
      Ok (match op with kAnd => l && r | kOr => l || r end)
  | BinaryComparisonExpression op e1 e2 =>
      let* l := EvaluateValueExpression e1 schema row in
      let* r := EvaluateValueExpression e2 schema row in
      if negb (bool_decide (GetValueType l = GetValueType r))
      then MakeError kTypeMismatch "comparison type mismatch"
      else let* compared := CompareValues l r in Ok (compare_result op compared)
  | BetweenExpression value lower_bound upper_bound =>
      let* v := settled (EvaluateValueExpression value schema row) in
      let* l := settled (EvaluateValueExpression lower_bound schema row) in
      let* u := settled (EvaluateValueExpression upper_bound schema row) in
      match v, l, u with
      | Some v, Some l, Some u =>
          if negb (bool_decide (GetValueType v = GetValueType l)) ||
             negb (bool_decide (GetValueType v = GetValueType u))
          then MakeError kTypeMismatch "BETWEEN type mismatch"
          else
            let* c1 := CompareValues v l in
            let* c2 := CompareValues v u in
            Ok ((0 <=? c1) && (c2 <? 0))
      | _, _, _ => MakeError kTypeMismatch "BETWEEN evaluation failed"
      end
  | LikeExpression value pattern =>
      let* v := settled (EvaluateValueExpression value schema row) in
      let* p := settled (EvaluateValueExpression pattern schema row) in
      match v, p with
      | Some v, Some p =>
          if negb (bool_decide (GetValueType v = kString)) || negb (bool_decide (GetValueType p = kString))
          then MakeError kTypeMismatch "LIKE accepts only string operands"
          else
            let* pattern_text := AsString p in
            let* value_text := AsString v in
            regex_match pattern_text value_text
      | _, _ => MakeError kTypeMismatch "LIKE evaluation failed"
      end
  | _ =>
      let* truthy := EvaluateValueExpression expr schema row in
      if IsNull truthy then Ok false
      else if bool_decide (GetValueType truthy = kInt64) then
        let* z := GetInt64 truthy in Ok (negb (z =? 0))
      else
        let* s := AsString truthy in Ok (negb (String.eqb s ""))
  end.

(** A row passes when there is no WHERE clause or it evaluates to true. *)
Definition passes (where_clause : option Expression) (schema : TableSchema) (row : RowData) : Outcome bool :=
  match where_clause with None => Ok true | Some w => EvaluatePredicate w schema row end.

(** ** Access paths *)

(** The loop over all rows. *)
Fixpoint seq_filter (where_clause : option Expression) (schema : TableSchema) (rows : list RowData)
    : Outcome (list RowData) :=
  match rows with
  | [] => Ok []
  | row :: rows =>
      let* pass := passes where_clause schema row in
      let* rest := seq_filter where_clause schema rows in
      Ok (if (pass : bool) then row :: rest else rest)
  end.

(** The loop over candidate row ids, with [append_if_passes]; [row_lookup]
    holds the first row with each id. *)
Fixpoint append_candidates (where_clause : option Expression) (schema : TableSchema) (rows : list RowData)
    (candidates : list Z) : Outcome (list RowData) :=
  match candidates with
  | [] => Ok []
  | rid :: rest =>
      match find_row rid rows with
      | None => append_candidates where_clause schema rows rest
      | Some row =>
          let* pass := passes where_clause schema row in
          let* more := append_candidates where_clause schema rows rest in
          Ok (if (pass : bool) then row :: more else more)
      end
  end.

Definition xFF : string := String (ascii_of_nat 255) "".

Section access.
Context {T : Type} `{!IndexOps T}.

Definition range_ids (t : T) (lower upper : string) : Outcome (list Z) :=
  let* entries := or_crash UndefinedBehaviour (index_range t lower upper) in
  Ok (flat_map entry_row_ids entries).

(** [candidate_row_ids] of a comparison with a literal; [None] for [!=]. *)
Definition comparison_candidates (op : ComparisonOperator) (t : T) (encoded : string) : option (Outcome (list Z)) :=
  match op with
  | kEqual => Some (or_crash UndefinedBehaviour (index_find t encoded))
  | kLess | kLessEqual => Some (range_ids t "" (encoded +:+ xFF))
  | kGreater | kGreaterEqual => Some (range_ids t encoded (xFF +:+ xFF +:+ xFF +:+ xFF))
  | kNotEqual => None
  end.

(** The candidates of the index path, when the WHERE clause has the shape of
    one and the column is indexed. *)
Definition index_candidates (where_clause : option Expression) (schema : TableSchema) (t : TableRuntime T)
    : Outcome (option (list Z)) :=
  match where_clause with
  | Some (BinaryComparisonExpression op (ColumnReferenceExpression _ _ column) (LiteralExpression literal)) =>
      match FindColumnIndex schema column, t_indexes t !! column with
      | Some i, Some tree =>
          let* c := column_at schema i in
          let* encoded := EncodeIndexKey literal (col_type c) in
          match comparison_candidates op tree encoded with
          | Some ids => let* ids := ids in Ok (Some ids)
          | None => Ok None
          end
      | _, _ => Ok None
      end
  | Some (BetweenExpression (ColumnReferenceExpression _ _ column) (LiteralExpression lower) (LiteralExpression upper)) =>
      match FindColumnIndex schema column, t_indexes t !! column with
      | Some i, Some tree =>
          let* c := column_at schema i in
          let* lower_key := EncodeIndexKey lower (col_type c) in
          let* upper_key := EncodeIndexKey upper (col_type c) in
          let* ids := range_ids tree lower_key upper_key in
          Ok (Some ids)
      | _, _ => Ok None
      end
  | _ => Ok None
  end.

Definition FilterRows (rows : list RowData) (where_clause : option Expression) (schema : TableSchema)
    (t : TableRuntime T) : Outcome (list RowData) :=
  let* candidates := index_candidates where_clause schema t in
  match candidates with
  | Some ids => append_candidates where_clause schema rows ids
  | None => seq_filter where_clause schema rows
  end.

End access.
End predicates.
