(* ===== verification/Execution.v ===== *)
(** * Execution: the statement executor (src/execution/execution_engine.cpp)

    [Execute] changes the catalog, the runtime state, the version store, the
    string pool and the session; the model threads them as one environment that
    is kept also when a statement ends with an error, as the objects of the
    source are.  The system clock is the function [clock] of the number of
    timestamps generated so far. *)
From S2P Require Import Prelude Numerals CommonTypes Storage BStarPlusTree IndexSpec RuntimeState Ast.
From S2P Require Import VersionStore Predicates.

Open Scope Z_scope.

Record SessionContext := MkSession {
  ses_client : string;
  ses_user : option string;
  ses_database : string
}.

Record QueryResult := MkResult {
  res_rows : list RowData;
  res_columns : list string;
  res_message : string
}.

Definition message_result (m : string) : QueryResult := MkResult [] [] m.

Section execution.
Context {T : Type} `{!IndexOps T}.
Context (regex_match : string → string → Outcome bool).
Context (clock : nat → Tm).

(** ** The environment *)

Record Env := MkEnv {
  e_catalog : Catalog;
  e_runtime : RuntimeState T;
  e_versions : VersionStore;
  e_pool : StringPool;
  e_session : SessionContext;
  e_tick : nat
}.

Definition with_runtime (s : RuntimeState T) (e : Env) : Env :=
  MkEnv (e_catalog e) s (e_versions e) (e_pool e) (e_session e) (e_tick e).
Definition with_catalog (c : Catalog) (e : Env) : Env :=
  MkEnv c (e_runtime e) (e_versions e) (e_pool e) (e_session e) (e_tick e).
Definition with_pool (p : StringPool) (e : Env) : Env :=
  MkEnv (e_catalog e) (e_runtime e) (e_versions e) p (e_session e) (e_tick e).
Definition with_database (d : string) (e : Env) : Env :=
  MkEnv (e_catalog e) (e_runtime e) (e_versions e) (e_pool e)
    (MkSession (ses_client (e_session e)) (ses_user (e_session e)) d) (e_tick e).

Definition set_database (n : string) (d : DatabaseRuntime T) (e : Env) : Env :=
  with_runtime (MkRuntime (<[n := d]> (databases (e_runtime e)))) e.

(** Writes a table of a database back. *)
Definition set_table (n tn : string) (t : TableRuntime T) (e : Env) : Env :=
  match databases (e_runtime e) !! n with
  | Some d => set_database n (MkDatabase (db_name d) (<[tn := t]> (db_tables d))) e
  | None => e
  end.

Definition ResolveDatabaseName (session : SessionContext) (requested : option string) : Outcome string :=
  match requested with
  | Some d => Ok d
  | None =>
      if String.eqb (ses_database session) "" then MakeError kValidationError "no active database selected"
      else Ok (ses_database session)
  end.

Definition find_database (e : Env) (requested : option string) : Outcome (string * DatabaseRuntime T) :=
  let* n := ResolveDatabaseName (e_session e) requested in
  match databases (e_runtime e) !! n with
  | None => MakeError kNotFound ("database not found: " +:+ n)
  | Some d => Ok (n, d)
  end.

(** The database and the table a statement names. *)
Definition resolve_table (e : Env) (name : QualifiedName) : Outcome (string * TableRuntime T) :=
  let* '(n, d) := find_database e (q_database name) in
  match db_tables d !! q_object name with
  | None => MakeError kNotFound ("table not found: " +:+ q_object name)
  | Some t => Ok (n, t)
  end.

(** ** Change events *)

Definition AppendChangeEvent (kind : ChangeKind) (database_name table_name : string)
    (schema : option TableSchema) (before after : option RowData) (e : Env) : Env :=
  let row := match after, before with
             | Some r, _ => row_id r
             | None, Some r => row_id r
             | None, None => kInvalidRowId
             end in
  let '(_, versions) := Append (clock (e_tick e))
        (MkChange kind database_name table_name "" row schema before after) (e_versions e) in
  MkEnv (e_catalog e) (e_runtime e) versions (e_pool e) (e_session e) (S (e_tick e)).

(** ** Rows and string values *)

Definition InternStringValue (value : Value) (pool : StringPool) : Value * StringPool :=
  match value with
  | VStr s => let '(p, pool) := Intern s pool in (VInterned p, pool)
  | _ => (value, pool)
  end.

Fixpoint intern_values (values : list Value) (pool : StringPool) : list Value * StringPool :=
  match values with
  | [] => ([], pool)
  | v :: vs =>
      let '(v, pool) := InternStringValue v pool in
      let '(vs, pool) := intern_values vs pool in
      (v :: vs, pool)
  end.

Definition InternStringValues (row : RowData) (pool : StringPool) : RowData * StringPool :=
  let '(vs, pool) := intern_values (row_values row) pool in (MkRow (row_id row) vs, pool).

Definition column_allows_null (c : ColumnDefinition) : bool :=
  negb (bool_decide (col_constraint c = kNotNull)) && negb (bool_decide (col_constraint c = kIndexed)).

(** The loop over the columns: the values from the current column on, with the
    pool, and how it ended. *)
Fixpoint validate_values (columns : list ColumnDefinition) (values : list Value) (pool : StringPool)
    : list Value * StringPool * Outcome unit :=
  match columns with
  | [] => (values, pool, Ok tt)
  | c :: cs =>
      match values with
      | [] => ([], pool, Crash OutOfBounds)
      | v :: vs =>
          let v := match col_default c with Some d => if IsNull v then d else v | None => v end in
          let '(v, pool) := InternStringValue v pool in
          if negb (CanAssignToType v (col_type c) (column_allows_null c)) then
            (v :: vs, pool, MakeError kConstraintViolation
               ("type/nullability constraint violation for column: " +:+ col_name c))
          else
            let '(vs, pool, ended) := validate_values cs vs pool in (v :: vs, pool, ended)
      end
  end.

Definition ValidateRowAgainstSchema (row : RowData) (schema : TableSchema) (pool : StringPool)
    : RowData * StringPool * Outcome unit :=
  let '(vs, pool, ended) := validate_values (schema_columns schema) (row_values row) pool in
  (MkRow (row_id row) vs, pool, ended).

(** ** Index maintenance *)

(** The check of a new row against one index. *)
Definition check_unique (schema : TableSchema) (values : list Value) (column : string) (t : T) (i : nat)
    : Outcome string :=
  let* value := or_crash OutOfBounds (values !! i) in
  if IsNull value then MakeError kConstraintViolation ("INDEXED column cannot be NULL: " +:+ column)
  else
    let* c := column_at schema i in
    let* key := EncodeIndexKey value (col_type c) in
    let* found := or_crash UndefinedBehaviour (index_find t key) in
    match found with
    | [] => Ok key
    | _ :: _ => MakeError kConstraintViolation ("duplicate value for INDEXED column: " +:+ column)
    end.

Definition rebuild_row (schema : TableSchema) (row : RowData) (column : string) (t : T) : Outcome T :=
  match FindColumnIndex schema column with
  | None => MakeError kSemanticError ("indexed column not found in schema: " +:+ column)
  | Some i =>
      let* key := check_unique schema (row_values row) column t i in
      tree_insert t key (row_id row)
  end.

(** [RebuildIndexes]: the indexes of the table change only on success. *)
Definition RebuildIndexes (t : TableRuntime T) (rows : list RowData) : Outcome (TableRuntime T) :=
  let '(indexes, ended) := index_rows (rebuild_row (t_schema t)) rows (new_indexes (t_schema t)) in
  let* _ := ended in Ok (MkTable (t_schema t) (t_heap t) indexes).

(** ** CREATE, USE and DROP *)

Definition ExecuteCreateDatabase (database_name : string) (e : Env) : Outcome QueryResult * Env :=
  match databases (e_runtime e) !! database_name with
  | Some _ => (MakeError kAlreadyExists ("database already exists: " +:+ database_name), e)
  | None =>
      let e := with_catalog (CreateDatabase database_name (e_catalog e)) e in
      let e := set_database database_name (MkDatabase database_name ∅) e in
      let e := AppendChangeEvent kCreateDatabase database_name "" None None None e in
      (Ok (message_result "database created"), e)
  end.

Definition ExecuteUseDatabase (database_name : string) (e : Env) : Outcome QueryResult * Env :=
  match databases (e_runtime e) !! database_name with
  | None => (MakeError kNotFound ("database not found: " +:+ database_name), e)
  | Some _ => (Ok (message_result "database selected"), with_database database_name e)
  end.

Definition ExecuteDropDatabase (database_name : string) (e : Env) : Outcome QueryResult * Env :=
  match databases (e_runtime e) !! database_name with
  | None => (MakeError kNotFound ("database not found: " +:+ database_name), e)
  | Some _ =>
      let e := with_runtime (MkRuntime (delete database_name (databases (e_runtime e)))) e in
      let e := with_catalog (DropDatabase database_name (e_catalog e)) e in
      let e := if String.eqb (ses_database (e_session e)) database_name then with_database "" e else e in
      let e := AppendChangeEvent kDropDatabase database_name "" None None None e in
      (Ok (message_result "database dropped"), e)
  end.

(** The columns and the indexes of a new schema. *)
Fixpoint build_columns (table_name : string) (specs : list ColumnSpec) (pool : StringPool)
    : list ColumnDefinition * list IndexDefinition * StringPool :=
  match specs with
  | [] => ([], [], pool)
  | s :: specs =>
      let constraint := if cs_indexed s then kIndexed else if cs_not_null s then kNotNull else kNone in
      let '(default, pool) := match cs_default s with
                              | Some v => let '(v, pool) := InternStringValue v pool in (Some v, pool)
                              | None => (None, pool)
                              end in
      let '(cs, defs, pool) := build_columns table_name specs pool in
      (MkColumn (cs_name s) (cs_type s) constraint default :: cs,
       (if cs_indexed s then [MkIndexDef ("idx_" +:+ table_name +:+ "_" +:+ cs_name s) (cs_name s) true true] else [])
         ++ defs,
       pool)
  end.

Definition ExecuteCreateTable (name : QualifiedName) (columns : list ColumnSpec) (e : Env)
    : Outcome QueryResult * Env :=
  match find_database e (q_database name) with
  | Err er => (Err er, e)
  | Crash c => (Crash c, e)
  | Ok (n, d) =>
      match db_tables d !! q_object name with
      | Some _ => (MakeError kAlreadyExists ("table already exists: " +:+ q_object name), e)
      | None =>
          let '(cs, defs, pool) := build_columns (q_object name) columns (e_pool e) in
          let e := with_pool pool e in
          let schema := MkSchema n (q_object name) cs defs in
          let e := set_table n (q_object name) (MkTable schema (NewTableHeap schema) (new_indexes schema)) e in
          let e := AppendChangeEvent kCreateTable n (q_object name) (Some schema) None None e in
          let e := with_catalog (RegisterTable schema (e_catalog e)) e in
          (Ok (message_result "table created"), e)
      end
  end.

Definition ExecuteDropTable (name : QualifiedName) (e : Env) : Outcome QueryResult * Env :=
  match find_database e (q_database name) with
  | Err er => (Err er, e)
  | Crash c => (Crash c, e)
  | Ok (n, d) =>
      match db_tables d !! q_object name with
      | None => (MakeError kNotFound ("table not found: " +:+ q_object name), e)
      | Some t =>
          let e := set_database n (MkDatabase (db_name d) (delete (q_object name) (db_tables d))) e in
          let e := AppendChangeEvent kDropTable n (q_object name) (Some (t_schema t)) None None e in
          (Ok (message_result "table dropped"), e)
      end
  end.

(** ** INSERT *)

Fixpoint input_columns (schema : TableSchema) (names : list string) : Outcome (list nat) :=
  match names with
  | [] => Ok []
  | name :: names =>
      match FindColumnIndex schema name with
      | None => MakeError kSemanticError ("unknown column in INSERT: " +:+ name)
      | Some i => let* rest := input_columns schema names in Ok (i :: rest)
      end
  end.

(** [row.values[input_to_schema[i]] = literal->value] for each input value. *)
Fixpoint assign_inputs (input_to_schema : list nat) (inputs : list Expression) (values : list Value)
    {struct inputs} : Outcome (list Value) :=
  match inputs with
  | [] => Ok values
  | LiteralExpression v :: inputs =>
      match input_to_schema with
      | [] => Crash OutOfBounds
      | i :: targets =>
          let* values := or_crash OutOfBounds (vec_set i v values) in
          assign_inputs targets inputs values
      end
  | _ :: _ => MakeError kValidationError "INSERT currently accepts only literal values"
  end.

(** The uniqueness checks of a new row: an index whose column the schema does
    not have is passed over. *)
Definition check_row (t : TableRuntime T) (values : list Value) : Outcome unit :=
  for_each (λ '(column, tree),
    match FindColumnIndex (t_schema t) column with
    | None => Ok tt
    | Some i => let* _ := check_unique (t_schema t) values column tree i in Ok tt
    end) (map_to_list (t_indexes t)).

Definition insert_into_index (schema : TableSchema) (row : RowData) (column : string) (tree : T) : Outcome T :=
  match FindColumnIndex schema column with
  | None => Ok tree
  | Some i => let* key := key_of schema i row in tree_insert tree key (row_id row)
  end.

(** One row of an INSERT: the table and the environment after it. *)
Definition insert_row (n : string) (input_to_schema : list nat) (inputs : list Expression)
    (t : TableRuntime T) (e : Env) : Outcome unit * TableRuntime T * Env :=
  let schema := t_schema t in
  match assign_inputs input_to_schema inputs (replicate (length (schema_columns schema)) VNull) with
  | Err er => (Err er, t, e)
  | Crash c => (Crash c, t, e)
  | Ok values =>
      let '(row, pool) := InternStringValues (MkRow kInvalidRowId values) (e_pool e) in
      let '(row, pool, validation) := ValidateRowAgainstSchema row schema pool in
      let e := with_pool pool e in
      match (let* _ := validation in check_row t (row_values row)) with
      | Err er => (Err er, t, e)
      | Crash c => (Crash c, t, e)
      | Ok _ =>
          let '(rid, heap) := HeapInsert row (t_heap t) in
          let row := MkRow rid (row_values row) in
          let '(indexes, ended) :=
            update_indexes (insert_into_index schema row) (map_to_list (t_indexes t)) (t_indexes t) in
          let t := MkTable schema heap indexes in
          match ended with
          | Ok _ =>
              (Ok tt, t, AppendChangeEvent kInsertRow n (schema_table schema) None None (Some row) e)
          | Err er => (Err er, t, e)
          | Crash c => (Crash c, t, e)
          end
      end
  end.

Fixpoint insert_rows (n : string) (input_to_schema : list nat) (rows : list (list Expression))
    (t : TableRuntime T) (e : Env) : Outcome unit * TableRuntime T * Env :=
  match rows with
  | [] => (Ok tt, t, e)
  | inputs :: rows =>
      match insert_row n input_to_schema inputs t e with
      | (Ok _, t, e) => insert_rows n input_to_schema rows t e
      | stopped => stopped
      end
  end.

(** Rows before a row that fails stay inserted. *)
Definition ExecuteInsert (name : QualifiedName) (column_names : list string) (rows : list (list Expression))
    (e : Env) : Outcome QueryResult * Env :=
  match resolve_table e name with
  | Err er => (Err er, e)
  | Crash c => (Crash c, e)
  | Ok (n, t) =>
      match input_columns (t_schema t) column_names with
      | Err er => (Err er, e)
      | Crash c => (Crash c, e)
      | Ok input_to_schema =>
          let '(ended, t, e) := insert_rows n input_to_schema rows t e in
          (let* _ := ended in Ok (message_result "rows inserted"), set_table n (q_object name) t e)
      end
  end.

(** ** UPDATE and DELETE *)

Fixpoint assign_columns (schema : TableSchema) (assignments : list Assignment) (row : RowData) : Outcome RowData :=
  match assignments with
  | [] => Ok row
  | a :: rest =>
      match FindColumnIndex schema (assign_column a) with
      | None => MakeError kSemanticError ("unknown column in UPDATE: " +:+ assign_column a)
      | Some i =>
          let* v := EvaluateValueExpression (assign_value a) schema row in
          let* values := or_crash OutOfBounds (vec_set i v (row_values row)) in
          assign_columns schema rest (MkRow (row_id row) values)
      end
  end.

(** A row that matched: the new row, or why the statement stops. *)
Definition update_row (n : string) (schema : TableSchema) (assignments : list Assignment) (row : RowData) (e : Env)
    : Outcome RowData * Env :=
  match assign_columns schema assignments row with
  | Err er => (Err er, e)
  | Crash c => (Crash c, e)
  | Ok changed =>
      let '(changed, pool) := InternStringValues changed (e_pool e) in
      let '(changed, pool, validation) := ValidateRowAgainstSchema changed schema pool in
      let e := with_pool pool e in
      match validation with
      | Err er => (Err er, e)
      | Crash c => (Crash c, e)
      | Ok _ => (Ok changed, AppendChangeEvent kUpdateRow n (schema_table schema) None (Some row) (Some changed) e)
      end
  end.

Fixpoint update_rows (n : string) (schema : TableSchema) (assignments : list Assignment)
    (where_clause : option Expression) (rows : list RowData) (e : Env) : Outcome (list RowData * nat) * Env :=
  match rows with
  | [] => (Ok ([], 0%nat), e)
  | row :: rows =>
      match passes regex_match where_clause schema row with
      | Err er => (Err er, e)
      | Crash c => (Crash c, e)
      | Ok should_update =>
          let '(changed, e) := if (should_update : bool) then update_row n schema assignments row e
                               else (Ok row, e) in
          match changed with
          | Err er => (Err er, e)
          | Crash c => (Crash c, e)
          | Ok changed =>
              let '(rest, e) := update_rows n schema assignments where_clause rows e in
              (let* '(rest, count) := rest in
               Ok (changed :: rest, if should_update then S count else count), e)
          end
      end
  end.

(** [RebuildIndexes] and [ReplaceAll] at the end of UPDATE, DELETE and REVERT. *)
Definition replace_rows (n tn : string) (t : TableRuntime T) (rows : list RowData) (message : string) (e : Env)
    : Outcome QueryResult * Env :=
  match RebuildIndexes t rows with
  | Err er => (Err er, e)
  | Crash c => (Crash c, e)
  | Ok t' =>
      (Ok (message_result message), set_table n tn (MkTable (t_schema t') (HeapReplaceAll rows (t_heap t')) (t_indexes t')) e)
  end.

Definition ExecuteUpdate (name : QualifiedName) (assignments : list Assignment) (where_clause : option Expression)
    (e : Env) : Outcome QueryResult * Env :=
  match resolve_table e name with
  | Err er => (Err er, e)
  | Crash c => (Crash c, e)
  | Ok (n, t) =>
      let '(updated, e) := update_rows n (t_schema t) assignments where_clause (ScanAll (t_heap t)) e in
      match updated with
      | Err er => (Err er, e)
      | Crash c => (Crash c, e)
      | Ok (rows, count) =>
          replace_rows n (q_object name) t rows ("updated " +:+ to_string (Z.of_nat count) +:+ " row(s)") e
      end
  end.

Fixpoint delete_rows (n : string) (schema : TableSchema) (where_clause : option Expression)
    (rows : list RowData) (e : Env) : Outcome (list RowData * nat) * Env :=
  match rows with
  | [] => (Ok ([], 0%nat), e)
  | row :: rows =>
      match passes regex_match where_clause schema row with
      | Err er => (Err er, e)
      | Crash c => (Crash c, e)
      | Ok true =>
          let e := AppendChangeEvent kDeleteRow n (schema_table schema) None (Some row) None e in
          let '(rest, e) := delete_rows n schema where_clause rows e in
          (let* '(kept, count) := rest in Ok (kept, S count), e)
      | Ok false =>
          let '(rest, e) := delete_rows n schema where_clause rows e in
          (let* '(kept, count) := rest in Ok (row :: kept, count), e)
      end
  end.

Definition ExecuteDelete (name : QualifiedName) (where_clause : option Expression) (e : Env)
    : Outcome QueryResult * Env :=
  match resolve_table e name with
  | Err er => (Err er, e)
  | Crash c => (Crash c, e)
  | Ok (n, t) =>
      let '(deleted, e) := delete_rows n (t_schema t) where_clause (ScanAll (t_heap t)) e in
      match deleted with
      | Err er => (Err er, e)
      | Crash c => (Crash c, e)
      | Ok (kept, count) =>
          replace_rows n (q_object name) t kept ("deleted " +:+ to_string (Z.of_nat count) +:+ " row(s)") e
      end
  end.

(** ** SELECT *)

Definition int64_add (a b : Z) : Outcome Z :=
  if decide (in_int64 (a + b)) then Ok (a + b) else Crash SignedOverflow.

(** COUNT: all rows for ["*"], otherwise those whose value is not null. *)
Fixpoint count_rows (column_index : option nat) (rows : list RowData) (count : Z) : Outcome Z :=
  match rows with
  | [] => Ok count
  | row :: rows =>
      match column_index with
      | None => let* count := int64_add count 1 in count_rows column_index rows count
      | Some i =>
          let* v := value_at row i in
          let* count := if IsNull v then Ok count else int64_add count 1 in
          count_rows column_index rows count
      end
  end.

(** SUM and AVG: the sum and the number of values that are not null. *)
Fixpoint sum_rows (i : nat) (rows : list RowData) (sum count : Z) : Outcome (Z * Z) :=
  match rows with
  | [] => Ok (sum, count)
  | row :: rows =>
      let* v := value_at row i in
      if IsNull v then sum_rows i rows sum count
      else if negb (bool_decide (GetValueType v = kInt64))
      then MakeError kTypeMismatch "SUM/AVG require INT column values"
      else
        let* z := GetInt64 v in
        let* sum := int64_add sum z in
        let* count := int64_add count 1 in
        sum_rows i rows sum count
  end.

Definition item_label (item : SelectItem) (wildcard : string) : string :=
  match item_alias item with
  | Some a => a
  | None => if String.eqb (item_column item) "*" then wildcard else item_column item
  end.

(** The value of one aggregate item. *)
Definition aggregate_value (schema : TableSchema) (rows : list RowData) (item : SelectItem) : Outcome Value :=
  match item_aggregate item with
  | None => MakeError kSemanticError "aggregate SELECT cannot contain non-aggregate items"
  | Some kind =>
      let* column_index :=
        if String.eqb (item_column item) "*" then Ok None
        else match FindColumnIndex schema (item_column item) with
             | None => MakeError kSemanticError ("unknown column in SELECT: " +:+ item_column item)
             | Some i => Ok (Some i)
             end in
      match kind, column_index with
      | kCount, _ => let* c := count_rows column_index rows 0 in Ok (VInt c)
      | _, None => MakeError kSemanticError "SUM/AVG do not support wildcard '*'"
      | kSum, Some i => let* '(sum, _) := sum_rows i rows 0 0 in Ok (VInt sum)
      | kAvg, Some i =>
          let* '(sum, count) := sum_rows i rows 0 0 in
          Ok (if count =? 0 then VNull else VInt (Z.quot sum count))
      end
  end.

Fixpoint aggregate_values (schema : TableSchema) (rows : list RowData) (items : list SelectItem)
    : Outcome (list Value) :=
  match items with
  | [] => Ok []
  | item :: items =>
      let* v := aggregate_value schema rows item in
      let* vs := aggregate_values schema rows items in
      Ok (v :: vs)
  end.

Fixpoint project_row (schema : TableSchema) (items : list SelectItem) (row : RowData) : Outcome (list Value) :=
  match items with
  | [] => Ok []
  | item :: items =>
      match FindColumnIndex schema (item_column item) with
      | None => MakeError kSemanticError ("unknown column in SELECT: " +:+ item_column item)
      | Some i =>
          let* v := value_at row i in
          let* vs := project_row schema items row in
          Ok (v :: vs)
      end
  end.

Fixpoint project_rows (schema : TableSchema) (items : list SelectItem) (rows : list RowData)
    : Outcome (list RowData) :=
  match rows with
  | [] => Ok []
  | row :: rows =>
      let* vs := project_row schema items row in
      let* rest := project_rows schema items rows in
      Ok (MkRow kInvalidRowId vs :: rest)
  end.

Definition is_wildcard_select (items : list SelectItem) : bool :=
  match items with [item] => item_wildcard item | _ => false end.

Definition is_aggregate_select (items : list SelectItem) : bool :=
  match items with item :: _ => bool_decide (is_Some (item_aggregate item)) | [] => false end.

Definition selected (rows : list RowData) (columns : list string) : QueryResult :=
  MkResult rows columns ("selected " +:+ to_string (Z.of_nat (length rows)) +:+ " row(s)").

(** The column names are set while the first row is produced: without rows
    there are none. *)
Definition select_rows (schema : TableSchema) (items : list SelectItem) (rows : list RowData) : Outcome QueryResult :=
  if is_aggregate_select items then
    let* values := aggregate_values schema rows items in
    Ok (MkResult [MkRow kInvalidRowId values] (map (λ i, item_label i "count") items) "selected 1 row(s)")
  else if is_wildcard_select items then
    Ok (selected rows (match rows with [] => [] | _ :: _ => map col_name (schema_columns schema) end))
  else
    let* out := project_rows schema items rows in
    Ok (selected out (match rows with [] => [] | _ :: _ => map (λ i, default (item_column i) (item_alias i)) items end)).

Definition ExecuteSelect (name : QualifiedName) (items : list SelectItem) (where_clause : option Expression)
    (e : Env) : Outcome QueryResult :=
  let* '(_, t) := resolve_table e name in
  let* rows := FilterRows regex_match (ScanAll (t_heap t)) where_clause (t_schema t) t in
  select_rows (t_schema t) items rows.

(** ** REVERT *)

Definition apply_change (rows : gmap Z RowData) (record : ChangeRecord) : gmap Z RowData :=
  match ch_kind record with
  | kCreateTable | kDropTable => ∅
  | kInsertRow | kUpdateRow =>
      match ch_after record with Some r => <[row_id r := r]> rows | None => rows end
  | kDeleteRow =>
      match ch_before record with Some r => delete (row_id r) rows | None => rows end
  | kCreateDatabase | kDropDatabase => rows
  end.

(** [std::sort] by row id; the ids of a map are distinct. *)
Fixpoint insert_by_id (row : RowData) (rows : list RowData) : list RowData :=
  match rows with
  | [] => [row]
  | r :: rest => if row_id row <? row_id r then row :: rows else r :: insert_by_id row rest
  end.

Definition sort_by_id (rows : list RowData) : list RowData := foldr insert_by_id [] rows.

Definition ReconstructTableStateAt (versions : VersionStore) (database_name table_name timestamp : string)
    : list RowData :=
  let history := HistoryForTable database_name table_name versions in
  let rows_by_id := foldl apply_change ∅ (filter (λ r, (timestamp <s ch_timestamp r) = false) history) in
  sort_by_id (map snd (map_to_list rows_by_id)).

Fixpoint row_values_equal (lhs rhs : list Value) : Outcome bool :=
  match lhs, rhs with
  | [], [] => Ok true
  | l :: ls, r :: rs =>
      if negb (bool_decide (GetValueType l = GetValueType r)) then Ok false
      else
        let* c := CompareValues l r in
        if negb (c =? 0) then Ok false else row_values_equal ls rs
  | _, _ => Ok false
  end.

Definition RowValuesEqual (lhs rhs : RowData) : Outcome bool :=
  if negb (length (row_values lhs) =? length (row_values rhs))%nat then Ok false
  else row_values_equal (row_values lhs) (row_values rhs).

(** [by_id.emplace(row.row_id, row)] for each row: the first row of an id stays. *)
Definition rows_by_id (rows : list RowData) : gmap Z RowData :=
  foldl (λ m r, match m !! row_id r with Some _ => m | None => <[row_id r := r]> m end) ∅ rows.

Fixpoint revert_current (n tn : string) (target : gmap Z RowData) (current : list (Z * RowData)) (e : Env)
    : Outcome unit * Env :=
  match current with
  | [] => (Ok tt, e)
  | (rid, row) :: current =>
      match target !! rid with
      | None =>
          revert_current n tn target current (AppendChangeEvent kDeleteRow n tn None (Some row) None e)
      | Some wanted =>
          match RowValuesEqual row wanted with
          | Ok true => revert_current n tn target current e
          | Ok false =>
              revert_current n tn target current (AppendChangeEvent kUpdateRow n tn None (Some row) (Some wanted) e)
          | Err er => (Err er, e)
          | Crash c => (Crash c, e)
          end
      end
  end.

Definition revert_missing (n tn : string) (current : gmap Z RowData) (target : list (Z * RowData)) (e : Env) : Env :=
  foldl (λ e '(rid, row), match current !! rid with
                          | Some _ => e
                          | None => AppendChangeEvent kInsertRow n tn None None (Some row) e
                          end) e target.

(** The timestamp a REVERT goes back to. *)
Definition revert_target (n : string) (name : QualifiedName) (timestamp : string) (mode : RevertMode)
    (versions : VersionStore) : Outcome string :=
  let* target :=
    match mode with
    | kLatest => Ok (LatestTimestampForTable n (q_object name) versions)
    | _ =>
        if negb (timestamp_pattern timestamp) then
          MakeError kValidationError "invalid REVERT timestamp format, expected YYYY.MM.DD-HH:MM:SS.ffffff"
        else
          match mode with
          | kExact => Ok (if HasExactTimestampForTable n (q_object name) timestamp versions
                          then Some timestamp else None)
          | _ => Ok (LatestTimestampAtOrBefore n (q_object name) timestamp versions)
          end
    end in
  match target with
  | None => MakeError kNotFound "no history available for REVERT"
  | Some ts => Ok ts
  end.

Definition ExecuteRevert (name : QualifiedName) (timestamp : string) (mode : RevertMode) (e : Env)
    : Outcome QueryResult * Env :=
  match
    let* '(n, t) := resolve_table e name in
    let* ts := revert_target n name timestamp mode (e_versions e) in
    let target := ReconstructTableStateAt (e_versions e) n (q_object name) ts in
    if forallb (λ r, (length (row_values r) =? length (schema_columns (t_schema t)))%nat) target
    then Ok (n, t, ts, target)
    else MakeError kValidationError "history row shape mismatch for table schema"
  with
  | Err er => (Err er, e)
  | Crash c => (Crash c, e)
  | Ok (n, t, ts, target) =>
      let tn := schema_table (t_schema t) in
      let current_by_id := rows_by_id (ScanAll (t_heap t)) in
      let target_by_id := rows_by_id target in
      match revert_current n tn target_by_id (map_to_list current_by_id) e with
      | (Err er, e) => (Err er, e)
      | (Crash c, e) => (Crash c, e)
      | (Ok _, e) =>
          let e := revert_missing n tn current_by_id (map_to_list target_by_id) e in
          replace_rows n (q_object name) t target ("reverted to " +:+ ts) e
      end
  end.

(** ** [Execute] *)

Definition Execute (statement : Statement) (detail : string) (e : Env) : Outcome QueryResult * Env :=
  match statement with
  | CreateDatabaseStatement d => ExecuteCreateDatabase d e
  | UseDatabaseStatement d => ExecuteUseDatabase d e
  | DropDatabaseStatement d => ExecuteDropDatabase d e
  | CreateTableStatement name columns => ExecuteCreateTable name columns e
  | DropTableStatement name => ExecuteDropTable name e
  | InsertStatement name columns rows => ExecuteInsert name columns rows e
  | UpdateStatement name assignments w => ExecuteUpdate name assignments w e
  | DeleteStatement name w => ExecuteDelete name w e
  | SelectStatement name items w => (ExecuteSelect name items w e, e)
  | RevertStatement name ts mode => ExecuteRevert name ts mode e
  | CheckIndexStatement =>
      (let* _ := ValidateRuntimeIndexConsistency (e_runtime e) in Ok (message_result "index check passed"), e)
  | RebuildIndexStatement =>
      let '(s, verdict) := RebuildRuntimeIndexes (e_runtime e) in
      (let* _ := verdict in Ok (message_result "index rebuild completed"), with_runtime s e)
  | _ => (MakeError kNotImplemented ("plan kind is not implemented: " +:+ detail), e)
  end.

End execution.
Arguments Env T : clear implicits.
