(* ===== verification/ChangeLog.v ===== *)
(** * ChangeLog: what the rows of a change log fit

    REVERT stores rows that it finds in the change log.  Here the log is
    related to the tables: every table was created by a record of the log, and
    every row of the log fits the columns of some CREATE TABLE of its table.  So
    the rows that a REVERT puts back fit the table, as soon as no CREATE TABLE
    of that name had other columns. *)
From S2P Require Import Prelude Numerals CommonTypes Storage BStarPlusTree IndexSpec RuntimeState.
From S2P Require Import RuntimeFacts Ast VersionStore Predicates Execution.

Open Scope Z_scope.

(** ** Sorting by id *)

Definition id_lt (a b : RowData) : Prop := row_id a < row_id b.

Lemma insert_by_id_perm r rows : insert_by_id r rows ≡ₚ r :: rows.
Proof.
  induction rows as [|x rows IH]; simpl; [done|]. destruct (row_id r <? row_id x); [done|].
  rewrite IH. apply Permutation_swap.
Qed.

Lemma sort_by_id_perm rows : sort_by_id rows ≡ₚ rows.
Proof. induction rows as [|r rows IH]; simpl; [done|]. by rewrite insert_by_id_perm, IH. Qed.

Lemma insert_by_id_sorted r rows :
  Forall (λ x, row_id x ≠ row_id r) rows → StronglySorted id_lt rows → StronglySorted id_lt (insert_by_id r rows).
Proof.
  intros Hne Hs. induction Hs as [|x rows Hs IH Hx]; simpl; [repeat constructor|].
  apply Forall_cons in Hne as [Hxr Hne]. destruct (Z.ltb_spec (row_id r) (row_id x)).
  - constructor; [by constructor|]. constructor; [done|]. eapply Forall_impl; [exact Hx|]. unfold id_lt. lia.
  - constructor; [by apply IH|]. rewrite insert_by_id_perm. constructor; [unfold id_lt; lia|done].
Qed.

Lemma sort_by_id_sorted rows : NoDup (map row_id rows) → StronglySorted id_lt (sort_by_id rows).
Proof.
  induction rows as [|r rows IH]; simpl; [constructor|]. intros [Hr Hnd]%NoDup_cons.
  apply insert_by_id_sorted; [|by apply IH]. rewrite sort_by_id_perm. apply Forall_forall. intros x Hx Heq.
  apply Hr. rewrite <-Heq. by apply list_elem_of_fmap_2.
Qed.

Lemma of_table_true n tn r : of_table n tn r = true ↔ ch_database r = n ∧ ch_table r = tn.
Proof. unfold of_table. rewrite andb_true_iff, !bool_decide_eq_true. done. Qed.

(** ** Columns *)

(** What a stored value has to fit: the type and whether NULL is allowed. *)
Definition col_shape (c : ColumnDefinition) : ValueType * bool := (col_type c, allow_null c).

Definition columns_alike (a b : TableSchema) : Prop := map col_shape (schema_columns a) = map col_shape (schema_columns b).

#[export] Instance columns_alike_dec a b : Decision (columns_alike a b).
Proof. unfold columns_alike. apply _. Defined.

#[export] Instance columns_alike_equiv : Equivalence columns_alike.
Proof. unfold columns_alike. split; repeat intro; congruence. Qed.

Lemma row_ok_alike a b row : columns_alike a b → row_ok a row → row_ok b row.
Proof.
  unfold columns_alike, row_ok. generalize (schema_columns a), (schema_columns b). intros cs cs' Hal Hrow. revert cs' Hal.
  induction Hrow as [|v c vs cs Hc _ IH]; intros [|c' cs']; simpl; try done.
  intros [= Ht Hn Hcs]. constructor; [|by apply IH]. unfold cell_ok in *. by rewrite <-Ht, <-Hn.
Qed.

(** ** CREATE TABLE records *)

(** The columns with which the record creates the table [tn] of [n], if it does. *)
Definition creation (n tn : string) (r : ChangeRecord) : option TableSchema :=
  if bool_decide (ch_kind r = kCreateTable) && of_table n tn r then ch_schema r else None.

(** The log creates the table with such columns. *)
Definition table_created (vs : VersionStore) (n tn : string) (schema : TableSchema) : Prop :=
  ∃ r schema', r ∈ vs ∧ creation n tn r = Some schema' ∧ columns_alike schema' schema.

(** No record of the log creates the table with other columns. *)
Definition only_created (vs : VersionStore) (n tn : string) (schema : TableSchema) : bool :=
  forallb (λ r, match creation n tn r with Some schema' => bool_decide (columns_alike schema' schema) | None => true end) vs.

Lemma table_created_app vs more n tn schema : table_created vs n tn schema → table_created (vs ++ more) n tn schema.
Proof. intros (r & s & Hr & Hs). exists r, s. split; [set_solver|done]. Qed.

Lemma table_created_alike vs n tn a b : columns_alike a b → table_created vs n tn a → table_created vs n tn b.
Proof. intros Hab (r & s & Hr & Hs & Ha). exists r, s. split_and!; [done|done|by transitivity a]. Qed.

Lemma table_created_only vs n tn a b : table_created vs n tn a → only_created vs n tn b = true → columns_alike a b.
Proof.
  unfold only_created. intros (r & s & Hr & Hs & Ha) Hall. rewrite forallb_forall in Hall.
  specialize (Hall r ltac:(by apply list_elem_of_In)). rewrite Hs in Hall. apply bool_decide_eq_true in Hall.
  by rewrite <-Ha.
Qed.

(** ** The log fits the tables *)

Definition row_fits (schema : TableSchema) (row : RowData) : Prop := row_ok schema row ∧ 0 ≤ row_id row < kInvalidRowId.

(** The row a record stores fits columns with which its table was created. *)
Definition record_fits (vs : VersionStore) (r : ChangeRecord) : Prop :=
  ∀ row, ch_after r = Some row → ∃ schema, table_created vs (ch_database r) (ch_table r) schema ∧ row_fits schema row.

Lemma record_fits_app vs more r : record_fits vs r → record_fits (vs ++ more) r.
Proof. intros H row Hrow. destruct (H row Hrow) as (s & Hs & Hf). exists s. split; [by apply table_created_app|done]. Qed.

Record log_fits {T} (s : RuntimeState T) (vs : VersionStore) : Prop := {
  lf_rows : Forall (record_fits vs) vs;
  lf_tables : ∀ n d tn t, databases s !! n = Some d → db_tables d !! tn = Some t → table_created vs n tn (t_schema t)
}.

(** ** The rows of a REVERT *)

Lemma applied_row l i r : foldl apply_change ∅ l !! i = Some r → row_id r = i ∧ ∃ c, c ∈ l ∧ ch_after c = Some r.
Proof.
  revert i r. induction l as [|c l IH] using rev_ind; intros i r; [simpl; by rewrite lookup_empty|].
  assert (Hold : foldl apply_change ∅ l !! i = Some r → row_id r = i ∧ ∃ c', c' ∈ l ++ [c] ∧ ch_after c' = Some r).
  { intros (Hi & c' & Hc & Ha)%IH. split; [done|]. exists c'. split; [set_solver|done]. }
  rewrite foldl_app. simpl. unfold apply_change at 1. destruct (ch_kind c); rewrite ?lookup_empty; try done.
  1,2: destruct (ch_after c) as [r'|] eqn:E; [|done]; rewrite lookup_insert_Some; intros [[<- <-]|[_ H]];
    [split; [done|]; exists c; split; [set_solver|done]|by apply Hold].
  destruct (ch_before c); [|done]. rewrite lookup_delete_Some. intros [_ H]. by apply Hold.
Qed.

Lemma reconstructed_row vs n tn ts row : row ∈ ReconstructTableStateAt vs n tn ts →
  ∃ c, c ∈ vs ∧ of_table n tn c = true ∧ ch_after c = Some row.
Proof.
  unfold ReconstructTableStateAt. rewrite sort_by_id_perm. intros ([i r] & -> & Hr)%list_elem_of_fmap. simpl.
  apply elem_of_map_to_list, applied_row in Hr as (_ & c & Hc & Ha). exists c.
  apply list_elem_of_filter in Hc as [_ Hc]. by apply list_elem_of_filter in Hc as [Ho Hc].
Qed.

Lemma reconstructed_sorted vs n tn ts : StronglySorted id_lt (ReconstructTableStateAt vs n tn ts).
Proof.
  unfold ReconstructTableStateAt. apply sort_by_id_sorted. set (m := foldl apply_change ∅ _).
  assert (map row_id (map snd (map_to_list m)) = (map_to_list m).*1) as ->; [|apply NoDup_fst_map_to_list].
  rewrite map_map. apply list_fmap_ext. intros k [i r] Hk. simpl.
  apply list_elem_of_lookup_2, elem_of_map_to_list, applied_row in Hk. by destruct Hk.
Qed.

Lemma ids_sorted_below rows schema : StronglySorted id_lt rows → Forall (row_fits schema) rows → ids_below kInvalidRowId rows.
Proof.
  intros Hs Hf. split; [|by eapply Forall_impl; [exact Hf|]; intros r [_ ?]].
  induction Hs as [|r rows _ IH Hr]; simpl; [constructor|]. apply Forall_cons in Hf as [_ Hf].
  constructor; [by apply IH|]. by apply Forall_fmap.
Qed.

(** The rows a REVERT goes back to fit the table, when the log creates the
    table with no other columns. *)
Lemma reconstructed_fits {T} (s : RuntimeState T) vs n tn ts schema :
  log_fits s vs → only_created vs n tn schema = true → Forall (row_fits schema) (ReconstructTableStateAt vs n tn ts).
Proof.
  intros [Hrows _] Honly. apply Forall_forall. intros row (c & Hc & [Hn Htn]%of_table_true & Ha)%reconstructed_row.
  rewrite Forall_forall in Hrows. destruct (Hrows c Hc row Ha) as (schema' & Hcr & Hok & Hid). rewrite Hn, Htn in Hcr.
  split; [|done]. by eapply row_ok_alike; [eapply table_created_only|].
Qed.
