(* ===== verification/ExecutionFacts.v ===== *)
(** * ExecutionFacts: statements keep the database consistent

    The environment invariant: an interning pool without duplicates, and for
    every table a well-formed heap, rows that fit the schema and indexes that
    agree with the rows.  Every statement keeps it, also one that fails. *)
From S2P Require Import Prelude Numerals CommonTypes Storage BStarPlusTree IndexSpec RuntimeState.
From S2P Require Import RuntimeFacts Ast VersionStore Predicates Execution ChangeLog.

Open Scope Z_scope.

(** ** Values *)

Lemma InternStringValue_ok v pool :
  value_ok v → pool_wf pool →
  value_ok (InternStringValue v pool).1 ∧ pool_wf (InternStringValue v pool).2 ∧
  IsNull (InternStringValue v pool).1 = IsNull v ∧ GetValueType (InternStringValue v pool).1 = GetValueType v.
Proof.
  intros Hv Hp. destruct v as [| |s|]; simpl; try done.
  pose proof (Intern_wf s pool Hp). by destruct (Intern s pool).
Qed.

Lemma intern_values_ok vs pool :
  Forall value_ok vs → pool_wf pool →
  Forall value_ok (intern_values vs pool).1 ∧ pool_wf (intern_values vs pool).2 ∧
  length (intern_values vs pool).1 = length vs.
Proof.
  intros Hvs. revert pool. induction Hvs as [|v vs Hv Hvs IH]; intros pool Hp; simpl; [done|].
  destruct (InternStringValue_ok v pool Hv Hp) as (H1 & H2 & _). destruct (InternStringValue v pool) as [v' pool'].
  destruct (IH pool' H2) as (H3 & H4 & H5). destruct (intern_values vs pool') as [vs' pool'']. simpl in *.
  split_and!; [by constructor|done|lia].
Qed.

Definition default_ok (c : ColumnDefinition) : Prop := ∀ d, col_default c = Some d → value_ok d.

(** The loop of [ValidateRowAgainstSchema]. *)
Lemma validate_values_ok columns values pool :
  Forall default_ok columns → Forall value_ok values → pool_wf pool →
  let '(vs, pool', ended) := validate_values columns values pool in
  pool_wf pool' ∧ (ended = Ok tt → length values = length columns → Forall2 cell_ok vs columns) ∧
  (length values = length columns → ∀ c, ended ≠ Crash c).
Proof.
  revert values pool. induction columns as [|c cs IH]; intros values pool Hd Hv Hp; simpl.
  { split_and!; [done| |done]. intros _ HL. destruct values; [constructor|done]. }
  destruct values as [|v vs]; [done|]. apply Forall_cons in Hd as [Hdc Hd]. apply Forall_cons in Hv as [Hv Hvs].
  set (v1 := match col_default c with Some d => if IsNull v then d else v | None => v end).
  assert (Hv1 : value_ok v1).
  { subst v1. destruct (col_default c) as [d|] eqn:E; [|done]. destruct (IsNull v); [by apply Hdc|done]. }
  destruct (InternStringValue_ok v1 pool Hv1 Hp) as (H1 & H2 & _). destruct (InternStringValue v1 pool) as [v2 pool2].
  simpl in *. destruct (CanAssignToType v2 (col_type c) (column_allows_null c)) eqn:E; simpl; [|done].
  specialize (IH vs pool2 Hd Hvs H2). destruct (validate_values cs vs pool2) as [[vs' pool'] ended].
  destruct IH as (IH1 & IH2 & IH3). split_and!; [done| |].
  - intros He HL. constructor; [by split|]. apply IH2; [done|]. lia.
  - intros HL. apply IH3. lia.
Qed.

(** ** Expressions *)

Fixpoint expr_ok (e : Expression) : Prop :=
  match e with
  | LiteralExpression v => value_ok v
  | ColumnReferenceExpression _ _ _ | AggregateCallExpression _ _ => True
  | BinaryComparisonExpression _ a b | LogicalExpression _ a b | LikeExpression a b => expr_ok a ∧ expr_ok b
  | BetweenExpression a b c => expr_ok a ∧ expr_ok b ∧ expr_ok c
  end.

Lemma cells_values_ok values columns : Forall2 cell_ok values columns → Forall value_ok values.
Proof. induction 1 as [|v c vs cs [_ Hv]]; constructor; auto. Qed.

Lemma EvaluateValueExpression_ok expr schema row v :
  expr_ok expr → Forall value_ok (row_values row) → EvaluateValueExpression expr schema row = Ok v → value_ok v.
Proof.
  intros He Hr. destruct expr; simpl in *; try done; [by intros [= <-]|].
  destruct (FindColumnIndex schema column_name) as [i|]; [|done]. unfold value_at.
  destruct (row_values row !! i) as [w|] eqn:E; simpl; [|done]. intros [= <-].
  rewrite Forall_forall in Hr. apply Hr. by eapply list_elem_of_lookup_2.
Qed.

Lemma Forall_vec_set {A} (P : A → Prop) i x (l l' : list A) :
  P x → Forall P l → vec_set i x l = Some l' → Forall P l' ∧ length l' = length l.
Proof.
  unfold vec_set. case_decide; [|done]. intros Hx Hl [= <-]. split; [by apply Forall_insert|apply length_insert].
Qed.

Lemma assign_columns_ok schema assignments row row' :
  Forall (λ a, expr_ok (assign_value a)) assignments → Forall value_ok (row_values row) →
  assign_columns schema assignments row = Ok row' →
  Forall value_ok (row_values row') ∧ length (row_values row') = length (row_values row) ∧ row_id row' = row_id row.
Proof.
  intros Ha. revert row. induction Ha as [|a rest Ha _ IH]; intros row Hr; simpl; [by intros [= <-]|].
  destruct (FindColumnIndex schema (assign_column a)) as [i|]; [|done].
  destruct (EvaluateValueExpression (assign_value a) schema row) as [v| |] eqn:Ev; simpl; try done.
  destruct (vec_set i v (row_values row)) as [vs|] eqn:Es; simpl; [|done]. intros Hrest.
  destruct (Forall_vec_set value_ok i v _ vs (EvaluateValueExpression_ok _ _ _ _ Ha Hr Ev) Hr Es) as [H1 H2].
  destruct (IH (MkRow (row_id row) vs) H1 Hrest) as (H3 & H4 & H5). simpl in *. split_and!; [done|congruence|done].
Qed.

Section facts.
Context {T : Type} `{!IndexOps T} `{!IndexLaws T}.

(** ** Rebuilding the indexes of a table *)

Lemma check_unique_inv schema row column (t : T) i key g :
  row_ok schema row → FindColumnIndex schema column = Some i → index_ok t g →
  check_unique schema (row_values row) column t i = Ok key →
  key = key_text schema i row ∧ key_of schema i row = Ok key ∧ not_null_at i row ∧ mm_find g key = [].
Proof.
  intros Hrow Hi Hg. pose proof (find_column_lt _ _ _ Hi) as Hlt.
  pose proof (key_of_ok schema i row Hrow Hlt) as Hkey. pose proof Hkey as Hkey'. unfold check_unique.
  unfold key_of, value_at in Hkey. destruct (row_values row !! i) as [v|] eqn:Ev; simpl in *; [|done].
  destruct (column_at schema i) as [c| |]; simpl in *; try done.
  destruct (IsNull v) eqn:En; [done|]. rewrite Hkey. simpl. rewrite (index_find_ok _ _ _ Hg). simpl.
  destruct (mm_find g (key_text schema i row)) eqn:Ef; [|done]. intros [= <-]. split_and!; try done.
  unfold not_null_at. rewrite Ev. by intros [= ->].
Qed.

Lemma index_keys_absent schema i rows key :
  mm_find (index_contents schema i rows) key = [] → key ∉ index_keys schema i rows.
Proof.
  intros Hf (r & -> & Hr)%list_elem_of_fmap.
  assert (Hin : row_id r ∈ mm_find (index_contents schema i rows) (key_text schema i r)).
  { apply elem_of_index_contents. by exists r. }
  rewrite Hf in Hin. by apply not_elem_of_nil in Hin.
Qed.

Lemma index_keys_snoc schema i rows row key :
  NoDup (index_keys schema i rows) → key ∉ index_keys schema i rows → key = key_text schema i row →
  NoDup (index_keys schema i (rows ++ [row])).
Proof.
  intros Hnd Hk ->. unfold index_keys in *. rewrite map_app. apply NoDup_app.
  split_and!; [done| |apply NoDup_singleton]. intros x Hx Hx2. apply list_elem_of_singleton in Hx2. by subst.
Qed.

(** An index after the rows [rows], each with a key of its own. *)
Definition filled_unique (schema : TableSchema) (rows : list RowData) (c : string) (t : T) : Prop :=
  filled schema rows c t ∧ ∀ i, FindColumnIndex schema c = Some i →
    NoDup (index_keys schema i rows) ∧ Forall (not_null_at i) rows.

Lemma rebuild_row_step schema rows row c t t' :
  row_ok schema row → filled_unique schema rows c t → rebuild_row schema row c t = Ok t' →
  filled_unique schema (rows ++ [row]) c t'.
Proof.
  intros Hrow [Hf Hu]. unfold rebuild_row. destruct (FindColumnIndex schema c) as [i|] eqn:Ei; [|done].
  destruct (check_unique schema (row_values row) c t i) as [key| |] eqn:Ec; simpl; try done.
  destruct (check_unique_inv schema row c t i key _ Hrow Ei (Hf i Ei) Ec) as (Hkt & Hk & Hnn & Hfind).
  intros Ht'. destruct (filled_step schema rows row c t i Ei Hrow Hf) as (t'' & E & Ht'').
  rewrite Hk in E. simpl in E. rewrite E in Ht'. injection Ht' as <-. split; [done|].
  intros j Hj. assert (i = j) as <- by congruence. destruct (Hu i eq_refl) as [Hnd Hnull]. split.
  - eapply index_keys_snoc; [done|by apply index_keys_absent|done].
  - apply Forall_app. by split; [|constructor].
Qed.

Definition columns_found (schema : TableSchema) : Prop :=
  ∀ d, d ∈ schema_indexes schema → is_Some (FindColumnIndex schema (idx_column d)).

Lemma table_ok_columns_found (t : TableRuntime T) : table_ok t → columns_found (t_schema t).
Proof. intros [_ _ _ _ H]%table_ok_rebuildable d Hd. destruct (H d Hd) as (i & -> & _). by eexists. Qed.

Lemma RebuildIndexes_consistent (t : TableRuntime T) rows t' :
  columns_found (t_schema t) → Forall (row_ok (t_schema t)) rows → RebuildIndexes t rows = Ok t' →
  t_schema t' = t_schema t ∧ t_heap t' = t_heap t ∧ indexes_consistent (t_schema t) rows (t_indexes t').
Proof.
  intros Hcf Hr. unfold RebuildIndexes.
  destruct (index_rows (rebuild_row (t_schema t)) rows (new_indexes (t_schema t))) as [m [[]| |]] eqn:E; simpl; try done.
  intros [= <-]. simpl. split_and!; [done|done|].
  destruct (index_rows_inv (filled_unique (t_schema t)) (rebuild_row (t_schema t)) rows [] (new_indexes (t_schema t)) m)
    as [Hdom Hm]; [| |done|].
  { intros c u Hu. split; [by apply filled_new|]. intros. split; constructor. }
  { intros done row c u u' Hin Hd. apply rebuild_row_step; [|done]. rewrite Forall_forall in Hr. by apply Hr. }
  simpl in Hm. apply filled_new_consistent; [done|intros; by eapply Hm|].
  intros d Hd. destruct (Hcf d Hd) as [i Hi]. exists i. split; [done|].
  assert (is_Some (m !! idx_column d)) as [u Hu].
  { apply elem_of_dom. rewrite Hdom, (proj1 (new_indexes_spec (t_schema t))). apply elem_of_list_to_set, list_elem_of_fmap.
    by exists d. }
  destruct (Hm _ _ Hu) as [_ Hu']. by apply Hu'.
Qed.

Lemma replaced_table_ok (t : TableRuntime T) rows t' :
  table_ok t → Forall (row_ok (t_schema t)) rows → ids_below kInvalidRowId rows →
  RebuildIndexes t rows = Ok t' →
  table_ok (MkTable (t_schema t') (HeapReplaceAll rows (t_heap t')) (t_indexes t')).
Proof.
  intros Ht Hr Hids Hre. pose proof (table_ok_columns_found t Ht) as Hcf.
  destruct (RebuildIndexes_consistent t rows t' Hcf Hr Hre) as (-> & -> & Hi). split; simpl; try done.
  - by apply HeapReplaceAll_wf.
  - apply Ht.
Qed.

(** ** One inserted row *)

Lemma next_after_new n vals : 0 ≤ n < kInvalidRowId → next_after n (MkRow n vals) = n + 1.
Proof.
  intros Hn. unfold next_after. simpl. rewrite bool_decide_true by lia. unfold uint64_succ.
  apply Z.mod_small. unfold uint64_modulus, kInvalidRowId in *. lia.
Qed.

Lemma check_row_inv (t : TableRuntime T) vals rid :
  table_ok t → row_ok (t_schema t) (MkRow rid vals) → check_row t vals = Ok tt →
  ∀ c tree, t_indexes t !! c = Some tree → ∃ i, FindColumnIndex (t_schema t) c = Some i ∧
    index_consistent (t_schema t) (heap_rows (t_heap t)) i tree ∧ not_null_at i (MkRow rid vals) ∧
    key_text (t_schema t) i (MkRow rid vals) ∉ index_keys (t_schema t) i (heap_rows (t_heap t)).
Proof.
  intros [_ _ _ _ [_ Hi]] Hrow Hc c tree Ht. destruct (Hi c tree Ht) as (i & Hfi & Hcons). exists i.
  split; [done|]. split; [done|].
  pose proof (for_each_inv _ _ Hc (c, tree)) as Hct. simpl in Hct.
  specialize (Hct ltac:(by apply elem_of_map_to_list)). rewrite Hfi in Hct.
  destruct (check_unique (t_schema t) vals c tree i) as [key| |] eqn:Ec; try done.
  destruct (check_unique_inv _ (MkRow rid vals) c tree i key _ Hrow Hfi (ic_ok _ _ _ _ Hcons) Ec) as (Hk & _ & Hnn & Hf).
  split; [done|]. rewrite <-Hk. by apply index_keys_absent.
Qed.

Lemma inserted_table_ok (t : TableRuntime T) vals :
  let row := MkRow (heap_next (t_heap t)) vals in
  table_ok t → row_ok (t_schema t) row → heap_next (t_heap t) < kInvalidRowId → check_row t vals = Ok tt →
  ∃ heap indexes, HeapInsert (MkRow kInvalidRowId vals) (t_heap t) = (heap_next (t_heap t), heap) ∧
    update_indexes (insert_into_index (t_schema t) row) (map_to_list (t_indexes t)) (t_indexes t) = (indexes, Ok tt) ∧
    heap_rows heap = heap_rows (t_heap t) ++ [row] ∧ heap_next heap = heap_next (t_heap t) + 1 ∧
    table_ok (MkTable (t_schema t) heap indexes).
Proof.
  intros row Ht Hrow Hlt Hcheck. pose proof (check_row_inv t vals _ Ht Hrow Hcheck) as Hch.
  destruct Ht as [Hh Hn Hs Hr Hi]. destruct (HeapInsert_new (t_heap t) vals Hh Hlt) as [-> Hh'].
  destruct (update_indexes_map (λ c t0 t', ∃ i, FindColumnIndex (t_schema t) c = Some i ∧
      index_consistent (t_schema t) (heap_rows (t_heap t) ++ [row]) i t')
    (insert_into_index (t_schema t) row) (t_indexes t)) as (m & -> & Hdom & Hm).
  { intros c tree Hc. destruct (Hch c tree Hc) as (i & Hfi & [H1 H2 H3] & Hnn & Hk).
    unfold insert_into_index. rewrite Hfi.
    rewrite (key_of_ok _ _ row Hrow) by (by eapply find_column_lt). cbn [obind]. unfold tree_insert.
    destruct (index_insert_ok tree _ (key_text (t_schema t) i row) (row_id row) H1) as (tree' & Et & Ht').
    rewrite Et. exists tree'. split; [done|]. exists i. split; [done|]. split.
    - by rewrite index_contents_snoc.
    - by eapply index_keys_snoc.
    - apply Forall_app. by split; [|constructor]. }
  eexists _, m. split; [done|]. split; [done|]. split; [done|]. split; [done|].
  split; simpl; try done.
  - rewrite foldl_app. simpl. rewrite <-Hn. rewrite next_after_new; [done|]. destruct Hh as [_ ?]. lia.
  - apply Forall_app. by split; [|constructor].
  - split; [rewrite Hdom; apply Hi|]. intros c tree Hc. destruct (Hm c tree Hc) as (? & _ & i & ? & ?). by exists i.
Qed.

(** ** The environment invariant *)

Context (regex_match : string → string → Outcome bool).
Context (clock : nat → Tm).

(** The indexes of a table are those of its INDEXED columns. *)
Definition column_index (tn : string) (c : ColumnDefinition) : list IndexDefinition :=
  if bool_decide (col_constraint c = kIndexed)
  then [MkIndexDef ("idx_" +:+ tn +:+ "_" +:+ col_name c) (col_name c) true true] else [].

Definition column_indexes (tn : string) (cs : list ColumnDefinition) : list IndexDefinition := flat_map (column_index tn) cs.

Record table_inv (n tn : string) (t : TableRuntime T) : Prop := {
  ti_ok : table_ok t;
  ti_defaults : Forall default_ok (schema_columns (t_schema t));
  ti_database : schema_database (t_schema t) = n;
  ti_table : schema_table (t_schema t) = tn;
  ti_indexes : schema_indexes (t_schema t) = column_indexes (schema_table (t_schema t)) (schema_columns (t_schema t))
}.

Definition runtime_inv (s : RuntimeState T) : Prop :=
  ∀ n d tn t, databases s !! n = Some d → db_tables d !! tn = Some t → table_inv n tn t.

Record env_ok (e : Env T) : Prop := {
  eo_pool : pool_wf (e_pool e);
  eo_tables : runtime_inv (e_runtime e);
  eo_log : log_fits (e_runtime e) (e_versions e)
}.

Lemma runtime_inv_ok s : runtime_inv s → runtime_ok s.
Proof. intros H n d Hd tn t Ht. by destruct (H n d tn t Hd Ht). Qed.

(** Environments that agree on the pool, the tables and the log. *)
Lemma env_ok_same e e' :
  e_pool e' = e_pool e → e_runtime e' = e_runtime e → e_versions e' = e_versions e → env_ok e → env_ok e'.
Proof. intros H1 H2 H3 [Hp Ht Hl]. split; [by rewrite H1|by rewrite H2|by rewrite H2, H3]. Qed.

(** The environment has a table with this schema. *)
Definition has_table (e : Env T) (n tn : string) (schema : TableSchema) : Prop :=
  ∃ d t, databases (e_runtime e) !! n = Some d ∧ db_tables d !! tn = Some t ∧ t_schema t = schema.

Lemma has_table_created e n tn schema : env_ok e → has_table e n tn schema → table_created (e_versions e) n tn schema.
Proof. intros [_ _ Hl] (d & t & Hd & Ht & <-). by apply (lf_tables _ _ Hl n d tn t). Qed.

Lemma has_table_same e e' n tn schema : e_runtime e' = e_runtime e → has_table e n tn schema → has_table e' n tn schema.
Proof. unfold has_table. by intros ->. Qed.

Lemma AppendChangeEvent_frame kind n tn schema before after e :
  let e' := AppendChangeEvent (T:=T) clock kind n tn schema before after e in
  e_pool e' = e_pool e ∧ e_runtime e' = e_runtime e ∧ e_catalog e' = e_catalog e ∧ e_session e' = e_session e.
Proof. done. Qed.

(** A record behind the log. *)
Lemma log_fits_append (s : RuntimeState T) vs r : log_fits s vs → record_fits (vs ++ [r]) r → log_fits s (vs ++ [r]).
Proof.
  intros [Hrows Ht] Hr. split.
  - apply Forall_app. split; [|by constructor]. eapply Forall_impl; [exact Hrows|]. intros r'. apply record_fits_app.
  - intros n d tn t Hd Htn. apply table_created_app. by eapply Ht.
Qed.

(** An event that stores no row, or one that fits a table of the environment. *)
Lemma env_ok_append kind n tn schema before after e :
  (∀ row, after = Some row → ∃ schema', has_table e n tn schema' ∧ row_fits schema' row) →
  env_ok e → env_ok (AppendChangeEvent clock kind n tn schema before after e).
Proof.
  intros Hrow He. pose proof He as [Hp Ht Hl]. split; [done|done|]. apply log_fits_append; [done|].
  intros row Ha. destruct (Hrow row Ha) as (schema' & Hs & Hf). exists schema'. split; [|done].
  by apply table_created_app, has_table_created.
Qed.

Lemma env_ok_event kind n tn schema before e :
  env_ok e → env_ok (AppendChangeEvent clock kind n tn schema before None e).
Proof. by apply env_ok_append. Qed.

Lemma env_ok_pool p e : pool_wf p → env_ok e → env_ok (with_pool p e).
Proof. intros Hp [_ Ht Hl]. by split. Qed.

Lemma env_ok_catalog c (e : Env T) : env_ok e → env_ok (with_catalog c e).
Proof. intros [Hp Ht Hl]. by split. Qed.

Lemma set_table_frame n tn (t : TableRuntime T) e :
  e_pool (set_table n tn t e) = e_pool e ∧ e_versions (set_table n tn t e) = e_versions e.
Proof. unfold set_table. by destruct (databases (e_runtime e) !! n). Qed.

(** A property of all tables when one is replaced. *)
Lemma set_table_tables (P : string → string → TableRuntime T → Prop) n tn t e :
  P n tn t → (∀ n d tn t, databases (e_runtime e) !! n = Some d → db_tables d !! tn = Some t → P n tn t) →
  ∀ n' d' tn' t', databases (e_runtime (set_table n tn t e)) !! n' = Some d' → db_tables d' !! tn' = Some t' → P n' tn' t'.
Proof.
  intros Ht He n' d' tn' t'. unfold set_table. destruct (databases (e_runtime e) !! n) as [d|] eqn:Ed; [|by apply He]. simpl.
  rewrite lookup_insert_Some. intros [[<- <-]|[Hn Hd]]; simpl; [|by apply He].
  rewrite lookup_insert_Some. intros [[<- <-]|[Htn Ht']]; [done|by eapply He].
Qed.

Lemma env_ok_set_table n tn (t : TableRuntime T) e :
  table_inv n tn t → table_created (e_versions e) n tn (t_schema t) → env_ok e → env_ok (set_table n tn t e).
Proof.
  intros Ht Hc [Hp He [Hrows Hl]]. destruct (set_table_frame n tn t e) as [Hpool Hv]. split; rewrite ?Hpool, ?Hv; [done| |].
  - intros n' d' tn' t'. by apply (set_table_tables table_inv).
  - split; [done|]. by apply (set_table_tables (λ n tn t, table_created (e_versions e) n tn (t_schema t))).
Qed.

Lemma resolve_table_has e name n t : resolve_table e name = Ok (n, t) → has_table e n (q_object name) (t_schema t).
Proof.
  unfold resolve_table, find_database.
  destruct (ResolveDatabaseName (e_session e) (q_database name)) as [m| |]; simpl; try done.
  destruct (databases (e_runtime e) !! m) as [d|] eqn:Ed; simpl; [|done].
  destruct (db_tables d !! q_object name) as [t'|] eqn:Et; [|done]. intros [= <- <-]. by exists d, t'.
Qed.

Lemma resolve_table_inv e name n t : env_ok e → resolve_table e name = Ok (n, t) → table_inv n (q_object name) t.
Proof.
  intros He. unfold resolve_table, find_database.
  destruct (ResolveDatabaseName (e_session e) (q_database name)) as [m| |]; simpl; try done.
  destruct (databases (e_runtime e) !! m) as [d|] eqn:Ed; simpl; [|done].
  destruct (db_tables d !! q_object name) as [t'|] eqn:Et; [|done]. intros [= <- <-].
  by eapply (eo_tables _ He).
Qed.

(** ** INSERT *)

Lemma assign_inputs_ok targets inputs values vs :
  Forall expr_ok inputs → Forall value_ok values → assign_inputs targets inputs values = Ok vs →
  Forall value_ok vs ∧ length vs = length values.
Proof.
  intros Hi. revert targets values. induction Hi as [|x inputs Hx _ IH]; intros targets values Hv; simpl; [by intros [= <-]|].
  destruct x as [v| | | | | |]; try done. destruct targets as [|i targets]; [done|].
  destruct (vec_set i v values) as [values'|] eqn:E; simpl; [|done].
  destruct (Forall_vec_set value_ok i v values values' Hx Hv E) as [H1 H2]. intros H.
  destruct (IH _ _ H1 H) as [H3 H4]. split; [done|congruence].
Qed.

(** A row of an INSERT is stored and logged, or neither. *)
Definition row_logged (n : string) (t t' : TableRuntime T) (e e' : Env T) : Prop :=
  (t' = t ∧ e_versions e' = e_versions e ∧ e_tick e' = e_tick e) ∨
  ∃ row pool, heap_rows (t_heap t') = heap_rows (t_heap t) ++ [row] ∧ row_id row = heap_next (t_heap t) ∧
    e' = AppendChangeEvent clock kInsertRow n (schema_table (t_schema t)) None None (Some row) (with_pool pool e).

Lemma insert_row_ok n targets inputs t (e : Env T) :
  Forall expr_ok inputs → table_ok t → Forall default_ok (schema_columns (t_schema t)) → env_ok e →
  has_table e n (schema_table (t_schema t)) (t_schema t) → heap_next (t_heap t) < kInvalidRowId →
  let '(_, t', e') := insert_row clock n targets inputs t e in
  table_ok t' ∧ t_schema t' = t_schema t ∧ env_ok e' ∧ e_runtime e' = e_runtime e ∧
  heap_next (t_heap t) ≤ heap_next (t_heap t') ≤ heap_next (t_heap t) + 1 ∧
  row_logged n t t' e e'.
Proof.
  intros Hin Ht Hd He Hst Hlt. unfold insert_row.
  destruct (assign_inputs _ _ _) as [values| |] eqn:Ea; try by (split_and!; try done; [lia..|left]).
  assert (Hnull : Forall value_ok (replicate (length (schema_columns (t_schema t))) VNull)) by by apply Forall_replicate.
  destruct (assign_inputs_ok _ _ _ _ Hin Hnull Ea) as [Hv HL].
  rewrite length_replicate in HL. unfold InternStringValues. cbn [row_values row_id].
  destruct (intern_values_ok values (e_pool e) Hv (eo_pool _ He)) as (H1 & H2 & H3).
  destruct (intern_values values (e_pool e)) as [vs pool1]. simpl in H1, H2, H3.
  unfold ValidateRowAgainstSchema. cbn [row_values row_id].
  pose proof (validate_values_ok (schema_columns (t_schema t)) vs pool1 Hd H1 H2) as Hval.
  destruct (validate_values _ _ _) as [[vs2 pool2] validation]. destruct Hval as (Hp2 & Hcells & _).
  pose proof (env_ok_pool pool2 e Hp2 He) as He2. cbn [row_values].
  destruct validation as [[]| |]; simpl obind; cbv iota; try by (split_and!; try done; [lia..|left]).
  destruct (check_row t vs2) as [[]| |] eqn:Ec; try by (split_and!; try done; [lia..|left]).
  assert (Hrow : row_ok (t_schema t) (MkRow (heap_next (t_heap t)) vs2)) by (apply Hcells; [done|congruence]).
  destruct (inserted_table_ok t vs2 Ht Hrow Hlt Ec) as (heap & indexes & -> & -> & Hrows & Hnext & Hok).
  split; [done|]. split; [done|]. split.
  { apply env_ok_append; [|done]. intros row [= <-]. exists (t_schema t). split; [done|]. split; [done|]. simpl.
    pose proof (tok_heap _ Ht) as [_ ?]. lia. }
  split; [done|]. simpl. rewrite Hnext.
  split; [lia|]. right. by exists (MkRow (heap_next (t_heap t)) vs2), pool2.
Qed.

Lemma insert_rows_ok n targets rows t (e : Env T) :
  Forall (Forall expr_ok) rows → table_ok t → Forall default_ok (schema_columns (t_schema t)) → env_ok e →
  has_table e n (schema_table (t_schema t)) (t_schema t) →
  heap_next (t_heap t) + Z.of_nat (length rows) ≤ kInvalidRowId →
  let '(_, t', e') := insert_rows clock n targets rows t e in
  table_ok t' ∧ t_schema t' = t_schema t ∧ env_ok e' ∧ e_runtime e' = e_runtime e.
Proof.
  intros Hrows. revert t e. induction Hrows as [|inputs rows Hin _ IH]; intros t e Ht Hd He Hst Hroom; simpl; [done|].
  simpl in Hroom. pose proof (insert_row_ok n targets inputs t e Hin Ht Hd He Hst ltac:(lia)) as H.
  destruct (insert_row clock n targets inputs t e) as [[[[]| |] t'] e']; destruct H as (H1 & H2 & H3 & H4 & H5 & _); try done.
  specialize (IH t' e' H1). rewrite H2 in IH. specialize (IH Hd H3 (has_table_same _ _ _ _ _ H4 Hst) ltac:(lia)).
  destruct (insert_rows clock n targets rows t' e') as [[r t''] e'']. destruct IH as (I1 & I2 & I3 & I4).
  split_and!; try done; congruence.
Qed.

(** ** UPDATE and DELETE *)

Lemma update_row_ok n schema assignments row (e : Env T) :
  Forall (λ a, expr_ok (assign_value a)) assignments → Forall default_ok (schema_columns schema) →
  row_fits schema row → env_ok e → has_table e n (schema_table schema) schema →
  let '(r, e') := update_row clock n schema assignments row e in
  env_ok e' ∧ e_runtime e' = e_runtime e ∧
  (∀ row', r = Ok row' → row_ok schema row' ∧ row_id row' = row_id row).
Proof.
  intros Ha Hd [Hrow Hid] He Hst. unfold update_row. pose proof (cells_values_ok _ _ Hrow) as Hv.
  destruct (assign_columns schema assignments row) as [changed| |] eqn:Ea; try by (split_and!; done).
  destruct (assign_columns_ok _ _ _ _ Ha Hv Ea) as (H1 & H2 & H3). unfold InternStringValues.
  destruct (intern_values_ok (row_values changed) (e_pool e) H1 (eo_pool _ He)) as (H4 & H5 & H6).
  destruct (intern_values (row_values changed) (e_pool e)) as [vs pool1]. simpl in H4, H5, H6.
  unfold ValidateRowAgainstSchema. cbn [row_values row_id].
  pose proof (validate_values_ok (schema_columns schema) vs pool1 Hd H4 H5) as Hval.
  destruct (validate_values _ _ _) as [[vs2 pool2] validation]. destruct Hval as (Hp2 & Hcells & _).
  pose proof (env_ok_pool pool2 e Hp2 He) as He2.
  destruct validation as [[]| |]; try by (split_and!; done). assert (Hchanged : row_ok schema (MkRow (row_id changed) vs2)).
  { apply Hcells; [done|]. rewrite H6, H2. by apply Forall2_length in Hrow. }
  split; [|split; [done|by intros row' [= <-]]]. apply env_ok_append; [|done]. intros row' [= <-].
  exists schema. split; [done|]. split; [done|]. simpl. by rewrite H3.
Qed.

Lemma update_rows_ok n schema assignments w rows (e : Env T) :
  Forall (λ a, expr_ok (assign_value a)) assignments → Forall default_ok (schema_columns schema) →
  Forall (row_fits schema) rows → env_ok e → has_table e n (schema_table schema) schema →
  let '(r, e') := update_rows regex_match clock n schema assignments w rows e in
  env_ok e' ∧ e_runtime e' = e_runtime e ∧
  (∀ rows' k, r = Ok (rows', k) → Forall (row_ok schema) rows' ∧ map row_id rows' = map row_id rows).
Proof.
  intros Ha Hd Hr. revert e. induction Hr as [|row rows Hrow _ IH]; intros e He Hst; cbn [update_rows].
  { split_and!; try done. by intros rows' k [= <- _]. }
  destruct (passes regex_match w schema row) as [b| |]; try by (split_and!; done).
  assert (Hstep : let '(r, e') := if b then update_row clock n schema assignments row e else (Ok row, e) in
    env_ok e' ∧ e_runtime e' = e_runtime e ∧ (∀ row', r = Ok row' → row_ok schema row' ∧ row_id row' = row_id row)).
  { destruct b; [by apply update_row_ok|]. split_and!; try done. intros row' [= <-]. by destruct Hrow. }
  destruct (if b then update_row clock n schema assignments row e else (Ok row, e)) as [[row'| |] e1];
    destruct Hstep as (H1 & H2 & H3); try by (split_and!; done).
  destruct (H3 row' eq_refl) as [H4 H5]. specialize (IH e1 H1 (has_table_same _ _ _ _ _ H2 Hst)).
  destruct (update_rows regex_match clock n schema assignments w rows e1) as [[[rest k']| |] e2];
    destruct IH as (I1 & I2 & I3); simpl; (split; [done|]; split; [congruence|]); try done.
  intros rows' k [= <- _]. destruct (I3 rest k' eq_refl) as [I4 I5]. split; [by constructor|]. simpl. congruence.
Qed.

Lemma delete_rows_ok n schema w rows (e : Env T) :
  Forall (row_ok schema) rows → env_ok e →
  let '(r, e') := delete_rows regex_match clock n schema w rows e in
  env_ok e' ∧ e_runtime e' = e_runtime e ∧
  (∀ kept k, r = Ok (kept, k) → Forall (row_ok schema) kept ∧ sublist kept rows).
Proof.
  intros Hr. revert e. induction Hr as [|row rows Hrow _ IH]; intros e He; cbn [delete_rows].
  { split_and!; try done. by intros rows' k [= <- _]. }
  destruct (passes regex_match w schema row) as [[|]| |]; try by (split_and!; done).
  - specialize (IH _ (env_ok_event kDeleteRow n (schema_table schema) None (Some row) e He)).
    destruct (delete_rows _ _ _ _ _ _ _) as [[[kept k']| |] e2]; destruct IH as (I1 & I2 & I3); simpl;
      (split; [done|]; split; [done|]); try done.
    intros kept' k [= <- _]. destruct (I3 kept k' eq_refl) as [I4 I5]. split; [done|]. by constructor.
  - specialize (IH _ He).
    destruct (delete_rows _ _ _ _ _ _ _) as [[[kept k']| |] e2]; destruct IH as (I1 & I2 & I3); simpl;
      (split; [done|]; split; [done|]); try done.
    intros kept' k [= <- _]. destruct (I3 kept k' eq_refl) as [I4 I5]. split; by constructor.
Qed.

Lemma replace_rows_ok n tn t rows message (e : Env T) :
  table_inv n tn t → Forall (row_ok (t_schema t)) rows → ids_below kInvalidRowId rows → env_ok e →
  has_table e n tn (t_schema t) → env_ok (replace_rows n tn t rows message e).2.
Proof.
  intros [Ht Hd Hn Htn Hix] Hr Hids He Hst. unfold replace_rows.
  destruct (RebuildIndexes t rows) as [t'| |] eqn:E; try done.
  destruct (RebuildIndexes_consistent t rows t' (table_ok_columns_found t Ht) Hr E) as (Hs & _ & _).
  apply env_ok_set_table; [|simpl; rewrite Hs; by apply has_table_created|done].
  split; simpl; rewrite ?Hs; try done. rewrite <-Hs. by eapply replaced_table_ok.
Qed.

Lemma table_rows_below (t : TableRuntime T) : table_ok t → ids_below kInvalidRowId (heap_rows (t_heap t)).
Proof. intros [[Hids Hn] _ _ _ _]. eapply ids_below_mono; [|exact Hids]. lia. Qed.

Lemma table_rows_fit (t : TableRuntime T) : table_ok t → Forall (row_fits (t_schema t)) (heap_rows (t_heap t)).
Proof.
  intros Ht. pose proof (table_rows_below t Ht) as [_ Hids]. pose proof (tok_rows _ Ht) as Hr.
  rewrite Forall_forall in *. intros r Hin. split; [by apply Hr|by apply Hids].
Qed.

(** ** CREATE TABLE *)

Lemma build_columns_ok tn specs pool :
  Forall (λ s, ∀ v, cs_default s = Some v → value_ok v) specs → pool_wf pool →
  let '(cs, defs, pool') := build_columns tn specs pool in
  pool_wf pool' ∧ Forall default_ok cs ∧ map col_name cs = map cs_name specs ∧
  Forall (λ d, idx_column d ∈ map cs_name specs) defs.
Proof.
  intros Hs. revert pool. induction Hs as [|s specs Hs _ IH]; intros pool Hp; simpl; [done|].
  assert (Hdef : let '(default, pool1) := match cs_default s with
      | Some v => let '(v, pool) := InternStringValue v pool in (Some v, pool) | None => (None, pool) end in
    pool_wf pool1 ∧ ∀ d, default = Some d → value_ok d).
  { destruct (cs_default s) as [v|]; [|done]. pose proof (InternStringValue_ok v pool (Hs v eq_refl) Hp) as (H1 & H2 & _).
    destruct (InternStringValue v pool). split; [done|]. by intros d [= <-]. }
  destruct (match cs_default s with Some v => _ | None => _ end) as [default pool1]. destruct Hdef as [Hp1 Hd].
  specialize (IH pool1 Hp1). destruct (build_columns tn specs pool1) as [[cs defs] pool2].
  destruct IH as (I1 & I2 & I3 & I4). split; [done|]. split; [by constructor|]. split; [simpl; congruence|].
  apply Forall_app. split.
  - destruct (cs_indexed s); repeat constructor.
  - eapply Forall_impl; [exact I4|]. simpl. intros d Hd'. by right.
Qed.

Lemma find_column_In columns c : c ∈ map col_name columns → is_Some (find_column columns c).
Proof.
  induction columns as [|d ds IH]; simpl; [intros []%not_elem_of_nil|].
  intros [->|H]%elem_of_cons; [by rewrite bool_decide_true|]. case_bool_decide; [done|].
  destruct (IH H) as [i ->]. by eexists.
Qed.

(** A new table without rows. *)
Lemma new_table_ok (schema : TableSchema) : columns_found schema →
  table_ok (MkTable schema (NewTableHeap schema) (new_indexes schema) : TableRuntime T).
Proof.
  intros Hc. split; simpl; try done; [apply NewTableHeap_wf|].
  apply filled_new_consistent; [done|intros; by apply filled_new|].
  intros d Hd. destruct (Hc d Hd) as [i Hi]. exists i. split_and!; [done|constructor|done].
Qed.

(** ** Statements *)

(** The literals of a statement fit the machine types, an INSERT does not run
    out of row ids, and a REVERT is of a table that the log creates with no
    other columns than the ones it has. *)
Definition statement_ok (e : Env T) (s : Statement) : Prop :=
  match s with
  | CreateTableStatement _ columns => Forall (λ c, ∀ v, cs_default c = Some v → value_ok v) columns
  | InsertStatement name _ rows =>
      Forall (Forall expr_ok) rows ∧
      ∀ n t, resolve_table e name = Ok (n, t) → heap_next (t_heap t) + Z.of_nat (length rows) ≤ kInvalidRowId
  | UpdateStatement _ assignments _ => Forall (λ a, expr_ok (assign_value a)) assignments
  | RevertStatement name _ _ =>
      ∀ n t, resolve_table e name = Ok (n, t) → only_created (e_versions e) n (q_object name) (t_schema t) = true
  | _ => True
  end.

Lemma revert_current_frame n tn target current (e : Env T) :
  e_pool (revert_current clock n tn target current e).2 = e_pool e ∧
  e_runtime (revert_current clock n tn target current e).2 = e_runtime e.
Proof.
  revert e. induction current as [|[rid row] current IH]; intros e; simpl; [done|].
  destruct (target !! rid) as [wanted|].
  - destruct (RowValuesEqual row wanted) as [[|]| |]; try done.
    exact (IH (AppendChangeEvent clock kUpdateRow n tn None (Some row) (Some wanted) e)).
  - exact (IH (AppendChangeEvent clock kDeleteRow n tn None (Some row) None e)).
Qed.

Lemma revert_missing_frame n tn current target (e : Env T) :
  e_pool (revert_missing clock n tn current target e) = e_pool e ∧
  e_runtime (revert_missing clock n tn current target e) = e_runtime e.
Proof.
  unfold revert_missing. revert e. induction target as [|[rid row] target IH]; intros e; simpl; [done|].
  destruct (current !! rid); [apply IH|]. destruct (IH (AppendChangeEvent clock kInsertRow n tn None None (Some row) e)) as [-> ->]. done.
Qed.

Lemma revert_current_ok n tn schema target current (e : Env T) :
  (∀ i row, target !! i = Some row → row_fits schema row) → env_ok e → has_table e n tn schema →
  env_ok (revert_current clock n tn target current e).2.
Proof.
  intros Htarget. revert e. induction current as [|[rid row] current IH]; intros e He Hst; simpl; [done|].
  destruct (target !! rid) as [wanted|] eqn:Ew; [|by apply IH; [apply env_ok_event|]].
  destruct (RowValuesEqual row wanted) as [[|]| |]; try done; [by apply IH|].
  apply IH; [|done]. apply env_ok_append; [|done]. intros row' [= <-]. exists schema. split; [done|by eapply Htarget].
Qed.

Lemma revert_missing_ok n tn schema current target (e : Env T) :
  (∀ i row, (i, row) ∈ target → row_fits schema row) → env_ok e → has_table e n tn schema →
  env_ok (revert_missing clock n tn current target e).
Proof.
  unfold revert_missing. revert e. induction target as [|[rid row] target IH]; intros e Htarget He Hst; simpl; [done|].
  apply IH; [set_solver| |by destruct (current !! rid)]. destruct (current !! rid); [done|].
  apply env_ok_append; [|done]. intros row' [= <-]. exists schema. split; [done|]. apply (Htarget rid). left.
Qed.

Lemma rows_by_id_fit schema rows i row :
  Forall (row_fits schema) rows → rows_by_id rows !! i = Some row → row_fits schema row.
Proof.
  unfold rows_by_id. revert i row. induction rows as [|r rows IH] using rev_ind; intros i row Hrows.
  { simpl. by rewrite lookup_empty. }
  apply Forall_app in Hrows as [Hrows Hr]. apply Forall_cons in Hr as [Hr _].
  rewrite foldl_app. simpl. destruct (foldl _ _ rows !! row_id r); [by apply IH|].
  rewrite lookup_insert_Some. intros [[_ <-]|[_ H]]; [done|by eapply IH].
Qed.

Lemma revert_ok name timestamp mode (e : Env T) :
  env_ok e → statement_ok e (RevertStatement name timestamp mode) →
  env_ok (ExecuteRevert clock name timestamp mode e).2.
Proof.
  intros He Hs. unfold ExecuteRevert. simpl in Hs.
  destruct (resolve_table e name) as [[n t]| |] eqn:Er; simpl; try done. specialize (Hs n t eq_refl).
  destruct (revert_target n name timestamp mode (e_versions e)) as [ts| |]; simpl; try done.
  destruct (forallb _ _); [|done].
  pose proof (reconstructed_fits _ _ n (q_object name) ts _ (eo_log _ He) Hs) as Hfit.
  pose proof (ids_sorted_below _ _ (reconstructed_sorted (e_versions e) n (q_object name) ts) Hfit) as Hids.
  pose proof (resolve_table_inv e name n t He Er) as Hinv. pose proof (resolve_table_has e name n t Er) as Hst.
  rewrite (ti_table _ _ _ Hinv). set (target := ReconstructTableStateAt _ _ _ _) in *.
  pose proof (λ i row, rows_by_id_fit (t_schema t) target i row Hfit) as Hby.
  pose proof (revert_current_frame n (q_object name) (rows_by_id target)
    (map_to_list (rows_by_id (ScanAll (t_heap t)))) e) as [_ F].
  pose proof (revert_current_ok n (q_object name) (t_schema t) (rows_by_id target)
    (map_to_list (rows_by_id (ScanAll (t_heap t)))) e Hby He Hst) as He1.
  destruct (revert_current _ _ _ _ _ _) as [[[]| |] e1]; simpl in F, He1; try done.
  pose proof (has_table_same _ _ _ _ _ F Hst) as Hst1.
  pose proof (revert_missing_frame n (q_object name) (rows_by_id (ScanAll (t_heap t)))
    (map_to_list (rows_by_id target)) e1) as [_ G].
  apply replace_rows_ok; [done|by eapply Forall_impl; [exact Hfit|intros r [??]]|done| |by apply (has_table_same e1)].
  apply (revert_missing_ok n (q_object name) (t_schema t)); [|done|done].
  intros i row Hin%elem_of_map_to_list. by eapply Hby.
Qed.

Lemma build_columns_indexes tn specs pool :
  let '(cs, defs, _) := build_columns tn specs pool in defs = column_indexes tn cs.
Proof.
  revert pool. induction specs as [|s specs IH]; intros pool; simpl; [done|].
  destruct (match cs_default s with Some v => _ | None => _ end) as [dv pool1]. specialize (IH pool1).
  destruct (build_columns tn specs pool1) as [[cs defs] pool2]. simpl. rewrite IH. f_equal. unfold column_index. simpl.
  destruct (cs_indexed s); [done|]. by destruct (cs_not_null s).
Qed.

(** A new table and the record of its creation. *)
Lemma env_ok_create_table n tn t (e : Env T) :
  table_inv n tn t → env_ok e →
  env_ok (AppendChangeEvent clock kCreateTable n tn (Some (t_schema t)) None None (set_table n tn t e)).
Proof.
  intros Ht [Hp He [Hrows Hl]]. destruct (set_table_frame n tn t e) as [Hpool Hv].
  split; [simpl; by rewrite Hpool|intros n' d' tn' t'; by apply (set_table_tables table_inv)|].
  simpl. rewrite Hv. set (r := MkChange _ _ _ _ _ _ _ _). split.
  - apply Forall_app. split; [|constructor; [by intros row|constructor]].
    eapply Forall_impl; [exact Hrows|]. intros r'. apply record_fits_app.
  - apply (set_table_tables (λ n tn t, table_created (e_versions e ++ [r]) n tn (t_schema t))).
    + exists r, (t_schema t). split_and!; [set_solver| |done]. unfold creation, of_table. simpl.
      by rewrite !bool_decide_eq_true_2.
    + intros n' d' tn' t' Hd' Ht'. apply table_created_app. by eapply Hl.
Qed.

Lemma create_table_ok name columns (e : Env T) :
  env_ok e → statement_ok e (CreateTableStatement name columns) →
  env_ok (ExecuteCreateTable clock name columns e).2.
Proof.
  intros He Hs. unfold ExecuteCreateTable. simpl in Hs.
  destruct (find_database e (q_database name)) as [[n d]| |]; try done.
  destruct (db_tables d !! q_object name); [done|].
  pose proof (build_columns_ok (q_object name) columns (e_pool e) Hs (eo_pool _ He)) as Hb.
  pose proof (build_columns_indexes (q_object name) columns (e_pool e)) as Hdefs.
  destruct (build_columns _ _ _) as [[cs defs] pool]. destruct Hb as (Hp & Hd & Hnames & Hidx).
  apply env_ok_catalog, env_ok_create_table; [|by apply env_ok_pool].
  split; try done. apply new_table_ok. intros def Hdef. apply find_column_In. simpl in *. rewrite Hnames.
  rewrite Forall_forall in Hidx. by apply Hidx.
Qed.

Lemma delete_database_inv n (s : RuntimeState T) : runtime_inv s → runtime_inv (MkRuntime (delete n (databases s))).
Proof. intros H n' d tn t. simpl. rewrite lookup_delete_Some. intros [_ Hd]. by eapply H. Qed.

(** States whose tables are among those of another state, or have their schemas. *)
Lemma log_fits_sub (s s' : RuntimeState T) vs :
  (∀ n d' tn t', databases s' !! n = Some d' → db_tables d' !! tn = Some t' →
    ∃ d t, databases s !! n = Some d ∧ db_tables d !! tn = Some t ∧ t_schema t' = t_schema t) →
  log_fits s vs → log_fits s' vs.
Proof.
  intros Hsub [Hrows Hl]. split; [done|]. intros n d' tn t' Hd' Ht'. destruct (Hsub n d' tn t' Hd' Ht') as (d & t & Hd & Ht & ->).
  by eapply Hl.
Qed.

Lemma log_fits_delete n (s : RuntimeState T) vs : log_fits s vs → log_fits (MkRuntime (delete n (databases s))) vs.
Proof. apply log_fits_sub. intros n' d tn t. simpl. rewrite lookup_delete_Some. intros [_ Hd] Ht. by exists d, t. Qed.

Lemma log_fits_equiv (s s' : RuntimeState T) vs : runtime_equiv s s' → log_fits s vs → log_fits s' vs.
Proof.
  intros Heq. apply log_fits_sub. intros n d' tn t' Hd' Ht'. specialize (Heq n). rewrite Hd' in Heq.
  inversion Heq as [d d0 Hde Hd Hd0|]; subst. destruct Hde as [_ Ht]. specialize (Ht tn). rewrite Ht' in Ht.
  inversion Ht as [t t0 [Hsch Hheap] Hte Ht0|]; subst. by exists d, t.
Qed.

(** A consistent state with the same heaps. *)
Lemma runtime_equiv_inv (s s' : RuntimeState T) : runtime_inv s → runtime_ok s' → runtime_equiv s s' → runtime_inv s'.
Proof.
  intros Hs Hok Heq n d' tn t' Hd' Ht'. simpl in *. specialize (Heq n). rewrite Hd' in Heq.
  inversion Heq as [d d0 Hde Hd Hd0|]; subst. destruct Hde as [_ Ht]. specialize (Ht tn). rewrite Ht' in Ht.
  inversion Ht as [t t0 [Hsch Hheap] Hte Ht0|]; subst. symmetry in Hd, Hte.
  destruct (Hs n d tn t Hd Hte) as [_ H2 H3 H4 H5].
  split; rewrite ?Hsch; try done. by apply (Hok n d' Hd' tn).
Qed.

Lemma rebuild_inv (s : RuntimeState T) vs : runtime_inv s → log_fits s vs →
  runtime_inv (RebuildRuntimeIndexes s).1 ∧ log_fits (RebuildRuntimeIndexes s).1 vs.
Proof.
  intros Hs Hl. destruct (rebuild_runtime s) as (s' & -> & Hok & Heq);
    [|split; [by apply (runtime_equiv_inv s)|by apply (log_fits_equiv s)]].
  intros n d Hd tn t Ht. apply table_ok_rebuildable. by apply (Hs n d tn t).
Qed.

(** CREATE DATABASE and DROP TABLE. *)
Lemma env_ok_set_database n d' (e : Env T) :
  (∀ tn t, db_tables d' !! tn = Some t → ∃ d, databases (e_runtime e) !! n = Some d ∧ db_tables d !! tn = Some t) →
  env_ok e → env_ok (set_database n d' e).
Proof.
  intros Hd [Hp Ht Hl].
  assert (Hsub : ∀ n' d0 tn t, databases (e_runtime (set_database n d' e)) !! n' = Some d0 → db_tables d0 !! tn = Some t →
    ∃ d, databases (e_runtime e) !! n' = Some d ∧ db_tables d !! tn = Some t).
  { intros n' d0 tn t. simpl. rewrite lookup_insert_Some. intros [[<- <-]|[_ Hd0]]; [apply Hd|by exists d0]. }
  split; [done| |].
  - intros n' d0 tn t Hn' Htn. destruct (Hsub n' d0 tn t Hn' Htn) as (d & Hn & Htd). by eapply Ht.
  - eapply log_fits_sub; [|exact Hl]. intros n' d0 tn t Hn' Htn. destruct (Hsub n' d0 tn t Hn' Htn) as (d & Hn & Htd).
    by exists d, t.
Qed.

Lemma execute_env_ok s detail (e : Env T) :
  env_ok e → statement_ok e s → env_ok (Execute regex_match clock s detail e).2.
Proof.
  intros He Hs. destruct s; try done; simpl.
  - unfold ExecuteCreateDatabase. destruct (databases (e_runtime e) !! database_name) eqn:E; [done|].
    apply env_ok_event, env_ok_set_database; [|by apply env_ok_catalog]. intros tn t. simpl. by rewrite lookup_empty.
  - unfold ExecuteDropDatabase. destruct (databases (e_runtime e) !! database_name) eqn:E; [|done].
    apply env_ok_event. destruct He as [Hp Ht Hl]. pose proof (log_fits_delete database_name _ _ Hl) as Hlog.
    pose proof (delete_database_inv database_name _ Ht) as Hdel. by destruct (String.eqb _ _); split.
  - unfold ExecuteUseDatabase. destruct (databases (e_runtime e) !! database_name); [by apply (env_ok_same e)|done].
  - by apply create_table_ok.
  - unfold ExecuteDropTable. destruct (find_database e (q_database table_name)) as [[n d]| |] eqn:Ef; try done.
    destruct (db_tables d !! q_object table_name); [|done]. apply env_ok_event. apply env_ok_set_database; [|done].
    unfold find_database in Ef. destruct (ResolveDatabaseName _ _) as [m| |]; try done. simpl in Ef.
    destruct (databases (e_runtime e) !! m) eqn:Em; [|done]. injection Ef as -> ->.
    intros tn t'. simpl. rewrite lookup_delete_Some. intros [_ ?]. by exists d.
  - unfold ExecuteInsert. destruct Hs as [Hs Hroom].
    destruct (resolve_table e table_name) as [[n t]| |] eqn:Er; try done.
    destruct (resolve_table_inv e table_name n t He Er) as [Ht Hd Hn Htn Hix].
    destruct (input_columns _ _) as [targets| |]; try done.
    pose proof (resolve_table_has e table_name n t Er) as Hst. rewrite <-Htn in Hst.
    pose proof (insert_rows_ok n targets rows t e Hs Ht Hd He Hst (Hroom n t eq_refl)) as H.
    destruct (insert_rows clock n targets rows t e) as [[r t'] e']. destruct H as (H1 & H2 & H3 & H4).
    apply env_ok_set_table; [by split; rewrite ?H2| |done]. rewrite H2, <-Htn.
    by apply has_table_created; [|apply (has_table_same e)].
  - unfold ExecuteUpdate. destruct (resolve_table e table_name) as [[n t]| |] eqn:Er; try done.
    pose proof (resolve_table_inv e table_name n t He Er) as Hinv. pose proof Hinv as [Ht Hd Hn Htn Hix].
    pose proof (resolve_table_has e table_name n t Er) as Hst. rewrite <-Htn in Hst.
    pose proof (update_rows_ok n (t_schema t) assignments where_ (ScanAll (t_heap t)) e Hs Hd (table_rows_fit _ Ht) He Hst) as H.
    destruct (update_rows _ _ _ _ _ _ _ _) as [[[rows k]| |] e']; destruct H as (H1 & H2 & H3); try done.
    destruct (H3 rows k eq_refl) as [H4 H5].
    apply replace_rows_ok; try done; [|rewrite <-Htn; by apply (has_table_same e)].
    eapply ids_below_same_ids; [exact H5|]. by apply table_rows_below.
  - unfold ExecuteDelete. destruct (resolve_table e table_name) as [[n t]| |] eqn:Er; try done.
    pose proof (resolve_table_inv e table_name n t He Er) as Hinv. pose proof Hinv as [Ht Hd Hn Htn Hix].
    pose proof (delete_rows_ok n (t_schema t) where_ (ScanAll (t_heap t)) e (tok_rows _ Ht) He) as H.
    destruct (delete_rows _ _ _ _ _ _ _) as [[[rows k]| |] e']; destruct H as (H1 & H2 & H3); try done.
    destruct (H3 rows k eq_refl) as [H4 H5].
    apply replace_rows_ok; try done; [|by apply (has_table_same e), resolve_table_has].
    eapply ids_below_sublist; [exact H5|]. by apply table_rows_below.
  - by apply revert_ok.
  - destruct (rebuild_inv (e_runtime e) _ (eo_tables _ He) (eo_log _ He)) as [Hr Hl].
    destruct (RebuildRuntimeIndexes (e_runtime e)) as [s' v]. destruct He as [Hp _ _]. by split.
Qed.

(** ** Reachable environments *)

(** A start without databases, then any interleaving of statements of any
    sessions; the session is part of the environment and another one may take
    over at any point. *)
Definition with_session (ses : SessionContext) (e : Env T) : Env T :=
  MkEnv (e_catalog e) (e_runtime e) (e_versions e) (e_pool e) ses (e_tick e).

Definition initial_env (ses : SessionContext) : Env T :=
  MkEnv (MkCatalog "" [] []) (MkRuntime ∅) [] empty_pool ses 0.

Inductive reachable : Env T → Prop :=
| reachable_start ses : reachable (initial_env ses)
| reachable_session ses e : reachable e → reachable (with_session ses e)
| reachable_step s detail e :
    reachable e → statement_ok e s → reachable (Execute regex_match clock s detail e).2.

Lemma initial_env_ok ses : env_ok (initial_env ses).
Proof. split; [apply empty_pool_wf| |split; [constructor|]]; intros n d tn t; simpl; by rewrite lookup_empty. Qed.

Lemma reachable_env_ok e : reachable e → env_ok e.
Proof.
  induction 1 as [ses|ses e _ IH|s detail e _ IH Hs]; [apply initial_env_ok|by apply (env_ok_same e)|].
  by apply execute_env_ok.
Qed.

(** C2: in every environment that statements of any sessions can reach, also
    after statements that failed, every row of every table fits its schema,
    row ids are distinct, every index holds exactly the keys of the rows, each
    once, and CHECK INDEX succeeds.  The statements are any but: an INSERT that
    runs out of the 2^64 - 1 row ids, a REVERT of a table for whose name the
    log has a CREATE TABLE with other columns, and literals outside the machine
    types, which the parser never produces. *)
Theorem reachable_consistent (e : Env T) (detail : string) :
  reachable e →
  runtime_ok (e_runtime e) ∧ pool_wf (e_pool e) ∧
  (Execute regex_match clock CheckIndexStatement detail e).1 = Ok (message_result "index check passed").
Proof.
  intros [Hp Ht _]%reachable_env_ok. pose proof (runtime_inv_ok _ Ht) as Hok. split_and!; [done|done|].
  simpl. by rewrite (validate_runtime_ok _ Hok).
Qed.

(** Running a list of statements. *)
Fixpoint run_statements (ss : list Statement) (e : Env T) : Env T :=
  match ss with
  | [] => e
  | s :: ss => run_statements ss (Execute regex_match clock s "" e).2
  end.

Fixpoint statements_ok (ss : list Statement) (e : Env T) : Prop :=
  match ss with
  | [] => True
  | s :: ss => statement_ok e s ∧ statements_ok ss (Execute regex_match clock s "" e).2
  end.

Lemma run_reachable ss e : reachable e → statements_ok ss e → reachable (run_statements ss e).
Proof.
  revert e. induction ss as [|s ss IH]; intros e He Hss; [done|]. destruct Hss as [Hs Hss].
  simpl. apply IH; [by apply reachable_step|done].
Qed.

End facts.
