(* ===== verification/QueryFacts.v ===== *)
(** * QueryFacts: the index path of a query against the sequential scan

    [FilterRows] answers some WHERE clauses from an index; for literals of the
    column's type the answer is a permutation of the sequential scan's. *)
From S2P Require Import Prelude Numerals CommonTypes Storage BStarPlusTree IndexSpec RuntimeState.
From S2P Require Import RuntimeFacts Ast Predicates.

Open Scope Z_scope.

Section queries.
Context (regex_match : string → string → Outcome bool).
Context {T : Type} `{!IndexOps T} `{!IndexLaws T}.

(** ** Scans as filters *)

(** The verdict on a row when evaluating it succeeds. *)
Definition keeps (w : option Expression) (schema : TableSchema) (row : RowData) : bool :=
  match passes regex_match w schema row with Ok b => b | _ => false end.

Lemma seq_filter_Ok w schema rows out : seq_filter regex_match w schema rows = Ok out →
  out = filter (λ r, keeps w schema r = true) rows ∧
  ∀ r, r ∈ rows → passes regex_match w schema r = Ok (keeps w schema r).
Proof.
  revert out. induction rows as [|row rows IH]; intros out; simpl.
  { intros [= <-]. split; [done|]. intros r []%not_elem_of_nil. }
  destruct (passes regex_match w schema row) as [b| |] eqn:Ep; simpl; try done.
  assert (Hk : keeps w schema row = b) by (unfold keeps; by rewrite Ep).
  destruct (seq_filter regex_match w schema rows) as [rest| |]; simpl; try done. intros [= <-].
  destruct (IH rest eq_refl) as [-> Hall]. split.
  - destruct b; [by rewrite filter_cons_True|rewrite filter_cons_False; [done|by rewrite Hk]].
  - intros r [->|Hr]%elem_of_cons; [|by apply Hall]. by rewrite Ep, Hk.
Qed.

(** The rows a list of candidate ids selects. *)
Fixpoint pick (w : option Expression) (schema : TableSchema) (rows : list RowData) (ids : list Z) : list RowData :=
  match ids with
  | [] => []
  | rid :: ids =>
      match find_row rid rows with
      | Some r => if keeps w schema r then r :: pick w schema rows ids else pick w schema rows ids
      | None => pick w schema rows ids
      end
  end.

Lemma append_candidates_pick w schema rows ids :
  (∀ r, r ∈ rows → passes regex_match w schema r = Ok (keeps w schema r)) →
  append_candidates regex_match w schema rows ids = Ok (pick w schema rows ids).
Proof.
  intros Hall. induction ids as [|rid ids IH]; simpl; [done|].
  destruct (find_row rid rows) as [r|] eqn:E; [|done]. apply find_row_Some in E as [Hr _].
  rewrite (Hall r Hr). simpl. rewrite IH. by destruct (keeps w schema r).
Qed.

Lemma elem_of_pick w schema rows ids r : NoDup (map row_id rows) →
  r ∈ pick w schema rows ids ↔ r ∈ rows ∧ keeps w schema r = true ∧ row_id r ∈ ids.
Proof.
  intros Hnd. induction ids as [|rid ids IH]; simpl.
  { split; [intros []%not_elem_of_nil|intros (_ & _ & []%not_elem_of_nil)]. }
  destruct (find_row rid rows) as [r'|] eqn:E.
  - apply find_row_Some in E as [Hr' <-].
    assert (Hsame : r ∈ rows → row_id r = row_id r' → r = r').
    { intros Hr Hid. pose proof (find_row_In rows r Hnd Hr) as F1. pose proof (find_row_In rows r' Hnd Hr') as F2. congruence. }
    destruct (keeps w schema r') eqn:Ek; rewrite ?elem_of_cons, IH, ?elem_of_cons; [naive_solver|].
    split; [naive_solver|]. intros (Hr & Hk & [Hid|Hid]); [|done]. specialize (Hsame Hr Hid). congruence.
  - rewrite IH, elem_of_cons. split; [naive_solver|]. intros (Hr & Hk & [Hid|Hid]); [|done].
    rewrite <-Hid, (find_row_In rows r Hnd Hr) in E. done.
Qed.

Lemma pick_NoDup w schema rows ids : NoDup (map row_id rows) → NoDup ids → NoDup (pick w schema rows ids).
Proof.
  intros Hnd. induction 1 as [|rid ids Hrid Hids IH]; simpl; [constructor|].
  destruct (find_row rid rows) as [r|] eqn:E; [|done]. destruct (keeps w schema r); [|done].
  constructor; [|done]. apply find_row_Some in E as [_ <-]. intros (_ & _ & Hin)%elem_of_pick; done.
Qed.

(** Candidates that contain every matching row, each once. *)
Lemma pick_permutation w schema rows ids :
  NoDup (map row_id rows) → NoDup ids → (∀ r, r ∈ rows → keeps w schema r = true → row_id r ∈ ids) →
  pick w schema rows ids ≡ₚ filter (λ r, keeps w schema r = true) rows.
Proof.
  intros Hnd Hids Hcov. apply NoDup_Permutation.
  - by apply pick_NoDup.
  - apply NoDup_filter. by apply NoDup_fmap_1 in Hnd.
  - intros r. rewrite elem_of_pick, list_elem_of_filter by done. naive_solver.
Qed.

(** ** Candidates from an index *)

Lemma index_lookup_row schema rows i r :
  NoDup (index_keys schema i rows) → r ∈ rows →
  index_contents schema i rows !! key_text schema i r = Some [row_id r].
Proof.
  intros Hu Hr. pose proof (mm_find_row schema i rows r Hu Hr) as H. unfold mm_find in H.
  destruct (index_contents schema i rows !! key_text schema i r); simpl in H; congruence.
Qed.

Lemma range_ids_spec schema rows i (tree : T) lower upper :
  NoDup (map row_id rows) → index_consistent schema rows i tree →
  ∃ ids, range_ids tree lower upper = Ok ids ∧ NoDup ids ∧
    ∀ r, r ∈ rows → sle lower (key_text schema i r) → slt (key_text schema i r) upper → row_id r ∈ ids.
Proof.
  intros Hnd [Hok Hu _]. destruct (index_range_ok tree _ lower upper Hok) as (es & E & [Hsorted Hes]).
  unfold range_ids. rewrite E. simpl. eexists. split; [done|]. split.
  - assert (Hval : ∀ k v, MkEntry k v ∈ es → NoDup v ∧ ∀ rid, rid ∈ v →
      ∃ r, r ∈ rows ∧ key_text schema i r = k ∧ row_id r = rid).
    { intros k v Hkv. apply Hes in Hkv as (_ & _ & Hg).
      assert (Hv : mm_find (index_contents schema i rows) k = v) by (unfold mm_find; by rewrite Hg).
      rewrite <-Hv. split; [apply mm_find_NoDup|]. intros rid. by rewrite elem_of_index_contents. }
    clear Hes E. induction es as [|[k v] es IH]; simpl; [constructor|].
    apply StronglySorted_inv in Hsorted as [Hsorted Hk]. simpl in Hk.
    apply NoDup_app. split_and!; [by eapply Hval; left| |].
    + intros rid Hrid Hrest. apply list_elem_of_In, in_flat_map in Hrest as ([k' v'] & Hin & Hrid').
      apply list_elem_of_In in Hin, Hrid'.
      destruct (Hval k v ltac:(by left)) as [_ H1]. destruct (H1 _ Hrid) as (r1 & Hr1 & Hk1 & Hid1).
      destruct (Hval k' v' ltac:(by right)) as [_ H2]. destruct (H2 _ Hrid') as (r2 & Hr2 & Hk2 & Hid2).
      assert (r1 = r2) as ->.
      { pose proof (find_row_In rows r1 Hnd Hr1). pose proof (find_row_In rows r2 Hnd Hr2). congruence. }
      rewrite Forall_forall in Hk. assert (slt k k'); [|subst; by eapply slt_irrefl].
      apply Hk. apply list_elem_of_fmap. by exists (MkEntry k' v').
    + apply IH; [done|]. intros. apply Hval. by right.
  - intros r Hr H1 H2. apply list_elem_of_In, in_flat_map. exists (MkEntry (key_text schema i r) [row_id r]).
    split; [|by left]. apply list_elem_of_In, Hes. split_and!; [done|done|by apply index_lookup_row].
Qed.

(** ** Keys and comparisons *)

Lemma slt_extend e c : slt e (e +:+ String c "").
Proof. induction e as [|d e IH]; [done|]. simpl. by apply slt_cons. Qed.

Lemma encoded_below_FF v ty k : IsNull v = false → EncodeIndexKey v ty = Ok k → slt k (xFF +:+ xFF +:+ xFF +:+ xFF).
Proof.
  unfold EncodeIndexKey. intros ->. case_bool_decide.
  - destruct (GetInt64 v); simpl; try done. intros [= <-]. done.
  - destruct (AsString v); simpl; try done. intros [= <-]. done.
Qed.

Lemma sle_empty k : sle "" k.
Proof. destruct k; [by right|by left]. Qed.

(** The indexed cell of a row of a consistent table. *)
Lemma indexed_cell (t : TableRuntime T) c i tree r :
  table_ok t → t_indexes t !! c = Some tree → FindColumnIndex (t_schema t) c = Some i → r ∈ heap_rows (t_heap t) →
  ∃ v cd, row_values r !! i = Some v ∧ schema_columns (t_schema t) !! i = Some cd ∧
    has_type (col_type cd) v ∧ value_ok v ∧ EncodeIndexKey v (col_type cd) = Ok (key_text (t_schema t) i r).
Proof.
  intros [_ _ _ Hrows [_ Hi]] Ht Hfi Hr. destruct (Hi c tree Ht) as (j & Hj & [_ _ Hnn]).
  assert (i = j) as <- by congruence. rewrite Forall_forall in Hrows, Hnn. specialize (Hrows r Hr). specialize (Hnn r Hr).
  pose proof (find_column_lt _ _ _ Hfi) as Hlt. destruct (lookup_lt_is_Some_2 _ _ Hlt) as [cd Hcd].
  destruct (Forall2_lookup_r _ _ _ _ _ Hrows Hcd) as (v & Hv & Hcan & Hok).
  pose proof (key_of_ok _ _ _ Hrows Hlt) as Hk. unfold key_of, value_at, column_at in Hk. rewrite Hv, Hcd in Hk.
  assert (Hne : v ≠ VNull) by (intros ->; by apply Hnn).
  exists v, cd. split_and!; try done. split; [|done]. unfold CanAssignToType in Hcan.
  destruct v; try done; simpl in Hcan; by apply bool_decide_eq_true in Hcan.
Qed.

(** A WHERE clause that goes to an index compares with literals of the
    column's type. *)
Definition where_typed (w : option Expression) (t : TableRuntime T) : Prop :=
  ∀ c i cd, c ∈ dom (t_indexes t) → FindColumnIndex (t_schema t) c = Some i → schema_columns (t_schema t) !! i = Some cd →
  match w with
  | Some (BinaryComparisonExpression _ (ColumnReferenceExpression _ _ c') (LiteralExpression lit)) =>
      c' = c → has_type (col_type cd) lit ∧ value_ok lit
  | Some (BetweenExpression (ColumnReferenceExpression _ _ c') (LiteralExpression lo) (LiteralExpression hi)) =>
      c' = c → (has_type (col_type cd) lo ∧ value_ok lo) ∧ has_type (col_type cd) hi ∧ value_ok hi
  | _ => True
  end.

Lemma has_type_encodes ty v : has_type ty v → ∃ k, EncodeIndexKey v ty = Ok k ∧ IsNull v = false.
Proof.
  intros [<- Hn]. destruct v; try done; simpl; by eexists.
Qed.

(** What it means that a row passes a comparison with a literal. *)
Lemma keeps_comparison schema r op d tb c i lit v :
  FindColumnIndex schema c = Some i → row_values r !! i = Some v →
  keeps (Some (BinaryComparisonExpression op (ColumnReferenceExpression d tb c) (LiteralExpression lit))) schema r = true →
  ∃ x, CompareValues v lit = Ok x ∧ compare_result op x = true.
Proof.
  intros Hi Hv. unfold keeps, passes. simpl. rewrite Hi. unfold value_at. rewrite Hv. simpl.
  destruct (negb _); [done|]. destruct (CompareValues v lit) as [x| |]; simpl; try done. by exists x.
Qed.

Lemma keeps_between schema r d tb c i lo hi v :
  FindColumnIndex schema c = Some i → row_values r !! i = Some v →
  keeps (Some (BetweenExpression (ColumnReferenceExpression d tb c) (LiteralExpression lo) (LiteralExpression hi))) schema r = true →
  ∃ x y, CompareValues v lo = Ok x ∧ CompareValues v hi = Ok y ∧ 0 ≤ x ∧ y < 0.
Proof.
  intros Hi Hv. unfold keeps, passes. simpl. rewrite Hi. unfold value_at. rewrite Hv. simpl.
  destruct (negb _ || negb _); [done|]. destruct (CompareValues v lo) as [x| |]; simpl; try done.
  destruct (CompareValues v hi) as [y| |]; simpl; try done. intros [H1 H2]%andb_true_iff. exists x, y.
  split_and!; [done|done|by apply Z.leb_le|by apply Z.ltb_lt].
Qed.

(** The key of a row against the key of a literal. *)
Lemma key_against_literal (t : TableRuntime T) c i tree cd lit enc r :
  table_ok t → t_indexes t !! c = Some tree → FindColumnIndex (t_schema t) c = Some i →
  schema_columns (t_schema t) !! i = Some cd → has_type (col_type cd) lit → value_ok lit →
  EncodeIndexKey lit (col_type cd) = Ok enc → r ∈ heap_rows (t_heap t) →
  ∃ v, row_values r !! i = Some v ∧ slt (key_text (t_schema t) i r) (xFF +:+ xFF +:+ xFF +:+ xFF) ∧
    ∀ x, CompareValues v lit = Ok x →
      (x = 0 → key_text (t_schema t) i r = enc) ∧ (x < 0 → slt (key_text (t_schema t) i r) enc) ∧
      (0 < x → slt enc (key_text (t_schema t) i r)).
Proof.
  intros Ht Htree Hi Hcd Hty Hok Henc Hr.
  destruct (indexed_cell t c i tree r Ht Htree Hi Hr) as (v & cd' & Hv & Hcd' & Hvt & Hvok & Hkey).
  assert (cd' = cd) as -> by congruence. exists v. split; [done|]. split.
  - destruct (has_type_encodes _ _ Hvt) as (_ & _ & Hnull). by eapply encoded_below_FF.
  - intros x Hx. by destruct (compare_keys _ _ _ _ _ _ Hvt Hty Hvok Hok Hkey Henc Hx) as (H1 & H2 & H3).
Qed.

(** A range scan whose bounds contain the keys of the matching rows. *)
Lemma range_covers (t : TableRuntime T) w c i tree lower upper :
  table_ok t → t_indexes t !! c = Some tree → FindColumnIndex (t_schema t) c = Some i →
  (∀ r, r ∈ heap_rows (t_heap t) → keeps w (t_schema t) r = true →
    sle lower (key_text (t_schema t) i r) ∧ slt (key_text (t_schema t) i r) upper) →
  ∃ ids, range_ids tree lower upper = Ok ids ∧ NoDup ids ∧
    ∀ r, r ∈ heap_rows (t_heap t) → keeps w (t_schema t) r = true → row_id r ∈ ids.
Proof.
  intros Ht Htree Hi Hr. destruct (ix_each _ _ _ (tok_indexes _ Ht) c tree Htree) as (j & Hj & Hcons).
  assert (i = j) as <- by congruence.
  assert (Hnd : NoDup (map row_id (heap_rows (t_heap t)))) by (destruct Ht as [[Hids _] _ _ _ _]; by eapply ids_below_NoDup).
  destruct (range_ids_spec _ _ i tree lower upper Hnd Hcons) as (ids & -> & H1 & H2).
  exists ids. split_and!; [done|done|]. intros r Hin Hk. destruct (Hr r Hin Hk). by apply H2.
Qed.

Lemma comparison_covers (t : TableRuntime T) op d tb c i tree cd lit enc :
  let w := Some (BinaryComparisonExpression op (ColumnReferenceExpression d tb c) (LiteralExpression lit)) in
  table_ok t → t_indexes t !! c = Some tree → FindColumnIndex (t_schema t) c = Some i →
  schema_columns (t_schema t) !! i = Some cd → has_type (col_type cd) lit → value_ok lit →
  EncodeIndexKey lit (col_type cd) = Ok enc → op ≠ kNotEqual →
  ∃ ids, comparison_candidates op tree enc = Some (Ok ids) ∧ NoDup ids ∧
    ∀ r, r ∈ heap_rows (t_heap t) → keeps w (t_schema t) r = true → row_id r ∈ ids.
Proof.
  intros w Ht Htree Hi Hcd Hty Hok Henc Hop.
  assert (Hcmp : ∀ r, r ∈ heap_rows (t_heap t) → keeps w (t_schema t) r = true → ∃ x, compare_result op x = true ∧
    (x = 0 → key_text (t_schema t) i r = enc) ∧ (x < 0 → slt (key_text (t_schema t) i r) enc) ∧
    (0 < x → slt enc (key_text (t_schema t) i r)) ∧ slt (key_text (t_schema t) i r) (xFF +:+ xFF +:+ xFF +:+ xFF)).
  { intros r Hr Hk. destruct (key_against_literal t c i tree cd lit enc r) as (v & Hv & Hff & Hx); try done.
    destruct (keeps_comparison _ _ _ _ _ _ _ _ _ Hi Hv Hk) as (x & Hc & Hres). exists x. specialize (Hx x Hc). naive_solver. }
  assert (Hrange : ∀ lower upper, (∀ r, r ∈ heap_rows (t_heap t) → keeps w (t_schema t) r = true →
      sle lower (key_text (t_schema t) i r) ∧ slt (key_text (t_schema t) i r) upper) →
    ∃ ids, Some (range_ids tree lower upper) = Some (Ok ids) ∧ NoDup ids ∧
      ∀ r, r ∈ heap_rows (t_heap t) → keeps w (t_schema t) r = true → row_id r ∈ ids).
  { intros lower upper Hr. destruct (range_covers t w c i tree lower upper) as (ids & -> & Hids); try done. by exists ids. }
  destruct op; try done; simpl.
  - destruct (ix_each _ _ _ (tok_indexes _ Ht) c tree Htree) as (j & Hj & Hcons). assert (i = j) as <- by congruence.
    rewrite (index_find_ok _ _ _ (ic_ok _ _ _ _ Hcons)). eexists. split; [done|]. split; [apply mm_find_NoDup|].
    intros r Hr Hk. destruct (Hcmp r Hr Hk) as (x & Hx & H0 & _). simpl in Hx. apply Z.eqb_eq in Hx.
    apply elem_of_index_contents. exists r. auto.
  - apply Hrange. intros r Hr Hk. destruct (Hcmp r Hr Hk) as (x & Hx & _ & H1 & _). simpl in Hx. apply Z.ltb_lt in Hx.
    split; [apply sle_empty|]. pose proof (slt_extend enc (Ascii.ascii_of_nat 255)). specialize (H1 Hx). unfold xFF. sorder.
  - apply Hrange. intros r Hr Hk. destruct (Hcmp r Hr Hk) as (x & Hx & _ & _ & H1 & H2). simpl in Hx. apply Z.ltb_lt in Hx.
    split; [left; auto|done].
  - apply Hrange. intros r Hr Hk. destruct (Hcmp r Hr Hk) as (x & Hx & H0 & H1 & _). simpl in Hx. apply Z.leb_le in Hx.
    split; [apply sle_empty|]. pose proof (slt_extend enc (Ascii.ascii_of_nat 255)). unfold xFF.
    destruct (decide (x = 0)); [rewrite H0 by done; done|]. specialize (H1 ltac:(lia)). sorder.
  - apply Hrange. intros r Hr Hk. destruct (Hcmp r Hr Hk) as (x & Hx & H0 & _ & H1 & H2). simpl in Hx. apply Z.leb_le in Hx.
    split; [|done]. destruct (decide (x = 0)); [right; symmetry; auto|left; apply H1; lia].
Qed.

Lemma between_covers (t : TableRuntime T) d tb c i tree cd lo hi klo khi :
  let w := Some (BetweenExpression (ColumnReferenceExpression d tb c) (LiteralExpression lo) (LiteralExpression hi)) in
  table_ok t → t_indexes t !! c = Some tree → FindColumnIndex (t_schema t) c = Some i →
  schema_columns (t_schema t) !! i = Some cd → has_type (col_type cd) lo → value_ok lo → has_type (col_type cd) hi →
  value_ok hi → EncodeIndexKey lo (col_type cd) = Ok klo → EncodeIndexKey hi (col_type cd) = Ok khi →
  ∃ ids, range_ids tree klo khi = Ok ids ∧ NoDup ids ∧
    ∀ r, r ∈ heap_rows (t_heap t) → keeps w (t_schema t) r = true → row_id r ∈ ids.
Proof.
  intros w Ht Htree Hi Hcd Hlo Hlok Hhi Hhok Elo Ehi. apply (range_covers t w c i); try done. intros r Hr Hk.
  destruct (key_against_literal t c i tree cd lo klo r) as (v & Hv & _ & Hxlo); try done.
  destruct (key_against_literal t c i tree cd hi khi r) as (v' & Hv' & _ & Hxhi); try done.
  assert (v' = v) as -> by congruence.
  destruct (keeps_between _ _ _ _ _ _ _ _ _ Hi Hv Hk) as (x & y & Hx & Hy & H1 & H2).
  destruct (Hxlo x Hx) as (A & _ & B). destruct (Hxhi y Hy) as (_ & C & _). split; [|by apply C].
  destruct (decide (x = 0)); [right; symmetry; auto|left; apply B; lia].
Qed.

(** What the candidates of a WHERE clause are. *)
Lemma candidates_cover (t : TableRuntime T) w : table_ok t → where_typed w t →
  index_candidates w (t_schema t) t = Ok None ∨
  ∃ ids, index_candidates w (t_schema t) t = Ok (Some ids) ∧ NoDup ids ∧
    ∀ r, r ∈ heap_rows (t_heap t) → keeps w (t_schema t) r = true → row_id r ∈ ids.
Proof.
  intros Ht Hw.
  assert (Hcol : ∀ c i, FindColumnIndex (t_schema t) c = Some i → ∃ cd, schema_columns (t_schema t) !! i = Some cd).
  { intros c i Hi. by apply lookup_lt_is_Some_2, (find_column_lt _ _ _ Hi). }
  destruct w as [[| |op [|d tb c| | | | |] [lit| | | | | |]| |[|d tb c| | | | |] [lo| | | | | |] [hi| | | | | |]| |]|];
    try (by left); simpl.
  all: destruct (FindColumnIndex (t_schema t) c) as [i|] eqn:Hi; [|by left].
  all: destruct (t_indexes t !! c) as [tree|] eqn:Htree; [|by left].
  all: destruct (Hcol c i Hi) as [cd Hcd]; unfold column_at; rewrite Hcd; simpl.
  all: specialize (Hw c i cd (elem_of_dom_2 _ _ _ Htree) Hi Hcd eq_refl).
  - destruct Hw as [Hty Hok]. destruct (has_type_encodes _ _ Hty) as (enc & Henc & _). rewrite Henc. simpl.
    destruct (decide (op = kNotEqual)) as [->|Hop]; [by left|right].
    destruct (comparison_covers t op d tb c i tree cd lit enc) as (ids & -> & Hids); try done. simpl. by exists ids.
  - destruct Hw as [[Hlo Hlok] [Hhi Hhok]]. destruct (has_type_encodes _ _ Hlo) as (klo & Elo & _).
    destruct (has_type_encodes _ _ Hhi) as (khi & Ehi & _). rewrite Elo, Ehi. simpl. right.
    destruct (between_covers t d tb c i tree cd lo hi klo khi) as (ids & -> & Hids); try done. simpl. by exists ids.
Qed.

(** C5: whenever the sequential scan of a consistent table succeeds, the scan
    with the access path the engine picks succeeds too and returns the same
    rows up to order, for WHERE clauses that compare an indexed column with
    non-null literals of its type. *)
Theorem index_scan_equals_seq_scan (t : TableRuntime T) w out :
  table_ok t → where_typed w t →
  seq_filter regex_match w (t_schema t) (heap_rows (t_heap t)) = Ok out →
  ∃ out', FilterRows regex_match (heap_rows (t_heap t)) w (t_schema t) t = Ok out' ∧ out' ≡ₚ out.
Proof.
  intros Ht Hw Hseq. unfold FilterRows.
  destruct (candidates_cover t w Ht Hw) as [->|(ids & -> & Hnd & Hcov)]; simpl; [by exists out|].
  destruct (seq_filter_Ok _ _ _ _ Hseq) as [-> Hall]. rewrite append_candidates_pick by done.
  eexists. split; [done|]. apply pick_permutation; [|done|done].
  destruct Ht as [[Hids _] _ _ _ _]. by eapply ids_below_NoDup.
Qed.

End queries.
