(* ===== verification/History.v ===== *)
(** * History: the change log replays to the tables, and REVERT restores them

    The version store keeps every change; REVERT replays the changes of a
    table up to a time.  Here the log is related to the heaps: as long as no
    UPDATE, DELETE or REVERT has failed half way, replaying the whole history
    of a table gives its rows, and REVERT to a time gives the rows the table
    had then.  Rows are compared by their texts, since a value and its interned
    copy are different objects for the same value. *)
From S2P Require Import Prelude Numerals CommonTypes Storage BStarPlusTree IndexSpec RuntimeState.
From S2P Require Import RuntimeFacts Ast VersionStore Predicates Execution ChangeLog ExecutionFacts.

Open Scope Z_scope.

(** ** Rows by their texts *)

Definition plain_value (v : Value) : Value :=
  match v with VInterned p => VStr (intern_text p) | _ => v end.

Definition plain_row (r : RowData) : RowData := MkRow (row_id r) (map plain_value (row_values r)).

Lemma compare_plain a b : CompareValues a b = Ok 0 → GetValueType a = GetValueType b → plain_value a = plain_value b.
Proof.
  unfold CompareValues. intros H Ht. rewrite bool_decide_eq_true_2 in H by done. simpl in H.
  assert (Htext : ∀ x y, string_compare x y = 0 → x = y).
  { intros x y. unfold string_compare. by destruct (str_compare_spec x y). }
  destruct a, b; try done; simpl in *; try (injection H as H; apply Htext in H; by rewrite ?H).
  unfold int64_sub in H. case_decide; [|done]. injection H as H. f_equal. lia.
Qed.

Lemma RowValuesEqual_plain r r' : RowValuesEqual r r' = Ok true → row_id r = row_id r' → plain_row r = plain_row r'.
Proof.
  unfold RowValuesEqual, plain_row. destruct (negb _); [done|]. destruct r as [i vs], r' as [i' vs']. simpl.
  intros H ->. f_equal. revert vs' H. induction vs as [|v vs IH]; intros [|v' vs']; simpl; try done.
  case_bool_decide as Ht; simpl; [|done]. destruct (CompareValues v v') as [c| |] eqn:Ec; simpl; try done.
  destruct (Z.eqb_spec c 0) as [->|]; simpl; [|done]. intros H. f_equal; [by apply compare_plain|by apply IH].
Qed.

Lemma find_row_app i rows rows' :
  find_row i (rows ++ rows') = match find_row i rows with Some r => Some r | None => find_row i rows' end.
Proof. induction rows as [|r rows IH]; simpl; [done|]. by case_bool_decide. Qed.

Lemma find_row_None i rows : find_row i rows = None ↔ i ∉ map row_id rows.
Proof.
  induction rows as [|r rows IH]; simpl; [split; [intros _; apply not_elem_of_nil|done]|].
  rewrite not_elem_of_cons, <-IH. case_bool_decide; naive_solver.
Qed.

(** [by_id.emplace]: the first row of an id. *)
Lemma lookup_rows_by_id i rows : rows_by_id rows !! i = find_row i rows.
Proof.
  unfold rows_by_id. induction rows as [|r rows IH] using rev_ind; simpl; [by rewrite lookup_empty|].
  rewrite foldl_app, find_row_app. simpl. destruct (foldl _ _ rows !! row_id r) as [r'|] eqn:E.
  - rewrite IH. destruct (find_row i rows) eqn:Ei; [done|]. case_bool_decide; [subst|done].
    rewrite IH in E. congruence.
  - rewrite lookup_insert, IH. case_decide as Hi; [subst i|].
    + rewrite IH in E. rewrite E. by rewrite bool_decide_eq_true_2.
    + rewrite bool_decide_eq_false_2 by done. by destruct (find_row i rows).
Qed.

(** ** Replaying a history *)

Definition replay (n tn : string) (vs : VersionStore) : gmap Z RowData :=
  foldl apply_change ∅ (HistoryForTable n tn vs).

(** The log of a table gives these rows. *)
Definition replays (vs : VersionStore) (n tn : string) (rows : list RowData) : Prop :=
  ∀ i, plain_row <$> replay n tn vs !! i = plain_row <$> find_row i rows.

Lemma HistoryForTable_cons n tn r vs :
  HistoryForTable n tn (r :: vs) = if of_table n tn r then r :: HistoryForTable n tn vs else HistoryForTable n tn vs.
Proof.
  unfold HistoryForTable, VersionStore. destruct (of_table n tn r) eqn:E;
    [by rewrite filter_cons_True|rewrite filter_cons_False; [done|by rewrite E]].
Qed.

Lemma HistoryForTable_app n tn vs vs' : HistoryForTable n tn (vs ++ vs') = HistoryForTable n tn vs ++ HistoryForTable n tn vs'.
Proof. unfold HistoryForTable, VersionStore. apply filter_app. Qed.

Lemma HistoryForTable_other n tn vs : Forall (λ r, of_table n tn r = false) vs → HistoryForTable n tn vs = [].
Proof. induction 1 as [|r vs Hr _ IH]; [done|]. by rewrite HistoryForTable_cons, Hr. Qed.

(** ** Sorted rows *)

(** Two sorted lists that agree on every id are the same list. *)
Lemma sorted_rows_unique rows rows' :
  StronglySorted id_lt rows → StronglySorted id_lt rows' →
  (∀ i, plain_row <$> find_row i rows = plain_row <$> find_row i rows') → map plain_row rows = map plain_row rows'.
Proof.
  intros H1 H2 Hf.
  assert (Hs : ∀ l, StronglySorted id_lt l → StronglySorted id_lt (map plain_row l) ∧ NoDup (map row_id l)).
  { clear. induction 1 as [|r l _ [IH1 IH2] Hr]; simpl; [split; constructor|]. split; constructor; try done.
    - by apply Forall_fmap.
    - intros (x & Hx & Hin)%list_elem_of_fmap. rewrite Forall_forall in Hr. specialize (Hr x Hin). unfold id_lt in Hr. lia. }
  assert (Hin : ∀ a b, StronglySorted id_lt a → (∀ i, plain_row <$> find_row i a = plain_row <$> find_row i b) →
    ∀ x, x ∈ map plain_row a → x ∈ map plain_row b).
  { intros a b Ha Hab x (r & -> & Hr)%list_elem_of_fmap. destruct (Hs a Ha) as [_ Hnd]. specialize (Hab (row_id r)).
    rewrite (find_row_In a r Hnd Hr) in Hab. destruct (find_row (row_id r) b) as [r'|] eqn:E; [|done].
    injection Hab as Hab1 Hab2. apply find_row_Some in E as [Hin' _]. apply list_elem_of_fmap. exists r'. split; [|done].
    unfold plain_row. congruence. }
  destruct (Hs rows H1) as [S1 N1], (Hs rows' H2) as [S2 N2].
  apply (StronglySorted_unique_strong id_lt); [unfold id_lt; lia|done|done|].
  assert (Hnd : ∀ l, NoDup (map row_id l) → NoDup (map plain_row l)).
  { intros l Hl. apply (NoDup_fmap_1 row_id). by rewrite <-list_fmap_compose. }
  apply NoDup_Permutation; [by apply Hnd..|]. intros x. split; apply Hin; try done.
Qed.

Lemma replay_ids n tn vs i r : replay n tn vs !! i = Some r → row_id r = i.
Proof. intros H. by apply (applied_row (HistoryForTable n tn vs)). Qed.

(** ** The search of REVERT *)

Lemma best_loop_spec n tn ts best records :
  (∀ b, best = Some b → sle b ts) →
  match best_loop n tn ts best records with
  | None => best = None ∧ ∀ r, r ∈ records → of_table n tn r = true → slt ts (ch_timestamp r)
  | Some x => sle x ts ∧ (∀ b, best = Some b → sle b x) ∧
      ∀ r, r ∈ records → of_table n tn r = true → sle (ch_timestamp r) ts → sle (ch_timestamp r) x
  end.
Proof.
  revert best. induction records as [|r rs IH]; intros best Hb; simpl.
  { destruct best as [b|]; [|split; [done|intros ? []%not_elem_of_nil]].
    split; [by apply Hb|]. split; [intros ? [= ->]; by right|intros ? []%not_elem_of_nil]. }
  destruct (of_table n tn r) eqn:Eo; simpl.
  - destruct (str_ltb_spec ts (ch_timestamp r)) as [Hlt|Hle].
    + specialize (IH best Hb). destruct (best_loop n tn ts best rs) as [x|].
      * destruct IH as (I1 & I2 & I3). split_and!; try done. intros r' [->|Hr']%elem_of_cons; [intros; sorder|by apply I3].
      * destruct IH as [I1 I2]. split; [done|]. intros r' [->|Hr']%elem_of_cons; [done|by apply I2].
    + set (best' := if match best with None => true | Some l => l <s ch_timestamp r end then Some (ch_timestamp r) else best).
      assert (Hb' : ∃ y, best' = Some y ∧ sle y ts ∧ sle (ch_timestamp r) y ∧ (∀ b, best = Some b → sle b y)).
      { unfold best'. destruct best as [b|]; [|exists (ch_timestamp r); split_and!; [done|done|by right|done]].
        pose proof (Hb b eq_refl) as Hbts. destruct (str_ltb_spec b (ch_timestamp r)).
        - exists (ch_timestamp r). split_and!; [done|done|by right|]. intros ? [= <-]. by left.
        - exists b. split_and!; try done. intros ? [= <-]. by right. }
      destruct Hb' as (y & Ey & Hyts & Hry & Hbest). specialize (IH best'). rewrite Ey in *.
      specialize (IH ltac:(by intros ? [= <-])). destruct (best_loop n tn ts (Some y) rs) as [x|]; [|naive_solver].
      destruct IH as (I1 & I2 & I3). specialize (I2 y eq_refl). split; [done|]. split.
      * intros b Eb. specialize (Hbest b Eb). sorder.
      * intros r' [->|Hr']%elem_of_cons; [intros; sorder|by apply I3].
  - specialize (IH best Hb). destruct (best_loop n tn ts best rs) as [x|].
    + destruct IH as (I1 & I2 & I3). split_and!; try done. intros r' [->|Hr']%elem_of_cons; [congruence|by apply I3].
    + destruct IH as [I1 I2]. split; [done|]. intros r' [->|Hr']%elem_of_cons; [congruence|by apply I2].
Qed.

Section history.
Context {T : Type} `{!IndexOps T} `{!IndexLaws T}.
Context (regex_match : string → string → Outcome bool).
Context (clock : nat → Tm).

Implicit Types e : Env T.

(** ** What statements append to the log *)

(** [log_grows P e e']: the log of [e'] is that of [e] with records of [P]
    behind it, stamped by the clock in order. *)
Definition log_grows (P : ChangeRecord → Prop) (e e' : Env T) : Prop :=
  ∃ more, e_versions e' = e_versions e ++ more ∧ Forall P more ∧ e_tick e' = (e_tick e + length more)%nat ∧
    map ch_timestamp more = map (λ k, GenerateTimestamp (clock k)) (seq (e_tick e) (length more)).

Lemma log_grows_same P e e' : e_versions e' = e_versions e → e_tick e' = e_tick e → log_grows P e e'.
Proof. intros H1 H2. exists []. rewrite app_nil_r. split_and!; [done|constructor|simpl; lia|done]. Qed.

Lemma log_grows_trans P e1 e2 e3 : log_grows P e1 e2 → log_grows P e2 e3 → log_grows P e1 e3.
Proof.
  intros (m1 & V1 & P1 & T1 & S1) (m2 & V2 & P2 & T2 & S2). exists (m1 ++ m2).
  rewrite V2, V1, app_assoc, length_app, map_app, seq_app, map_app, S1, S2, T1.
  split_and!; [done|by apply Forall_app|lia|done].
Qed.

Lemma log_grows_impl (P Q : ChangeRecord → Prop) e e' : (∀ r, P r → Q r) → log_grows P e e' → log_grows Q e e'.
Proof.
  intros HPQ (m & V & HP & HT & HS). exists m. split_and!; try done. by eapply Forall_impl.
Qed.

Lemma log_grows_append kind n tn schema before after e :
  log_grows (λ r, ch_kind r = kind ∧ ch_database r = n ∧ ch_table r = tn) e
    (AppendChangeEvent clock kind n tn schema before after e).
Proof.
  eexists [_]. split_and!; [reflexivity|by repeat constructor|simpl; lia|done].
Qed.

(** Records of the table [tn] of the database [n]. *)
Definition on_table (n tn : string) (r : ChangeRecord) : Prop := ch_database r = n ∧ ch_table r = tn.

Lemma log_grows_event kind n tn schema before after e :
  log_grows (on_table n tn) e (AppendChangeEvent clock kind n tn schema before after e).
Proof. eapply log_grows_impl; [|apply log_grows_append]. by intros r (_ & ? & ?). Qed.

Lemma replay_elsewhere n tn e e' n' tn' :
  log_grows (on_table n tn) e e' → ¬ (n' = n ∧ tn' = tn) →
  replay n' tn' (e_versions e') = replay n' tn' (e_versions e).
Proof.
  intros (more & -> & Hm & _) Hne. unfold replay. rewrite HistoryForTable_app, (HistoryForTable_other _ _ more), app_nil_r; [done|].
  eapply Forall_impl; [exact Hm|]. intros r [<- <-]. unfold of_table.
  destruct (decide (ch_database r = n')); [rewrite (bool_decide_eq_false_2 (ch_table r = tn')) by naive_solver|
    rewrite (bool_decide_eq_false_2 (ch_database r = n')) by done]; by rewrite ?andb_false_r.
Qed.

(** The effect of one event on its own table. *)
Lemma replay_event kind n tn schema before after e :
  ∃ r, ch_kind r = kind ∧ ch_before r = before ∧ ch_after r = after ∧
    replay n tn (e_versions (AppendChangeEvent clock kind n tn schema before after e)) =
    apply_change (replay n tn (e_versions e)) r.
Proof.
  set (rid := match after, before with Some r, _ => row_id r | None, Some r => row_id r | None, None => kInvalidRowId end).
  set (rec := MkChange kind n tn (GenerateTimestamp (clock (e_tick e))) rid schema before after).
  exists rec. split_and!; [done..|]. unfold replay.
  change (e_versions (AppendChangeEvent _ _ _ _ _ _ _ e)) with (e_versions e ++ [rec]).
  rewrite HistoryForTable_app, foldl_app, HistoryForTable_cons.
  by rewrite (proj2 (of_table_true n tn rec) (conj eq_refl eq_refl)).
Qed.

Lemma replay_write kind n tn schema before after e : kind = kInsertRow ∨ kind = kUpdateRow →
  replay n tn (e_versions (AppendChangeEvent clock kind n tn schema before (Some after) e)) =
  <[row_id after := after]> (replay n tn (e_versions e)).
Proof.
  intros Hk. destruct (replay_event kind n tn schema before (Some after) e) as (r & Hr & _ & Ha & ->).
  unfold apply_change. rewrite Hr, Ha. by destruct Hk as [-> | ->].
Qed.

Lemma replay_erase n tn schema before after e :
  replay n tn (e_versions (AppendChangeEvent clock kDeleteRow n tn schema (Some before) after e)) =
  delete (row_id before) (replay n tn (e_versions e)).
Proof.
  destruct (replay_event kDeleteRow n tn schema (Some before) after e) as (r & Hr & Hb & _ & ->).
  unfold apply_change. by rewrite Hr, Hb.
Qed.

(** ** INSERT *)

Lemma insert_row_log n t t' e e' :
  table_ok t → row_logged clock n t t' e e' →
  log_grows (on_table n (schema_table (t_schema t))) e e' ∧
  (replays (e_versions e) n (schema_table (t_schema t)) (heap_rows (t_heap t)) →
   replays (e_versions e') n (schema_table (t_schema t)) (heap_rows (t_heap t'))).
Proof.
  intros Ht [(-> & Hv & Htick)|(row & pool & Hrows & Hid & ->)].
  { split; [by apply log_grows_same|]. by rewrite Hv. }
  split; [exact (log_grows_event _ _ _ _ _ _ (with_pool pool e))|]. intros Hrep i. rewrite Hrows.
  rewrite replay_write by (by left). rewrite find_row_app. simpl. specialize (Hrep i).
  destruct (decide (i = row_id row)) as [->|Hne].
  - rewrite lookup_insert_eq. destruct (find_row (row_id row) (heap_rows (t_heap t))) as [r|] eqn:Ef.
    + apply find_row_Some in Ef as [Hin Hr]. destruct (tok_heap _ Ht) as [[_ Hb] _].
      rewrite Forall_forall in Hb. specialize (Hb r Hin). lia.
    + by rewrite bool_decide_eq_true_2.
  - rewrite lookup_insert_ne by done. rewrite bool_decide_eq_false_2 by done.
    change (e_versions (with_pool pool e)) with (e_versions e). rewrite Hrep. by destruct (find_row i _).
Qed.

Lemma insert_rows_log n targets rows t e :
  Forall (Forall expr_ok) rows → table_ok t → Forall default_ok (schema_columns (t_schema t)) → env_ok e →
  has_table e n (schema_table (t_schema t)) (t_schema t) →
  heap_next (t_heap t) + Z.of_nat (length rows) ≤ kInvalidRowId →
  let '(_, t', e') := insert_rows clock n targets rows t e in
  log_grows (on_table n (schema_table (t_schema t))) e e' ∧
  (replays (e_versions e) n (schema_table (t_schema t)) (heap_rows (t_heap t)) →
   replays (e_versions e') n (schema_table (t_schema t)) (heap_rows (t_heap t'))).
Proof.
  intros Hrows. revert t e. induction Hrows as [|inputs rows Hin _ IH]; intros t e Ht Hd He Hst Hroom; simpl.
  { split; [by apply log_grows_same|done]. }
  simpl in Hroom. pose proof (insert_row_ok clock n targets inputs t e Hin Ht Hd He Hst ltac:(lia)) as H.
  destruct (insert_row clock n targets inputs t e) as [[r t'] e']; destruct H as (H1 & H2 & H3 & H4 & H5 & H6).
  destruct (insert_row_log n t t' e e' Ht H6) as [L1 L2]. destruct r as [[]| |]; [|done..].
  specialize (IH t' e' H1). rewrite H2 in IH. specialize (IH Hd H3 (has_table_same _ _ _ _ _ H4 Hst) ltac:(lia)).
  destruct (insert_rows clock n targets rows t' e') as [[r t''] e'']. destruct IH as [I1 I2].
  split; [by eapply log_grows_trans|auto].
Qed.

(** ** UPDATE and DELETE *)

Lemma update_row_log n schema assignments row e :
  let '(r, e') := update_row clock n schema assignments row e in
  log_grows (on_table n (schema_table schema)) e e' ∧
  ∀ row', r = Ok row' → row_id row' = row_id row →
    replay n (schema_table schema) (e_versions e') = <[row_id row := row']> (replay n (schema_table schema) (e_versions e)).
Proof.
  unfold update_row. destruct (assign_columns _ _ _) as [changed| |]; try by (split; [by apply log_grows_same|]).
  destruct (InternStringValues changed (e_pool e)) as [changed1 pool1].
  destruct (ValidateRowAgainstSchema changed1 schema pool1) as [[changed2 pool2] validation].
  destruct validation as [[]| |]; try by (split; [by apply log_grows_same|]).
  split; [exact (log_grows_event _ _ _ _ _ _ (with_pool pool2 e))|].
  intros row' [= <-] <-. by rewrite replay_write by (by right).
Qed.

Lemma update_rows_log n schema assignments w rows e :
  Forall (λ a, expr_ok (assign_value a)) assignments → Forall default_ok (schema_columns schema) →
  Forall (row_fits schema) rows → env_ok e → has_table e n (schema_table schema) schema → NoDup (map row_id rows) →
  let '(r, e') := update_rows regex_match clock n schema assignments w rows e in
  log_grows (on_table n (schema_table schema)) e e' ∧
  ∀ rows' k, r = Ok (rows', k) →
    (∀ i row, find_row i rows = Some row →
      plain_row <$> replay n (schema_table schema) (e_versions e) !! i = Some (plain_row row)) →
    ∀ i, plain_row <$> replay n (schema_table schema) (e_versions e') !! i =
      match find_row i rows' with
      | Some row' => Some (plain_row row')
      | None => plain_row <$> replay n (schema_table schema) (e_versions e) !! i
      end.
Proof.
  intros Ha Hd Hr. revert e. induction Hr as [|row rows Hrow Hr IH]; intros e He Hst Hnd; cbn [update_rows].
  { split; [by apply log_grows_same|]. by intros rows' k [= <- _]. }
  simpl in Hnd. apply NoDup_cons in Hnd as [Hfresh Hnd].
  destruct (passes regex_match w schema row) as [b| |]; try by (split; [by apply log_grows_same|]).
  assert (Hstep : let '(r, e') := if b then update_row clock n schema assignments row e else (Ok row, e) in
    (env_ok e' ∧ e_runtime e' = e_runtime e ∧ log_grows (on_table n (schema_table schema)) e e') ∧
    ∀ row', r = Ok row' → row_id row' = row_id row ∧
      (plain_row <$> replay n (schema_table schema) (e_versions e) !! row_id row = Some (plain_row row) →
       ∀ i, plain_row <$> replay n (schema_table schema) (e_versions e') !! i =
         if decide (i = row_id row) then Some (plain_row row')
         else plain_row <$> replay n (schema_table schema) (e_versions e) !! i)).
  { destruct b.
    - pose proof (update_row_log n schema assignments row e) as HL.
      pose proof (update_row_ok clock n schema assignments row e Ha Hd Hrow He Hst) as HO.
      destruct (update_row clock n schema assignments row e) as [r e'].
      destruct HL as [L1 L2], HO as (O1 & O2 & O3). split; [done|]. intros row' ->. destruct (O3 row' eq_refl) as [_ O4].
      split; [done|]. intros _ i. rewrite (L2 row' eq_refl O4), lookup_insert. case_decide; case_decide; naive_solver.
    - split; [by split_and!; [..|apply log_grows_same]|]. intros row' [= <-]. split; [done|]. intros Hrep i. by case_decide; subst. }
  destruct (if b then update_row clock n schema assignments row e else (Ok row, e)) as [[row'| |] e1];
    destruct Hstep as [(H1 & H0 & H2) H3]; try by (split; [done|]).
  destruct (H3 row' eq_refl) as [H4 H5]. pose proof (has_table_same _ _ _ _ _ H0 Hst) as Hst1. specialize (IH e1 H1 Hst1 Hnd).
  pose proof (update_rows_ok regex_match clock n schema assignments w rows e1 Ha Hd Hr H1 Hst1) as HO.
  destruct (update_rows regex_match clock n schema assignments w rows e1) as [[[rest k']| |] e2];
    destruct IH as [I1 I2]; simpl; (split; [by eapply log_grows_trans|]); try done.
  intros rows' k [= <- _] Hrep i. destruct HO as (_ & _ & HO). destruct (HO rest k' eq_refl) as [_ Hids].
  assert (Hrow0 : plain_row <$> replay n (schema_table schema) (e_versions e) !! row_id row = Some (plain_row row)).
  { apply Hrep. simpl. by rewrite bool_decide_eq_true_2. }
  specialize (H5 Hrow0). rewrite (I2 rest k' eq_refl).
  - simpl. case_bool_decide as Hi.
    + assert (find_row i rest = None) as -> by (apply find_row_None; rewrite Hids; congruence).
      rewrite H5, decide_True; [done|congruence].
    + destruct (find_row i rest); [done|]. rewrite H5, decide_False; [done|congruence].
  - intros j r0 Hj. rewrite H5. destruct (find_row_Some _ _ _ Hj) as [Hin <-]. rewrite decide_False.
    + apply Hrep. simpl. rewrite bool_decide_eq_false_2; [done|]. intros Heq. apply Hfresh. rewrite Heq. by apply list_elem_of_fmap_2.
    + intros Heq. apply Hfresh. rewrite <-Heq. by apply list_elem_of_fmap_2.
Qed.

Lemma delete_rows_log n schema w rows e :
  NoDup (map row_id rows) →
  let '(r, e') := delete_rows regex_match clock n schema w rows e in
  log_grows (on_table n (schema_table schema)) e e' ∧
  ∀ kept k, r = Ok (kept, k) → sublist kept rows ∧
    ∀ i, replay n (schema_table schema) (e_versions e') !! i =
      if decide (i ∈ map row_id rows ∧ i ∉ map row_id kept) then None
      else replay n (schema_table schema) (e_versions e) !! i.
Proof.
  revert e. induction rows as [|row rows IH]; intros e Hnd; cbn [delete_rows].
  { split; [by apply log_grows_same|]. intros kept k [= <- _]. split; [constructor|]. intros i.
    rewrite decide_False; [done|]. by intros [[]%not_elem_of_nil _]. }
  simpl in Hnd. apply NoDup_cons in Hnd as [Hfresh Hnd].
  destruct (passes regex_match w schema row) as [[|]| |]; try by (split; [by apply log_grows_same|]).
  - specialize (IH (AppendChangeEvent clock kDeleteRow n (schema_table schema) None (Some row) None e) Hnd).
    destruct (delete_rows _ _ _ _ _ _ _) as [[[kept k']| |] e2]; destruct IH as [I1 I2]; simpl;
      (split; [eapply log_grows_trans; [apply log_grows_event|exact I1]|]); try done.
    intros kept' k [= <- _]. destruct (I2 kept k' eq_refl) as [Hsub Hrep]. split; [by constructor|]. intros i.
    assert (Hout : row_id row ∉ map row_id kept).
    { intros (r & Hr & Hin)%list_elem_of_fmap. apply Hfresh. rewrite Hr. apply list_elem_of_fmap_2.
      by eapply elem_of_sublist. }
    rewrite Hrep, replay_erase, lookup_delete. destruct (decide (i = row_id row)) as [->|Hne].
    + transitivity (None : option RowData); [by case_decide; [|rewrite decide_True by done]|].
      rewrite decide_True; [done|]. split; [by left|done].
    + rewrite (decide_False (P := row_id row = i)) by done. case_decide as H1; case_decide as H2; try done; exfalso.
      * apply H2. split; [by right; apply H1|apply H1].
      * apply H1. destruct H2 as [[H2|H2]%elem_of_cons H3]; [done|by split].
  - specialize (IH e Hnd). destruct (delete_rows _ _ _ _ _ _ _) as [[[kept k']| |] e2]; destruct IH as [I1 I2]; simpl;
      (split; [done|]); try done.
    intros kept' k [= <- _]. destruct (I2 kept k' eq_refl) as [Hsub Hrep]. split; [by constructor|]. intros i. rewrite Hrep.
    simpl. case_decide as H1; case_decide as H2; try done; exfalso.
    + apply H2. destruct H1 as [H1 H3]. split; [by right|]. intros [->|H4]%elem_of_cons; [|done]. by apply Hfresh.
    + apply H1. destruct H2 as [[->|H2]%elem_of_cons H3]; [by apply not_elem_of_cons in H3 as [[]]|].
      split; [done|]. by apply not_elem_of_cons in H3 as [_ ?].
Qed.

(** A statement that replaces the rows. *)
Lemma deleted_replays vs vs' n tn rows kept :
  NoDup (map row_id rows) → sublist kept rows → replays vs n tn rows →
  (∀ i, replay n tn vs' !! i = if decide (i ∈ map row_id rows ∧ i ∉ map row_id kept) then None else replay n tn vs !! i) →
  replays vs' n tn kept.
Proof.
  intros Hnd Hsub Hrep Hd i. rewrite Hd. assert (Hkept : NoDup (map row_id kept)) by (eapply sublist_NoDup; [exact Hnd|by apply fmap_sublist]).
  case_decide as Hi.
  - destruct Hi as [_ Hi%find_row_None]. by rewrite Hi.
  - rewrite Hrep. destruct (find_row i kept) as [r|] eqn:Ef.
    + apply find_row_Some in Ef as [Hin <-]. by rewrite (find_row_In rows r Hnd) by (by eapply elem_of_sublist).
    + apply find_row_None in Ef. destruct (find_row i rows) as [r|] eqn:Er; [|done].
      exfalso. apply Hi. split; [|done]. apply find_row_Some in Er as [Hin <-]. by apply list_elem_of_fmap_2.
Qed.

(** ** REVERT *)

Lemma revert_current_log n tn target current e :
  NoDup current.*1 → (∀ i r, (i, r) ∈ current → row_id r = i) → (∀ i r, target !! i = Some r → row_id r = i) →
  let '(r, e') := revert_current clock n tn target current e in
  log_grows (on_table n tn) e e' ∧
  (r = Ok tt → (∀ i r, (i, r) ∈ current → plain_row <$> replay n tn (e_versions e) !! i = Some (plain_row r)) →
   ∀ i, plain_row <$> replay n tn (e_versions e') !! i =
     if decide (i ∈ current.*1) then plain_row <$> target !! i else plain_row <$> replay n tn (e_versions e) !! i).
Proof.
  intros Hnd Hids Htarget. revert e. induction current as [|[i row] current IH]; intros e; cbn [revert_current].
  { split; [by apply log_grows_same|]. intros _ _ i. rewrite decide_False; [done|apply not_elem_of_nil]. }
  rewrite fmap_cons in *. cbn [fst] in *. apply NoDup_cons in Hnd as [Hfresh Hnd]. specialize (IH Hnd ltac:(intros; apply Hids; by right)).
  assert (Hi : row_id row = i) by (apply Hids; by left).
  (* what the first entry does, and the rest of the loop after it *)
  assert (Hstep : ∀ e1, log_grows (on_table n tn) e e1 →
    ((∀ j r, (j, r) ∈ (i, row) :: current → plain_row <$> replay n tn (e_versions e) !! j = Some (plain_row r)) →
      (plain_row <$> replay n tn (e_versions e1) !! i = plain_row <$> target !! i) ∧
      ∀ j, j ≠ i → replay n tn (e_versions e1) !! j = replay n tn (e_versions e) !! j) →
    let '(r, e') := revert_current clock n tn target current e1 in
    log_grows (on_table n tn) e e' ∧
    (r = Ok tt → (∀ j r, (j, r) ∈ (i, row) :: current → plain_row <$> replay n tn (e_versions e) !! j = Some (plain_row r)) →
     ∀ j, plain_row <$> replay n tn (e_versions e') !! j =
       if decide (j ∈ i :: current.*1) then plain_row <$> target !! j else plain_row <$> replay n tn (e_versions e) !! j)).
  { intros e1 Hg H1. specialize (IH e1). destruct (revert_current clock n tn target current e1) as [r e'].
    destruct IH as [I1 I2]. split; [by eapply log_grows_trans|]. intros Hr Hrep j. destruct (H1 Hrep) as [Hat Hoff].
    rewrite I2; [|done|].
    - destruct (decide (j = i)) as [->|Hne].
      + rewrite decide_False by done. rewrite decide_True by (by left). done.
      + rewrite Hoff by done. case_decide as C1; case_decide as C2; try done; exfalso; [apply C2; by right|].
        apply elem_of_cons in C2 as [->|C2]; done.
    - intros j' r' Hj. rewrite Hoff; [apply Hrep; by right|]. intros ->. apply Hfresh.
      apply list_elem_of_fmap. by exists (i, r'). }
  destruct (target !! i) as [wanted|] eqn:Et.
  - destruct (RowValuesEqual row wanted) as [[|]| |] eqn:Ev; try by (split; [by apply log_grows_same|]).
    + apply Hstep; [by apply log_grows_same|]. intros Hrep. split; [|done]. rewrite (Hrep i row) by (by left). simpl.
      f_equal. apply RowValuesEqual_plain; [done|]. rewrite Hi. symmetry. by apply Htarget.
    + apply Hstep; [apply log_grows_event|]. intros Hrep. rewrite replay_write by (by right). rewrite (Htarget _ _ Et).
      split; [by rewrite lookup_insert_eq|]. intros j Hj. by rewrite lookup_insert_ne.
  - apply Hstep; [apply log_grows_event|]. intros Hrep. rewrite replay_erase, Hi.
    split; [by rewrite lookup_delete_eq|]. intros j Hj. by rewrite lookup_delete_ne.
Qed.

Lemma revert_missing_log n tn current target e :
  NoDup target.*1 → (∀ i r, (i, r) ∈ target → row_id r = i) →
  let e' := revert_missing clock n tn current target e in
  log_grows (on_table n tn) e e' ∧
  ∀ i, replay n tn (e_versions e') !! i =
    match current !! i, (list_to_map target : gmap Z RowData) !! i with
    | None, Some r => Some r
    | _, _ => replay n tn (e_versions e) !! i
    end.
Proof.
  unfold revert_missing. revert e. induction target as [|[i row] target IH]; intros e Hnd Hids; simpl.
  { split; [by apply log_grows_same|]. intros i. rewrite lookup_empty. by destruct (current !! i). }
  simpl in Hnd. apply NoDup_cons in Hnd as [Hfresh Hnd]. assert (Hi : row_id row = i) by (apply Hids; by left).
  specialize (IH (match current !! i with Some _ => e | None => AppendChangeEvent clock kInsertRow n tn None None (Some row) e end)
    Hnd ltac:(intros; apply Hids; by right)). destruct IH as [I1 I2]. split.
  - eapply log_grows_trans; [|exact I1]. destruct (current !! i); [by apply log_grows_same|apply log_grows_event].
  - intros j. rewrite I2. rewrite lookup_insert. case_decide as Hj; [subst j|].
    + apply not_elem_of_list_to_map_1 in Hfresh. rewrite Hfresh. destruct (current !! i); [done|].
      rewrite replay_write by (by left). by rewrite Hi, lookup_insert_eq.
    + assert (replay n tn (e_versions match current !! i with Some _ => e
          | None => AppendChangeEvent clock kInsertRow n tn None None (Some row) e end) !! j = replay n tn (e_versions e) !! j) as ->;
        [|done].
      destruct (current !! i); [done|]. rewrite replay_write by (by left). by rewrite lookup_insert_ne by congruence.
Qed.

(** ** Statements and the log *)

(** Every table is what its history replays to. *)
Definition history_ok (e : Env T) : Prop :=
  ∀ n d tn t, databases (e_runtime e) !! n = Some d → db_tables d !! tn = Some t →
    replays (e_versions e) n tn (heap_rows (t_heap t)).

Lemma history_step n tn e e' :
  history_ok e → log_grows (on_table n tn) e e' →
  (∀ n' d' tn' t', databases (e_runtime e') !! n' = Some d' → db_tables d' !! tn' = Some t' →
    (n' = n ∧ tn' = tn ∧ replays (e_versions e') n tn (heap_rows (t_heap t'))) ∨
    (¬ (n' = n ∧ tn' = tn) ∧ ∃ d, databases (e_runtime e) !! n' = Some d ∧ db_tables d !! tn' = Some t')) →
  history_ok e'.
Proof.
  intros He Hg Ht n' d' tn' t' Hd' Ht'. destruct (Ht n' d' tn' t' Hd' Ht') as [(-> & -> & Hr)|(Hne & d & Hd & Htd)]; [done|].
  intros i. rewrite (replay_elsewhere n tn e e') by done. by apply (He n' d).
Qed.

Lemma history_set_table n tn t' e e' e2 :
  history_ok e → log_grows (on_table n tn) e e2 → e_runtime e' = e_runtime e →
  e_runtime e2 = e_runtime (set_table n tn t' e') → replays (e_versions e2) n tn (heap_rows (t_heap t')) →
  history_ok e2.
Proof.
  intros He Hg Hrt Hrt2 Hrep. apply (history_step n tn e); [done|done|]. intros n' d' tn' u. rewrite Hrt2.
  unfold set_table. rewrite Hrt. destruct (databases (e_runtime e) !! n) as [d|] eqn:Ed; simpl.
  - rewrite lookup_insert_Some. intros [[<- <-]|[Hn Hd]]; simpl.
    + rewrite lookup_insert_Some. intros [[<- <-]|[Htn Hu]]; [by left|right]. split; [naive_solver|]. by exists d.
    + intros Hu. right. split; [naive_solver|]. exists d'. by rewrite <-Hrt.
  - rewrite Hrt. intros Hd Hu. right. split; [intros [-> _]; congruence|]. by exists d'.
Qed.

(** Events of databases. *)
Lemma replay_database_event kind n schema before after e n' tn' : kind = kCreateDatabase ∨ kind = kDropDatabase →
  replay n' tn' (e_versions (AppendChangeEvent clock kind n "" schema before after e)) = replay n' tn' (e_versions e).
Proof.
  intros Hk. destruct (decide (n' = n ∧ tn' = "")) as [[-> ->]|Hne].
  - destruct (replay_event kind n "" schema before after e) as (r & Hr & _ & _ & ->).
    unfold apply_change. rewrite Hr. by destruct Hk as [-> | ->].
  - by apply (replay_elsewhere n "" e); [apply log_grows_event|].
Qed.

Lemma resolve_table_lookup e name n t : resolve_table e name = Ok (n, t) →
  ∃ d, databases (e_runtime e) !! n = Some d ∧ db_tables d !! q_object name = Some t.
Proof.
  unfold resolve_table, find_database. destruct (ResolveDatabaseName _ _) as [m| |]; simpl; try done.
  destruct (databases (e_runtime e) !! m) as [d|] eqn:Ed; simpl; [|done].
  destruct (db_tables d !! q_object name) as [t'|] eqn:Et; [|done]. intros [= <- <-]. by exists d.
Qed.

Lemma resolve_table_named e name n t m : resolve_table e name = Ok (n, t) → q_database name = Some m → n = m.
Proof.
  unfold resolve_table, find_database. intros H Hm. rewrite Hm in H. simpl in H.
  destruct (databases (e_runtime e) !! m) as [d|]; [|done]. simpl in H.
  destruct (db_tables d !! q_object name); [by injection H|done].
Qed.

Lemma replace_rows_log n tn t rows message e e' :
  env_ok e → history_ok e → log_grows (on_table n tn) e e' → e_runtime e' = e_runtime e →
  (∀ r, (replace_rows n tn t rows message e').1 = Ok r → replays (e_versions e') n tn rows) →
  (∃ r, (replace_rows n tn t rows message e').1 = Ok r) →
  history_ok (replace_rows n tn t rows message e').2.
Proof.
  intros He Hh Hg Hrt Hrep [r Hr]. specialize (Hrep r Hr). revert Hr. unfold replace_rows in *.
  destruct (RebuildIndexes t rows) as [t'| |]; try done. intros _. simpl.
  eapply (history_set_table n tn (MkTable (t_schema t') (HeapReplaceAll rows (t_heap t')) (t_indexes t')) e e'); try done.
  - eapply log_grows_trans; [exact Hg|]. apply log_grows_same; [apply set_table_frame|].
    unfold set_table. by destruct (databases (e_runtime e') !! n).
  - destruct (set_table_frame n tn (MkTable (t_schema t') (HeapReplaceAll rows (t_heap t')) (t_indexes t')) e') as [_ ->]. done.
Qed.

(** A statement whose effects and log entries belong together: INSERT logs row
    by row; UPDATE, DELETE and REVERT log before they change the table, so they
    have to succeed. *)
Definition completes (s : Statement) (out : Outcome QueryResult) : Prop :=
  match s with
  | UpdateStatement _ _ _ | DeleteStatement _ _ | RevertStatement _ _ _ => ∃ r, out = Ok r
  | _ => True
  end.

Lemma table_ids (t : TableRuntime T) : table_ok t → NoDup (map row_id (heap_rows (t_heap t))).
Proof. intros [[Hids _] _ _ _ _]. by eapply ids_below_NoDup. Qed.

Lemma update_history name assignments w e :
  env_ok e → history_ok e → Forall (λ a, expr_ok (assign_value a)) assignments →
  (∃ r, (ExecuteUpdate regex_match clock name assignments w e).1 = Ok r) →
  history_ok (ExecuteUpdate regex_match clock name assignments w e).2.
Proof.
  intros He Hh Ha. unfold ExecuteUpdate. destruct (resolve_table e name) as [[n t]| |] eqn:Er; try (by intros [r [=]]).
  destruct (resolve_table_inv e name n t He Er) as [Ht Hd Hn Htn Hix].
  destruct (resolve_table_lookup e name n t Er) as (d & Hdb & Htb). pose proof (Hh n d _ t Hdb Htb) as Hrep.
  pose proof (resolve_table_has e name n t Er) as Hst. rewrite <-Htn in Hst.
  pose proof (update_rows_log n (t_schema t) assignments w (ScanAll (t_heap t)) e Ha Hd (table_rows_fit _ Ht) He Hst (table_ids t Ht)) as HL.
  pose proof (update_rows_ok regex_match clock n (t_schema t) assignments w (ScanAll (t_heap t)) e Ha Hd (table_rows_fit _ Ht) He Hst) as HO.
  destruct (update_rows _ _ _ _ _ _ _ _) as [[[rows k]| |] e']; destruct HL as [L1 L2], HO as (_ & O1 & O2);
    try (by intros [r [=]]).
  rewrite Htn in L1, L2. apply (replace_rows_log n _ t rows _ e e'); try done. intros _ _ i.
  rewrite (L2 rows k eq_refl).
  - destruct (O2 rows k eq_refl) as [_ Hids]. destruct (find_row i rows) eqn:Ef; [done|].
    rewrite Hrep. apply find_row_None in Ef. rewrite Hids in Ef. apply find_row_None in Ef. unfold ScanAll in Ef. by rewrite Ef.
  - intros j row Hj. rewrite Hrep. unfold ScanAll in Hj. by rewrite Hj.
Qed.

Lemma delete_history name w e :
  env_ok e → history_ok e → (∃ r, (ExecuteDelete regex_match clock name w e).1 = Ok r) →
  history_ok (ExecuteDelete regex_match clock name w e).2.
Proof.
  intros He Hh. unfold ExecuteDelete. destruct (resolve_table e name) as [[n t]| |] eqn:Er; try (by intros [r [=]]).
  destruct (resolve_table_inv e name n t He Er) as [Ht Hd Hn Htn Hix].
  destruct (resolve_table_lookup e name n t Er) as (d & Hdb & Htb). pose proof (Hh n d _ t Hdb Htb) as Hrep.
  pose proof (delete_rows_log n (t_schema t) w (ScanAll (t_heap t)) e (table_ids t Ht)) as HL.
  pose proof (delete_rows_ok regex_match clock n (t_schema t) w (ScanAll (t_heap t)) e (tok_rows _ Ht) He) as HO.
  destruct (delete_rows _ _ _ _ _ _ _) as [[[rows k]| |] e']; destruct HL as [L1 L2], HO as (_ & O1 & O2);
    try (by intros [r [=]]).
  rewrite Htn in L1, L2. apply (replace_rows_log n _ t rows _ e e'); try done. intros _ _.
  destruct (L2 rows k eq_refl) as [Hsub Hdel]. by eapply deleted_replays; [apply (table_ids t Ht)|..].
Qed.

Lemma rows_by_id_ids rows i r : rows_by_id rows !! i = Some r → row_id r = i.
Proof. rewrite lookup_rows_by_id. by intros [_ ?]%find_row_Some. Qed.

(** The events of a REVERT turn the history of the rows into that of the target. *)
Lemma revert_events_log n tn rows target e r e1 :
  replays (e_versions e) n tn rows →
  revert_current clock n tn (rows_by_id target) (map_to_list (rows_by_id rows)) e = (r, e1) →
  log_grows (on_table n tn) e e1 ∧
  (r = Ok tt →
   let e2 := revert_missing clock n tn (rows_by_id rows) (map_to_list (rows_by_id target)) e1 in
   log_grows (on_table n tn) e e2 ∧ replays (e_versions e2) n tn target).
Proof.
  intros Hrep Er.
  assert (Hl : ∀ l i r, (i, r) ∈ map_to_list (rows_by_id l) → row_id r = i).
  { intros l i r0 Hin%elem_of_map_to_list. by eapply rows_by_id_ids. }
  pose proof (revert_current_log n tn (rows_by_id target) (map_to_list (rows_by_id rows)) e
    (NoDup_fst_map_to_list _) (Hl rows) (rows_by_id_ids target)) as HC. rewrite Er in HC. destruct HC as [C1 C2].
  split; [done|]. intros -> e2.
  destruct (revert_missing_log n tn (rows_by_id rows) (map_to_list (rows_by_id target)) e1
    (NoDup_fst_map_to_list _) (Hl target)) as [M1 M2]. split; [by eapply log_grows_trans|].
  intros i. unfold e2. rewrite M2, list_to_map_to_list.
  assert (Hcur : plain_row <$> replay n tn (e_versions e1) !! i =
    match rows_by_id rows !! i with Some _ => plain_row <$> rows_by_id target !! i | None => None end).
  { rewrite C2; [|done|].
    - destruct (rows_by_id rows !! i) as [r0|] eqn:Ei.
      + rewrite decide_True; [done|]. apply list_elem_of_fmap. exists (i, r0). split; [done|]. by apply elem_of_map_to_list.
      + rewrite decide_False; [rewrite Hrep, <-lookup_rows_by_id; by rewrite Ei|].
        intros ([j r0] & -> & Hin%elem_of_map_to_list)%list_elem_of_fmap. simpl in *. congruence.
    - intros j r0 Hin%elem_of_map_to_list. rewrite Hrep, <-lookup_rows_by_id. by rewrite Hin. }
  rewrite <-(lookup_rows_by_id i target). destruct (rows_by_id rows !! i); [done|].
  by destruct (rows_by_id target !! i).
Qed.

Lemma revert_history name timestamp mode e :
  env_ok e → history_ok e → (∃ r, (ExecuteRevert clock name timestamp mode e).1 = Ok r) →
  history_ok (ExecuteRevert clock name timestamp mode e).2.
Proof.
  intros He Hh. unfold ExecuteRevert.
  destruct (resolve_table e name) as [[n t]| |] eqn:Er; simpl; try (by intros [r [=]]).
  destruct (revert_target n name timestamp mode (e_versions e)) as [ts| |]; simpl; try (by intros [r [=]]).
  destruct (forallb _ _); simpl; [|by intros [r [=]]]. set (target := ReconstructTableStateAt _ _ _ _).
  destruct (resolve_table_inv e name n t He Er) as [Ht Hd Hn Htn Hix]. rewrite Htn.
  destruct (resolve_table_lookup e name n t Er) as (d & Hdb & Htb). pose proof (Hh n d _ t Hdb Htb) as Hrep.
  pose proof (revert_current_frame clock n (q_object name) (rows_by_id target)
    (map_to_list (rows_by_id (ScanAll (t_heap t)))) e) as [_ F1].
  destruct (revert_current _ _ _ _ _ _) as [r e1] eqn:Ec.
  destruct (revert_events_log n _ _ target e r e1 Hrep Ec) as [L1 L2]. destruct r as [[]| |]; try (by intros [r [=]]).
  destruct (L2 eq_refl) as [L3 L4].
  pose proof (revert_missing_frame clock n (q_object name) (rows_by_id (ScanAll (t_heap t)))
    (map_to_list (rows_by_id target)) e1) as [_ F2].
  apply (replace_rows_log n _ t target _ e); try done. simpl in F1. congruence.
Qed.

(** ** Every statement *)

Lemma rebuild_history e : env_ok e → history_ok e → history_ok (with_runtime (RebuildRuntimeIndexes (e_runtime e)).1 e).
Proof.
  intros He Hh. destruct (rebuild_runtime (e_runtime e)) as (s' & -> & _ & Heq).
  { intros n d Hd tn t Ht. apply table_ok_rebuildable. by apply (eo_tables _ He n d tn t). }
  intros n d' tn t' Hd' Ht'. simpl in *. specialize (Heq n). rewrite Hd' in Heq. inversion Heq as [d d0 [_ Hde] Hd Hd0|]; subst.
  specialize (Hde tn). rewrite Ht' in Hde. inversion Hde as [t t0 [_ Hheap] Ht Ht0|]; subst. rewrite Hheap. by apply (Hh n d).
Qed.

Lemma create_table_history name columns e : history_ok e → history_ok (ExecuteCreateTable clock name columns e).2.
Proof.
  intros Hh. unfold ExecuteCreateTable. destruct (find_database e (q_database name)) as [[n d]| |]; try done.
  destruct (db_tables d !! q_object name); [done|]. destruct (build_columns _ _ _) as [[cs defs] pool].
  set (schema := MkSchema n (q_object name) cs defs).
  set (t' := MkTable schema (NewTableHeap schema) (new_indexes schema)).
  set (e1 := set_table n (q_object name) t' (with_pool pool e)).
  set (e2 := AppendChangeEvent clock kCreateTable n (q_object name) (Some schema) None None e1).
  assert (He1 : e_versions e1 = e_versions e ∧ e_tick e1 = e_tick e).
  { unfold e1, set_table. by destruct (databases _ !! n). }
  apply (history_set_table n (q_object name) t' e (with_pool pool e)); try done.
  - eapply log_grows_trans; [|exact (log_grows_event kCreateTable n (q_object name) (Some schema) None None e1)].
    apply log_grows_same; apply He1.
  - intros i. change (e_versions _) with (e_versions e2). unfold e2.
    destruct (replay_event kCreateTable n (q_object name) (Some schema) None None e1) as (r & Hr & _ & _ & ->).
    unfold apply_change. rewrite Hr. by rewrite lookup_empty.
Qed.

Lemma drop_table_history name e : history_ok e → history_ok (ExecuteDropTable clock name e).2.
Proof.
  intros Hh. unfold ExecuteDropTable. destruct (find_database e (q_database name)) as [[n d]| |] eqn:Ef; try done.
  destruct (db_tables d !! q_object name) as [t|]; [|done].
  unfold find_database in Ef. destruct (ResolveDatabaseName _ _) as [m| |]; try done. simpl in Ef.
  destruct (databases (e_runtime e) !! m) as [d0|] eqn:Em; [|done]. injection Ef as -> ->.
  apply (history_step n (q_object name) e); [done| |].
  - apply (log_grows_event kDropTable n (q_object name) (Some (t_schema t)) None None (set_database n (MkDatabase (db_name d) (delete (q_object name) (db_tables d))) e)).
  - intros n' d' tn' t'. simpl. rewrite lookup_insert_Some. intros [[<- <-]|[Hn Hd]]; simpl.
    + rewrite lookup_delete_Some. intros [Htn Ht']. right. split; [naive_solver|]. by exists d.
    + intros Ht'. right. split; [naive_solver|]. by exists d'.
Qed.

Lemma insert_history name columns rows e :
  env_ok e → history_ok e → statement_ok e (InsertStatement name columns rows) →
  history_ok (ExecuteInsert clock name columns rows e).2.
Proof.
  intros He Hh [Hs Hroom]. unfold ExecuteInsert. destruct (resolve_table e name) as [[n t]| |] eqn:Er; try done.
  destruct (resolve_table_inv e name n t He Er) as [Ht Hd Hn Htn Hix].
  destruct (resolve_table_lookup e name n t Er) as (d & Hdb & Htb). pose proof (Hh n d _ t Hdb Htb) as Hrep.
  destruct (input_columns _ _) as [targets| |]; try done.
  pose proof (resolve_table_has e name n t Er) as Hst. rewrite <-Htn in Hst.
  pose proof (insert_rows_ok clock n targets rows t e Hs Ht Hd He Hst (Hroom n t eq_refl)) as HO.
  pose proof (insert_rows_log n targets rows t e Hs Ht Hd He Hst (Hroom n t eq_refl)) as HL.
  destruct (insert_rows clock n targets rows t e) as [[r t'] e']. destruct HO as (_ & _ & _ & O4), HL as [L1 L2].
  rewrite Htn in L1, L2. simpl. destruct (set_table_frame n (q_object name) t' e') as [_ Hv].
  eapply (history_set_table n (q_object name) t' e e'); try done.
  - eapply log_grows_trans; [exact L1|]. apply log_grows_same; [done|]. unfold set_table. by destruct (databases (e_runtime e') !! n).
  - rewrite Hv. by apply L2.
Qed.

Lemma execute_history s detail e :
  env_ok e → statement_ok e s → history_ok e → completes s (Execute regex_match clock s detail e).1 →
  history_ok (Execute regex_match clock s detail e).2.
Proof.
  intros He Hs Hh Hc. destruct s; try done; simpl in *.
  - unfold ExecuteCreateDatabase. destruct (databases (e_runtime e) !! database_name) eqn:E; [done|].
    intros n d tn t Hd Ht i. cbn [snd]. rewrite replay_database_event by (by left). simpl in Hd.
    apply lookup_insert_Some in Hd as [[<- <-]|[_ Hd]]; [simpl in Ht; by rewrite lookup_empty in Ht|by apply (Hh n d)].
  - unfold ExecuteDropDatabase. destruct (databases (e_runtime e) !! database_name) as [d0|] eqn:E; [|done].
    intros n d tn t Hd Ht i. cbn [snd]. rewrite replay_database_event by (by right).
    destruct (String.eqb _ _); simpl in *; apply lookup_delete_Some in Hd as [_ Hd]; by apply (Hh n d).
  - unfold ExecuteUseDatabase. by destruct (databases (e_runtime e) !! database_name).
  - by apply create_table_history.
  - by apply drop_table_history.
  - by apply insert_history.
  - by apply update_history.
  - by apply delete_history.
  - by apply revert_history.
  - pose proof (rebuild_history e He Hh) as Hr. by destruct (RebuildRuntimeIndexes (e_runtime e)) as [s' v].
Qed.

(** ** The log only grows *)

Definition any_record (r : ChangeRecord) : Prop := True.

Lemma log_grows_any P e e' : log_grows P e e' → log_grows any_record e e'.
Proof. by apply log_grows_impl. Qed.

Lemma set_table_log P n tn t e e' : log_grows P e e' → log_grows P e (set_table n tn t e').
Proof.
  intros H. eapply log_grows_trans; [exact H|]. unfold set_table.
  destruct (databases (e_runtime e') !! n); by apply log_grows_same.
Qed.

Lemma replace_rows_grows P n tn t rows message e e' :
  log_grows P e e' → log_grows P e (replace_rows n tn t rows message e').2.
Proof. intros H. unfold replace_rows. destruct (RebuildIndexes t rows); try done. by apply set_table_log. Qed.

Lemma revert_log name timestamp mode e :
  env_ok e → log_grows any_record e (ExecuteRevert clock name timestamp mode e).2.
Proof.
  intros He. unfold ExecuteRevert. destruct (resolve_table e name) as [[n t]| |]; simpl; try by apply log_grows_same.
  destruct (revert_target _ _ _ _ _) as [ts| |]; simpl; try by apply log_grows_same.
  destruct (forallb _ _); simpl; [|by apply log_grows_same]. set (target := ReconstructTableStateAt _ _ _ _).
  assert (Hl : ∀ l i r, (i, r) ∈ map_to_list (rows_by_id l) → row_id r = i).
  { intros l i r0 Hin%elem_of_map_to_list. by eapply rows_by_id_ids. }
  pose proof (revert_current_log n (schema_table (t_schema t)) (rows_by_id target) (map_to_list (rows_by_id (ScanAll (t_heap t)))) e
    (NoDup_fst_map_to_list _) (Hl _) (rows_by_id_ids target)) as HC.
  destruct (revert_current _ _ _ _ _ _) as [[[]| |] e1]; destruct HC as [C1 _]; try by eapply log_grows_any.
  apply replace_rows_grows. eapply log_grows_trans; [by eapply log_grows_any|]. eapply log_grows_any.
  apply revert_missing_log; [apply NoDup_fst_map_to_list|apply Hl].
Qed.

Lemma execute_log s detail e :
  env_ok e → statement_ok e s → log_grows any_record e (Execute regex_match clock s detail e).2.
Proof.
  intros He Hs. destruct s; simpl; try by apply log_grows_same.
  - unfold ExecuteCreateDatabase. destruct (databases (e_runtime e) !! database_name); [by apply log_grows_same|].
    eapply log_grows_any. apply (log_grows_event kCreateDatabase database_name "" None None None
      (set_database database_name (MkDatabase database_name ∅) (with_catalog (CreateDatabase database_name (e_catalog e)) e))).
  - unfold ExecuteDropDatabase. destruct (databases (e_runtime e) !! database_name); [|by apply log_grows_same].
    eapply log_grows_any, log_grows_trans; [|apply log_grows_event]. by destruct (String.eqb _ _); apply log_grows_same.
  - unfold ExecuteUseDatabase. destruct (databases (e_runtime e) !! database_name); by apply log_grows_same.
  - unfold ExecuteCreateTable. destruct (find_database _ _) as [[n d]| |]; try by apply log_grows_same.
    destruct (db_tables d !! _); [by apply log_grows_same|]. destruct (build_columns _ _ _) as [[cs defs] pool].
    set (schema := MkSchema _ _ _ _). set (e1 := set_table _ _ _ _).
    eapply log_grows_any, log_grows_trans;
      [|exact (log_grows_event kCreateTable n (q_object table_name) (Some schema) None None e1)].
    apply set_table_log. by apply log_grows_same.
  - unfold ExecuteDropTable. destruct (find_database _ _) as [[n d]| |]; try by apply log_grows_same.
    destruct (db_tables d !! _) as [t|]; [|by apply log_grows_same]. eapply log_grows_any.
    apply (log_grows_event kDropTable n (q_object table_name) (Some (t_schema t)) None None
      (set_database n (MkDatabase (db_name d) (delete (q_object table_name) (db_tables d))) e)).
  - unfold ExecuteInsert. destruct Hs as [Hs Hroom].
    destruct (resolve_table e table_name) as [[n t]| |] eqn:Er; try by apply log_grows_same.
    destruct (resolve_table_inv e table_name n t He Er) as [Ht Hd Hn Htn Hix].
    destruct (input_columns _ _) as [targets| |]; try by apply log_grows_same.
    pose proof (resolve_table_has e table_name n t Er) as Hst. rewrite <-Htn in Hst.
    pose proof (insert_rows_log n targets rows t e Hs Ht Hd He Hst (Hroom n t eq_refl)) as H.
    destruct (insert_rows clock n targets rows t e) as [[r t'] e']. destruct H as [H _].
    apply set_table_log. by eapply log_grows_any.
  - unfold ExecuteUpdate. destruct (resolve_table e table_name) as [[n t]| |] eqn:Er; try by apply log_grows_same.
    destruct (resolve_table_inv e table_name n t He Er) as [Ht Hd Hn Htn Hix].
    pose proof (resolve_table_has e table_name n t Er) as Hst. rewrite <-Htn in Hst.
    pose proof (update_rows_log n (t_schema t) assignments where_ (ScanAll (t_heap t)) e Hs Hd (table_rows_fit _ Ht) He Hst (table_ids t Ht)) as HL.
    destruct (update_rows _ _ _ _ _ _ _ _) as [[[rows k]| |] e']; destruct HL as [L1 _]; try by eapply log_grows_any.
    apply replace_rows_grows. by eapply log_grows_any.
  - unfold ExecuteDelete. destruct (resolve_table e table_name) as [[n t]| |] eqn:Er; try by apply log_grows_same.
    destruct (resolve_table_inv e table_name n t He Er) as [Ht Hd Hn Htn Hix].
    pose proof (delete_rows_log n (t_schema t) where_ (ScanAll (t_heap t)) e (table_ids t Ht)) as HL.
    destruct (delete_rows _ _ _ _ _ _ _) as [[[rows k]| |] e']; destruct HL as [L1 _]; try by eapply log_grows_any.
    apply replace_rows_grows. by eapply log_grows_any.
  - by apply revert_log.
  - destruct (RebuildRuntimeIndexes (e_runtime e)). by apply log_grows_same.
Qed.

(** ** Runs *)

(** One step of a run: another session takes over, or a statement executes. *)
Inductive step (e : Env T) : Env T → Prop :=
| step_session ses : step e (with_session ses e)
| step_statement s detail : statement_ok e s → step e (Execute regex_match clock s detail e).2.

(** Runs from the start in which UPDATE, DELETE and REVERT succeeded. *)
Inductive completed : Env T → Prop :=
| completed_start ses : completed (initial_env ses)
| completed_session ses e : completed e → completed (with_session ses e)
| completed_statement s detail e :
    completed e → statement_ok e s → completes s (Execute regex_match clock s detail e).1 →
    completed (Execute regex_match clock s detail e).2.

(** The log was stamped by the clock readings so far. *)
Definition stamped (e : Env T) : Prop :=
  ∀ r, r ∈ e_versions e → ∃ k, (k < e_tick e)%nat ∧ ch_timestamp r = GenerateTimestamp (clock k).

(** The records that were appended carry later readings. *)
Lemma log_grows_stamps P e e' : log_grows P e e' → ∃ more, e_versions e' = e_versions e ++ more ∧
  ∀ r, r ∈ more → ∃ k, (e_tick e ≤ k < e_tick e')%nat ∧ ch_timestamp r = GenerateTimestamp (clock k).
Proof.
  intros (more & Hv & _ & Ht & Hs). exists more. split; [done|]. intros r Hr.
  assert (Hin : ch_timestamp r ∈ map ch_timestamp more) by (by apply list_elem_of_fmap_2). rewrite Hs in Hin.
  apply list_elem_of_fmap in Hin as (k & Hk & Hin). apply elem_of_seq in Hin. exists k. split; [lia|done].
Qed.

Lemma log_grows_stamped P e e' : log_grows P e e' → stamped e → stamped e'.
Proof.
  intros Hg He r. pose proof Hg as (more' & _ & _ & Ht & _). destruct (log_grows_stamps _ _ _ Hg) as (more & -> & Hm).
  intros [Hr|Hr]%elem_of_app.
  - destruct (He r Hr) as (k & Hk & Hs). exists k. split; [lia|done].
  - destruct (Hm r Hr) as (k & Hk & Hs). exists k. split; [lia|done].
Qed.

Lemma completed_inv e : completed e → env_ok e ∧ history_ok e ∧ stamped e.
Proof.
  induction 1 as [ses|ses e _ IH|s detail e _ (IH1 & IH2 & IH3) Hs Hc].
  - split_and!; [apply initial_env_ok| |].
    + intros n d tn t. simpl. by rewrite lookup_empty.
    + intros r. simpl. by intros []%not_elem_of_nil.
  - destruct IH as (IH1 & IH2 & IH3). split_and!; [by apply (env_ok_same e)|done|done].
  - split_and!; [by apply execute_env_ok|by apply execute_history|].
    eapply log_grows_stamped; [by apply execute_log|done].
Qed.

Lemma steps_inv e e' : rtc step e e' → env_ok e → env_ok e' ∧ log_grows any_record e e'.
Proof.
  induction 1 as [e|e1 e2 e3 Hstep _ IH]; intros He; [split; [done|by apply log_grows_same]|].
  assert (env_ok e2 ∧ log_grows any_record e1 e2) as [H2 Hg].
  { destruct Hstep as [ses|s detail Hs]; [split; [by apply (env_ok_same e1)|by apply log_grows_same]|].
    split; [by apply execute_env_ok|by apply execute_log]. }
  destruct (IH H2) as [H3 Hg']. split; [done|by eapply log_grows_trans].
Qed.

Lemma run_steps ss e : statements_ok regex_match clock ss e → rtc step e (run_statements regex_match clock ss e).
Proof.
  revert e. induction ss as [|s ss IH]; intros e Hss; [apply rtc_refl|]. destruct Hss as [Hs Hss].
  eapply rtc_l; [by apply (step_statement e s "")|by apply IH].
Qed.

(** C4: the log is complete: as long as every UPDATE, DELETE and REVERT
    succeeded, replaying the whole history of any table gives exactly its rows.
    The run is of statements as in the theorem about consistency: row ids do
    not run out, and a REVERT is of a table that was never created with other
    columns. *)
Theorem history_replays_tables e n d tn t :
  completed e → databases (e_runtime e) !! n = Some d → db_tables d !! tn = Some t →
  ∀ i, plain_row <$> replay n tn (e_versions e) !! i = plain_row <$> FindByRowId i (t_heap t).
Proof. intros (_ & Hh & _)%completed_inv Hd Ht. by apply (Hh n d). Qed.

(** ** REVERT *)

(** A time between the last record of [vs] and the first of [more] selects [vs]. *)
Lemma reconstruct_prefix n tn vs more ts :
  (∀ r, r ∈ vs → sle (ch_timestamp r) ts) → (∀ r, r ∈ more → slt ts (ch_timestamp r)) →
  ReconstructTableStateAt (vs ++ more) n tn ts = sort_by_id (map snd (map_to_list (replay n tn vs))).
Proof.
  intros Hvs Hmore. unfold ReconstructTableStateAt. f_equal. f_equal. f_equal. rewrite HistoryForTable_app. unfold replay. f_equal.
  rewrite filter_app. transitivity (HistoryForTable n tn vs ++ []); [|apply app_nil_r]. f_equal.
  - assert (HF : Forall (λ r, (ts <s ch_timestamp r) = false) (HistoryForTable n tn vs)).
    { apply Forall_forall. intros r [_ Hr]%list_elem_of_filter. by apply str_ltb_false, Hvs. }
    induction HF as [|r l Hr _ IH]; [done|]. rewrite filter_cons_True by done. by f_equal.
  - assert (HF : Forall (λ r, (ts <s ch_timestamp r) = true) (HistoryForTable n tn more)).
    { apply Forall_forall. intros r [_ Hr]%list_elem_of_filter. by apply str_ltb_true, Hmore. }
    induction HF as [|r l Hr _ IH]; [done|]. rewrite filter_cons_False; [done|]. by rewrite Hr.
Qed.

(** The timestamp REVERT settles on selects the same records. *)
Lemma reconstruct_settled n tn vs ts x :
  LatestTimestampAtOrBefore n tn ts vs = Some x → ReconstructTableStateAt vs n tn x = ReconstructTableStateAt vs n tn ts.
Proof.
  intros Hx. pose proof (best_loop_spec n tn ts None vs ltac:(done)) as H. unfold LatestTimestampAtOrBefore in Hx.
  rewrite Hx in H. destruct H as (H1 & _ & H2). unfold ReconstructTableStateAt. f_equal. f_equal. f_equal. f_equal.
  assert (HF : Forall (λ r, (x <s ch_timestamp r) = (ts <s ch_timestamp r)) (HistoryForTable n tn vs)).
  { apply Forall_forall. intros r [Ho Hr]%list_elem_of_filter. specialize (H2 r Hr Ho).
    destruct (str_ltb_spec ts (ch_timestamp r)) as [Hlt|Hle].
    - apply str_ltb_true. sorder.
    - apply str_ltb_false. auto. }
  induction HF as [|r l Hr _ IH]; [done|]. destruct (ts <s ch_timestamp r) eqn:E.
  - rewrite !filter_cons_False; [done|rewrite E; done|rewrite Hr; done].
  - rewrite !filter_cons_True by congruence. by f_equal.
Qed.

Lemma reconstructed_rows n tn vs rows :
  StronglySorted id_lt rows → replays vs n tn rows →
  map plain_row (sort_by_id (map snd (map_to_list (replay n tn vs)))) = map plain_row rows.
Proof.
  intros Hs Hrep. set (l := map snd (map_to_list (replay n tn vs))).
  assert (Hids : map row_id l = (map_to_list (replay n tn vs)).*1).
  { unfold l. rewrite map_map. apply list_fmap_ext. intros k [i r] Hk. simpl.
    apply list_elem_of_lookup_2, elem_of_map_to_list in Hk. by eapply replay_ids. }
  assert (Hnd : NoDup (map row_id l)) by (rewrite Hids; apply NoDup_fst_map_to_list).
  apply sorted_rows_unique; [by apply sort_by_id_sorted|done|]. intros i. rewrite <-Hrep.
  assert (Hnd' : NoDup (map row_id (sort_by_id l))) by (by rewrite sort_by_id_perm).
  f_equal. destruct (replay n tn vs !! i) as [r|] eqn:Er.
  - pose proof (replay_ids _ _ _ _ _ Er) as <-. apply find_row_In; [done|]. rewrite sort_by_id_perm.
    apply list_elem_of_fmap. exists (row_id r, r). split; [done|]. by apply elem_of_map_to_list.
  - apply find_row_None. rewrite sort_by_id_perm, Hids. intros ([j r] & -> & Hin%elem_of_map_to_list)%list_elem_of_fmap.
    simpl in *. congruence.
Qed.

Lemma heap_sorted (t : TableRuntime T) : table_ok t → StronglySorted id_lt (heap_rows (t_heap t)).
Proof.
  intros [[[Hs _] _] _ _ _ _]. revert Hs. generalize (heap_rows (t_heap t)). induction l as [|r l IH]; simpl; [constructor|].
  intros [H1 H2]%StronglySorted_inv. constructor; [by apply IH|]. exact (proj1 (Forall_fmap row_id _ _) H2).
Qed.

Lemma replace_rows_table n tn t rows message e r :
  is_Some (databases (e_runtime e) !! n) → (replace_rows n tn t rows message e).1 = Ok r →
  ∃ d' t', databases (e_runtime (replace_rows n tn t rows message e).2) !! n = Some d' ∧ db_tables d' !! tn = Some t' ∧
    heap_rows (t_heap t') = rows.
Proof.
  intros [d Hd]. unfold replace_rows. destruct (RebuildIndexes t rows) as [t'| |]; try done. intros _. simpl.
  unfold set_table. rewrite Hd. simpl. rewrite lookup_insert_eq. do 2 eexists. split; [done|]. simpl. by rewrite lookup_insert_eq.
Qed.

(** C3: REVERT restores the past.  Take any state that a run reached in which
    every UPDATE, DELETE and REVERT so far succeeded (a failed one leaves its
    events in the log), and any later run, whose statements may fail.  In both
    runs row ids do not run out, and a REVERT is of a table that was never
    created with other columns.  A REVERT that succeeds, to a time at or after
    the last event of the first state and before the first event of the later
    run, gives the table exactly the rows it had in the first state, also when
    it was changed, emptied, or dropped and created again in between. *)
Theorem revert_restores_past e1 e2 n d1 tn t1 timestamp detail res e3 :
  completed e1 → rtc step e1 e2 →
  databases (e_runtime e1) !! n = Some d1 → db_tables d1 !! tn = Some t1 →
  (∀ k, (k < e_tick e1)%nat → sle (GenerateTimestamp (clock k)) timestamp) →
  (∀ k, (e_tick e1 ≤ k < e_tick e2)%nat → slt timestamp (GenerateTimestamp (clock k))) →
  Execute regex_match clock (RevertStatement (MkQName (Some n) tn) timestamp kAtOrBefore) detail e2 = (Ok res, e3) →
  ∃ d3 t3, databases (e_runtime e3) !! n = Some d3 ∧ db_tables d3 !! tn = Some t3 ∧
    map plain_row (ScanAll (t_heap t3)) = map plain_row (ScanAll (t_heap t1)).
Proof.
  intros Hc Hsteps Hd1 Ht1 Hbefore Hafter. destruct (completed_inv e1 Hc) as (He1 & Hh1 & Hst1).
  destruct (steps_inv e1 e2 Hsteps He1) as [He2 Hg]. destruct (log_grows_stamps _ _ _ Hg) as (more & Hv & Hmore).
  simpl. unfold ExecuteRevert. destruct (resolve_table e2 _) as [[n2 t2]| |] eqn:Er; simpl; try done.
  destruct (resolve_table_lookup e2 _ n2 t2 Er) as (d2 & Hd2 & Ht2).
  assert (n2 = n) as -> by (by apply (resolve_table_named e2 (MkQName (Some n) tn) n2 t2)).
  unfold revert_target. destruct (timestamp_pattern timestamp); simpl; [|done].
  destruct (LatestTimestampAtOrBefore n tn timestamp (e_versions e2)) as [x|] eqn:Ex; simpl; [|done].
  rewrite (reconstruct_settled _ _ _ _ _ Ex). rewrite Hv, (reconstruct_prefix n tn (e_versions e1) more).
  2: { intros r Hr. destruct (Hst1 r Hr) as (k & Hk & ->). by apply Hbefore. }
  2: { intros r Hr. destruct (Hmore r Hr) as (k & Hk & ->). by apply Hafter. }
  set (target := sort_by_id _). destruct (forallb _ _); simpl; [|done].
  pose proof (revert_current_frame clock n (schema_table (t_schema t2)) (rows_by_id target)
    (map_to_list (rows_by_id (ScanAll (t_heap t2)))) e2) as [_ F1].
  destruct (revert_current _ _ _ _ _ _) as [[[]| |] e']; try done. set (e'' := revert_missing _ _ _ _ _ _).
  assert (F2 : e_runtime e'' = e_runtime e').
  { apply (revert_missing_frame clock n (schema_table (t_schema t2))). }
  intros Hrun. change (replace_rows n tn t2 target ("reverted to " +:+ x) e'' = (Ok res, e3)) in Hrun.
  destruct (replace_rows_table n tn t2 target ("reverted to " +:+ x) e'' res) as (d3 & t3 & Hd3 & Ht3 & Hrows).
  { rewrite F2. simpl in F1. rewrite F1. by exists d2. }
  { by rewrite Hrun. }
  rewrite Hrun in Hd3. exists d3, t3. split_and!; [done|done|]. unfold ScanAll. rewrite Hrows.
  apply reconstructed_rows; [|by apply (Hh1 n d1)]. apply heap_sorted. by apply (eo_tables _ He1 n d1 tn t1).
Qed.

End history.
