(* ===== verification/Samples.v ===== *)
(** * Samples: a small database on the B*+ tree, and witnesses

    The theorems about the runtime state, the executor and queries are proved
    for any index that keeps the laws of [IndexSpec]; here they are applied to
    the tree of the source on a table with an indexed integer column, an
    indexed string column and a nullable one. *)
From S2P Require Import Prelude Numerals CommonTypes Storage BStarPlusTree IndexSpec BStarPlusTreeSpec.
From S2P Require Import RuntimeState RuntimeFacts Ast VersionStore Predicates Execution ChangeLog.
From S2P Require Import ExecutionFacts.
From S2P Require Import QueryFacts History.

Open Scope Z_scope.

(** ** The sample *)

(** Patterns without metacharacters match by equality. *)
Definition literal_regex (pattern text : string) : Outcome bool := Ok (String.eqb pattern text).

(** A clock that advances by a second per event. *)
Definition sample_clock (n : nat) : Tm := MkTm 2025 1 1 0 (Z.of_nat n / 60) (Z.of_nat n mod 60) 0.

Definition sample_session : SessionContext := MkSession "c1" None "".

Definition users : QualifiedName := MkQName None "users".

Definition user_columns : list ColumnSpec :=
  [MkColumnSpec "id" kInt64 false true None; MkColumnSpec "name" kString false true None;
   MkColumnSpec "age" kInt64 false false (Some (VInt 18))].

Definition user_row (id : Z) (name : string) (age : Value) : list Expression :=
  [LiteralExpression (VInt id); LiteralExpression (VStr name); LiteralExpression age].

Definition create_users : list Statement :=
  [CreateDatabaseStatement "shop"; UseDatabaseStatement "shop"; CreateTableStatement users user_columns].

Definition insert_users (rows : list (list Expression)) : Statement :=
  InsertStatement users ["id"; "name"; "age"] rows.

Definition three_users : Statement :=
  insert_users [user_row 7 "bob" (VInt 30); user_row (-2) "ann" VNull; user_row 11 "cy" (VInt 41)].

Definition run_sample (ss : list Statement) : Env BStarPlusTree :=
  run_statements literal_regex sample_clock ss (initial_env sample_session).

Definition sample_env : Env BStarPlusTree := run_sample (create_users ++ [three_users]).

(** Solves [statement_ok] of concrete statements in a concrete environment. *)
Ltac machine_literals := repeat constructor; vm_compute; discriminate.

Ltac concrete_statement :=
  hnf;
  lazymatch goal with
  | |- True => exact I
  | |- Forall _ _ ∧ (∀ _ _, _) =>
      split; [machine_literals
             |let H := fresh in intros ? ? H; vm_compute in H; injection H as <- <-; vm_compute; discriminate]
  | |- ∀ _ _, _ = _ → only_created _ _ _ _ = true =>
      let H := fresh in intros ? ? H; vm_compute in H; injection H as <- <-; vm_compute; reflexivity
  | |- Forall (λ _, ∀ _, _) _ => repeat (constructor; [intros ? [=]; subst; machine_literals|]); constructor
  | |- Forall _ _ => machine_literals
  end.

Ltac concrete_statements := repeat (split; [concrete_statement|]); exact I.

Lemma sample_reachable : reachable literal_regex sample_clock sample_env.
Proof. apply run_reachable; [apply reachable_start|]. concrete_statements. Qed.

Lemma sample_runtime_ok : runtime_ok (e_runtime sample_env).
Proof. apply runtime_inv_ok, (reachable_env_ok _ _ _ sample_reachable). Qed.

Definition table_in (e : Env BStarPlusTree) (n tn : string) : option (TableRuntime BStarPlusTree) :=
  d ← databases (e_runtime e) !! n; db_tables d !! tn.

Lemma table_in_ok e n tn t : runtime_ok (e_runtime e) → table_in e n tn = Some t → table_ok t.
Proof.
  intros He. unfold table_in. destruct (databases (e_runtime e) !! n) as [d|] eqn:Ed; [|done].
  intros Ht. by apply (He n d Ed tn t).
Qed.

Definition no_table : TableRuntime BStarPlusTree := MkTable (MkSchema "" "" [] []) (NewTableHeap (MkSchema "" "" [] [])) ∅.

Definition sample_table : TableRuntime BStarPlusTree := default no_table (table_in sample_env "shop" "users").

Lemma sample_table_ok : table_ok sample_table.
Proof.
  eapply (table_in_ok sample_env "shop" "users"); [apply sample_runtime_ok|].
  unfold sample_table. by destruct (table_in sample_env "shop" "users") eqn:E; [|vm_compute in E].
Qed.

Lemma sample_table_lookup :
  ∃ d, databases (e_runtime sample_env) !! "shop" = Some d ∧ db_tables d !! "users" = Some sample_table.
Proof.
  unfold sample_table. destruct (table_in sample_env "shop" "users") as [t|] eqn:E; [|by vm_compute in E].
  unfold table_in in E. destruct (databases (e_runtime sample_env) !! "shop") as [d|]; [|done]. by exists d.
Qed.

(** ** Witnesses *)

Lemma clone_preserves_state_witness :
  ∃ s', CloneRuntimeState (e_runtime sample_env) = Ok s' ∧ runtime_ok s' ∧ runtime_equiv (e_runtime sample_env) s'.
Proof. apply clone_preserves_state. exact sample_runtime_ok. Defined.

Lemma check_index_complete_witness : ValidateRuntimeIndexConsistency (e_runtime sample_env) = Ok true.
Proof. apply check_index_complete. exact sample_runtime_ok. Defined.

Lemma check_index_sound_witness :
  ∃ tree, t_indexes sample_table !! "name" = Some tree ∧ index_valid tree = true.
Proof.
  destruct sample_table_lookup as (d & Hd & Ht).
  assert (Hi : is_Some (t_indexes sample_table !! "name")) by (vm_compute; eexists; reflexivity).
  destruct Hi as [tree Htree]. exists tree. split; [exact Htree|].
  refine (proj1 (check_index_sound (e_runtime sample_env) _ "shop" d "users" sample_table "name" tree Hd Ht Htree)).
  vm_compute. reflexivity.
Defined.

(** Damage: every index is lost. *)
Definition lose_indexes (s : RuntimeState BStarPlusTree) : RuntimeState BStarPlusTree :=
  MkRuntime ((λ d, MkDatabase (db_name d)
    ((λ t, MkTable (t_schema t) (t_heap t) ((λ _, index_new) <$> t_indexes t)) <$> db_tables d)) <$> databases s).

Lemma lose_indexes_rebuildable s : runtime_ok s → runtime_rebuildable (lose_indexes s).
Proof.
  intros Hs n d'. unfold lose_indexes. simpl. rewrite lookup_fmap_Some. intros (d & <- & Hd) tn t'. simpl.
  rewrite lookup_fmap_Some. intros (t & <- & Ht). destruct (table_ok_rebuildable t (Hs n d Hd tn t Ht)). by split.
Qed.

Lemma rebuild_index_repairs_witness :
  ValidateRuntimeIndexConsistency (lose_indexes (e_runtime sample_env)) ≠ Ok true ∧
  ∃ s', RebuildRuntimeIndexes (lose_indexes (e_runtime sample_env)) = (s', Ok true) ∧ runtime_ok s' ∧
    runtime_equiv (lose_indexes (e_runtime sample_env)) s'.
Proof.
  split; [vm_compute; discriminate|].
  apply rebuild_index_repairs. apply lose_indexes_rebuildable. exact sample_runtime_ok.
Defined.

(** [WHERE id >= 7] through the index and through the rows. *)
Definition id_at_least_7 : option Expression :=
  Some (BinaryComparisonExpression kGreaterEqual (ColumnReferenceExpression None None "id") (LiteralExpression (VInt 7))).

Lemma id_at_least_7_typed : where_typed id_at_least_7 sample_table.
Proof.
  intros c i cd _ Hi Hcd <-. vm_compute in Hi. injection Hi as <-. vm_compute in Hcd. injection Hcd as <-.
  repeat split; vm_compute; discriminate.
Qed.

Lemma index_scan_equals_seq_scan_witness :
  ∃ out', FilterRows literal_regex (heap_rows (t_heap sample_table)) id_at_least_7 (t_schema sample_table) sample_table = Ok out' ∧
    out' ≡ₚ [MkRow 0 [VInt 7; VInterned (MkInterned 0 "bob"); VInt 30];
             MkRow 2 [VInt 11; VInterned (MkInterned 2 "cy"); VInt 41]].
Proof.
  apply (index_scan_equals_seq_scan literal_regex sample_table); [exact sample_table_ok|exact id_at_least_7_typed|vm_compute; reflexivity].
Defined.

(** ** History and REVERT *)

Lemma sample_completed : completed literal_regex sample_clock sample_env.
Proof.
  unfold sample_env, run_sample. cbn [run_statements create_users app].
  do 4 (apply completed_statement; [|concrete_statement|exact I]). apply completed_start.
Qed.

Lemma history_replays_tables_witness :
  plain_row <$> replay "shop" "users" (e_versions sample_env) !! 1 = Some (MkRow 1 [VInt (-2); VStr "ann"; VInt 18]).
Proof.
  destruct sample_table_lookup as (d & Hd & Ht).
  rewrite (history_replays_tables literal_regex sample_clock sample_env "shop" d "users" sample_table sample_completed Hd Ht).
  vm_compute. reflexivity.
Defined.

(** A later run: a failing INSERT, an UPDATE and a DELETE of all rows. *)
Definition rename_bob : Statement :=
  UpdateStatement users [MkAssign "name" (LiteralExpression (VStr "rob"))]
    (Some (BinaryComparisonExpression kEqual (ColumnReferenceExpression None None "id") (LiteralExpression (VInt 7)))).

Definition later_statements : list Statement :=
  [insert_users [user_row 9 "bob" VNull]; rename_bob; DeleteStatement users None].

Definition later_env : Env BStarPlusTree := run_statements literal_regex sample_clock later_statements sample_env.

Lemma later_steps : rtc (step literal_regex sample_clock) sample_env later_env.
Proof. apply run_steps. concrete_statements. Qed.

Definition revert_time : string := "2025.01.01-00:00:04.500000".

Definition revert_users : Statement := RevertStatement (MkQName (Some "shop") "users") revert_time kAtOrBefore.

Definition reverted : Outcome QueryResult * Env BStarPlusTree :=
  Execute literal_regex sample_clock revert_users "" later_env.

(** The rows are inserted, changed, removed and put back by REVERT. *)
Definition reverted_env : Env BStarPlusTree := run_sample (create_users ++ [three_users] ++ later_statements ++ [revert_users]).

Lemma reachable_consistent_witness :
  runtime_ok (e_runtime reverted_env) ∧
  (Execute literal_regex sample_clock CheckIndexStatement "" reverted_env).1 = Ok (message_result "index check passed") ∧
  map row_id (heap_rows (t_heap (default no_table (table_in reverted_env "shop" "users")))) = [0; 1; 2].
Proof.
  destruct (reachable_consistent literal_regex sample_clock reverted_env "") as (H1 & _ & H2).
  - apply run_reachable; [apply reachable_start|]. concrete_statements.
  - split; [exact H1|]. split; [exact H2|]. vm_compute. reflexivity.
Defined.

Lemma ticks : e_tick sample_env = 5%nat ∧ e_tick later_env = 9%nat.
Proof. split; vm_compute; reflexivity. Qed.

Lemma readings_before k : (k < e_tick sample_env)%nat → sle (GenerateTimestamp (sample_clock k)) revert_time.
Proof.
  rewrite (proj1 ticks). intros Hk. do 5 (destruct k as [|k]; [left; vm_compute; reflexivity|]). lia.
Qed.

Lemma readings_after k : (e_tick sample_env ≤ k < e_tick later_env)%nat → slt revert_time (GenerateTimestamp (sample_clock k)).
Proof.
  rewrite (proj1 ticks), (proj2 ticks). intros Hk. do 5 (destruct k as [|k]; [lia|]).
  do 4 (destruct k as [|k]; [vm_compute; reflexivity|]). lia.
Qed.

Lemma revert_restores_past_witness :
  ∃ d3 t3, databases (e_runtime reverted.2) !! "shop" = Some d3 ∧ db_tables d3 !! "users" = Some t3 ∧
    map plain_row (ScanAll (t_heap t3)) =
      [MkRow 0 [VInt 7; VStr "bob"; VInt 30]; MkRow 1 [VInt (-2); VStr "ann"; VInt 18]; MkRow 2 [VInt 11; VStr "cy"; VInt 41]].
Proof.
  destruct sample_table_lookup as (d & Hd & Ht).
  assert (Hok : ∃ res, reverted = (Ok res, reverted.2)) by (eexists; vm_compute; reflexivity).
  destruct Hok as [res Hrun].
  destruct (revert_restores_past literal_regex sample_clock sample_env later_env "shop" d "users" sample_table
    revert_time "" res reverted.2 sample_completed later_steps Hd Ht) as (d3 & t3 & H1 & H2 & H3).
  - exact readings_before.
  - exact readings_after.
  - exact Hrun.
  - exists d3, t3. split; [exact H1|]. split; [exact H2|]. rewrite H3. vm_compute. reflexivity.
Defined.
