(* ===== verification/Anomalies.v ===== *)
(** * Anomalies: what the executor does outside the hypotheses

    The hypotheses of the theorems about queries and REVERT are needed: on the
    sample database, a literal of another type ends an indexed query in an
    exception, a failed UPDATE comes back with REVERT, an INSERT that fails
    keeps its first rows, and REVERT to a time at which the table had other
    columns stores rows that do not fit. *)
From S2P Require Import Prelude Numerals CommonTypes Storage BStarPlusTree IndexSpec BStarPlusTreeSpec.
From S2P Require Import RuntimeState RuntimeFacts Ast VersionStore Predicates Execution ChangeLog.
From S2P Require Import ExecutionFacts.
From S2P Require Import Samples.

Open Scope Z_scope.

(** The rows of the sample table, with their texts. *)
Definition user_rows (e : Env BStarPlusTree) : list (list Value) :=
  map (λ r, map (λ v, match v with VInterned p => VStr (intern_text p) | _ => v end) (row_values r))
    (heap_rows (t_heap (default no_table (table_in e "shop" "users")))).

Definition run_more (ss : list Statement) (e : Env BStarPlusTree) : Env BStarPlusTree :=
  run_statements literal_regex sample_clock ss e.

Definition outcome_of (s : Statement) (e : Env BStarPlusTree) : Outcome QueryResult :=
  (Execute literal_regex sample_clock s "" e).1.

Definition id_is (v : Value) : option Expression :=
  Some (BinaryComparisonExpression kEqual (ColumnReferenceExpression None None "id") (LiteralExpression v)).

Definition select_all (w : option Expression) : Statement := SelectStatement users [MkItem true "" None None] w.

(** an indexed integer column compared with a string: the index path encodes
    the literal as an integer, which throws [std::bad_variant_access]; the
    sequential scan would report a type mismatch. *)
Theorem indexed_type_mismatch_throws :
  outcome_of (select_all (id_is (VStr "x"))) sample_env = Crash BadVariantAccess ∧
  seq_filter literal_regex (id_is (VStr "x")) (t_schema sample_table) (heap_rows (t_heap sample_table)) =
    MakeError kTypeMismatch "comparison type mismatch".
Proof. split; vm_compute; reflexivity. Qed.

(** Two rows get the same indexed value. *)
Definition clashing_update : Statement :=
  UpdateStatement users [MkAssign "id" (LiteralExpression (VInt 5))]
    (Some (BinaryComparisonExpression kGreaterEqual (ColumnReferenceExpression None None "id") (LiteralExpression (VInt 7)))).

(** an UPDATE that gives two rows the same indexed value fails and leaves the
    table as it was, but its events stay in the log: after one of the two rows
    is deleted, REVERT LATEST applies the other half of the failed UPDATE. *)
Theorem failed_update_resurfaces :
  let failed := run_more [clashing_update] sample_env in
  let deleted := run_more [DeleteStatement users (id_is (VInt 11))] failed in
  let reverted := run_more [RevertStatement users "" kLatest] deleted in
  outcome_of clashing_update sample_env = MakeError kConstraintViolation "duplicate value for INDEXED column: id" ∧
  user_rows failed = user_rows sample_env ∧
  user_rows deleted = [[VInt 7; VStr "bob"; VInt 30]; [VInt (-2); VStr "ann"; VInt 18]] ∧
  user_rows reverted = [[VInt 5; VStr "bob"; VInt 30]; [VInt (-2); VStr "ann"; VInt 18]].
Proof. cbv zeta. repeat split; vm_compute; reflexivity. Qed.

(** An INSERT of two rows whose second one is a duplicate fails, and the first
    row stays. *)
Definition half_insert : Statement := insert_users [user_row 20 "dan" VNull; user_row 7 "eve" VNull].

Lemma failed_insert_keeps_rows :
  outcome_of half_insert sample_env = MakeError kConstraintViolation "duplicate value for INDEXED column: id" ∧
  user_rows (run_more [half_insert] sample_env) = user_rows sample_env ++ [[VInt 20; VStr "dan"; VInt 18]].
Proof. split; vm_compute; reflexivity. Qed.

(** REVERT to a time before the table was dropped and created with other types
    checks only the number of columns: here the rebuild of the indexes throws. *)
Lemma revert_across_schemas_throws :
  let again := run_more [DropTableStatement users;
    CreateTableStatement users [MkColumnSpec "id" kString false true None; MkColumnSpec "name" kString false true None;
      MkColumnSpec "age" kInt64 false false None]] sample_env in
  outcome_of (RevertStatement users revert_time kAtOrBefore) again = Crash BadVariantAccess.
Proof. vm_compute. reflexivity. Qed.

(** Without an index on the columns, it succeeds and stores the old integers in
    a column of strings. *)
Definition ages : QualifiedName := MkQName (Some "shop") "ages".

Definition create_ages (type : ValueType) : Statement :=
  CreateTableStatement ages [MkColumnSpec "age" type false false None].

Definition misfit_env : Env BStarPlusTree :=
  run_more [create_ages kInt64; InsertStatement ages ["age"] [[LiteralExpression (VInt 30)]]; DropTableStatement ages;
    create_ages kString; RevertStatement ages "2025.01.01-00:00:06.500000" kAtOrBefore] sample_env.

Lemma revert_across_schemas_misfits :
  let t := default no_table (table_in misfit_env "shop" "ages") in
  map col_type (schema_columns (t_schema t)) = [kString] ∧ map row_values (heap_rows (t_heap t)) = [[VInt 30]] ∧
  only_created (e_versions misfit_env) "shop" "ages" (t_schema t) = false.
Proof. cbv zeta. repeat split; vm_compute; reflexivity. Qed.

(** The difference of two integers at the ends of their type overflows. *)
Lemma compare_extremes_overflows : CompareValues (VInt int64_max) (VInt (-1)) = Crash SignedOverflow.
Proof. vm_compute. reflexivity. Qed.
