(* ===== verification/Planner.v ===== *)
(** * Planner: physical plans (src/planner)

    [BuildPlan] turns a statement into a tree of plan nodes; every node shares
    the statement.  The executor works from the statement of the root, so the
    scan node only describes the access path; it is related here to the path
    the executor takes. *)
From S2P Require Import Prelude Numerals CommonTypes Storage BStarPlusTree IndexSpec RuntimeState.
From S2P Require Import RuntimeFacts Ast VersionStore Predicates Execution QueryFacts.

Open Scope Z_scope.

Inductive PlanNodeKind :=
| pkCreateDatabase
| pkDropDatabase
| pkUseDatabase
| pkCreateTable
| pkDropTable
| pkSeqScan
| pkIndexScan
| pkFilter
| pkProject
| pkAggregate
| pkInsert
| pkUpdate
| pkDelete
| pkRevert
| pkBeginTransaction
| pkCommitTransaction
| pkRollbackTransaction
| pkCheckIndex
| pkRebuildIndex
| pkRemoteShardDispatch.

#[export] Instance PlanNodeKind_eq_dec : EqDecision PlanNodeKind.
Proof. solve_decision. Defined.

(** [statement] is a shared pointer, null in a default-constructed node. *)
Inductive PlanNode := MkPlan {
  plan_kind : PlanNodeKind;
  plan_detail : string;
  plan_statement : option Statement;
  plan_children : list PlanNode
}.

(** ** Summaries *)

Definition item_summary (item : SelectItem) : string :=
  match item_aggregate item with
  | Some kSum => "SUM(" +:+ item_column item +:+ ")"
  | Some kCount => "COUNT(" +:+ item_column item +:+ ")"
  | Some kAvg => "AVG(" +:+ item_column item +:+ ")"
  | None => item_column item
  end +:+
  match item_alias item with Some a => " AS " +:+ a | None => "" end.

Fixpoint join_summaries (items : list SelectItem) : string :=
  match items with
  | [] => ""
  | [item] => item_summary item
  | item :: items => item_summary item +:+ ", " +:+ join_summaries items
  end.

Definition SelectItemsSummary (items : list SelectItem) : string :=
  if is_wildcard_select items then "*" else join_summaries items.

(** ** The access path *)

Definition ExtractIndexedCandidateColumn (expression : Expression) : option string :=
  match expression with
  | BinaryComparisonExpression op e1 e2 =>
      if bool_decide (op = kNotEqual) then None
      else
        match e1, e2 with
        | ColumnReferenceExpression _ _ column, LiteralExpression _ => Some column
        | _, _ => None
        end
  | BetweenExpression (ColumnReferenceExpression _ _ column) (LiteralExpression _) (LiteralExpression _) => Some column
  | _ => None
  end.

Section planner.
Context {T : Type} `{!IndexOps T}.

(** [runtime_state] is a pointer that may be null. *)
Definition TableHasIndexOnColumn (runtime_state : option (RuntimeState T)) (table_name : QualifiedName)
    (column_name : string) : bool :=
  match runtime_state, q_database table_name with
  | Some s, Some database_name =>
      match databases s !! database_name with
      | None => false
      | Some d =>
          match db_tables d !! q_object table_name with
          | None => false
          | Some t => bool_decide (is_Some (t_indexes t !! column_name))
          end
      end
  | _, _ => false
  end.

(** The scan node of a SELECT. *)
Definition scan_node (runtime_state : option (RuntimeState T)) (statement : Statement) (name : QualifiedName)
    (where_ : option Expression) : PlanNode :=
  let seq := MkPlan pkSeqScan ("scan " +:+ QualifiedNameToString name) (Some statement) [] in
  match where_ with
  | None => seq
  | Some w =>
      match ExtractIndexedCandidateColumn w with
      | Some c =>
          if TableHasIndexOnColumn runtime_state name c then
            MkPlan pkIndexScan ("index scan " +:+ QualifiedNameToString name +:+ " on " +:+ c) (Some statement) []
          else seq
      | None => seq
      end
  end.

Definition plan_select (runtime_state : option (RuntimeState T)) (statement : Statement) (name : QualifiedName)
    (items : list SelectItem) (where_ : option Expression) : PlanNode :=
  let scan := scan_node runtime_state statement name where_ in
  let child := match where_ with
               | Some _ => MkPlan pkFilter "filter" (Some statement) [scan]
               | None => scan
               end in
  let node := MkPlan pkProject
                ("select " +:+ SelectItemsSummary items +:+ " from " +:+ QualifiedNameToString name)
                (Some statement) [child] in
  if is_aggregate_select items then MkPlan pkAggregate "aggregate" (Some statement) [node] else node.

Definition BuildPlan (runtime_state : option (RuntimeState T)) (statement : Statement) : Outcome PlanNode :=
  let leaf kind detail := Ok (MkPlan kind detail (Some statement) []) in
  match statement with
  | CreateDatabaseStatement d => leaf pkCreateDatabase ("create database " +:+ d)
  | DropDatabaseStatement d => leaf pkDropDatabase ("drop database " +:+ d)
  | UseDatabaseStatement d => leaf pkUseDatabase ("use database " +:+ d)
  | CreateTableStatement name _ => leaf pkCreateTable ("create table " +:+ QualifiedNameToString name)
  | DropTableStatement name => leaf pkDropTable ("drop table " +:+ QualifiedNameToString name)
  | InsertStatement name _ rows =>
      leaf pkInsert ("insert into " +:+ QualifiedNameToString name +:+ " rows=" +:+ to_string (Z.of_nat (length rows)))
  | UpdateStatement name assignments _ =>
      leaf pkUpdate ("update " +:+ QualifiedNameToString name +:+ " assignments=" +:+
                     to_string (Z.of_nat (length assignments)))
  | DeleteStatement name _ => leaf pkDelete ("delete from " +:+ QualifiedNameToString name)
  | SelectStatement name items w => Ok (plan_select runtime_state statement name items w)
  | RevertStatement name timestamp _ =>
      leaf pkRevert ("revert " +:+ QualifiedNameToString name +:+ " to " +:+ timestamp)
  | BeginTransactionStatement => leaf pkBeginTransaction "begin transaction"
  | CommitTransactionStatement => leaf pkCommitTransaction "commit transaction"
  | RollbackTransactionStatement => leaf pkRollbackTransaction "rollback transaction"
  | CheckIndexStatement => leaf pkCheckIndex "check index"
  | RebuildIndexStatement => leaf pkRebuildIndex "rebuild index"
  | UnknownStatement _ => MakeError kParseError "cannot build plan for unknown statement"
  end.

(** The entry of [ExecutionEngine::Execute]. *)
Definition ExecutePlan (regex_match : string → string → Outcome bool) (clock : nat → Tm) (plan : PlanNode) (e : Env T)
    : Outcome QueryResult * Env T :=
  match plan_statement plan with
  | None => (MakeError kValidationError "plan has no attached statement", e)
  | Some s => Execute regex_match clock s (plan_detail plan) e
  end.

(** ** Plans and execution *)

(** Some node of the plan has this kind. *)
Fixpoint plan_has (kind : PlanNodeKind) (p : PlanNode) : bool :=
  match p with
  | MkPlan k _ _ children => bool_decide (k = kind) || existsb (plan_has kind) children
  end.

Lemma plan_select_scan runtime_state statement name items w :
  plan_has pkIndexScan (plan_select runtime_state statement name items w) =
  bool_decide (plan_kind (scan_node runtime_state statement name w) = pkIndexScan).
Proof.
  unfold plan_select. set (s := scan_node runtime_state statement name w).
  assert (Hs : plan_has pkIndexScan s = bool_decide (plan_kind s = pkIndexScan)).
  { unfold s, scan_node. destruct w as [w|]; [|done]. destruct (ExtractIndexedCandidateColumn w); [|done].
    by destruct (TableHasIndexOnColumn _ _ _). }
  destruct (is_aggregate_select items), w; cbn [plan_has existsb]; rewrite Hs; rewrite ?orb_false_r; done.
Qed.

Lemma BuildPlan_statement runtime_state s plan : BuildPlan runtime_state s = Ok plan → plan_statement plan = Some s.
Proof.
  destruct s; simpl; try (by intros [= <-]); try done. intros [= <-]. unfold plan_select. by destruct (is_aggregate_select _).
Qed.

End planner.

(** The candidates do not depend on the regular expressions. *)
Definition regex_true (pattern text : string) : Outcome bool := Ok true.

Section access.
Context {T : Type} `{!IndexOps T} `{!IndexLaws T}.

(** C19: the plan tells the truth about qualified tables: a SELECT of a
    consistent table by its qualified name, with literals of the right type, is
    planned with an index scan exactly when the executor answers it from an
    index. *)
Theorem index_scan_planned_iff_used (s : RuntimeState T) n tn d t items w :
  databases s !! n = Some d → db_tables d !! tn = Some t → table_ok t → where_typed w t →
  ∃ plan, BuildPlan (Some s) (SelectStatement (MkQName (Some n) tn) items w) = Ok plan ∧
    (plan_has pkIndexScan plan = true ↔ ∃ ids, index_candidates w (t_schema t) t = Ok (Some ids)).
Proof.
  intros Hd Ht Hok Hw. eexists. split; [done|]. rewrite plan_select_scan, bool_decide_eq_true.
  assert (Hcol : ∀ c tree, t_indexes t !! c = Some tree → ∃ i cd, FindColumnIndex (t_schema t) c = Some i ∧
    schema_columns (t_schema t) !! i = Some cd).
  { intros c tree Htree. destruct (ix_each _ _ _ (tok_indexes _ Hok) c tree Htree) as (i & Hi & _).
    destruct (lookup_lt_is_Some_2 _ _ (find_column_lt _ _ _ Hi)) as [cd Hcd]. by exists i, cd. }
  unfold scan_node. destruct w as [w|]; [|by split; [|intros [ids [=]]]]. simpl in Hw.
  destruct w as [| |op e1 e2| |e e1 e2| |]; simpl; try (by split; [|intros [ids [=]]]).
  - destruct (decide (op = kNotEqual)) as [->|Hop].
    + split; [done|]. intros [ids H]. destruct e1; try done. destruct e2; try done.
      destruct (FindColumnIndex (t_schema t) column_name); [|done]. destruct (t_indexes t !! column_name); [|done].
      destruct (column_at _ _); try done. simpl in H. by destruct (EncodeIndexKey _ _).
    + rewrite bool_decide_eq_false_2 by done. destruct e1 as [|dn tb c| | | | |]; try (by split; [|intros [ids [=]]]).
      destruct e2 as [lit| | | | | |]; try (by split; [|intros [ids [=]]]). simpl. rewrite Hd, Ht.
      destruct (t_indexes t !! c) as [tree|] eqn:Htree.
      * destruct (Hcol c tree Htree) as (i & cd & Hi & Hcd). rewrite Hi. unfold column_at. rewrite Hcd. simpl.
        specialize (Hw c i cd (elem_of_dom_2 _ _ _ Htree) Hi Hcd eq_refl) as [Hty Hlit].
        destruct (has_type_encodes _ _ Hty) as (enc & Henc & _). rewrite Henc. simpl.
        destruct (comparison_covers regex_true t op dn tb c i tree cd lit enc) as (ids & -> & _); try done.
        split; [intros _; by exists ids|done].
      * split; [done|]. intros [ids H]. by destruct (FindColumnIndex (t_schema t) c).
  - destruct e as [|dn tb c| | | | |]; try (by split; [|intros [ids [=]]]).
    destruct e1 as [lo| | | | | |]; try (by split; [|intros [ids [=]]]).
    destruct e2 as [hi| | | | | |]; try (by split; [|intros [ids [=]]]). simpl. rewrite Hd, Ht.
    destruct (t_indexes t !! c) as [tree|] eqn:Htree.
    + destruct (Hcol c tree Htree) as (i & cd & Hi & Hcd). rewrite Hi. unfold column_at. rewrite Hcd. simpl.
      specialize (Hw c i cd (elem_of_dom_2 _ _ _ Htree) Hi Hcd eq_refl) as [[Hlo Hlok] [Hhi Hhok]].
      destruct (has_type_encodes _ _ Hlo) as (klo & Elo & _). destruct (has_type_encodes _ _ Hhi) as (khi & Ehi & _).
      rewrite Elo, Ehi. simpl.
      destruct (between_covers regex_true t dn tb c i tree cd lo hi klo khi) as (ids & -> & _); try done.
      split; [intros _; by exists ids|done].
    + split; [done|]. intros [ids H]. by destruct (FindColumnIndex (t_schema t) c).
Qed.

End access.
