(* ===== verification/Lexer.v ===== *)
(** * Lexer: tokens of the SQL-like language (src/parser/lexer.cpp)

    Characters are classified as in the C locale.  The loop over the text is a
    recursion with as much fuel as the text has characters; [Tokenize_cons]
    gives its equation without fuel. *)
From S2P Require Import Prelude Numerals CommonTypes Codec.
From Stdlib Require Import Ascii.

Open Scope nat_scope.

(** ** Characters *)

Definition in_range (lo hi : nat) (c : ascii) : bool := (lo <=? nat_of_ascii c) && (nat_of_ascii c <=? hi).

Definition is_upper (c : ascii) : bool := in_range 65 90 c.
Definition is_lower (c : ascii) : bool := in_range 97 122 c.
Definition is_alpha (c : ascii) : bool := is_upper c || is_lower c.
Definition is_alnum (c : ascii) : bool := is_alpha c || in_range 48 57 c.

Definition to_upper (c : ascii) : ascii := if is_lower c then ascii_of_nat (nat_of_ascii c - 32) else c.

Definition is_word (c : ascii) : bool := is_alnum c || Ascii.eqb c "_".

Definition two_char_tokens : list string := ["=="; "!="; "<="; ">="].

(** ** Tokens *)

(** The inner loop of a string literal, from behind the opening quote: the
    characters up to and with the closing quote, which is one that does not
    follow a backslash; without one, the rest of the text. *)
Fixpoint scan_literal (prev : ascii) (s : string) : string * string :=
  match s with
  | EmptyString => ("", "")
  | String ch rest =>
      if Ascii.eqb ch dquote && negb (Ascii.eqb prev backslash) then (String ch "", rest)
      else let '(lit, tail) := scan_literal ch rest in (String ch lit, tail)
  end.

(** The inner loop of a word. *)
Fixpoint scan_word (s : string) : string * string :=
  match s with
  | EmptyString => ("", "")
  | String ch rest =>
      if is_word ch then let '(w, tail) := scan_word rest in (String ch w, tail) else ("", s)
  end.

(** The first token of a text that does not start with a space, and the rest. *)
Definition next_token (ch : ascii) (rest : string) : string * string :=
  match rest with
  | String ch2 rest2 =>
      if bool_decide (String ch (String ch2 "") ∈ two_char_tokens) then (String ch (String ch2 ""), rest2)
      else if Ascii.eqb ch dquote then let '(lit, tail) := scan_literal ch rest in (String ch lit, tail)
      else if is_word ch then scan_word (String ch rest)
      else (String ch "", rest)
  | EmptyString =>
      if Ascii.eqb ch dquote then let '(lit, tail) := scan_literal ch rest in (String ch lit, tail)
      else if is_word ch then scan_word (String ch rest)
      else (String ch "", rest)
  end.

Fixpoint tokens_from (fuel : nat) (s : string) : list string :=
  match fuel, s with
  | _, EmptyString => []
  | O, _ => []
  | S fuel, String ch rest =>
      if is_space ch then tokens_from fuel rest
      else let '(token, tail) := next_token ch rest in token :: tokens_from fuel tail
  end.

Definition Tokenize (sql : string) : list string := tokens_from (String.length sql) sql.

(** ** The fuel is enough *)

Lemma scan_literal_length prev s : String.length (scan_literal prev s).2 ≤ String.length s.
Proof.
  revert prev. induction s as [|ch s IH]; intros prev; simpl; [done|]. destruct (_ && _); simpl; [lia|].
  specialize (IH ch). destruct (scan_literal ch s). simpl in *. lia.
Qed.

Lemma scan_word_length s : String.length (scan_word s).2 ≤ String.length s.
Proof.
  induction s as [|ch s IH]; simpl; [done|]. destruct (is_word ch); simpl; [|lia].
  destruct (scan_word s). simpl in *. lia.
Qed.

Lemma next_token_length ch rest : String.length (next_token ch rest).2 ≤ String.length rest.
Proof.
  assert (H : String.length (if Ascii.eqb ch dquote then let '(lit, tail) := scan_literal ch rest in (String ch lit, tail)
      else if is_word ch then scan_word (String ch rest) else (String ch "", rest)).2 ≤ String.length rest).
  { destruct (Ascii.eqb ch dquote).
    - pose proof (scan_literal_length ch rest). by destruct (scan_literal ch rest).
    - destruct (is_word ch) eqn:Ew; [|done]. simpl. rewrite Ew. pose proof (scan_word_length rest).
      by destruct (scan_word rest). }
  unfold next_token. destruct rest as [|ch2 rest2]; [done|]. case_bool_decide; [simpl; lia|exact H].
Qed.

Lemma tokens_from_fuel fuel fuel' s :
  String.length s ≤ fuel → String.length s ≤ fuel' → tokens_from fuel s = tokens_from fuel' s.
Proof.
  revert fuel' s. induction fuel as [|fuel IH]; intros fuel' [|ch rest] H1 H2; simpl in H1, H2.
  - by destruct fuel'.
  - lia.
  - by destruct fuel'.
  - destruct fuel' as [|fuel']; [lia|]. simpl. destruct (is_space ch); [apply IH; lia|].
    pose proof (next_token_length ch rest). destruct (next_token ch rest) as [token tail]. simpl in *. f_equal. apply IH; lia.
Qed.

Lemma Tokenize_cons ch rest :
  Tokenize (String ch rest) =
  if is_space ch then Tokenize rest else let '(token, tail) := next_token ch rest in token :: Tokenize tail.
Proof.
  unfold Tokenize at 1. simpl. destruct (is_space ch); [done|]. pose proof (next_token_length ch rest) as H.
  destruct (next_token ch rest) as [token tail]. f_equal. by apply tokens_from_fuel.
Qed.
