(* ===== verification/Parser.v ===== *)
(** * Parser: statements from tokens (src/parser/parser.cpp)

    The [Cursor] is the list of the tokens that are left.  A parser returns the
    message of the exception it throws, or a value and the rest; [None] marks
    a loop or a recursion that ran out of fuel, which [parse_total] shows never
    happens: the fuel is the number of tokens left, and every turn of a loop and
    every nesting of parentheses consumes one.  The messages of [std::stoll]
    are those of libstdc++. *)
From S2P Require Import Prelude Numerals CommonTypes Codec Ast Lexer.
From Stdlib Require Import Ascii.

Open Scope nat_scope.

(** ** Words *)

Fixpoint ToUpper (s : string) : string :=
  match s with EmptyString => "" | String c s => String (to_upper c) (ToUpper s) end.

Fixpoint has_char (p : ascii → bool) (s : string) : bool :=
  match s with EmptyString => false | String c s => p c || has_char p s end.

Definition HasMixedLetterCase (token : string) : bool := has_char is_upper token && has_char is_lower token.

Definition IsIdentifier (token : string) : bool :=
  match token with
  | EmptyString => false
  | String c _ => (is_alpha c || Ascii.eqb c "_") && negb (has_char (λ c, negb (is_word c)) token)
  end.

(** ** Parsers *)

Definition Parser (A : Type) : Type := list string → option (string + A * list string).

Definition pret {A} (a : A) : Parser A := λ ts, Some (inr (a, ts)).
Definition throw {A} (what : string) : Parser A := λ _, Some (inl what).
Definition pbind {A B} (p : Parser A) (k : A → Parser B) : Parser B := λ ts,
  match p ts with
  | None => None
  | Some (inl what) => Some (inl what)
  | Some (inr (a, ts)) => k a ts
  end.

Notation "'do' x <- p ; k" := (pbind p (λ x, k)) (at level 20, x binder, p at level 100, k at level 200) : dbms_scope.

(** A loop: the body continues with [inl] and leaves with [inr]. *)
Fixpoint repeat_from {A B} (fuel : nat) (body : A → Parser (A + B)) (a : A) : Parser B := λ ts,
  match fuel with
  | O => None
  | S fuel =>
      match body a ts with
      | None => None
      | Some (inl what) => Some (inl what)
      | Some (inr (inl a, ts)) => repeat_from fuel body a ts
      | Some (inr (inr b, ts)) => Some (inr (b, ts))
      end
  end.

Definition loop {A B} (body : A → Parser (A + B)) (a : A) : Parser B := λ ts, repeat_from (S (length ts)) body a ts.

(** ** The cursor *)

Definition Has : Parser bool := λ ts, Some (inr (match ts with [] => false | _ :: _ => true end, ts)).

Definition Peek : Parser string := λ ts, Some (inr (match ts with [] => "" | t :: _ => t end, ts)).

Definition Take : Parser string := λ ts,
  match ts with
  | [] => Some (inl "unexpected end of input")
  | t :: ts => Some (inr (t, ts))
  end.

Definition MatchKeyword (kw : string) : Parser bool := λ ts,
  match ts with
  | [] => Some (inr (false, ts))
  | t :: rest =>
      if negb (String.eqb (ToUpper t) kw) then Some (inr (false, ts))
      else if HasMixedLetterCase t then Some (inl ("mixed keyword case is not allowed: " +:+ t))
      else Some (inr (true, rest))
  end.

Definition Match (token : string) : Parser bool := λ ts,
  match ts with
  | [] => Some (inr (false, ts))
  | t :: rest => Some (inr (if String.eqb t token then (true, rest) else (false, ts)))
  end.

Definition Expect (token : string) : Parser unit :=
  do b <- Match token ; if (b : bool) then pret tt else throw ("expected token: " +:+ token).

Definition ExpectKeyword (kw : string) : Parser unit :=
  do b <- MatchKeyword kw ; if (b : bool) then pret tt else throw ("expected keyword: " +:+ kw).

Definition TakeIdentifier : Parser string :=
  do token <- Take ; if IsIdentifier token then pret token else throw ("invalid identifier: " +:+ token).

(** ** Literals and names *)

Fixpoint last_char (c : ascii) (s : string) : ascii :=
  match s with EmptyString => c | String c s => last_char c s end.

Fixpoint drop_last (s : string) : string :=
  match s with
  | EmptyString => ""
  | String _ EmptyString => ""
  | String c s => String c (drop_last s)
  end.

(** A token of at least two characters between double quotes. *)
Definition quoted (token : string) : option string :=
  match token with
  | String c (String d rest) =>
      if Ascii.eqb c dquote && Ascii.eqb (last_char d rest) dquote then Some (drop_last (String d rest)) else None
  | _ => None
  end.

Definition ParseLiteral (token : string) : string + Value :=
  if String.eqb token "NULL" || String.eqb token "null" then inr VNull
  else
    match quoted token with
    | Some text => inr (VStr text)
    | None =>
        match stoll token with
        | inl _ => inl "stoll"
        | inr (v, idx) =>
            if negb (idx =? String.length token) then inl ("invalid literal: " +:+ token) else inr (VInt v)
        end
    end.

Definition literal (token : string) : Parser Value :=
  match ParseLiteral token with inl what => throw what | inr v => pret v end.

Definition ParseLiteralToken : Parser Value :=
  do minus <- Match "-" ;
  if (minus : bool) then do next <- Take ; literal (String "-" next)
  else do token <- Take ; literal token.

Definition ParseQualifiedName : Parser QualifiedName :=
  do first <- TakeIdentifier ;
  do dot <- Match "." ;
  if (dot : bool) then do second <- TakeIdentifier ; pret (MkQName (Some first) second)
  else pret (MkQName None first).

(** ** Expressions

    [expression] is the recursive call of [ParseExpression]. *)

Definition ParsePrimary (expression : Parser Expression) : Parser Expression :=
  do paren <- Match "(" ;
  if (paren : bool) then do inner <- expression ; do _ <- Expect ")" ; pret inner
  else
    do next <- Peek ;
    if IsIdentifier next then
      do q <- ParseQualifiedName ; pret (ColumnReferenceExpression (q_database q) None (q_object q))
    else do v <- ParseLiteralToken ; pret (LiteralExpression v).

Definition ParseCmpOp (token : string) : string + ComparisonOperator :=
  if String.eqb token "==" then inr kEqual
  else if String.eqb token "!=" then inr kNotEqual
  else if String.eqb token "<" then inr kLess
  else if String.eqb token ">" then inr kGreater
  else if String.eqb token "<=" then inr kLessEqual
  else if String.eqb token ">=" then inr kGreaterEqual
  else inl ("unknown comparison operator: " +:+ token).

Definition ends_predicate (has : bool) (next : string) : bool :=
  negb has || String.eqb next ")" || String.eqb next ";" ||
  String.eqb (ToUpper next) "AND" || String.eqb (ToUpper next) "OR".

Definition ParsePredicate (expression : Parser Expression) : Parser Expression :=
  do lhs <- ParsePrimary expression ;
  do between <- MatchKeyword "BETWEEN" ;
  if (between : bool) then
    do lower <- ParsePrimary expression ;
    do _ <- ExpectKeyword "AND" ;
    do upper <- ParsePrimary expression ;
    pret (BetweenExpression lhs lower upper)
  else
    do like <- MatchKeyword "LIKE" ;
    if (like : bool) then do pattern <- ParsePrimary expression ; pret (LikeExpression lhs pattern)
    else
      do has <- Has ;
      do next <- Peek ;
      if ends_predicate has next then pret lhs
      else
        do op <- Take ;
        do rhs <- ParsePrimary expression ;
        match ParseCmpOp op with
        | inl what => throw what
        | inr op => pret (BinaryComparisonExpression op lhs rhs)
        end.

(** [while (c.MatchKeyword(kw)) lhs = Logical(lhs, operand)]. *)
Definition logical_loop (kw : string) (op : LogicalOperator) (operand : Parser Expression) (lhs : Expression)
    : Parser Expression :=
  loop (λ lhs, do more <- MatchKeyword kw ;
    if (more : bool) then do rhs <- operand ; pret (inl (LogicalExpression op lhs rhs)) else pret (inr lhs)) lhs.

Definition ParseAnd (expression : Parser Expression) : Parser Expression :=
  do lhs <- ParsePredicate expression ; logical_loop "AND" kAnd (ParsePredicate expression) lhs.

Fixpoint parse_expression (fuel : nat) : Parser Expression :=
  match fuel with
  | O => λ _, None
  | S fuel =>
      do lhs <- ParseAnd (parse_expression fuel) ;
      logical_loop "OR" kOr (ParseAnd (parse_expression fuel)) lhs
  end.

Definition ParseExpression : Parser Expression := λ ts, parse_expression (S (length ts)) ts.

(** [if (c.MatchKeyword("WHERE")) where = ParseExpression(c)]. *)
Definition ParseWhere : Parser (option Expression) :=
  do w <- MatchKeyword "WHERE" ;
  if (w : bool) then do e <- ParseExpression ; pret (Some e) else pret None.

(** ** Statements *)

Definition ParseConstraints (column : ColumnSpec) : Parser ColumnSpec :=
  loop (λ col,
    do not_null <- MatchKeyword "NOT_NULL" ;
    if (not_null : bool) then
      pret (inl (MkColumnSpec (cs_name col) (cs_type col) true (cs_indexed col) (cs_default col)))
    else
      do indexed <- MatchKeyword "INDEXED" ;
      if (indexed : bool) then pret (inl (MkColumnSpec (cs_name col) (cs_type col) true true (cs_default col)))
      else
        do default <- MatchKeyword "DEFAULT" ;
        if (default : bool) then
          do v <- ParseLiteralToken ;
          pret (inl (MkColumnSpec (cs_name col) (cs_type col) (cs_not_null col) (cs_indexed col) (Some v)))
        else pret (inr col)) column.

Definition ParseType (type : string) : Parser ValueType :=
  if String.eqb type "INT" then pret kInt64
  else if String.eqb type "STRING" then pret kString
  else throw ("unsupported column type: " +:+ type).

(** [if (c.Match(")")) break; c.Expect(",");] at the end of a list element. *)
Definition list_end {A} (acc : list A) : Parser (list A + list A) :=
  do close <- Match ")" ; if (close : bool) then pret (inr acc) else do _ <- Expect "," ; pret (inl acc).

Definition ParseCreate : Parser Statement :=
  do database <- MatchKeyword "DATABASE" ;
  if (database : bool) then do n <- TakeIdentifier ; pret (CreateDatabaseStatement n)
  else
    do _ <- ExpectKeyword "TABLE" ;
    do name <- ParseQualifiedName ;
    do _ <- Expect "(" ;
    do columns <- loop (λ columns,
      do n <- TakeIdentifier ;
      do token <- Take ;
      do type <- ParseType (ToUpper token) ;
      do col <- ParseConstraints (MkColumnSpec n type false false None) ;
      list_end (columns ++ [col])) [] ;
    pret (CreateTableStatement name columns).

Definition ParseDrop : Parser Statement :=
  do database <- MatchKeyword "DATABASE" ;
  if (database : bool) then do n <- TakeIdentifier ; pret (DropDatabaseStatement n)
  else do _ <- ExpectKeyword "TABLE" ; do name <- ParseQualifiedName ; pret (DropTableStatement name).

Definition ParseUse : Parser Statement := do n <- TakeIdentifier ; pret (UseDatabaseStatement n).

Definition ParseRow : Parser (list Expression) :=
  do _ <- Expect "(" ; loop (λ row, do v <- ParseLiteralToken ; list_end (row ++ [LiteralExpression v])) [].

Definition ParseInsert : Parser Statement :=
  do _ <- ExpectKeyword "INTO" ;
  do name <- ParseQualifiedName ;
  do _ <- Expect "(" ;
  do columns <- loop (λ names, do n <- TakeIdentifier ; list_end (names ++ [n])) [] ;
  do value <- MatchKeyword "VALUE" ;
  do _ <- (if (value : bool) then pret tt else ExpectKeyword "VALUES") ;
  do rows <- loop (λ rows,
    do row <- ParseRow ;
    do more <- Match "," ;
    pret (if (more : bool) then inl (rows ++ [row]) else inr (rows ++ [row]))) [] ;
  pret (InsertStatement name columns rows).

Definition ParseUpdate : Parser Statement :=
  do name <- ParseQualifiedName ;
  do _ <- ExpectKeyword "SET" ;
  do assignments <- loop (λ acc,
    do column <- TakeIdentifier ;
    do _ <- Expect "=" ;
    do value <- ParsePrimary ParseExpression ;
    do more <- Match "," ;
    pret (if (more : bool) then inl (acc ++ [MkAssign column value]) else inr (acc ++ [MkAssign column value]))) [] ;
  do w <- ParseWhere ;
  pret (UpdateStatement name assignments w).

Definition ParseDelete : Parser Statement :=
  do _ <- ExpectKeyword "FROM" ;
  do name <- ParseQualifiedName ;
  do w <- ParseWhere ;
  pret (DeleteStatement name w).

Definition ParseAgg (token : string) : option AggregateKind :=
  if String.eqb (ToUpper token) "SUM" then Some kSum
  else if String.eqb (ToUpper token) "COUNT" then Some kCount
  else if String.eqb (ToUpper token) "AVG" then Some kAvg
  else None.

Definition ParseAlias : Parser (option string) :=
  do as_ <- MatchKeyword "AS" ; if (as_ : bool) then do n <- TakeIdentifier ; pret (Some n) else pret None.

Definition ParseSelectItem : Parser SelectItem :=
  do next <- Peek ;
  match ParseAgg next with
  | Some agg =>
      do _ <- Take ;
      do _ <- Expect "(" ;
      do star <- Match "*" ;
      do column <- (if (star : bool) then pret "*" else TakeIdentifier) ;
      do _ <- Expect ")" ;
      do alias <- ParseAlias ;
      pret (MkItem false column alias (Some agg))
  | None =>
      do column <- TakeIdentifier ;
      do alias <- ParseAlias ;
      pret (MkItem false column alias None)
  end.

Definition ParseSelect : Parser Statement :=
  do star <- Match "*" ;
  do items <- (if (star : bool) then pret [MkItem true "" None None]
    else loop (λ items,
      do item <- ParseSelectItem ;
      do more <- Match "," ;
      pret (if (more : bool) then inl (items ++ [item]) else inr (items ++ [item]))) []) ;
  do _ <- ExpectKeyword "FROM" ;
  do name <- ParseQualifiedName ;
  do w <- ParseWhere ;
  pret (SelectStatement name items w).

Definition ParseRevert : Parser Statement :=
  do name <- ParseQualifiedName ;
  do latest <- MatchKeyword "LATEST" ;
  if (latest : bool) then pret (RevertStatement name "LATEST" kLatest)
  else
    do exact_ <- MatchKeyword "EXACT" ;
    do mode <- (if (exact_ : bool) then pret kExact else do _ <- MatchKeyword "AT_OR_BEFORE" ; pret kAtOrBefore) ;
    do token <- Take ;
    pret (RevertStatement name (match quoted token with Some text => text | None => token end) mode).

(** [BEGIN], [COMMIT] and [ROLLBACK] with an optional [TRANSACTION]. *)
Definition ParseTransaction (s : Statement) : Parser Statement := do _ <- MatchKeyword "TRANSACTION" ; pret s.

Definition ParseCheck : Parser Statement := do _ <- ExpectKeyword "INDEX" ; pret CheckIndexStatement.

Definition ParseRebuild : Parser Statement := do _ <- ExpectKeyword "INDEX" ; pret RebuildIndexStatement.

(** ** Validation *)

(** The first name that an [unordered_set] already has. *)
Fixpoint first_duplicate (seen names : list string) : option string :=
  match names with
  | [] => None
  | n :: names => if bool_decide (n ∈ seen) then Some n else first_duplicate (n :: seen) names
  end.

Fixpoint check_columns (seen : list string) (columns : list ColumnSpec) : option string :=
  match columns with
  | [] => None
  | c :: columns =>
      if bool_decide (cs_name c ∈ seen) then Some ("duplicate column name: " +:+ cs_name c)
      else
        match cs_default c with
        | Some v =>
            if CanAssignToType v (cs_type c) (negb (cs_not_null c)) then check_columns (cs_name c :: seen) columns
            else Some ("DEFAULT value type mismatch for column: " +:+ cs_name c)
        | None => check_columns (cs_name c :: seen) columns
        end
  end.

Definition ValidateCreateTable (columns : list ColumnSpec) : option string :=
  match columns with [] => Some "CREATE TABLE must define columns" | _ => check_columns [] columns end.

Definition ValidateInsert (column_names : list string) (rows : list (list Expression)) : option string :=
  match column_names, rows with
  | [], _ => Some "INSERT must specify at least one target column"
  | _, [] => Some "INSERT must include at least one row"
  | _, _ =>
      match first_duplicate [] column_names with
      | Some n => Some ("duplicate INSERT column: " +:+ n)
      | None =>
          if forallb (λ row, length row =? length column_names) rows then None
          else Some "INSERT row value count does not match column count"
      end
  end.

Definition ValidateUpdate (assignments : list Assignment) : option string :=
  match assignments with
  | [] => Some "UPDATE must define assignments"
  | _ =>
      match first_duplicate [] (map assign_column assignments) with
      | Some n => Some ("duplicate UPDATE assignment: " +:+ n)
      | None => None
      end
  end.

Definition aggregated (item : SelectItem) : bool := bool_decide (is_Some (item_aggregate item)).

(** [has_aggregate] and [has_non_aggregate]. *)
Definition item_kinds (items : list SelectItem) : bool * bool :=
  match items with
  | [item] => (aggregated item, negb (aggregated item) && negb (item_wildcard item))
  | _ => (existsb aggregated items, existsb (λ i, negb (aggregated i)) items)
  end.

Definition ValidateSelect (items : list SelectItem) : option string :=
  match items with
  | [] => Some "SELECT item list is empty"
  | _ =>
      if (1 <? length items) && existsb item_wildcard items then Some "SELECT * cannot be combined with other items"
      else
        let '(has_aggregate, has_non_aggregate) := item_kinds items in
        if (has_aggregate && has_non_aggregate)%bool then Some "cannot mix aggregate and non-aggregate select items"
        else if existsb (λ i, match item_aggregate i with
                              | Some k => String.eqb (item_column i) "*" && negb (bool_decide (k = kCount))
                              | None => false
                              end) items
        then Some "only COUNT supports wildcard argument '*'"
        else None
  end.

Definition ValidateStatement (s : Statement) : option string :=
  match s with
  | CreateTableStatement _ columns => ValidateCreateTable columns
  | InsertStatement _ names rows => ValidateInsert names rows
  | UpdateStatement _ assignments _ => ValidateUpdate assignments
  | SelectStatement _ items _ => ValidateSelect items
  | _ => None
  end.

(** ** [Parse] *)

(** The statements by their first keyword, in the order they are tried. *)
Definition statement_parsers : list (string * Parser Statement) :=
  [("CREATE", ParseCreate); ("DROP", ParseDrop); ("USE", ParseUse); ("INSERT", ParseInsert); ("UPDATE", ParseUpdate);
   ("DELETE", ParseDelete); ("SELECT", ParseSelect); ("REVERT", ParseRevert);
   ("BEGIN", ParseTransaction BeginTransactionStatement); ("COMMIT", ParseTransaction CommitTransactionStatement);
   ("ROLLBACK", ParseTransaction RollbackTransactionStatement); ("CHECK", ParseCheck); ("REBUILD", ParseRebuild)].

Fixpoint parse_first (parsers : list (string * Parser Statement)) : Parser (option Statement) :=
  match parsers with
  | [] => pret None
  | (kw, p) :: parsers =>
      do m <- MatchKeyword kw ; if (m : bool) then do s <- p ; pret (Some s) else parse_first parsers
  end.

(** The end of the statement: an optional semicolon, and nothing behind it. *)
Definition finish (s : Statement) (ts : list string) : Outcome Statement :=
  match ts with
  | [] => match ValidateStatement s with Some what => MakeError kParseError what | None => Ok s end
  | t :: rest =>
      if String.eqb t ";" then
        match rest with
        | [] => match ValidateStatement s with Some what => MakeError kParseError what | None => Ok s end
        | _ :: _ => MakeError kParseError "unexpected tokens after semicolon"
        end
      else MakeError kParseError "unexpected trailing tokens"
  end.

Definition parse_tokens (ts : list string) : option (Outcome Statement) :=
  match ts with
  | [] => Some (MakeError kParseError "empty SQL")
  | _ =>
      match parse_first statement_parsers ts with
      | None => None
      | Some (inl what) => Some (MakeError kParseError what)
      | Some (inr (None, _)) => Some (MakeError kParseError "unsupported statement")
      | Some (inr (Some s, rest)) => Some (finish s rest)
      end
  end.

Definition Parse (sql : string) : Outcome Statement :=
  match parse_tokens (Tokenize sql) with Some r => r | None => Crash UndefinedBehaviour end.
