(* ===== verification/ParserFacts.v ===== *)
(** * ParserFacts: the parser is total, and what it returns is well formed

    [runs p ts Q]: from the tokens [ts] the parser [p] does not run out of fuel,
    and a value it returns satisfies [Q] together with the tokens that are left.
    The rules follow the code, so that one pass over it gives both termination
    and the facts about the syntax tree that the executor relies on. *)
From S2P Require Import Prelude Numerals CommonTypes Codec Ast Lexer Parser.
From Stdlib Require Import Ascii.

Open Scope nat_scope.

(** ** Rules *)

Definition runs {A} (p : Parser A) (ts : list string) (Q : A → list string → Prop) : Prop :=
  match p ts with
  | None => False
  | Some (inl _) => True
  | Some (inr (a, ts')) => Q a ts'
  end.

Lemma runs_mono {A} (p : Parser A) ts (Q Q' : A → list string → Prop) :
  runs p ts Q → (∀ a ts', Q a ts' → Q' a ts') → runs p ts Q'.
Proof. unfold runs. destruct (p ts) as [[|[a ts']]|]; auto. Qed.

Lemma runs_ret {A} (a : A) ts (Q : A → list string → Prop) : Q a ts → runs (pret a) ts Q.
Proof. done. Qed.

Lemma runs_throw {A} what ts (Q : A → list string → Prop) : runs (throw what) ts Q.
Proof. done. Qed.

Lemma runs_bind {A B} (p : Parser A) (k : A → Parser B) ts Q :
  runs p ts (λ a ts', runs (k a) ts' Q) → runs (pbind p k) ts Q.
Proof. unfold runs, pbind. by destruct (p ts) as [[|[a ts']]|]. Qed.

Lemma runs_Has ts Q : (∀ b, Q b ts) → runs Has ts Q.
Proof. intros H. apply H. Qed.

Lemma runs_Peek ts Q : (∀ t, Q t ts) → runs Peek ts Q.
Proof. intros H. apply H. Qed.

Lemma runs_Take ts Q : (∀ t ts', length ts = S (length ts') → Q t ts') → runs Take ts Q.
Proof. intros H. destruct ts as [|t ts]; [done|]. by apply H. Qed.

Lemma runs_Match token ts Q : Q false ts → (∀ ts', length ts = S (length ts') → Q true ts') → runs (Match token) ts Q.
Proof.
  intros H1 H2. unfold runs, Match. destruct ts as [|t ts]; [done|]. destruct (String.eqb t token); [by apply H2|done].
Qed.

Lemma runs_MatchKeyword kw ts Q :
  Q false ts → (∀ ts', length ts = S (length ts') → Q true ts') → runs (MatchKeyword kw) ts Q.
Proof.
  intros H1 H2. unfold runs, MatchKeyword. destruct ts as [|t ts]; [done|].
  destruct (negb _); [done|]. destruct (HasMixedLetterCase t); [done|]. by apply H2.
Qed.

Lemma runs_Expect token ts Q : (∀ ts', length ts = S (length ts') → Q tt ts') → runs (Expect token) ts Q.
Proof. intros H. apply runs_bind, runs_Match; [apply runs_throw|]. intros ts' Hts. apply runs_ret. auto. Qed.

Lemma runs_ExpectKeyword kw ts Q : (∀ ts', length ts = S (length ts') → Q tt ts') → runs (ExpectKeyword kw) ts Q.
Proof. intros H. apply runs_bind, runs_MatchKeyword; [apply runs_throw|]. intros ts' Hts. apply runs_ret. auto. Qed.

Lemma runs_TakeIdentifier ts Q : (∀ t ts', length ts = S (length ts') → Q t ts') → runs TakeIdentifier ts Q.
Proof.
  intros H. apply runs_bind, runs_Take. intros t ts' Hts. destruct (IsIdentifier t); [apply runs_ret; auto|apply runs_throw].
Qed.

(** The rule of loops: an invariant, and every further turn consumes a token. *)
Lemma runs_loop {A B} (I : A → Prop) (body : A → Parser (A + B)) a ts Q :
  I a →
  (∀ a ts', I a → length ts' ≤ length ts →
    runs (body a) ts' (λ r ts'', match r with
      | inl a' => I a' ∧ length ts'' < length ts'
      | inr b => Q b ts'' end)) →
  runs (loop body a) ts Q.
Proof.
  intros Ha Hbody. unfold loop, runs.
  assert (H : ∀ fuel a ts', I a → length ts' ≤ length ts → length ts' < fuel →
    match repeat_from fuel body a ts' with
    | None => False | Some (inl _) => True | Some (inr (b, ts'')) => Q b ts'' end).
  { clear a Ha. induction fuel as [|fuel IH]; intros a ts' Ha Hts Hfuel; [lia|]. simpl.
    specialize (Hbody a ts' Ha Hts). unfold runs in Hbody.
    destruct (body a ts') as [[what|[[a'|b] ts'']]|]; try done. destruct Hbody as [Ha' Hlt]. apply IH; [done|lia|lia]. }
  apply (H (S (length ts)) a ts); [done|lia|lia].
Qed.

(** ** Literals of the syntax tree *)

(** A value as the parser makes it: it fits its type and is not interned. *)
Definition parsed_value (v : Value) : Prop := value_ok v ∧ match v with VInterned _ => False | _ => True end.

Fixpoint parsed_expr (e : Expression) : Prop :=
  match e with
  | LiteralExpression v => parsed_value v
  | ColumnReferenceExpression _ _ _ | AggregateCallExpression _ _ => True
  | BinaryComparisonExpression _ a b | LogicalExpression _ a b | LikeExpression a b => parsed_expr a ∧ parsed_expr b
  | BetweenExpression a b c => parsed_expr a ∧ parsed_expr b ∧ parsed_expr c
  end.

Definition parsed_where (w : option Expression) : Prop := match w with Some e => parsed_expr e | None => True end.

Definition is_literal (e : Expression) : Prop := match e with LiteralExpression v => parsed_value v | _ => False end.

Definition parsed_column (c : ColumnSpec) : Prop := ∀ v, cs_default c = Some v → parsed_value v.

Definition parsed_statement (s : Statement) : Prop :=
  match s with
  | CreateTableStatement _ columns => Forall parsed_column columns
  | InsertStatement _ _ rows => Forall (Forall is_literal) rows
  | UpdateStatement _ assignments w => Forall (λ a, parsed_expr (assign_value a)) assignments ∧ parsed_where w
  | DeleteStatement _ w | SelectStatement _ _ w => parsed_where w
  | _ => True
  end.

Lemma stoll_in_range s v idx : stoll s = inr (v, idx) → in_int64 v.
Proof.
  unfold stoll, parse_signed. destruct (skip_spaces s) as [sp s1].
  destruct (match s1 with String "-" r => _ | String "+" r => _ | _ => _ end) as [[neg sg] s2].
  destruct (take_digits s2 0) as [z n]. destruct (n =? 0); [done|].
  destruct ((_ <? _)%Z || _)%bool eqn:E; [done|]. intros [= <- _]. apply orb_false_iff in E as [E1 E2].
  apply Z.ltb_ge in E1, E2. done.
Qed.

Lemma ParseLiteral_parsed token v : ParseLiteral token = inr v → parsed_value v.
Proof.
  unfold ParseLiteral. destruct (_ || _); [by intros [= <-]|]. destruct (quoted token); [by intros [= <-]|].
  destruct (stoll token) as [|[z idx]] eqn:E; [done|]. destruct (negb _); [done|]. intros [= <-].
  split; [|done]. simpl. by eapply stoll_in_range.
Qed.

Lemma runs_literal token ts Q : (∀ v, parsed_value v → Q v ts) → runs (literal token) ts Q.
Proof.
  intros H. unfold literal. destruct (ParseLiteral token) as [what|v] eqn:E; [apply runs_throw|].
  apply runs_ret, H. by eapply ParseLiteral_parsed.
Qed.

Lemma runs_ParseLiteralToken ts Q :
  (∀ v ts', parsed_value v → length ts' < length ts → Q v ts') → runs ParseLiteralToken ts Q.
Proof.
  intros H. apply runs_bind, runs_Match.
  - apply runs_bind, runs_Take. intros t ts' Hts. apply runs_literal. intros v Hv. apply H; [done|lia].
  - intros ts1 H1. apply runs_bind, runs_Take. intros t ts2 H2. apply runs_literal. intros v Hv. apply H; [done|lia].
Qed.

Lemma runs_ParseQualifiedName ts Q :
  (∀ q ts', length ts' < length ts → Q q ts') → runs ParseQualifiedName ts Q.
Proof.
  intros H. apply runs_bind, runs_TakeIdentifier. intros t ts1 H1. apply runs_bind, runs_Match.
  - apply runs_ret, H. lia.
  - intros ts2 H2. apply runs_bind, runs_TakeIdentifier. intros t' ts3 H3. apply runs_ret, H. lia.
Qed.

(** One step of a parser that is not a loop; the leaves are left over. *)
Ltac parse_step :=
  lazymatch goal with
  | |- runs (pbind _ _) _ _ => apply runs_bind
  | |- runs (pret _) _ _ => apply runs_ret
  | |- runs (throw _) _ _ => apply runs_throw
  | |- runs Has _ _ => apply runs_Has; intros ?
  | |- runs Peek _ _ => apply runs_Peek; intros ?
  | |- runs Take _ _ => apply runs_Take; intros ???
  | |- runs (Match _) _ _ => apply runs_Match; [|intros ??]
  | |- runs (MatchKeyword _) _ _ => apply runs_MatchKeyword; [|intros ??]
  | |- runs (Expect _) _ _ => apply runs_Expect; intros ??
  | |- runs (ExpectKeyword _) _ _ => apply runs_ExpectKeyword; intros ??
  | |- runs TakeIdentifier _ _ => apply runs_TakeIdentifier; intros ???
  | |- runs (literal _) _ _ => apply runs_literal; intros ??
  | |- runs ParseLiteralToken _ _ => apply runs_ParseLiteralToken; intros ????
  | |- runs ParseQualifiedName _ _ => apply runs_ParseQualifiedName; intros ???
  | |- runs (if ?b then _ else _) _ _ => destruct b eqn:?
  | |- runs (match ?x with _ => _ end) _ _ => destruct x eqn:?
  end.

Ltac parse_steps := repeat (parse_step; cbv beta iota).

(** ** Expressions *)

(** A parser of expressions that works on fewer than [n] tokens. *)
Definition expression_runs (n : nat) (p : Parser Expression) : Prop :=
  ∀ ts, length ts < n → runs p ts (λ e ts', parsed_expr e ∧ length ts' < length ts).

Lemma ParsePrimary_runs n p ts : expression_runs n p → length ts ≤ n →
  runs (ParsePrimary p) ts (λ e ts', parsed_expr e ∧ length ts' < length ts).
Proof.
  intros Hp Hts. unfold ParsePrimary. parse_steps; try (split; [done|lia]).
  eapply runs_mono; [apply Hp; lia|]. intros e ts1 [He Hlt]. parse_steps. split; [done|lia].
Qed.

Lemma ParsePredicate_runs n p ts : expression_runs n p → length ts ≤ n →
  runs (ParsePredicate p) ts (λ e ts', parsed_expr e ∧ length ts' < length ts).
Proof.
  intros Hp Hts. unfold ParsePredicate. apply runs_bind.
  assert (Hprim : ∀ ts', length ts' ≤ n → runs (ParsePrimary p) ts' (λ e ts'', parsed_expr e ∧ length ts'' < length ts'))
    by (intros; by apply (ParsePrimary_runs n)).
  eapply runs_mono; [by apply Hprim|]. intros e ts1 [He H1].
  parse_steps; try (split; [done|lia]); (eapply runs_mono; [apply Hprim; lia|]); intros e2 ts2 [He2 H2]; parse_steps;
    try (split; [done|lia]).
  eapply runs_mono; [apply Hprim; lia|]. intros e3 ts3 [He3 H3]. parse_steps. split; [done|lia].
Qed.

Lemma logical_loop_runs n kw op p lhs ts : parsed_expr lhs → length ts ≤ n →
  (∀ ts', length ts' ≤ n → runs p ts' (λ e ts'', parsed_expr e ∧ length ts'' < length ts')) →
  runs (logical_loop kw op p lhs) ts (λ e ts', parsed_expr e ∧ length ts' ≤ length ts).
Proof.
  intros Hl Hts Hp. apply (runs_loop parsed_expr); [done|]. intros e ts1 He H1. parse_steps; [split; [done|lia]|].
  eapply runs_mono; [apply Hp; lia|]. intros e2 ts2 [He2 H2]. parse_steps. split; [done|lia].
Qed.

Lemma ParseAnd_runs n p ts : expression_runs n p → length ts ≤ n →
  runs (ParseAnd p) ts (λ e ts', parsed_expr e ∧ length ts' < length ts).
Proof.
  intros Hp Hts. apply runs_bind. eapply runs_mono; [by apply (ParsePredicate_runs n)|]. intros e ts1 [He H1].
  eapply runs_mono; [apply (logical_loop_runs n); [done|lia|]|].
  - intros ts' H'. by apply (ParsePredicate_runs n).
  - intros e2 ts2 [He2 H2]. split; [done|lia].
Qed.

Lemma parse_expression_runs fuel : expression_runs fuel (parse_expression fuel).
Proof.
  induction fuel as [|fuel IH]; intros ts Hts; [lia|]. simpl. apply runs_bind.
  eapply runs_mono; [apply (ParseAnd_runs fuel); [done|lia]|]. intros e ts1 [He H1].
  eapply runs_mono; [apply (logical_loop_runs fuel); [done|lia|]|].
  - intros ts' H'. by apply (ParseAnd_runs fuel).
  - intros e2 ts2 [He2 H2]. split; [done|lia].
Qed.

Lemma ParseExpression_runs ts : runs ParseExpression ts (λ e ts', parsed_expr e ∧ length ts' < length ts).
Proof. apply (parse_expression_runs (S (length ts))). lia. Qed.

Lemma ParsePrimary_top ts : runs (ParsePrimary ParseExpression) ts (λ e ts', parsed_expr e ∧ length ts' < length ts).
Proof. apply (ParsePrimary_runs (length ts)); [|lia]. intros ts' _. apply ParseExpression_runs. Qed.

Lemma ParseWhere_runs ts Q : (∀ w ts', parsed_where w → Q w ts') → runs ParseWhere ts Q.
Proof.
  intros H. unfold ParseWhere. parse_steps; [by apply H|].
  eapply runs_mono; [apply ParseExpression_runs|]. intros e ts1 [He _]. parse_steps. by apply H.
Qed.

(** ** Statements *)

Lemma Forall_snoc {A} (P : A → Prop) l x : Forall P l → P x → Forall P (l ++ [x]).
Proof. intros Hl Hx. apply Forall_app. by split; [|constructor]. Qed.

Lemma runs_list_end {A} (acc : list A) ts Q :
  (∀ ts', length ts' < length ts → Q (inr acc) ts') → (∀ ts', length ts' < length ts → Q (inl acc) ts') →
  runs (list_end acc) ts Q.
Proof. intros L1 L2. unfold list_end. parse_steps; [apply L2; lia|apply L1; lia]. Qed.

Lemma ParseConstraints_runs col ts : parsed_column col →
  runs (ParseConstraints col) ts (λ c ts', parsed_column c ∧ length ts' ≤ length ts).
Proof.
  intros Hc. apply (runs_loop parsed_column); [done|]. intros c ts1 L1 Hle. parse_steps; try (split; [done|lia]).
  split; [|lia]. by intros ? [= <-].
Qed.

Lemma ParseCreate_runs ts : runs ParseCreate ts (λ s _, parsed_statement s).
Proof.
  unfold ParseCreate. parse_steps; try done. apply (runs_loop (Forall parsed_column)); [constructor|].
  intros columns ts1 Hcols Hle. parse_steps. unfold ParseType.
  assert (Hcol : ∀ n ty, parsed_column (MkColumnSpec n ty false false None)) by done.
  parse_steps; (eapply runs_mono; [apply ParseConstraints_runs, Hcol|]); intros c ts2 [Hc L2];
    (apply runs_list_end; intros ts3 L3; [parse_steps|split; [|lia]]); by apply Forall_snoc.
Qed.

Lemma ParseRow_runs ts : runs ParseRow ts (λ row ts', Forall is_literal row ∧ length ts' < length ts).
Proof.
  unfold ParseRow. parse_steps. apply (runs_loop (Forall is_literal)); [constructor|]. intros row ts1 Hrow Hle. parse_steps.
  apply runs_list_end; intros ts3 L3; (split; [|lia]); by apply Forall_snoc.
Qed.

Lemma ParseInsert_runs ts : runs ParseInsert ts (λ s _, parsed_statement s).
Proof.
  unfold ParseInsert. parse_steps. apply (runs_loop (λ _, True)); [done|]. intros names ts1 _ Hle. parse_steps.
  apply runs_list_end; intros ts2 L2; [|split; [done|lia]].
  assert (Hrows : ∀ us, runs (do rows <- loop (λ rows, do row <- ParseRow ; do more <- Match "," ;
      pret (if (more : bool) then inl (rows ++ [row]) else inr (rows ++ [row]))) [] ;
      pret (InsertStatement q (names ++ [t]) rows)) us (λ s _, parsed_statement s)).
  { intros us. apply runs_bind. apply (runs_loop (Forall (Forall is_literal))); [constructor|]. intros rows ts3 Hrows L3.
    apply runs_bind. eapply runs_mono; [apply ParseRow_runs|]. intros row ts4 [Hrow L4].
    assert (Forall (Forall is_literal) (rows ++ [row])) by (by apply Forall_snoc).
    parse_steps; [done|split; [done|lia]]. }
  apply runs_bind, runs_MatchKeyword; [|intros ts3 L3; apply runs_bind, runs_ret, Hrows].
  apply runs_bind, runs_ExpectKeyword. intros ts3 L3. apply Hrows.
Qed.

Lemma ParseUpdate_runs ts : runs ParseUpdate ts (λ s _, parsed_statement s).
Proof.
  unfold ParseUpdate. parse_steps. apply (runs_loop (Forall (λ a, parsed_expr (assign_value a)))); [constructor|].
  intros acc ts1 Hacc Hle. parse_steps. eapply runs_mono; [apply ParsePrimary_top|]. intros e ts2 [He L2].
  assert (Forall (λ a, parsed_expr (assign_value a)) (acc ++ [MkAssign t e])) by (by apply Forall_snoc).
  parse_steps; [|split; [done|lia]]. apply ParseWhere_runs. intros w ts3 Hw. by parse_steps.
Qed.

Lemma ParseDelete_runs ts : runs ParseDelete ts (λ s _, parsed_statement s).
Proof. unfold ParseDelete. parse_steps. apply ParseWhere_runs. intros w ts3 Hw. by parse_steps. Qed.

Lemma ParseAlias_runs ts : runs ParseAlias ts (λ _ ts', length ts' ≤ length ts).
Proof. unfold ParseAlias. parse_steps; lia. Qed.

Lemma ParseSelectItem_runs ts : runs ParseSelectItem ts (λ _ ts', length ts' < length ts).
Proof.
  unfold ParseSelectItem. parse_steps; (eapply runs_mono; [apply ParseAlias_runs|]); intros al ts3 L3; cbv beta in L3;
    parse_steps; lia.
Qed.

Lemma ParseSelect_runs ts : runs ParseSelect ts (λ s _, parsed_statement s).
Proof.
  unfold ParseSelect.
  assert (Hrest : ∀ items us, runs (do _ <- ExpectKeyword "FROM" ; do name <- ParseQualifiedName ; do w <- ParseWhere ;
    pret (SelectStatement name items w)) us (λ s _, parsed_statement s)).
  { intros items us. parse_steps. apply ParseWhere_runs. intros w ts3 Hw. by parse_steps. }
  apply runs_bind, runs_Match; [|intros ts1 L1]; apply runs_bind; [|apply runs_ret, Hrest].
  apply (runs_loop (λ _, True)); [done|]. intros items ts1 _ Hle. apply runs_bind.
  eapply runs_mono; [apply ParseSelectItem_runs|]. intros item ts2 L2. cbv beta in L2.
  apply runs_bind, runs_Match; [|intros ts3 L3]; apply runs_ret; [apply Hrest|split; [done|lia]].
Qed.

Lemma statement_parsers_run kw p ts : (kw, p) ∈ statement_parsers → runs p ts (λ s _, parsed_statement s).
Proof.
  unfold statement_parsers. rewrite !elem_of_cons. intros H. destruct_or! H; simplify_eq.
  - apply ParseCreate_runs.
  - unfold ParseDrop. by parse_steps.
  - unfold ParseUse. by parse_steps.
  - apply ParseInsert_runs.
  - apply ParseUpdate_runs.
  - apply ParseDelete_runs.
  - apply ParseSelect_runs.
  - unfold ParseRevert. by parse_steps.
  - unfold ParseTransaction. by parse_steps.
  - unfold ParseTransaction. by parse_steps.
  - unfold ParseTransaction. by parse_steps.
  - unfold ParseCheck. by parse_steps.
  - unfold ParseRebuild. by parse_steps.
  - by apply not_elem_of_nil in H.
Qed.

Lemma parse_first_runs parsers ts :
  (∀ kw p ts, (kw, p) ∈ parsers → runs p ts (λ s _, parsed_statement s)) →
  runs (parse_first parsers) ts (λ s _, match s with Some s => parsed_statement s | None => True end).
Proof.
  induction parsers as [|[kw p] parsers IH]; intros Hp; simpl; [by apply runs_ret|].
  apply runs_bind, runs_MatchKeyword; [apply IH; intros; eapply Hp; by right|]. intros ts1 L1.
  apply runs_bind. eapply runs_mono; [eapply Hp; by left|]. intros s ts2 Hs. by apply runs_ret.
Qed.

Lemma parse_tokens_total ts : ∃ r, parse_tokens ts = Some r ∧
  (∀ s, r = Ok s → parsed_statement s ∧ ValidateStatement s = None) ∧ (∀ c, r ≠ Crash c).
Proof.
  unfold parse_tokens. destruct ts as [|t ts]; [by eexists|].
  pose proof (parse_first_runs statement_parsers (t :: ts) statement_parsers_run) as H. unfold runs in H.
  destruct (parse_first _ _) as [[what|[[s|] rest]]|]; try done; [by eexists| |by eexists].
  eexists. split; [done|]. unfold finish.
  destruct (ValidateStatement s) eqn:Ev; destruct rest as [|t' rest]; try (by split);
    try (by split; [intros s' [= <-]|]); (destruct (String.eqb t' ";"); [|by split]); destruct rest; try (by split).
  by split; [intros s' [= <-]|].
Qed.

Lemma Parse_statement sql s : Parse sql = Ok s → parsed_statement s ∧ ValidateStatement s = None.
Proof.
  unfold Parse. destruct (parse_tokens_total (Tokenize sql)) as (r & -> & H & _). apply H.
Qed.

Lemma Parse_no_crash sql c : Parse sql ≠ Crash c.
Proof. unfold Parse. destruct (parse_tokens_total (Tokenize sql)) as (r & -> & _ & H). apply H. Qed.

(** C20: the parser is total: on every text it returns a statement or a parse
    error, no loop or recursion runs on; and a statement it returns has passed
    the validation, its literals fit their types. *)
Theorem parse_total sql :
  (∃ s, Parse sql = Ok s ∧ parsed_statement s ∧ ValidateStatement s = None) ∨
  (∃ what, Parse sql = MakeError kParseError what).
Proof.
  unfold Parse. destruct (parse_tokens_total (Tokenize sql)) as (r & E & H1 & H2). rewrite E.
  destruct r as [s|[code what]|c]; [left; exists s; by destruct (H1 s eq_refl)| |by destruct (H2 c)].
  right. exists what. unfold parse_tokens in E. destruct (Tokenize sql); [by injection E as <- <-|].
  destruct (parse_first _ _) as [[w|[[s0|] rest]]|]; try done; try (by injection E as <- <-). unfold finish, MakeError in E.
  repeat case_match; by simplify_eq.
Qed.
