(* ===== verification/Wal.v ===== *)
(** * Wal: the write-ahead log (src/core/wal_manager.cpp)

    The log file is its contents, [None] when there is no file.  A write may
    fail to open the file or stop after some characters (an I/O error or a
    crash of the process); which, is an argument of the operations.  A stream
    opened for appending is positioned at the end of the file, as with glibc. *)
From S2P Require Import Prelude Numerals CommonTypes Codec.
From Stdlib Require Import Ascii.

Open Scope nat_scope.

Inductive WalType := kSql | kTransaction.

Record WalEntry := MkWalEntry { wal_type : WalType; wal_statements : list string }.

Definition WalFile : Type := option string.

(** What happens to a write of some text: a write that stops may be noticed by
    the stream while it is written, or only when the buffer is flushed as the
    stream is closed or destroyed. *)
Inductive WriteFault :=
| Written
| OpenFails
| StopsAfter (n : nat)
| LostAtClose (n : nat).

Definition text_of (file : WalFile) : string := default "" file.

(** The first [n] characters. *)
Fixpoint str_take (n : nat) (s : string) : string :=
  match n, s with
  | S n, String c s => String c (str_take n s)
  | _, _ => ""
  end.

(** Appends [text]: whether the stream is good at the end, and the file.
    [out.good()] is asked before the destructor flushes, so a text that is lost
    then is reported as written. *)
Definition append_text (fault : WriteFault) (text : string) (file : WalFile) : bool * WalFile :=
  match fault with
  | Written => (true, Some (text_of file +:+ text))
  | OpenFails => (false, file)
  | StopsAfter n => (false, Some (text_of file +:+ str_take n text))
  | LostAtClose n => (true, Some (text_of file +:+ str_take n text))
  end.

Definition line (s : string) : string := s +:+ String newline "".

Definition kHeaderPrefix : string := "WAL" +:+ String tab "".
Definition kCurrentVersion : string := "2".

Definition IsSupportedWalVersion (version : string) : bool := String.eqb version "1" || String.eqb version "2".

Definition header : string := line (kHeaderPrefix +:+ kCurrentVersion).

(** [if (out.tellp() == 0) out << header]. *)
Definition header_for (file : WalFile) : string := if String.eqb (text_of file) "" then header else "".

Definition sql_prefix : string := "SQL" +:+ String tab "".
Definition tx_sql_prefix : string := "TX_SQL" +:+ String tab "".

Definition sql_text (sql : string) : string := line (sql_prefix +:+ EscapeField sql).

Fixpoint tx_lines (statements : list string) : string :=
  match statements with
  | [] => ""
  | s :: ss => line (tx_sql_prefix +:+ EscapeField s) +:+ tx_lines ss
  end.

Definition tx_text (statements : list string) : string :=
  line "TX_BEGIN" +:+ tx_lines statements +:+ line "TX_END".

Definition AppendSql (fault : WriteFault) (sql : string) (file : WalFile) : bool * WalFile :=
  append_text fault (header_for file +:+ sql_text sql) file.

Definition AppendTransaction (fault : WriteFault) (statements : list string) (file : WalFile) : bool * WalFile :=
  append_text fault (header_for file +:+ tx_text statements) file.

(** The file is emptied when it is opened; again [out.good()] is asked before
    the flush. *)
Definition WalReset (fault : WriteFault) (file : WalFile) : bool * WalFile :=
  match fault with
  | Written => (true, Some header)
  | OpenFails => (false, file)
  | StopsAfter n => (false, Some (str_take n header))
  | LostAtClose n => (true, Some (str_take n header))
  end.

(** [QuarantineCorrupted]: the file is renamed, which may fail, and a new one is
    started; the quarantined contents are returned. *)
Definition QuarantineCorrupted (rename_error : bool) (fault : WriteFault) (file : WalFile)
    : bool * WalFile * option string :=
  match file with
  | None => (WalReset fault file, None)
  | Some text => if rename_error then (false, file, None) else (WalReset fault None, Some text)
  end.

(** ** Reading *)

(** The lines [std::getline] returns, one after the other; a text behind the
    last newline is a line of its own. *)
Fixpoint lines_from (current : string) (text : string) : list string :=
  match text with
  | EmptyString => if String.eqb current "" then [] else [current]
  | String ch rest =>
      if Ascii.eqb ch newline then current :: lines_from "" rest else lines_from (push_back current ch) rest
  end.

Definition lines_of (text : string) : list string := lines_from "" text.

(** [line.rfind(prefix, 0) == 0], and the rest of the line. *)
Fixpoint strip_prefix (prefix s : string) : option string :=
  match prefix, s with
  | EmptyString, _ => Some s
  | String c prefix, String d s => if Ascii.eqb c d then strip_prefix prefix s else None
  | _, _ => None
  end.

(** The loop over the lines; [tx] is the open transaction. *)
Fixpoint load_lines (entries : list WalEntry) (tx : option (list string)) (lines : list string) : option (list WalEntry) :=
  match lines with
  | [] => Some entries
  | l :: lines =>
      if String.eqb l "" then load_lines entries tx lines
      else if String.eqb l "TX_BEGIN" then
        match tx with Some _ => None | None => load_lines entries (Some []) lines end
      else if String.eqb l "TX_END" then
        match tx with
        | None => None
        | Some ss => load_lines (entries ++ [MkWalEntry kTransaction ss]) None lines
        end
      else
        match strip_prefix sql_prefix l with
        | Some rest =>
            match tx with
            | Some _ => None
            | None => load_lines (entries ++ [MkWalEntry kSql [UnescapeField rest]]) None lines
            end
        | None =>
            match strip_prefix tx_sql_prefix l with
            | Some rest =>
                match tx with
                | None => None
                | Some ss => load_lines entries (Some (ss ++ [UnescapeField rest])) lines
                end
            | None => None
            end
        end
  end.

Definition LoadAll (file : WalFile) : option (list WalEntry) :=
  match file with
  | None => Some []
  | Some text =>
      match lines_of text with
      | [] => Some []
      | first :: lines =>
          match strip_prefix kHeaderPrefix first with
          | None => None
          | Some version => if IsSupportedWalVersion version then load_lines [] None lines else None
          end
      end
  end.

(** ** Logs as lists of lines *)

Fixpoint unlines (ls : list string) : string :=
  match ls with [] => "" | l :: ls => line l +:+ unlines ls end.

Definition entry_lines (e : WalEntry) : list string :=
  match wal_type e with
  | kSql => map (λ s, sql_prefix +:+ EscapeField s) (wal_statements e)
  | kTransaction => "TX_BEGIN" :: map (λ s, tx_sql_prefix +:+ EscapeField s) (wal_statements e) ++ ["TX_END"]
  end.

Definition header_line : string := kHeaderPrefix +:+ kCurrentVersion.

(** The file after a header and some entries. *)
Definition log_of (es : list WalEntry) : string := unlines (header_line :: flat_map entry_lines es).

Definition one_line (s : string) : Prop := no_char newline s = true.

(** An entry as the engine writes it, without newlines in its statements. *)
Definition entry_ok (e : WalEntry) : Prop :=
  Forall one_line (wal_statements e) ∧ match wal_type e with kSql => length (wal_statements e) = 1 | kTransaction => True end.

Lemma unlines_app a b : unlines (a ++ b) = unlines a +:+ unlines b.
Proof. induction a as [|l a IH]; simpl; [done|]. by rewrite IH, str_app_assoc. Qed.

Lemma lines_from_line cur l t : one_line l → lines_from cur (line l +:+ t) = (cur +:+ l) :: lines_from "" t.
Proof.
  unfold one_line, line. revert cur. induction l as [|ch l IH]; intros cur; simpl; [by rewrite str_app_nil_r|].
  intros [H1%negb_true_iff H2]%andb_true_iff. rewrite H1, IH by done. by rewrite push_back_app.
Qed.

Lemma lines_unlines ls t : Forall one_line ls → lines_of (unlines ls +:+ t) = ls ++ lines_of t.
Proof.
  induction 1 as [|l ls Hl _ IH]; simpl; [done|]. rewrite <-str_app_assoc. unfold lines_of at 1.
  rewrite lines_from_line by done. simpl. f_equal. exact IH.
Qed.

Lemma escaped_one_line p s : one_line p → one_line s → one_line (p +:+ EscapeField s).
Proof. unfold one_line. intros Hp Hs. by rewrite no_char_app, escape_no_newline, Hp, Hs. Qed.

Lemma entry_lines_one_line e : entry_ok e → Forall one_line (entry_lines e).
Proof.
  intros [Hs _]. unfold entry_lines. assert (Hmap : ∀ p, one_line p → Forall one_line (map (λ s, p +:+ EscapeField s) (wal_statements e))).
  { intros p Hp. apply Forall_fmap. eapply Forall_impl; [exact Hs|]. intros s. by apply escaped_one_line. }
  destruct (wal_type e); [by apply Hmap|]. constructor; [done|]. apply Forall_app. split; [by apply Hmap|by repeat constructor].
Qed.

Lemma entries_one_line es : Forall entry_ok es → Forall one_line (header_line :: flat_map entry_lines es).
Proof.
  intros Hes. constructor; [done|]. induction Hes as [|e es He _ IH]; simpl; [constructor|].
  apply Forall_app. split; [by apply entry_lines_one_line|done].
Qed.

(** ** Loading *)

Lemma strip_prefix_app p s : strip_prefix p (p +:+ s) = Some s.
Proof. induction p as [|c p IH]; simpl; [done|]. by rewrite Ascii.eqb_refl. Qed.

Lemma load_sql acc s lines :
  load_lines acc None ((sql_prefix +:+ EscapeField s) :: lines) = load_lines (acc ++ [MkWalEntry kSql [s]]) None lines.
Proof. cbn [load_lines]. rewrite strip_prefix_app, unescape_escape. done. Qed.

Lemma load_tx_sql acc ss s lines :
  load_lines acc (Some ss) ((tx_sql_prefix +:+ EscapeField s) :: lines) = load_lines acc (Some (ss ++ [s])) lines.
Proof.
  change (strip_prefix sql_prefix (tx_sql_prefix +:+ EscapeField s)) with (None : option string).
  cbn [load_lines]. rewrite strip_prefix_app, unescape_escape. done.
Qed.

Lemma load_tx_sqls acc ss ss' lines :
  load_lines acc (Some ss) (map (λ s, tx_sql_prefix +:+ EscapeField s) ss' ++ lines) = load_lines acc (Some (ss ++ ss')) lines.
Proof.
  revert ss. induction ss' as [|s ss' IH]; intros ss; cbn [map app]; [by rewrite app_nil_r|].
  rewrite load_tx_sql, IH. by rewrite <-app_assoc.
Qed.

Lemma load_entry acc e lines : entry_ok e → load_lines acc None (entry_lines e ++ lines) = load_lines (acc ++ [e]) None lines.
Proof.
  intros [_ He]. destruct e as [[|] ss]; unfold entry_lines; simpl wal_type in *; simpl wal_statements in *; cbv iota in *.
  - destruct ss as [|s [|]]; try done. cbn [map app]. by rewrite load_sql.
  - cbn [app load_lines]. rewrite <-app_assoc. rewrite load_tx_sqls. done.
Qed.

Lemma load_entries acc es lines : Forall entry_ok es →
  load_lines acc None (flat_map entry_lines es ++ lines) = load_lines (acc ++ es) None lines.
Proof.
  intros Hes. revert acc. induction Hes as [|e es He _ IH]; intros acc; simpl; [by rewrite app_nil_r|].
  rewrite <-app_assoc, load_entry by done. rewrite IH. by rewrite <-app_assoc.
Qed.

Lemma LoadAll_log es t : Forall entry_ok es → LoadAll (Some (log_of es +:+ t)) = load_lines es None (lines_of t).
Proof.
  intros Hes. unfold LoadAll, log_of. rewrite lines_unlines by (by apply entries_one_line). cbn [app].
  unfold header_line at 1. rewrite strip_prefix_app. cbn [IsSupportedWalVersion]. rewrite load_entries by done. done.
Qed.

(** ** What the appends write *)

Lemma tx_lines_unlines ss : tx_lines ss = unlines (map (λ s, tx_sql_prefix +:+ EscapeField s) ss).
Proof. induction ss as [|s ss IH]; [done|]. cbn [tx_lines map unlines]. by rewrite IH. Qed.

Lemma tx_text_unlines ss : tx_text ss = unlines (entry_lines (MkWalEntry kTransaction ss)).
Proof.
  unfold tx_text, entry_lines. cbn [wal_type wal_statements]. cbn [unlines]. rewrite unlines_app, tx_lines_unlines.
  cbn [unlines]. by rewrite str_app_nil_r.
Qed.

Lemma sql_text_unlines s : sql_text s = unlines (entry_lines (MkWalEntry kSql [s])).
Proof. unfold sql_text, entry_lines. cbn [wal_type wal_statements map unlines]. by rewrite str_app_nil_r. Qed.

(** The file holds these entries. *)
Definition holds (file : WalFile) (es : list WalEntry) : Prop :=
  Forall entry_ok es ∧ match file with None => es = [] | Some text => text = log_of es end.

Lemma log_of_snoc es e : log_of (es ++ [e]) = log_of es +:+ unlines (entry_lines e).
Proof.
  unfold log_of. rewrite flat_map_app, app_comm_cons, unlines_app. simpl flat_map. by rewrite app_nil_r.
Qed.

(** An append writes the lines of the entry, after a header in a new file. *)
Lemma appended_text file es e : holds file es →
  text_of file +:+ header_for file +:+ unlines (entry_lines e) = log_of (es ++ [e]).
Proof.
  intros [_ Hf]. rewrite log_of_snoc. destruct file as [text|]; [subst text|subst es].
  - unfold header_for. simpl. by destruct (log_of es).
  - reflexivity.
Qed.

Lemma append_holds file es e : holds file es → entry_ok e → holds (Some (log_of (es ++ [e]))) (es ++ [e]).
Proof. intros [Hes _] He. split; [|done]. apply Forall_app. by split; [|constructor]. Qed.

Definition append_entry (file : WalFile) (e : WalEntry) : WalFile :=
  match wal_type e with
  | kSql => (AppendSql Written (hd "" (wal_statements e)) file).2
  | kTransaction => (AppendTransaction Written (wal_statements e) file).2
  end.

Lemma append_entry_holds file es e : holds file es → entry_ok e → holds (append_entry file e) (es ++ [e]).
Proof.
  intros Hf He. pose proof (append_holds file es e Hf He) as H. pose proof (appended_text file es e Hf) as Ht.
  destruct e as [[|] ss]; unfold append_entry; simpl wal_type; cbv iota.
  - destruct He as [_ He]. simpl in He. destruct ss as [|s [|]]; try done. unfold AppendSql, append_text.
    cbn [hd wal_statements snd]. rewrite sql_text_unlines, Ht. done.
  - unfold AppendTransaction, append_text. cbn [wal_statements snd]. rewrite tx_text_unlines, Ht. done.
Qed.

Lemma append_entries_hold file es es' : holds file es → Forall entry_ok es' → holds (foldl append_entry file es') (es ++ es').
Proof.
  intros Hf Hes'. revert file es Hf. induction Hes' as [|e es' He _ IH]; intros file es Hf; simpl; [by rewrite app_nil_r|].
  replace (es ++ e :: es') with ((es ++ [e]) ++ es') by (by rewrite <-app_assoc). apply IH. by apply append_entry_holds.
Qed.

Lemma LoadAll_holds file es : holds file es → LoadAll file = Some es.
Proof.
  intros [Hes Hf]. destruct file as [text|]; [subst text|by subst]. rewrite <-(str_app_nil_r (log_of es)).
  by rewrite LoadAll_log.
Qed.

(** C21: the log is faithful: any sequence of statements and transactions, none
    of them with a newline, appended to a new log is read back as it was
    written. *)
Theorem wal_roundtrip es : Forall entry_ok es → LoadAll (foldl append_entry None es) = Some es.
Proof. intros Hes. apply LoadAll_holds. apply (append_entries_hold None []); [by split|done]. Qed.

Definition sample_log : list WalEntry :=
  [MkWalEntry kSql ["INSERT INTO t (a) VALUES (1);"]; MkWalEntry kTransaction ["DELETE FROM t;"; "DROP TABLE t;"]].

Lemma wal_roundtrip_witness : LoadAll (foldl append_entry None sample_log) = Some sample_log.
Proof. apply wal_roundtrip. repeat constructor. Defined.

(** ** Writes that stop half way *)

Fixpoint str_prefix (p s : string) : Prop :=
  match p, s with
  | EmptyString, _ => True
  | String c p, String d s => c = d ∧ str_prefix p s
  | _, _ => False
  end.

Lemma str_take_prefix n s : str_prefix (str_take n s) s.
Proof. revert s. induction n as [|n IH]; intros [|c s]; simpl; try done. Qed.

Lemma str_take_app n a b :
  str_take n (a +:+ b) = if n <? String.length a then str_take n a else a +:+ str_take (n - String.length a) b.
Proof.
  revert n. induction a as [|c a IH]; intros n; simpl; [by rewrite Nat.sub_0_r|].
  destruct n as [|n]; [done|]. cbn [str_take String.append]. rewrite IH.
  change (S n <? S (String.length a)) with (n <? String.length a). by destruct (n <? String.length a).
Qed.

Lemma prefix_one_line p s : str_prefix p s → one_line s → one_line p.
Proof.
  unfold one_line. revert s. induction p as [|c p IH]; intros [|d s]; simpl; try done. intros [-> Hp].
  intros [-> H]%andb_true_iff. simpl. by eapply IH.
Qed.

Lemma lines_of_one_line p : one_line p → lines_of p = if String.eqb p "" then [] else [p].
Proof.
  unfold lines_of. assert (H : ∀ cur, one_line p → lines_from cur p = if String.eqb (cur +:+ p) "" then [] else [cur +:+ p]);
    [|apply H].
  unfold one_line. induction p as [|c p IH]; intros cur; simpl; [by rewrite str_app_nil_r|].
  intros [H1%negb_true_iff H2]%andb_true_iff. rewrite H1, IH by done. by rewrite push_back_app.
Qed.

(** A text of lines cut off somewhere: whole lines, and then a part of the next
    one, which may be all of it but its newline. *)
Lemma torn_lines ls n : Forall one_line ls → ∃ k rest,
  lines_of (str_take n (unlines ls)) = take k ls ++ rest ∧
  (rest = [] ∧ (k < length ls ∨ String.length (unlines ls) ≤ n) ∨
   ∃ l q, ls !! k = Some l ∧ rest = [q] ∧ str_prefix q l ∧ q ≠ "").
Proof.
  intros Hls. revert n. induction Hls as [|l ls Hl Hls IH]; intros n.
  { exists 0, []. split; [by destruct n|]. left. split; [done|right; simpl; lia]. }
  cbn [unlines]. unfold line at 1. rewrite <-str_app_assoc, str_take_app.
  destruct (Nat.ltb_spec n (String.length l)) as [Hn|Hn].
  - pose proof (str_take_prefix n l) as Hp. exists 0.
    rewrite lines_of_one_line by (by eapply prefix_one_line). destruct (String.eqb_spec (str_take n l) "") as [Hq|Hq].
    + exists []. split; [done|]. left. split; [done|left; simpl; lia].
    + exists [str_take n l]. split; [done|]. right. by exists l, (str_take n l).
  - destruct (n - String.length l) as [|m] eqn:Em.
    + exists 0. simpl str_take. rewrite str_app_nil_r, lines_of_one_line by done.
      destruct (String.eqb_spec l "") as [->|Hq].
      * exists []. split; [done|]. left. split; [done|left; simpl; lia].
      * exists [l]. split; [done|]. right. exists l, l. split_and!; try done.
        clear. induction l; simpl; auto.
    + destruct (IH m) as (k & rest & E & H). exists (S k), rest. cbn [String.append str_take].
      change (l +:+ String newline (str_take m (unlines ls))) with (l +:+ (String newline "" +:+ str_take m (unlines ls))).
      rewrite str_app_assoc. change (l +:+ String newline "") with (line l). unfold lines_of at 1.
      rewrite lines_from_line by done. fold (lines_of (str_take m (unlines ls))). rewrite E. split; [done|].
      destruct H as [[-> H]|(l' & q & Hl' & -> & Hq)]; [left|right; by exists l', q]. split; [done|].
      destruct H as [H|H]; [left; simpl; lia|right]. cbn [unlines]. unfold line. rewrite !str_length_app. simpl. lia.
Qed.

(** Lines that commit nothing. *)
Definition no_commit (l : string) : Prop := l ≠ "TX_END" ∧ strip_prefix sql_prefix l = None.

Lemma load_no_commit es tx ls : Forall no_commit ls → load_lines es tx ls = None ∨ load_lines es tx ls = Some es.
Proof.
  intros Hls. revert tx. induction Hls as [|l ls [H1 H2] _ IH]; intros tx; [by right|]. cbn [load_lines].
  destruct (String.eqb l ""); [apply IH|]. destruct (String.eqb l "TX_BEGIN"); [destruct tx; [by left|apply IH]|].
  destruct (String.eqb_spec l "TX_END"); [done|]. rewrite H2.
  destruct (strip_prefix tx_sql_prefix l); [|by left]. destruct tx; [apply IH|by left].
Qed.

(** The lines of a transaction before its end, also cut off. *)
Lemma tx_line_no_commit ss l q : l ∈ "TX_BEGIN" :: map (λ s, tx_sql_prefix +:+ EscapeField s) ss → str_prefix q l → q ≠ "" →
  no_commit q.
Proof.
  intros Hl Hq Hne. assert (Hc : ∃ r, q = String "T" r).
  { apply elem_of_cons in Hl as [->|(s & -> & _)%list_elem_of_fmap]; destruct q as [|c q]; try done;
      destruct Hq as [-> _]; by eexists. }
  split; [|destruct Hc as [r ->]; done]. intros ->. apply elem_of_cons in Hl as [->|(s & -> & _)%list_elem_of_fmap];
    cbn in Hq; naive_solver.
Qed.

Lemma no_commit_lines ss ls : (∀ l, l ∈ ls → l ∈ "TX_BEGIN" :: map (λ s, tx_sql_prefix +:+ EscapeField s) ss) → Forall no_commit ls.
Proof.
  intros H. apply Forall_forall. intros l Hl. apply (tx_line_no_commit ss l); [by apply H| |].
  - clear. induction l; simpl; auto.
  - intros ->. apply H, elem_of_cons in Hl as [[=]|(s & [=] & _)%list_elem_of_fmap].
Qed.

(** What the lines of a cut off transaction load to. *)
Lemma load_torn es ss k rest :
  let ls := entry_lines (MkWalEntry kTransaction ss) in
  Forall one_line ss →
  (rest = [] ∨ ∃ l q, ls !! k = Some l ∧ rest = [q] ∧ str_prefix q l ∧ q ≠ "") →
  let loaded := load_lines es None (take k ls ++ rest) in
  loaded = None ∨ loaded = Some es ∨ loaded = Some (es ++ [MkWalEntry kTransaction ss]).
Proof.
  intros ls Hss Hrest. cbv zeta. set (txs := "TX_BEGIN" :: map (λ s, tx_sql_prefix +:+ EscapeField s) ss).
  assert (Hls : ls = txs ++ ["TX_END"]) by done.
  assert (Hfull : load_lines es None ls = Some (es ++ [MkWalEntry kTransaction ss])).
  { rewrite <-(app_nil_r ls). unfold ls. by rewrite load_entry by (by split). }
  assert (Hpart : ∀ j q, no_commit q → load_lines es None (take j txs ++ [q]) = None ∨ load_lines es None (take j txs ++ [q]) = Some es).
  { intros j q Hq. apply load_no_commit, Forall_app. split; [|by constructor]. apply (no_commit_lines ss). intros l Hl.
    by eapply elem_of_take in Hl as (i & Hl & _); apply list_elem_of_lookup_2 in Hl. }
  destruct (decide (k < length ls)) as [Hk|Hk].
  - assert (Hk2 : k ≤ length txs) by (rewrite Hls, length_app in Hk; change (length ["TX_END"]) with 1 in Hk; lia).
    rewrite Hls, take_app_le by done.
    destruct Hrest as [->|(l & q & Hl & -> & Hq & Hne)].
    + rewrite app_nil_r. destruct (load_no_commit es None (take k txs)) as [->| ->]; auto.
      apply (no_commit_lines ss). intros l Hl. by eapply elem_of_take in Hl as (i & Hl & _); apply list_elem_of_lookup_2 in Hl.
    + rewrite Hls in Hl. destruct (decide (k < length txs)) as [Hk'|Hk'].
      * rewrite lookup_app_l in Hl by done. apply list_elem_of_lookup_2 in Hl.
        destruct (Hpart k q) as [->| ->]; auto. by eapply tx_line_no_commit.
      * assert (k = length txs) as -> by lia. rewrite lookup_app_r, Nat.sub_diag in Hl by lia. injection Hl as <-.
        destruct (decide (q = "TX_END")) as [->|Hend]; [rewrite take_ge by lia; rewrite <-Hls; auto|].
        destruct (Hpart (length txs) q) as [->| ->]; auto. split; [done|]. destruct q as [|c q]; [done|]. destruct Hq as [-> _]. done.
  - rewrite take_ge by lia. destruct Hrest as [->|(l & q & Hl & _)]; [rewrite app_nil_r; auto|].
    apply lookup_lt_Some in Hl. lia.
Qed.

(** The log with a part of a transaction behind it. *)
Lemma torn_transaction file es ss n :
  holds file es → Forall one_line ss →
  let loaded := LoadAll (Some (text_of file +:+ str_take n (header_for file +:+ tx_text ss))) in
  loaded = None ∨ loaded = Some es ∨ loaded = Some (es ++ [MkWalEntry kTransaction ss]).
Proof.
  intros [Hes Hf] Hss. rewrite tx_text_unlines.
  set (ls := entry_lines (MkWalEntry kTransaction ss)).
  assert (Hls : Forall one_line ls) by (by apply entry_lines_one_line).
  assert (Htorn : ∀ k rest, (rest = [] ∧ (k < length ls ∨ String.length (unlines ls) ≤ n) ∨ ∃ l q, ls !! k = Some l ∧
    rest = [q] ∧ str_prefix q l ∧ q ≠ "") → rest = [] ∨ ∃ l q, ls !! k = Some l ∧ rest = [q] ∧ str_prefix q l ∧ q ≠ "") by naive_solver.
  cbv zeta. destruct file as [text|]; [subst text|subst es].
  - change (text_of (Some (log_of es))) with (log_of es). change (header_for (Some (log_of es)) +:+ unlines ls) with (unlines ls).
    rewrite LoadAll_log by done.
    destruct (torn_lines ls n Hls) as (k & rest & -> & Hr). apply load_torn; [done|]. by apply Htorn.
  - change (header_for None +:+ unlines ls) with (unlines (header_line :: ls)).
    destruct (torn_lines (header_line :: ls) n) as (k & rest & E & Hr); [by constructor|].
    change (text_of None +:+ str_take n (unlines (header_line :: ls))) with (str_take n (unlines (header_line :: ls))).
    unfold LoadAll. rewrite E. destruct k as [|k].
    + simpl take. cbn [app]. destruct Hr as [[-> _]|(l & q & Hl & -> & Hq & _)]; [auto|].
      destruct (strip_prefix kHeaderPrefix q); [|auto]. destruct (IsSupportedWalVersion _); auto.
    + cbn [take app]. unfold header_line at 1 2 3. rewrite strip_prefix_app. cbn [IsSupportedWalVersion].
      apply load_torn; [done|]. destruct Hr as [[-> _]|(l & q & Hl & Hrest)]; [by left|right; by exists l, q].
Qed.

(** C22: transactions are atomic in the log: whatever happens to the write of
    one behind a log that holds entries (it works, the file cannot be opened, or
    the write stops after any number of characters, noticed or not), reading the
    log back finds the log damaged, or all of the earlier entries and either
    nothing or all of the transaction; the statements of the transaction and of
    the log have no newline in them. *)
Theorem torn_transaction_atomic file es ss fault :
  holds file es → Forall one_line ss →
  let loaded := LoadAll (AppendTransaction fault ss file).2 in
  loaded = None ∨ loaded = Some es ∨ loaded = Some (es ++ [MkWalEntry kTransaction ss]).
Proof.
  intros Hf Hss. unfold AppendTransaction. destruct fault as [| |n|n]; cbn [append_text snd].
  - right. right. apply (LoadAll_holds (append_entry file (MkWalEntry kTransaction ss))), append_entry_holds; [done|].
    by repeat constructor.
  - right. left. by apply LoadAll_holds.
  - by apply torn_transaction.
  - by apply torn_transaction.
Qed.

Lemma torn_transaction_atomic_witness :
  let file := Some (log_of sample_log) in
  let loaded := LoadAll (AppendTransaction (StopsAfter 30) ["DELETE FROM t;"; "USE d;"] file).2 in
  loaded = None ∨ loaded = Some sample_log ∨
  loaded = Some (sample_log ++ [MkWalEntry kTransaction ["DELETE FROM t;"; "USE d;"]]).
Proof. apply torn_transaction_atomic; [split; [repeat constructor|reflexivity]|repeat constructor]. Defined.

(** A single statement has no end mark: cut off, it is read back as a shorter
    statement. *)
Lemma torn_statement_is_replayed :
  LoadAll (AppendSql (StopsAfter 19) "DELETE FROM t WHERE a == 1;" (Some header)).2 =
  Some [MkWalEntry kSql ["DELETE FROM t W"]] ∧
  LoadAll (AppendSql (StopsAfter 17) "DELETE FROM t WHERE a == 1;" (Some header)).2 =
  Some [MkWalEntry kSql ["DELETE FROM t"]].
Proof. split; vm_compute; reflexivity. Qed.
