(* ===== verification/Engine.v ===== *)
(** * Engine: sessions, transactions, the log and the disk (src/core/dbms_engine.cpp)

    [ExecuteSqlImpl] parses, plans and executes a text for a session, inside the
    session's transaction if it has one, and otherwise logs and saves every
    change.  The files of [RuntimePersistence] are a parameter: a type [D] of
    disk contents with [save] and [load].  Whether a write works is decided by
    [io], a function of the number of writes so far. *)
From S2P Require Import Prelude Numerals CommonTypes Storage BStarPlusTree IndexSpec RuntimeState.
From S2P Require Import Ast VersionStore Predicates Execution Planner Lexer Parser Wal.

Open Scope Z_scope.

Section data.
Context (T D : Type).

Record TransactionContext := MkTx {
  tx_state : RuntimeState T;
  tx_versions : VersionStore;
  tx_wal : list string
}.

Record DbmsEngine := MkEngine {
  en_runtime : RuntimeState T;
  en_transactions : gmap string TransactionContext;
  en_catalog : Catalog;
  en_versions : VersionStore;
  en_pool : StringPool;
  en_wal : WalFile;
  en_disk : D;
  en_tick : nat;
  en_io : nat
}.

End data.
Arguments MkTx {T} _ _ _.
Arguments tx_state {T} _.
Arguments tx_versions {T} _.
Arguments tx_wal {T} _.
Arguments MkEngine {T D} _ _ _ _ _ _ _ _ _.
Arguments en_runtime {T D} _.
Arguments en_transactions {T D} _.
Arguments en_catalog {T D} _.
Arguments en_versions {T D} _.
Arguments en_pool {T D} _.
Arguments en_wal {T D} _.
Arguments en_disk {T D} _.
Arguments en_tick {T D} _.
Arguments en_io {T D} _.

(** [RuntimePersistence]: [Save] may fail and leave any contents behind; [Load]
    may throw, and its result is not looked at. *)
Class PersistenceOps (T D : Type) := {
  save : RuntimeState T → VersionStore → StringPool → D → nat → bool * D;
  load : D → Outcome (RuntimeState T * VersionStore * StringPool)
}.

Definition IsMutatingStatement (s : Statement) : bool :=
  match s with SelectStatement _ _ _ | UseDatabaseStatement _ | CheckIndexStatement => false | _ => true end.

Definition IsDdlStatement (s : Statement) : bool :=
  match s with
  | CreateDatabaseStatement _ | DropDatabaseStatement _ | CreateTableStatement _ _ | DropTableStatement _ => true
  | _ => false
  end.

(** CHECK INDEX and REBUILD INDEX. *)
Definition is_service_statement (s : Statement) : bool :=
  match s with CheckIndexStatement | RebuildIndexStatement => true | _ => false end.

Definition TransactionKey (session : SessionContext) : string :=
  if String.eqb (ses_client session) "" then "__default_session__" else ses_client session.

Section engine.
Context {T D : Type} `{!IndexOps T} `{!PersistenceOps T D}.
Context (regex_match : string → string → Outcome bool) (clock : nat → Tm) (io : nat → WriteFault).

Implicit Types en : DbmsEngine T D.

Definition with_transactions (txs : gmap string (TransactionContext T)) en : DbmsEngine T D :=
  MkEngine (en_runtime en) txs (en_catalog en) (en_versions en) (en_pool en) (en_wal en) (en_disk en) (en_tick en) (en_io en).

Definition with_committed (s : RuntimeState T) (vs : VersionStore) en : DbmsEngine T D :=
  MkEngine s (en_transactions en) (en_catalog en) vs (en_pool en) (en_wal en) (en_disk en) (en_tick en) (en_io en).

(** A write to the log. *)
Definition with_wal (write : WriteFault → WalFile → bool * WalFile) en : bool * DbmsEngine T D :=
  let '(ok, file) := write (io (en_io en)) (en_wal en) in
  (ok, MkEngine (en_runtime en) (en_transactions en) (en_catalog en) (en_versions en) (en_pool en) file (en_disk en)
         (en_tick en) (S (en_io en))).

(** [persistence_.Save(runtime_state_, version_store_, string_pool_)]. *)
Definition with_save en : bool * DbmsEngine T D :=
  let '(ok, disk) := save (en_runtime en) (en_versions en) (en_pool en) (en_disk en) (en_io en) in
  (ok, MkEngine (en_runtime en) (en_transactions en) (en_catalog en) (en_versions en) (en_pool en) (en_wal en) disk
         (en_tick en) (S (en_io en))).

(** The environment of an execution on a runtime state and a change log. *)
Definition env_on en (session : SessionContext) (s : RuntimeState T) (vs : VersionStore) : Env T :=
  MkEnv (en_catalog en) s vs (en_pool en) session (en_tick en).

(** The catalog, the pool and the clock are shared by all executions. *)
Definition absorb (e : Env T) en : DbmsEngine T D :=
  MkEngine (en_runtime en) (en_transactions en) (e_catalog e) (en_versions en) (e_pool e) (en_wal en) (en_disk en)
    (e_tick e) (en_io en).

Definition Response : Type := Outcome QueryResult * SessionContext * DbmsEngine T D.

(** [if (write_wal) append; Save; if (write_wal) Reset], with the messages of
    their failures; [appended] is the first step. *)
Definition checkpoint (write_wal : bool) (session : SessionContext) (result : QueryResult) en : Response :=
  let '(saved, en) := with_save en in
  if negb saved then (MakeError kStorageError "failed to persist state", session, en)
  else if write_wal then
    let '(reset, en) := with_wal WalReset en in
    if negb reset then (MakeError kStorageError "failed to checkpoint WAL", session, en) else (Ok result, session, en)
  else (Ok result, session, en).

Definition ExecuteBegin (session : SessionContext) en : Response :=
  match en_transactions en !! TransactionKey session with
  | Some _ => (MakeError kValidationError "transaction already active for session", session, en)
  | None =>
      match CloneRuntimeState (en_runtime en) with
      | Err er => (Err er, session, en)
      | Crash c => (Crash c, session, en)
      | Ok working =>
          (Ok (message_result "transaction started"), session,
           with_transactions (<[TransactionKey session := MkTx working (en_versions en) []]> (en_transactions en)) en)
      end
  end.

(** A failed append leaves the transaction with its moved-from containers,
    which are empty. *)
Definition ExecuteCommit (write_wal : bool) (session : SessionContext) en : Response :=
  let key := TransactionKey session in
  match en_transactions en !! key with
  | None => (MakeError kValidationError "no active transaction for session", session, en)
  | Some tx =>
      let en := with_committed (tx_state tx) (tx_versions tx) en in
      let '(appended, en) :=
        match write_wal, tx_wal tx with
        | true, _ :: _ => with_wal (λ fault, AppendTransaction fault (tx_wal tx)) en
        | _, _ => (true, en)
        end in
      if negb appended then
        (MakeError kStorageError "failed to append WAL TX", session,
         with_transactions (<[key := MkTx (MkRuntime ∅) [] (tx_wal tx)]> (en_transactions en)) en)
      else
        checkpoint write_wal session (message_result "transaction committed")
          (with_transactions (delete key (en_transactions en)) en)
  end.

Definition ExecuteRollback (session : SessionContext) en : Response :=
  match en_transactions en !! TransactionKey session with
  | None => (MakeError kValidationError "no active transaction for session", session, en)
  | Some _ =>
      (Ok (message_result "transaction rolled back"), session,
       with_transactions (delete (TransactionKey session) (en_transactions en)) en)
  end.

(** A statement inside a transaction works on its state and log. *)
Definition ExecuteInTransaction (write_wal : bool) (session : SessionContext) (sql : string) (statement : Statement)
    (tx : TransactionContext T) en : Response :=
  if is_service_statement statement then
    (MakeError kValidationError "service index commands are not allowed inside active transaction", session, en)
  else if IsDdlStatement statement then
    (MakeError kValidationError "DDL statements are not allowed inside an active transaction", session, en)
  else
    match BuildPlan (Some (tx_state tx)) statement with
    | Err er => (Err er, session, en)
    | Crash c => (Crash c, session, en)
    | Ok plan =>
        let '(result, e) := ExecutePlan regex_match clock plan (env_on en session (tx_state tx) (tx_versions tx)) in
        let logged := match result with
                      | Ok _ => if (write_wal && IsMutatingStatement statement)%bool then tx_wal tx ++ [sql] else tx_wal tx
                      | _ => tx_wal tx
                      end in
        let en := absorb e en in
        (result, e_session e,
         with_transactions (<[TransactionKey session := MkTx (e_runtime e) (e_versions e) logged]> (en_transactions en)) en)
    end.

(** A statement on its own is logged and saved if it changed anything. *)
Definition ExecuteAutocommit (write_wal : bool) (session : SessionContext) (sql : string) (statement : Statement) en
    : Response :=
  match BuildPlan (Some (en_runtime en)) statement with
  | Err er => (Err er, session, en)
  | Crash c => (Crash c, session, en)
  | Ok plan =>
      let '(result, e) := ExecutePlan regex_match clock plan (env_on en session (en_runtime en) (en_versions en)) in
      let en := with_committed (e_runtime e) (e_versions e) (absorb e en) in
      let session := e_session e in
      match result with
      | Ok r =>
          if IsMutatingStatement statement then
            let '(appended, en) :=
              if write_wal then with_wal (λ fault, AppendSql fault sql) en else (true, en) in
            if negb appended then (MakeError kStorageError "failed to append WAL SQL", session, en)
            else checkpoint write_wal session r en
          else (Ok r, session, en)
      | _ => (result, session, en)
      end
  end.

Definition ExecuteSqlImpl (write_wal : bool) (session : SessionContext) (sql : string) en : Response :=
  match Parse sql with
  | Err er => (Err er, session, en)
  | Crash c => (Crash c, session, en)
  | Ok statement =>
      match statement with
      | BeginTransactionStatement => ExecuteBegin session en
      | CommitTransactionStatement => ExecuteCommit write_wal session en
      | RollbackTransactionStatement => ExecuteRollback session en
      | _ =>
          match en_transactions en !! TransactionKey session with
          | Some tx => ExecuteInTransaction write_wal session sql statement tx en
          | None => ExecuteAutocommit write_wal session sql statement en
          end
      end
  end.

Definition ExecuteSql (session : SessionContext) (sql : string) en : Response := ExecuteSqlImpl true session sql en.

(** ** Recovery *)

(** [result.ok()]; an exception leaves the constructor. *)
Definition worked {A} (o : Outcome A) : Outcome bool :=
  match o with Ok _ => Ok true | Err _ => Ok false | Crash c => Crash c end.

(** The statements of a logged transaction: whether all of them worked. *)
Fixpoint replay_statements (session : SessionContext) (statements : list string) en
    : Outcome bool * SessionContext * DbmsEngine T D :=
  match statements with
  | [] => (Ok true, session, en)
  | s :: ss =>
      let '(result, session, en) := ExecuteSqlImpl false session s en in
      match worked result with
      | Ok true => replay_statements session ss en
      | Ok false => let '(_, session, en) := ExecuteSqlImpl false session "ROLLBACK;" en in (Ok false, session, en)
      | failure => (failure, session, en)
      end
  end.

Fixpoint replay_entries (session : SessionContext) (entries : list WalEntry) en : Outcome bool * DbmsEngine T D :=
  match entries with
  | [] => (Ok true, en)
  | entry :: entries =>
      match wal_type entry with
      | kSql =>
          match wal_statements entry with
          | [] => replay_entries session entries en
          | s :: _ =>
              let '(result, session, en) := ExecuteSqlImpl false session s en in
              match worked result with
              | Ok true => replay_entries session entries en
              | failure => (failure, en)
              end
          end
      | kTransaction =>
          let '(begin_, session, en) := ExecuteSqlImpl false session "BEGIN;" en in
          match worked begin_ with
          | Ok true =>
              let '(replayed, session, en) := replay_statements session (wal_statements entry) en in
              match replayed with
              | Ok true =>
                  let '(commit, session, en) := ExecuteSqlImpl false session "COMMIT;" en in
                  match worked commit with
                  | Ok true => replay_entries session entries en
                  | failure => (failure, en)
                  end
              | failure => (failure, en)
              end
          | failure => (failure, en)
          end
      end
  end.

Definition recovery_session : SessionContext := MkSession "__wal_recovery__" None "".

Definition ReplayWal en : Outcome bool * DbmsEngine T D :=
  match LoadAll (en_wal en) with
  | None => (Ok false, en)
  | Some [] => (Ok true, (with_wal WalReset en).2)
  | Some entries =>
      let '(replayed, en) := replay_entries recovery_session entries en in
      match replayed with
      | Ok true => (Ok true, (with_wal WalReset en).2)
      | failure => (failure, en)
      end
  end.

(** The constructor: what is on the disk, then what is in the log; a log that
    cannot be replayed is put aside. *)
Definition NewEngine (root_path : string) (rename_error : bool) (disk : D) (wal : WalFile) : Outcome (DbmsEngine T D) :=
  let* '(s, vs, pool) := load disk in
  let '(replayed, en) := ReplayWal (MkEngine s ∅ (MkCatalog root_path [] []) vs pool wal disk 0 0) in
  let* replayed := replayed in
  if replayed then Ok en
  else Ok (with_wal (λ fault file, (QuarantineCorrupted rename_error fault file).1) en).2.

End engine.
