(* ===== verification/EngineFacts.v ===== *)
(** * EngineFacts: consistency, isolation, rollback and durability

    The committed state and the working state of every open transaction keep
    the invariant of the executor; statements of a transaction do not touch
    what is committed; a rollback leaves no trace; an acknowledged change is on
    the disk, and was in the log before. *)
From S2P Require Import Prelude Numerals CommonTypes Storage BStarPlusTree IndexSpec RuntimeState.
From S2P Require Import RuntimeFacts.
From S2P Require Import Ast VersionStore Predicates Execution ChangeLog ExecutionFacts Planner Lexer Parser.
From S2P Require Import ParserFacts.
From S2P Require Import Codec Wal Engine.

Open Scope Z_scope.

(** ** From the parser to the executor *)

Lemma parsed_expr_ok e : parsed_expr e → expr_ok e.
Proof. induction e; simpl; try done; [by intros [? _]|naive_solver..]. Qed.

Section facts.
Context {T D : Type} `{!IndexOps T} `{!IndexLaws T} `{!PersistenceOps T D}.
Context (regex_match : string → string → Outcome bool) (clock : nat → Tm) (io : nat → WriteFault).

Implicit Types en : DbmsEngine T D.

Notation ExecuteSqlImpl := (ExecuteSqlImpl regex_match clock io).
Notation ExecuteSql := (ExecuteSql regex_match clock io).

(** What the parser cannot know: an INSERT does not run out of row ids, and a
    REVERT is of a table that the log creates with no other columns. *)
Definition statement_fits (e : Env T) (s : Statement) : Prop :=
  match s with
  | InsertStatement name _ rows =>
      ∀ n t, resolve_table e name = Ok (n, t) → heap_next (t_heap t) + Z.of_nat (length rows) ≤ kInvalidRowId
  | RevertStatement name _ _ =>
      ∀ n t, resolve_table e name = Ok (n, t) → only_created (e_versions e) n (q_object name) (t_schema t) = true
  | _ => True
  end.

Lemma parsed_statement_ok e s : parsed_statement s → statement_fits e s → statement_ok e s.
Proof.
  destruct s; simpl; try done.
  - intros Hp _. eapply Forall_impl; [exact Hp|]. intros c Hc v Hv. by destruct (Hc v Hv).
  - intros Hp Hfit. split; [|done]. eapply Forall_impl; [exact Hp|]. intros row Hrow. eapply Forall_impl; [exact Hrow|].
    intros x Hx. destruct x; try done. by destruct Hx.
  - intros [Hp _] _. eapply Forall_impl; [exact Hp|]. intros a. apply parsed_expr_ok.
Qed.

(** ** The invariant *)

Record engine_ok en : Prop := {
  enk_pool : pool_wf (en_pool en);
  enk_runtime : runtime_inv (en_runtime en);
  enk_transactions : map_Forall (λ _ tx, runtime_inv (tx_state tx)) (en_transactions en)
}.

(** With the change logs: a state and its log. *)
Definition state_inv (s : RuntimeState T) (vs : VersionStore) : Prop := runtime_inv s ∧ log_fits s vs.

Record engine_inv en : Prop := {
  eni_pool : pool_wf (en_pool en);
  eni_committed : state_inv (en_runtime en) (en_versions en);
  eni_transactions : map_Forall (λ _ tx, state_inv (tx_state tx) (tx_versions tx)) (en_transactions en)
}.

Lemma engine_inv_ok en : engine_inv en → engine_ok en.
Proof.
  intros [Hp [Hr _] Ht]. split; [done|done|]. eapply map_Forall_impl; [exact Ht|]. by intros k tx [? _].
Qed.

Lemma empty_state_inv : state_inv (MkRuntime ∅) [].
Proof. split; [|split; [constructor|]]; intros n d tn t; simpl; by rewrite lookup_empty. Qed.

(** The environment in which a session's next statement executes. *)
Definition session_env (session : SessionContext) en : Env T :=
  match en_transactions en !! TransactionKey session with
  | Some tx => env_on en session (tx_state tx) (tx_versions tx)
  | None => env_on en session (en_runtime en) (en_versions en)
  end.

Definition request_fits (session : SessionContext) (sql : string) en : Prop :=
  ∀ s, Parse sql = Ok s → statement_fits (session_env session en) s.

(** ** Writes *)

(** Two engines that differ at most in the log, the disk and the count of writes. *)
Definition same_memory en en' : Prop :=
  en_runtime en' = en_runtime en ∧ en_transactions en' = en_transactions en ∧ en_versions en' = en_versions en ∧
  en_pool en' = en_pool en ∧ en_catalog en' = en_catalog en ∧ en_tick en' = en_tick en.

Lemma with_wal_memory write en : same_memory en (with_wal io write en).2.
Proof. unfold with_wal. by destruct (write _ _). Qed.

Lemma with_save_memory en : same_memory en (with_save en).2.
Proof. unfold with_save. by destruct (save _ _ _ _ _). Qed.

Lemma same_memory_trans en1 en2 en3 : same_memory en1 en2 → same_memory en2 en3 → same_memory en1 en3.
Proof. unfold same_memory. intros (-> & -> & -> & -> & -> & ->). done. Qed.

Lemma checkpoint_memory write_wal session r en : same_memory en (checkpoint io write_wal session r en).2.
Proof.
  unfold checkpoint. pose proof (with_save_memory en) as H. destruct (with_save en) as [saved en1]. simpl in H.
  destruct (negb saved); [done|]. destruct write_wal; [|done].
  pose proof (with_wal_memory WalReset en1) as H1. destruct (with_wal io WalReset en1) as [reset en2]. simpl in H1.
  destruct (negb reset); simpl; by eapply same_memory_trans.
Qed.

Lemma same_memory_ok en en' : same_memory en en' → engine_inv en → engine_inv en'.
Proof. intros (H1 & H2 & Hv & H3 & _) [Hp Hr Ht]. split; [by rewrite H3|by rewrite H1, Hv|by rewrite H2]. Qed.

(** ** Statements keep the invariant *)

Lemma clone_inv (s s' : RuntimeState T) vs : state_inv s vs → CloneRuntimeState s = Ok s' → state_inv s' vs.
Proof.
  intros [Hs Hl] Hc. destruct (clone_runtime s (runtime_inv_ok s Hs)) as (s0 & E & Hok & Heq).
  rewrite E in Hc. injection Hc as ->. split; [by eapply runtime_equiv_inv|by eapply log_fits_equiv].
Qed.

Lemma begin_ok session en : engine_inv en → engine_inv (ExecuteBegin session en).2.
Proof.
  intros [Hp Hr Ht]. unfold ExecuteBegin. destruct (en_transactions en !! TransactionKey session); [done|].
  destruct (CloneRuntimeState (en_runtime en)) as [s'| |] eqn:E; try done. split; [done|done|]. simpl.
  apply map_Forall_insert_2; [|done]. simpl. by eapply clone_inv.
Qed.

Lemma commit_ok write_wal session en : engine_inv en → engine_inv (ExecuteCommit io write_wal session en).2.
Proof.
  intros [Hp Hr Ht]. unfold ExecuteCommit. destruct (en_transactions en !! TransactionKey session) as [tx|] eqn:E; [|done].
  assert (Hcom : engine_inv (with_committed (tx_state tx) (tx_versions tx) en)).
  { split; simpl; [done|by apply (Ht _ _ E)|done]. }
  assert (Happ : ∀ ok en1, match write_wal, tx_wal tx with
      | true, _ :: _ => with_wal io (λ fault, AppendTransaction fault (tx_wal tx)) (with_committed (tx_state tx) (tx_versions tx) en)
      | _, _ => (true, with_committed (tx_state tx) (tx_versions tx) en) end = (ok, en1) → engine_inv en1).
  { intros ok en1 H. destruct write_wal, (tx_wal tx); try (by injection H as <- <-).
    eapply same_memory_ok; [|exact Hcom]. pose proof (with_wal_memory (λ fault, AppendTransaction fault (s :: l))
      (with_committed (tx_state tx) (tx_versions tx) en)) as Hm. by rewrite H in Hm. }
  destruct (match write_wal, tx_wal tx with true, _ :: _ => _ | _, _ => _ end) as [appended en1] eqn:Ea.
  specialize (Happ appended en1 eq_refl) as [Hp1 Hr1 Ht1]. destruct (negb appended).
  - split; simpl; [done|done|]. apply map_Forall_insert_2; [apply empty_state_inv|done].
  - eapply same_memory_ok; [apply checkpoint_memory|]. split; simpl; [done|done|]. by apply map_Forall_delete.
Qed.

Lemma rollback_ok session en : engine_inv en → engine_inv (ExecuteRollback session en).2.
Proof.
  intros [Hp Hr Ht]. unfold ExecuteRollback. destruct (en_transactions en !! TransactionKey session); [|done].
  split; simpl; [done|done|]. by apply map_Forall_delete.
Qed.

(** An execution on a consistent state of the engine. *)
Lemma plan_env_ok en session s vs statement plan :
  pool_wf (en_pool en) → state_inv s vs → parsed_statement statement →
  statement_fits (env_on en session s vs) statement → BuildPlan (Some s) statement = Ok plan →
  env_ok (ExecutePlan regex_match clock plan (env_on en session s vs)).2.
Proof.
  intros Hp [Hs Hl] Hparsed Hfits Hplan. unfold ExecutePlan. rewrite (BuildPlan_statement _ _ _ Hplan).
  apply execute_env_ok; [by split|by apply parsed_statement_ok].
Qed.

Lemma in_transaction_ok write_wal session sql statement tx en :
  engine_inv en → en_transactions en !! TransactionKey session = Some tx → parsed_statement statement →
  statement_fits (session_env session en) statement →
  engine_inv (ExecuteInTransaction regex_match clock write_wal session sql statement tx en).2.
Proof.
  intros Hen Htx Hparsed Hfits. unfold ExecuteInTransaction. unfold session_env in Hfits. rewrite Htx in Hfits.
  destruct (is_service_statement statement); [done|]. destruct (IsDdlStatement statement); [done|].
  destruct (BuildPlan _ statement) as [plan| |] eqn:Eplan; try done. destruct Hen as [Hp Hr Ht].
  pose proof (plan_env_ok en session _ _ statement plan Hp (Ht _ _ Htx) Hparsed Hfits Eplan) as [He1 He2 He3].
  destruct (ExecutePlan _ _ _ _) as [result e]. simpl in He1, He2, He3.
  split; simpl; [done|done|]. by apply map_Forall_insert_2.
Qed.

Lemma autocommit_ok write_wal session sql statement en :
  engine_inv en → en_transactions en !! TransactionKey session = None → parsed_statement statement →
  statement_fits (session_env session en) statement →
  engine_inv (ExecuteAutocommit regex_match clock io write_wal session sql statement en).2.
Proof.
  intros Hen Htx Hparsed Hfits. unfold ExecuteAutocommit. unfold session_env in Hfits. rewrite Htx in Hfits.
  destruct (BuildPlan _ statement) as [plan| |] eqn:Eplan; try done. destruct Hen as [Hp Hr Ht].
  pose proof (plan_env_ok en session _ _ statement plan Hp Hr Hparsed Hfits Eplan) as [He1 He2 He3].
  destruct (ExecutePlan _ _ _ _) as [result e]. simpl in He1, He2, He3.
  set (en1 := with_committed _ _ _). assert (Hen1 : engine_inv en1) by (by split).
  destruct result as [r| |]; try done. destruct (IsMutatingStatement statement); [|done].
  destruct (if write_wal then with_wal io _ en1 else (true, en1)) as [appended en2] eqn:Ea.
  assert (Hen2 : engine_inv en2).
  { destruct write_wal; [|by injection Ea as <- <-]. eapply same_memory_ok; [|exact Hen1].
    pose proof (with_wal_memory (λ fault, AppendSql fault sql) en1) as Hm. by rewrite Ea in Hm. }
  destruct (negb appended); [done|]. eapply same_memory_ok; [apply checkpoint_memory|done].
Qed.

Lemma request_ok write_wal session sql en :
  engine_inv en → request_fits session sql en → engine_inv (ExecuteSqlImpl write_wal session sql en).2.
Proof.
  intros Hen Hfits. unfold Engine.ExecuteSqlImpl. destruct (Parse sql) as [s| |] eqn:Ep; try done.
  destruct (Parse_statement sql s Ep) as [Hparsed _]. specialize (Hfits s Ep).
  destruct (en_transactions en !! TransactionKey session) as [tx|] eqn:Etx; destruct s;
    try apply begin_ok; try apply commit_ok; try apply rollback_ok; try done;
    try (by apply in_transaction_ok); by apply autocommit_ok.
Qed.

(** ** Reachable engines *)

(** An engine on an empty disk, then any requests of any sessions. *)
Inductive engine_reachable : DbmsEngine T D → Prop :=
| engine_started root wal disk :
    engine_reachable (MkEngine (MkRuntime ∅) ∅ (MkCatalog root [] []) [] empty_pool wal disk 0 0)
| engine_served session sql en :
    engine_reachable en → request_fits session sql en → engine_reachable (ExecuteSql session sql en).2.

Lemma engine_reachable_inv en : engine_reachable en → engine_inv en.
Proof.
  induction 1 as [root wal disk|session sql en _ IH Hfits]; [|by apply request_ok].
  split; simpl; [apply empty_pool_wf|apply empty_state_inv|apply map_Forall_empty].
Qed.

Lemma engine_reachable_ok en : engine_reachable en → engine_ok en.
Proof. intros H. by apply engine_inv_ok, engine_reachable_inv. Qed.

(** C23: whatever texts any sessions send, inside and outside of transactions
    and with any failures of the log and the disk, the committed state and the
    working state of every open transaction stay consistent: rows fit their
    schemas and indexes agree with the rows.  Two texts are left out: an INSERT
    that runs out of the 2^64 - 1 row ids, and a REVERT of a table for whose
    name the log has a CREATE TABLE with other columns. *)
Theorem engine_always_consistent en :
  engine_reachable en →
  runtime_ok (en_runtime en) ∧ ∀ key tx, en_transactions en !! key = Some tx → runtime_ok (tx_state tx).
Proof.
  intros [_ Hr Ht]%engine_reachable_ok. split; [by apply runtime_inv_ok|]. intros key tx Htx.
  apply runtime_inv_ok. by apply (Ht key).
Qed.

(** ** Isolation *)

(** What other sessions and a restart can see. *)
Definition committed en : RuntimeState T * VersionStore * WalFile * D :=
  (en_runtime en, en_versions en, en_wal en, en_disk en).

(** Everything of [en] but the transaction [key] is as in [en0]. *)
Definition only_transaction (key : string) en0 en : Prop :=
  committed en = committed en0 ∧ ∀ k, k ≠ key → en_transactions en !! k = en_transactions en0 !! k.

Lemma in_transaction_only write_wal session sql statement tx en :
  let en' := (ExecuteInTransaction regex_match clock write_wal session sql statement tx en).2 in
  only_transaction (TransactionKey session) en en' ∧
  (en_transactions en !! TransactionKey session = Some tx → is_Some (en_transactions en' !! TransactionKey session)).
Proof.
  unfold ExecuteInTransaction. destruct (is_service_statement statement); [done|].
  destruct (IsDdlStatement statement); [done|]. destruct (BuildPlan _ statement) as [plan| |]; try done.
  destruct (ExecutePlan _ _ _ _) as [result e]. simpl. split.
  - split; [done|]. intros k Hk. simpl. by rewrite lookup_insert_ne.
  - intros _. rewrite lookup_insert_eq. by eexists.
Qed.

Lemma begin_only session en : only_transaction (TransactionKey session) en (ExecuteBegin session en).2.
Proof.
  unfold ExecuteBegin. destruct (en_transactions en !! TransactionKey session); [done|].
  destruct (CloneRuntimeState (en_runtime en)); try done. split; [done|]. intros k Hk. simpl. by rewrite lookup_insert_ne.
Qed.

Lemma rollback_only session en : only_transaction (TransactionKey session) en (ExecuteRollback session en).2.
Proof.
  unfold ExecuteRollback. destruct (en_transactions en !! TransactionKey session); [|done].
  split; [done|]. intros k Hk. simpl. by rewrite lookup_delete_ne.
Qed.

Lemma isolated_request write_wal session sql en :
  is_Some (en_transactions en !! TransactionKey session) → Parse sql ≠ Ok CommitTransactionStatement →
  only_transaction (TransactionKey session) en (ExecuteSqlImpl write_wal session sql en).2.
Proof.
  intros [tx Htx] Hcommit. unfold Engine.ExecuteSqlImpl. destruct (Parse sql) as [s| |]; try done. rewrite Htx.
  destruct s; try apply begin_only; try apply rollback_only; try (by destruct Hcommit); apply in_transaction_only.
Qed.

(** C24: transactions are isolated until they commit: a text of a session with
    an open transaction, unless it is COMMIT, changes neither the committed
    state, its change log, the log file and the disk, nor the transaction of
    any other session. *)
Theorem open_transaction_isolated write_wal session sql en :
  is_Some (en_transactions en !! TransactionKey session) → Parse sql ≠ Ok CommitTransactionStatement →
  only_transaction (TransactionKey session) en (ExecuteSqlImpl write_wal session sql en).2.
Proof. apply isolated_request. Qed.

(** ** Rollback *)

(** Requests of sessions that share a transaction. *)
Fixpoint serve (requests : list (SessionContext * string)) en : DbmsEngine T D :=
  match requests with
  | [] => en
  | (session, sql) :: requests => serve requests (ExecuteSql session sql en).2
  end.

Definition inside (key : string) (request : SessionContext * string) : Prop :=
  TransactionKey request.1 = key ∧ Parse request.2 ≠ Ok CommitTransactionStatement ∧
  Parse request.2 ≠ Ok RollbackTransactionStatement.

Lemma inside_step key session sql en : inside key (session, sql) → is_Some (en_transactions en !! key) →
  only_transaction key en (ExecuteSql session sql en).2 ∧ is_Some (en_transactions (ExecuteSql session sql en).2 !! key).
Proof.
  intros (Hkey & Hc & Hr) Htx. simpl in *. subst key. split; [by apply isolated_request|].
  destruct Htx as [tx Htx]. unfold Engine.ExecuteSql, Engine.ExecuteSqlImpl.
  destruct (Parse sql) as [s| |]; try (by exists tx). rewrite Htx.
  destruct s; try (by destruct Hc); try (by destruct Hr); try (by apply in_transaction_only);
    unfold ExecuteBegin; rewrite Htx; by exists tx.
Qed.

Lemma only_transaction_trans key en1 en2 en3 :
  only_transaction key en1 en2 → only_transaction key en2 en3 → only_transaction key en1 en3.
Proof. intros [C1 T1] [C2 T2]. split; [congruence|]. intros k Hk. rewrite T2, T1; done. Qed.

Lemma serve_inside key requests en : Forall (inside key) requests → is_Some (en_transactions en !! key) →
  only_transaction key en (serve requests en) ∧ is_Some (en_transactions (serve requests en) !! key).
Proof.
  intros Hreq. revert en. induction Hreq as [|[session sql] requests Hin _ IH]; intros en Htx; simpl; [done|].
  destruct (inside_step key session sql en Hin Htx) as [H1 H2]. destruct (IH _ H2) as [H3 H4].
  split; [by eapply only_transaction_trans|done].
Qed.

(** C25: ROLLBACK leaves no trace: in a consistent engine, after BEGIN of a
    session without a transaction, any texts of the session but COMMIT and
    ROLLBACK, failing ones included, and a ROLLBACK, which succeeds, the
    committed state, the change log, the log file, the disk and the open
    transactions of all sessions are what they were. *)
Theorem rollback_restores session requests session' en :
  engine_ok en → en_transactions en !! TransactionKey session = None →
  TransactionKey session' = TransactionKey session → Forall (inside (TransactionKey session)) requests →
  let '(r, _, en') := ExecuteSql session' "ROLLBACK;" (serve requests (ExecuteSql session "BEGIN;" en).2) in
  r = Ok (message_result "transaction rolled back") ∧
  committed en' = committed en ∧ en_transactions en' = en_transactions en.
Proof.
  intros Hen Hno Hkey Hreq. set (en1 := (ExecuteSql session "BEGIN;" en).2).
  assert (H1 : only_transaction (TransactionKey session) en en1 ∧ is_Some (en_transactions en1 !! TransactionKey session)).
  { subst en1. change (ExecuteSql session "BEGIN;" en) with (ExecuteBegin session en).
    split; [apply begin_only|]. unfold ExecuteBegin. rewrite Hno.
    destruct (clone_runtime (en_runtime en) (runtime_inv_ok _ (enk_runtime _ Hen))) as (s' & -> & _). simpl.
    rewrite lookup_insert_eq. by eexists. }
  destruct H1 as [H1 H1s]. destruct (serve_inside _ requests en1 Hreq H1s) as [H2 H2s].
  change (ExecuteSql session' "ROLLBACK;" (serve requests en1)) with (ExecuteRollback session' (serve requests en1)).
  pose proof (only_transaction_trans _ _ _ _ H1 H2) as [C T2].
  unfold ExecuteRollback. rewrite Hkey. destruct H2s as [tx Htx]. rewrite Htx. split; [done|]. split; [exact C|]. simpl.
  apply map_eq. intros k. destruct (decide (k = TransactionKey session)) as [->|Hk].
  - by rewrite lookup_delete_eq.
  - rewrite lookup_delete_ne by done. by apply T2.
Qed.

(** ** Durability *)

Lemma checkpoint_saved session r en : ∀ r' session' en',
  checkpoint io true session r en = (Ok r', session', en') →
  (∃ disk k, save (en_runtime en') (en_versions en') (en_pool en') disk k = (true, en_disk en')) ∧
  ∃ n, en_wal en' = Some (str_take n header).
Proof.
  intros r' session' en'. unfold checkpoint, with_save.
  destruct (save (en_runtime en) (en_versions en) (en_pool en) (en_disk en) (en_io en)) as [[|] disk] eqn:Es; simpl; [|done].
  unfold with_wal. simpl. destruct (io (S (en_io en))) as [| | |n]; simpl; try done; intros [= _ _ <-]; simpl;
    (split; [by exists (en_disk en), (en_io en)|]); [by exists 6%nat|by exists n].
Qed.

(** COMMIT, or a statement outside of a transaction that changes anything. *)
Definition changes_committed session sql en : Prop :=
  Parse sql = Ok CommitTransactionStatement ∨
  (en_transactions en !! TransactionKey session = None ∧
   ∃ s, Parse sql = Ok s ∧ IsMutatingStatement s = true ∧ s ≠ BeginTransactionStatement ∧ s ≠ RollbackTransactionStatement).

(** The disk holds what is committed, and the log has no entries: its header,
    which may have been cut when the stream was closed. *)
Definition checkpointed en : Prop :=
  (∃ disk k, save (en_runtime en) (en_versions en) (en_pool en) disk k = (true, en_disk en)) ∧
  ∃ n, en_wal en = Some (str_take n header).

(** A log that was just reset has no entries or is not readable. *)
Lemma reset_log_empty n : LoadAll (Some (str_take n header)) = Some [] ∨ LoadAll (Some (str_take n header)) = None.
Proof. do 6 (destruct n as [|n]; [vm_compute; by auto|]). left. by destruct n. Qed.

Lemma acknowledged_saved session sql en r session' en' :
  ExecuteSql session sql en = (Ok r, session', en') →
  changes_committed session sql en →
  checkpointed en'.
Proof.
  intros Hrun Hs. unfold Engine.ExecuteSql, Engine.ExecuteSqlImpl in Hrun.
  assert (Hcommit : ExecuteCommit io true session en = (Ok r, session', en') →
    checkpointed en').
  { unfold ExecuteCommit. destruct (en_transactions en !! TransactionKey session) as [tx|]; [|done].
    destruct (match tx_wal tx with _ :: _ => _ | _ => _ end) as [appended en1]. destruct (negb appended); [done|].
    apply checkpoint_saved. }
  destruct Hs as [Hp|(Htx & s & Hp & Hm & Hb & Hr)]; rewrite Hp in Hrun; [by apply Hcommit|]. rewrite Htx in Hrun.
  assert (Hauto : ExecuteAutocommit regex_match clock io true session sql s en = (Ok r, session', en') →
    checkpointed en').
  { unfold ExecuteAutocommit. destruct (BuildPlan _ s) as [plan| |]; try done.
    destruct (ExecutePlan _ _ _ _) as [[r0| |] e]; try done. rewrite Hm.
    destruct (with_wal io _ _) as [appended en1]. destruct (negb appended); [done|]. apply checkpoint_saved. }
  destruct s; first [done|by apply Hauto|by apply Hcommit].
Qed.

(** What is acknowledged is saved: when COMMIT, or a statement outside of a
    transaction that changes anything, reports success, the disk holds the
    committed state, change log and string pool of that moment, and the log
    file has been emptied. *)
Theorem acknowledged_is_saved session sql en r session' en' :
  ExecuteSql session sql en = (Ok r, session', en') →
  changes_committed session sql en →
  checkpointed en'.
Proof. apply acknowledged_saved. Qed.


(** ** Overlapping transactions *)

Lemma autocommit_transactions write_wal session sql statement en :
  en_transactions (ExecuteAutocommit regex_match clock io write_wal session sql statement en).2 = en_transactions en.
Proof.
  unfold ExecuteAutocommit. destruct (BuildPlan _ statement) as [plan| |]; try done.
  destruct (ExecutePlan _ _ _ _) as [[r| |] e]; try done. destruct (IsMutatingStatement statement); [|done].
  set (en1 := with_committed _ _ _).
  assert (Ha : same_memory en1 (if write_wal then with_wal io (λ fault, AppendSql fault sql) en1 else (true, en1)).2).
  { destruct write_wal; [apply with_wal_memory|done]. }
  destruct (if write_wal then _ else _) as [appended en2]. destruct Ha as (_ & Ha & _). destruct (negb appended); [done|].
  destruct (checkpoint_memory write_wal (e_session e) r en2) as (_ & -> & _). done.
Qed.

Lemma commit_transactions write_wal session en k : k ≠ TransactionKey session →
  en_transactions (ExecuteCommit io write_wal session en).2 !! k = en_transactions en !! k.
Proof.
  intros Hk. unfold ExecuteCommit. destruct (en_transactions en !! TransactionKey session) as [tx|]; [|done].
  set (en1 := with_committed _ _ _).
  assert (Ha : ∀ ok en2, match write_wal, tx_wal tx with
      | true, _ :: _ => with_wal io (λ fault, AppendTransaction fault (tx_wal tx)) en1 | _, _ => (true, en1) end = (ok, en2) →
    en_transactions en2 = en_transactions en).
  { intros ok en2 H. destruct write_wal, (tx_wal tx) as [|x l]; try (by injection H as <- <-).
    pose proof (with_wal_memory (λ fault, AppendTransaction fault (x :: l)) en1) as Hm. rewrite H in Hm. by apply Hm. }
  destruct (match write_wal, tx_wal tx with true, _ :: _ => _ | _, _ => _ end) as [appended en2] eqn:E.
  specialize (Ha appended en2 eq_refl). destruct (negb appended); simpl.
  - by rewrite lookup_insert_ne, Ha.
  - destruct (checkpoint_memory write_wal session (message_result "transaction committed")
      (with_transactions (delete (TransactionKey session) (en_transactions en2)) en2)) as (_ & -> & _).
    simpl. by rewrite lookup_delete_ne, Ha.
Qed.

(** A request leaves the transactions of other sessions alone. *)
Lemma other_transaction write_wal session sql en k : k ≠ TransactionKey session →
  en_transactions (ExecuteSqlImpl write_wal session sql en).2 !! k = en_transactions en !! k.
Proof.
  intros Hk. unfold Engine.ExecuteSqlImpl. destruct (Parse sql) as [s| |]; try done.
  destruct (en_transactions en !! TransactionKey session) as [tx|] eqn:Etx; destruct s;
    try (by apply commit_transactions); try (by apply begin_only); try (by apply rollback_only);
    try (by apply in_transaction_only); by rewrite autocommit_transactions.
Qed.

Lemma serve_others key requests en : Forall (λ request, TransactionKey request.1 ≠ key) requests →
  en_transactions (serve requests en) !! key = en_transactions en !! key.
Proof.
  intros Hreq. revert en. induction Hreq as [|[session sql] requests Hne _ IH]; intros en; simpl; [done|].
  rewrite IH. by apply other_transaction.
Qed.

Lemma commit_publishes session tx en r session' en' :
  en_transactions en !! TransactionKey session = Some tx → ExecuteCommit io true session en = (Ok r, session', en') →
  en_runtime en' = tx_state tx ∧ en_versions en' = tx_versions tx.
Proof.
  intros Htx. unfold ExecuteCommit. rewrite Htx. set (en1 := with_committed _ _ _).
  assert (Ha : ∀ ok en2, match tx_wal tx with
      | _ :: _ => with_wal io (λ fault, AppendTransaction fault (tx_wal tx)) en1 | _ => (true, en1) end = (ok, en2) →
    en_runtime en2 = tx_state tx ∧ en_versions en2 = tx_versions tx).
  { intros ok en2 H. destruct (tx_wal tx) as [|x l]; [by injection H as <- <-|].
    pose proof (with_wal_memory (λ fault, AppendTransaction fault (x :: l)) en1) as Hm. rewrite H in Hm. simpl in Hm.
    destruct Hm as (-> & _ & -> & _). done. }
  destruct (match tx_wal tx with _ :: _ => _ | _ => _ end) as [appended en2] eqn:E.
  specialize (Ha appended en2 eq_refl). destruct (negb appended); [done|]. intros Hc.
  pose proof (checkpoint_memory true session (message_result "transaction committed")
    (with_transactions (delete (TransactionKey session) (en_transactions en2)) en2)) as Hm. rewrite Hc in Hm. simpl in Hm.
  destruct Hm as (-> & _ & -> & _). done.
Qed.

(** C27: the last COMMIT wins.  While a session has a transaction open, let
    other sessions send any texts, commit transactions and change tables.  When
    the session then commits with success, the committed state and the change
    log are exactly those of its transaction, in memory and on the disk:
    everything the others committed since the transaction took its copy is
    gone, although it was acknowledged. *)
Theorem last_commit_wins session tx others en r session' en' :
  en_transactions en !! TransactionKey session = Some tx →
  Forall (λ request, TransactionKey request.1 ≠ TransactionKey session) others →
  ExecuteSql session "COMMIT;" (serve others en) = (Ok r, session', en') →
  en_runtime en' = tx_state tx ∧ en_versions en' = tx_versions tx ∧
  ∃ disk k, save (tx_state tx) (tx_versions tx) (en_pool en') disk k = (true, en_disk en').
Proof.
  intros Htx Hothers Hc. destruct (acknowledged_saved _ _ _ _ _ _ Hc) as [(disk & k & Hsave) _]; [by left|].
  change (ExecuteSql session "COMMIT;" (serve others en)) with (ExecuteCommit io true session (serve others en)) in Hc.
  destruct (commit_publishes session tx (serve others en) r session' en') as [Hr Hv]; [by rewrite serve_others|done|].
  rewrite Hr, Hv in Hsave. split_and!; [done|done|by exists disk, k].
Qed.

End facts.
