(* ===== verification/EngineSamples.v ===== *)
(** * EngineSamples: sessions on a small database, from SQL texts

    The theorems about the engine applied to concrete runs on the B*+ tree, with
    a disk that keeps the last snapshot, and what concurrent transactions and
    recovery do on such runs. *)
From S2P Require Import Prelude Numerals CommonTypes Storage BStarPlusTree IndexSpec BStarPlusTreeSpec.
From S2P Require Import RuntimeState.
From S2P Require Import RuntimeFacts Ast VersionStore Predicates Execution ExecutionFacts Planner Lexer.
From S2P Require Import Parser ParserFacts.
From S2P Require Import Codec Wal Engine EngineFacts Samples QueryFacts.

Open Scope Z_scope.

(** ** A disk *)

Definition Snapshot : Type := option (RuntimeState BStarPlusTree * VersionStore * StringPool).

(** Saving works but at the write number 1000. *)
#[export] Instance snapshot_persistence : PersistenceOps BStarPlusTree Snapshot := {
  save s vs p d k := if (k =? 1000)%nat then (false, d) else (true, Some (s, vs, p));
  load d := Ok (default (MkRuntime ∅, [], empty_pool) d)
}.

Definition all_written (n : nat) : WriteFault := Written.

Notation SampleEngine := (DbmsEngine BStarPlusTree Snapshot).

Definition run_sql (session : SessionContext) (sql : string) (en : SampleEngine) : Response :=
  ExecuteSql literal_regex sample_clock all_written session sql en.

Definition run_all (requests : list (SessionContext * string)) (en : SampleEngine) : SampleEngine :=
  serve literal_regex sample_clock all_written requests en.

Definition started : SampleEngine := MkEngine (MkRuntime ∅) ∅ (MkCatalog "data" [] []) [] empty_pool None None 0 0.

Definition alice : SessionContext := MkSession "alice" None "".
Definition bob : SessionContext := MkSession "bob" None "".

Definition setup : list (SessionContext * string) :=
  [(alice, "CREATE DATABASE shop;"); (alice, "CREATE TABLE shop.items (id INT INDEXED, n INT);");
   (alice, "INSERT INTO shop.items (id, n) VALUES (1, 10);")].

Definition stocked : SampleEngine := run_all setup started.

(** The rows of the table, by their values. *)
Definition items (s : RuntimeState BStarPlusTree) : option (list (list Value)) :=
  d ← databases s !! "shop"; t ← db_tables d !! "items"; Some (map row_values (heap_rows (t_heap t))).

Ltac concrete_request :=
  let s := fresh in let H := fresh in
  intros s H; vm_compute in H; injection H as <-;
  first [exact I
        |let H := fresh in intros ? ? H; vm_compute in H; injection H as <- <-; vm_compute; reflexivity
        |let H := fresh in intros ? ? H; vm_compute in H; injection H as <- <-; vm_compute; discriminate].

Lemma stocked_reachable : engine_reachable literal_regex sample_clock all_written stocked.
Proof.
  unfold stocked, run_all, setup. cbn [serve].
  do 3 (apply engine_served; [|concrete_request]). apply engine_started.
Qed.

(** ** Witnesses *)

(** A string literal. *)
Definition quote (s : string) : string := String dquote s +:+ String dquote "".

(** A transaction that empties the table and goes back to the last event
    before it. *)
Definition undone : SampleEngine :=
  run_all [(alice, "BEGIN;"); (alice, "DELETE FROM shop.items;");
    (alice, "REVERT shop.items " +:+ quote "2025.01.01-00:00:02.500000" +:+ ";")] stocked.

Lemma engine_always_consistent_witness :
  runtime_ok (en_runtime stocked) ∧ items (en_runtime stocked) = Some [[VInt 1; VInt 10]] ∧
  (tx ← en_transactions undone !! "alice"; items (tx_state tx)) = Some [[VInt 1; VInt 10]] ∧
  ∀ tx, en_transactions undone !! "alice" = Some tx → runtime_ok (tx_state tx).
Proof.
  split; [|split; [vm_compute; reflexivity|split; [vm_compute; reflexivity|]]].
  - exact (proj1 (engine_always_consistent literal_regex sample_clock all_written stocked stocked_reachable)).
  - apply (engine_always_consistent literal_regex sample_clock all_written undone).
    unfold undone, run_all. cbn [serve]. do 3 (apply engine_served; [|concrete_request]). exact stocked_reachable.
Defined.

(** A transaction of Alice that deletes everything. *)
Definition deleting : SampleEngine := run_all [(alice, "BEGIN;"); (alice, "DELETE FROM shop.items;")] stocked.

Lemma open_transaction_isolated_witness :
  is_Some (en_transactions deleting !! "alice") ∧
  only_transaction "alice" deleting (run_sql alice "INSERT INTO shop.items (id, n) VALUES (2, 20);" deleting).2.
Proof.
  assert (H : is_Some (en_transactions deleting !! "alice")) by (vm_compute; eexists; reflexivity).
  split; [exact H|].
  refine (open_transaction_isolated literal_regex sample_clock all_written true alice
    "INSERT INTO shop.items (id, n) VALUES (2, 20);" deleting H _).
  vm_compute. discriminate.
Defined.

Definition inside_requests : list (SessionContext * string) :=
  [(alice, "DELETE FROM shop.items;"); (alice, "DROP TABLE shop.items;"); (alice, "INSERT INTO shop.items (id, n) VALUES (2, 20);")].

Lemma rollback_restores_witness :
  let en' := (run_sql alice "ROLLBACK;" (run_all inside_requests (run_sql alice "BEGIN;" stocked).2)).2 in
  items (en_runtime en') = Some [[VInt 1; VInt 10]].
Proof.
  assert (Hno : en_transactions stocked !! TransactionKey alice = None) by (vm_compute; reflexivity).
  assert (Hin : Forall (inside (TransactionKey alice)) inside_requests).
  { repeat constructor; vm_compute; discriminate. }
  pose proof (rollback_restores literal_regex sample_clock all_written alice inside_requests alice stocked
    (engine_reachable_ok _ _ _ _ stocked_reachable) Hno eq_refl Hin) as H.
  unfold run_sql, run_all.
  destruct (ExecuteSql literal_regex sample_clock all_written alice "ROLLBACK;" _) as [[r ses] en'].
  destruct H as (_ & Hc & _). unfold committed in Hc. cbv zeta. simpl snd.
  assert (Hr : en_runtime en' = en_runtime stocked) by congruence. rewrite Hr. vm_compute. reflexivity.
Defined.

Definition second_insert : string := "INSERT INTO shop.items (id, n) VALUES (2, 20);".

Definition inserted : Response := ExecuteSql literal_regex sample_clock all_written alice second_insert stocked.

Lemma acknowledged_is_saved_witness :
  ∃ disk k, save (en_runtime inserted.2) (en_versions inserted.2) (en_pool inserted.2) disk k = (true, en_disk inserted.2).
Proof.
  assert (Hrun : inserted = (Ok (message_result "rows inserted"), inserted.1.2, inserted.2)) by (vm_compute; reflexivity).
  refine (proj1 (acknowledged_is_saved literal_regex sample_clock all_written alice second_insert stocked
    (message_result "rows inserted") inserted.1.2 inserted.2 Hrun _)).
  right. split; [vm_compute; reflexivity|]. eexists. split; [vm_compute; reflexivity|].
  split; [reflexivity|]. split; discriminate.
Defined.



Lemma index_scan_planned_iff_used_witness :
  ∃ plan, BuildPlan (Some (e_runtime sample_env)) (SelectStatement (MkQName (Some "shop") "users") [] id_at_least_7) = Ok plan ∧
    plan_has pkIndexScan plan = true.
Proof.
  destruct sample_table_lookup as (d & Hd & Ht).
  destruct (index_scan_planned_iff_used (e_runtime sample_env) "shop" "users" d sample_table [] id_at_least_7
    Hd Ht sample_table_ok id_at_least_7_typed) as (plan & Hplan & Hiff).
  exists plan. split; [exact Hplan|]. apply Hiff. vm_compute. eexists. reflexivity.
Defined.

(** ** What concurrent transactions do *)

(** Two transactions that both began before the other one committed: each
    COMMIT reports success, and the second one undoes the first. *)
Definition overlapping : list (SessionContext * string) :=
  [(alice, "BEGIN;"); (bob, "BEGIN;"); (alice, "INSERT INTO shop.items (id, n) VALUES (2, 20);");
   (bob, "INSERT INTO shop.items (id, n) VALUES (3, 30);"); (alice, "COMMIT;")].

Definition alice_committed : SampleEngine := run_all overlapping stocked.

(** After two overlapping transactions of which both commit with success, the
    insertion of the first one is gone, from the committed state and from the
    disk. *)
Lemma lost_update :
  items (en_runtime alice_committed) = Some [[VInt 1; VInt 10]; [VInt 2; VInt 20]] ∧
  let '(r, _, en) := run_sql bob "COMMIT;" alice_committed in
  r = Ok (message_result "transaction committed") ∧
  items (en_runtime en) = Some [[VInt 1; VInt 10]; [VInt 3; VInt 30]] ∧
  (items ∘ fst ∘ fst) <$> en_disk en = Some (Some [[VInt 1; VInt 10]; [VInt 3; VInt 30]]).
Proof. split; [vm_compute; reflexivity|]. vm_compute. repeat split. Qed.

(** Both transactions are open and Bob's has its row. *)
Definition both_open : SampleEngine := run_all (take 4 overlapping) stocked.

Lemma last_commit_wins_witness :
  items (en_runtime (run_all [(alice, "COMMIT;")] both_open)) = Some [[VInt 1; VInt 10]; [VInt 2; VInt 20]] ∧
  items (en_runtime (run_sql bob "COMMIT;" (run_all [(alice, "COMMIT;")] both_open)).2) =
    Some [[VInt 1; VInt 10]; [VInt 3; VInt 30]].
Proof.
  split; [vm_compute; reflexivity|].
  assert (Htx : ∃ tx, en_transactions both_open !! TransactionKey bob = Some tx ∧
    items (tx_state tx) = Some [[VInt 1; VInt 10]; [VInt 3; VInt 30]]) by (eexists; split; vm_compute; reflexivity).
  destruct Htx as (tx & Htx & Hitems).
  set (c := run_sql bob "COMMIT;" (run_all [(alice, "COMMIT;")] both_open)).
  assert (Hc : c = (Ok (message_result "transaction committed"), c.1.2, c.2)) by (vm_compute; reflexivity).
  destruct (last_commit_wins literal_regex sample_clock all_written bob tx [(alice, "COMMIT;")] both_open
    (message_result "transaction committed") c.1.2 c.2 Htx) as (Hr & _).
  - repeat constructor. discriminate.
  - exact Hc.
  - rewrite Hr. exact Hitems.
Defined.

(** ** What recovery does *)

(** An engine that stopped after it logged a statement and before it saved. *)
Definition crash_after_log (sql : string) (en : SampleEngine) : Snapshot * WalFile :=
  (en_disk en, (AppendSql Written sql (en_wal en)).2).

Definition restart (disk : Snapshot) (wal : WalFile) : Outcome (option (list (list Value))) :=
  match NewEngine literal_regex sample_clock all_written "data" false disk wal with
  | Ok en => Ok (items (en_runtime en))
  | Err er => Err er
  | Crash c => Crash c
  end.

(** recovery depends on how a statement named its table: a logged
    statement with a qualified name is executed again at the next start, but the
    same statement in a session with a current database is not, because the
    session that recovers has none. *)
Theorem recovery_needs_qualified_names :
  let '(disk, wal) := crash_after_log "INSERT INTO shop.items (id, n) VALUES (2, 20);" stocked in
  restart disk wal = Ok (Some [[VInt 1; VInt 10]; [VInt 2; VInt 20]]) ∧
  let '(r, in_shop, en) := run_sql alice "USE shop;" stocked in
  (run_sql in_shop "INSERT INTO items (id, n) VALUES (2, 20);" en).1.1 = Ok (message_result "rows inserted") ∧
  let '(disk, wal) := crash_after_log "INSERT INTO items (id, n) VALUES (2, 20);" en in
  restart disk wal = Ok (Some [[VInt 1; VInt 10]]).
Proof. vm_compute. repeat split. Qed.
