(* ===== verification/Persistence.v ===== *)
(** * Persistence: the state and history files (src/core/runtime_persistence.cpp)

    [Save] writes the databases to one text file and the change log to another,
    each through a temporary file that is renamed; [Load] reads them back line
    by line, rebuilding heaps and indexes.  The escaping functions are those of
    [Codec], and [EncodeIndexKeyForType] is the function that [CommonTypes] has
    as [EncodeIndexKey]. *)
From S2P Require Import Prelude Numerals CommonTypes Storage Codec BStarPlusTree IndexSpec RuntimeState.
From S2P Require Import VersionStore Wal Engine.
From Stdlib Require Import Ascii.

Open Scope Z_scope.

Definition kFormatTag : string := "FORMAT".
Definition kFormatVersion : string := "3".

Definition IsSupportedFormatVersion (version : string) : bool := String.eqb version "3".

(** ** Tokens *)

(** The parts before and behind the first [=]. *)
Fixpoint split_at_equals (token : string) : option (string * string) :=
  match token with
  | EmptyString => None
  | String ch rest =>
      if Ascii.eqb ch "="%char then Some ("", rest)
      else match split_at_equals rest with Some (k, v) => Some (String ch k, v) | None => None end
  end.

Definition ParseKeyValueToken (token : string) : option (string * string) :=
  match split_at_equals token with
  | Some (key, value) => if String.eqb key "" then None else Some (key, value)
  | None => None
  end.

Fixpoint find_field (parts : list string) (field_name : string) : option string :=
  match parts with
  | [] => None
  | p :: parts =>
      match ParseKeyValueToken p with
      | Some (key, value) => if String.eqb key field_name then Some value else find_field parts field_name
      | None => find_field parts field_name
      end
  end.

Definition FindFieldValue (parts : list string) (field_name : string) : option string := find_field (tail parts) field_name.

(** ** Names of enumerators *)

Definition ValueTypeName (type : ValueType) : string :=
  match type with kNull => "NULL" | kInt64 => "INT" | kString => "STRING" end.

Definition ConstraintName (constraint : ColumnConstraint) : string :=
  match constraint with kNone => "NONE" | kNotNull => "NOT_NULL" | kIndexed => "INDEXED" end.

Definition ChangeKindName (kind : ChangeKind) : string :=
  match kind with
  | kCreateDatabase => "CREATE_DATABASE"
  | kDropDatabase => "DROP_DATABASE"
  | kCreateTable => "CREATE_TABLE"
  | kDropTable => "DROP_TABLE"
  | kInsertRow => "INSERT_ROW"
  | kUpdateRow => "UPDATE_ROW"
  | kDeleteRow => "DELETE_ROW"
  end.

Definition ParseChangeKind (value : string) : option ChangeKind :=
  if String.eqb value "CREATE_DATABASE" then Some kCreateDatabase
  else if String.eqb value "DROP_DATABASE" then Some kDropDatabase
  else if String.eqb value "CREATE_TABLE" then Some kCreateTable
  else if String.eqb value "DROP_TABLE" then Some kDropTable
  else if String.eqb value "INSERT_ROW" then Some kInsertRow
  else if String.eqb value "UPDATE_ROW" then Some kUpdateRow
  else if String.eqb value "DELETE_ROW" then Some kDeleteRow
  else None.

(** The chains of comparisons on the type and the constraint of a column. *)
Definition parse_type_name (name : string) : option ValueType :=
  if String.eqb name "INT" then Some kInt64
  else if String.eqb name "STRING" then Some kString
  else if String.eqb name "NULL" then Some kNull
  else None.

Definition parse_constraint_name (name : string) : option ColumnConstraint :=
  if String.eqb name "NONE" then Some kNone
  else if String.eqb name "NOT_NULL" then Some kNotNull
  else if String.eqb name "INDEXED" then Some kIndexed
  else None.

(** ** Values *)

Definition EncodeValue (value : Value) : string :=
  match value with
  | VNull => "Null"
  | VInt z => "Int:" +:+ to_string z
  | VStr s => "String:" +:+ EscapeField s
  | VInterned p => "String:" +:+ EscapeField (intern_text p)
  end.

Definition ParseInteger (raw : string) : option Z :=
  match stoi raw with
  | inr (parsed, consumed) => if (consumed =? String.length raw)%nat then Some parsed else None
  | inl _ => None
  end.

Definition decode_int (digits : string) : option Value :=
  match stoll digits with
  | inr (parsed, consumed) => if (consumed =? String.length digits)%nat then Some (VInt parsed) else None
  | inl _ => None
  end.

Definition TryDecodeValue (encoded : string) : option Value :=
  if (String.eqb encoded "N" || String.eqb encoded "Null")%bool then Some VNull
  else
    match strip_prefix "Int:" encoded, strip_prefix "I:" encoded with
    | Some digits, _ | None, Some digits => decode_int digits
    | None, None =>
        match strip_prefix "String:" encoded, strip_prefix "S:" encoded with
        | Some text, _ | None, Some text => Some (VStr (UnescapeField text))
        | None, None => None
        end
    end.

(** ** Writing *)

(** A record: its tag and its fields, separated by tabs. *)
Definition field (key value : string) : string := String tab (key +:+ "=" +:+ value).

Fixpoint fields (kvs : list (string * string)) : string :=
  match kvs with [] => "" | (key, value) :: kvs => field key value +:+ fields kvs end.

Definition record_line (tag : string) (kvs : list (string * string)) : string := tag +:+ fields kvs.

Definition default_text (c : ColumnDefinition) : string :=
  match col_default c with Some v => EncodeValue v | None => "Null" end.

Definition value_field (v : Value) : string * string := ("value", EncodeValue v).

Definition column_line (n tn : string) (c : ColumnDefinition) : string :=
  record_line "COLUMN"
    [("db", EscapeField n); ("table", EscapeField tn); ("name", EscapeField (col_name c));
     ("type", ValueTypeName (col_type c)); ("constraint", ConstraintName (col_constraint c)); ("default", default_text c)].

Definition row_line (n tn : string) (row : RowData) : string :=
  record_line "ROW"
    ([("db", EscapeField n); ("table", EscapeField tn); ("row_id", to_string (row_id row))]
     ++ map value_field (row_values row)).

Definition table_line (n tn : string) : string := record_line "TABLE" [("db", EscapeField n); ("name", EscapeField tn)].

Definition database_line (n : string) : string := record_line "DATABASE" [("name", EscapeField n)].

Definition format_line : string := kFormatTag +:+ String tab kFormatVersion.

Definition state_preamble : list string :=
  [format_line;
   "# Runtime state dump (human-readable)";
   "# Records:";
   "# DATABASE\tname=<db>";
   "# TABLE\tdb=<db>\tname=<table>";
   "# COLUMN\tdb=<db>\ttable=<table>\tname=<column>\ttype=<INT|STRING|NULL>\tconstraint=<NONE|NOT_NULL|INDEXED>\tdefault=<value>";
   "# ROW\tdb=<db>\ttable=<table>\trow_id=<id>\tvalue=<...>\tvalue=<...>"].

Definition history_preamble : list string :=
  [format_line;
   "# Version history dump (event-based)";
   "# Records:";
   "# EVENT\tkind=<kind>\tdb=<db>\ttable=<table>\ttimestamp=<ts>\trow_id=<id>";
   "# SCHEMA_COLUMN\tname=<column>\ttype=<type>\tconstraint=<constraint>\tdefault=<value>";
   "# BEFORE\tvalue=<...>\tvalue=<...>";
   "# AFTER\tvalue=<...>\tvalue=<...>";
   "# EVENT_END"].

Definition schema_column_line (c : ColumnDefinition) : string :=
  record_line "SCHEMA_COLUMN"
    [("name", EscapeField (col_name c)); ("type", ValueTypeName (col_type c));
     ("constraint", ConstraintName (col_constraint c)); ("default", default_text c)].

Definition image_line (tag : string) (row : RowData) : string :=
  record_line tag (("row_id", to_string (row_id row)) :: map value_field (row_values row)).

Definition event_line (record : ChangeRecord) : string :=
  record_line "EVENT"
    [("kind", ChangeKindName (ch_kind record)); ("db", EscapeField (ch_database record));
     ("table", EscapeField (ch_table record)); ("timestamp", EscapeField (ch_timestamp record));
     ("row_id", to_string (ch_row_id record))].

Definition option_lines {A} (f : A → list string) (o : option A) : list string :=
  match o with Some a => f a | None => [] end.

Definition record_lines (record : ChangeRecord) : list string :=
  [event_line record]
  ++ option_lines (λ schema, map schema_column_line (schema_columns schema)) (ch_schema record)
  ++ option_lines (λ row, [image_line "BEFORE" row]) (ch_before record)
  ++ option_lines (λ row, [image_line "AFTER" row]) (ch_after record)
  ++ ["EVENT_END"; ""].

Definition history_text (records : VersionStore) : string := unlines (history_preamble ++ flat_map record_lines records).

(** The files below the root path, and what can go wrong while they are
    written; a failed removal leaves the file, a failed renaming both. *)
Record Disk := MkDisk {
  disk_state : option string;
  disk_state_tmp : option string;
  disk_history : option string;
  disk_history_tmp : option string
}.

Record SaveFault := MkSaveFault {
  state_write : WriteFault;
  state_remove_error : bool;
  state_rename_error : bool;
  history_write : WriteFault;
  history_remove_error : bool;
  history_rename_error : bool
}.

(** An [ofstream] that truncates: whether it is good after [close], which
    flushes, and the file. *)
Definition write_text (fault : WriteFault) (text : string) (file : option string) : bool * option string :=
  match fault with
  | Written => (true, Some text)
  | OpenFails => (false, file)
  | StopsAfter n | LostAtClose n => (false, Some (str_take n text))
  end.

(** Writes [temp], removes [final] and renames: whether it worked, then both files. *)
Definition replace_file (write : WriteFault) (remove_error rename_error : bool) (text : string)
    (final temp : option string) : bool * option string * option string :=
  let '(good, temp) := write_text write text temp in
  if negb good then (false, final, temp)
  else
    let final := if remove_error then final else None in
    if rename_error then (false, final, temp) else (true, temp, None).

Section files.
Context {T : Type} `{!IndexOps T}.

Definition table_lines (n : string) (entry : string * TableRuntime T) : list string :=
  let '(tn, t) := entry in
  ["# Database: " +:+ EscapeField n; "# Table: " +:+ EscapeField tn; table_line n tn]
  ++ map (column_line n tn) (schema_columns (t_schema t))
  ++ map (row_line n tn) (ScanAll (t_heap t))
  ++ [""].

Definition database_lines (entry : string * DatabaseRuntime T) : list string :=
  let '(n, d) := entry in database_line n :: flat_map (table_lines n) (map_to_list (db_tables d)).

Definition state_text (s : RuntimeState T) : string :=
  unlines (state_preamble ++ flat_map database_lines (map_to_list (databases s))).

Definition Save (fault : SaveFault) (s : RuntimeState T) (versions : VersionStore) (disk : Disk) : bool * Disk :=
  let '(ok, state, state_tmp) :=
    replace_file (state_write fault) (state_remove_error fault) (state_rename_error fault) (state_text s)
      (disk_state disk) (disk_state_tmp disk) in
  if negb ok then (false, MkDisk state state_tmp (disk_history disk) (disk_history_tmp disk))
  else
    let '(ok, history, history_tmp) :=
      replace_file (history_write fault) (history_remove_error fault) (history_rename_error fault) (history_text versions)
        (disk_history disk) (disk_history_tmp disk) in
    (ok, MkDisk state state_tmp history history_tmp).

(** ** Reading the state *)

(** [return false]. *)
Definition rejected {A} : Outcome A := MakeError kStorageError "".

Definition or_rejected {A} (o : option A) : Outcome A := match o with Some a => Ok a | None => rejected end.

(** [static_cast] of a number to an enumeration; numbers without an enumerator,
    which only a file of an old format can have, are outside of the model. *)
Definition type_of_number (z : Z) : Outcome ValueType :=
  if z =? 0 then Ok kNull else if z =? 1 then Ok kInt64 else if z =? 2 then Ok kString else Crash UndefinedBehaviour.

Definition constraint_of_number (z : Z) : Outcome ColumnConstraint :=
  if z =? 0 then Ok kNone else if z =? 1 then Ok kNotNull else if z =? 2 then Ok kIndexed else Crash UndefinedBehaviour.

Notation Databases := (gmap string (DatabaseRuntime T)).

Definition load_database (name : string) (dbs : Databases) : Databases := emplace name (MkDatabase name ∅) dbs.

Definition find_table_in (n tn : string) (dbs : Databases) : option (DatabaseRuntime T * TableRuntime T) :=
  d ← dbs !! n; t ← db_tables d !! tn; Some (d, t).

Definition put_table (n tn : string) (d : DatabaseRuntime T) (t : TableRuntime T) (dbs : Databases) : Databases :=
  <[n := MkDatabase (db_name d) (<[tn := t]> (db_tables d))]> dbs.

(** [TABLE] records, in the present and the old format. *)
Definition load_table (parts : list string) (dbs : Databases) : Outcome Databases :=
  let* '(n, tn) :=
    match FindFieldValue parts "db", FindFieldValue parts "name", parts with
    | Some n, Some tn, _ | _, _, _ :: n :: tn :: _ => Ok (UnescapeField n, UnescapeField tn)
    | _, _, _ => rejected
    end in
  let dbs := match dbs !! n with Some _ => dbs | None => load_database n dbs end in
  let schema := MkSchema n tn [] [] in
  match dbs !! n with
  | None => rejected
  | Some d => Ok (<[n := MkDatabase (db_name d) (emplace tn (MkTable schema (NewTableHeap schema) ∅) (db_tables d))]> dbs)
  end.

(** The names and the definition in a [COLUMN] record. *)
Definition parse_column (parts : list string) : Outcome (string * string * ColumnDefinition) :=
  match FindFieldValue parts "db", FindFieldValue parts "table", FindFieldValue parts "name",
        FindFieldValue parts "type", FindFieldValue parts "constraint", FindFieldValue parts "default" with
  | Some n, Some tn, Some c, Some type, Some constraint, Some default =>
      let* type := or_rejected (parse_type_name type) in
      let* constraint := or_rejected (parse_constraint_name constraint) in
      let* value := or_rejected (TryDecodeValue default) in
      Ok (UnescapeField n, UnescapeField tn,
          MkColumn (UnescapeField c) type constraint (if IsNull value then None else Some value))
  | _, _, _, _, _, _ =>
      match parts with
      | _ :: n :: tn :: c :: type :: constraint :: has_default :: default :: _ =>
          let* type := or_rejected (ParseInteger type) in
          let* constraint := or_rejected (ParseInteger constraint) in
          let* default :=
            if String.eqb has_default "1" then let* value := or_rejected (TryDecodeValue default) in Ok (Some value)
            else Ok None in
          let* type := type_of_number type in
          let* constraint := constraint_of_number constraint in
          Ok (UnescapeField n, UnescapeField tn, MkColumn (UnescapeField c) type constraint default)
      | _ => rejected
      end
  end.

(** A column of a table that is not there is skipped. *)
Definition load_column (parts : list string) (dbs : Databases) : Outcome Databases :=
  let* '(n, tn, c) := parse_column parts in
  match find_table_in n tn dbs with
  | None => Ok dbs
  | Some (d, t) =>
      let schema := t_schema t in
      let indexed := bool_decide (col_constraint c = kIndexed) in
      let schema :=
        MkSchema (schema_database schema) (schema_table schema) (schema_columns schema ++ [c])
          (if indexed
           then schema_indexes schema ++ [MkIndexDef ("idx_" +:+ tn +:+ "_" +:+ col_name c) (col_name c) true true]
           else schema_indexes schema) in
      let indexes := if indexed then emplace (col_name c) index_new (t_indexes t) else t_indexes t in
      Ok (put_table n tn d (MkTable schema (NewTableHeap schema) indexes) dbs)
  end.

(** [TryDecodeValue] on each text, strings interned; the pool also when it fails. *)
Fixpoint decode_values (texts : list string) (pool : StringPool) : Outcome (list Value) * StringPool :=
  match texts with
  | [] => (Ok [], pool)
  | text :: texts =>
      match TryDecodeValue text with
      | None => (rejected, pool)
      | Some value =>
          let '(value, pool) :=
            match value with VStr s => let '(p, pool) := Intern s pool in (VInterned p, pool) | _ => (value, pool) end in
          let '(values, pool) := decode_values texts pool in
          ((let* values := values in Ok (value :: values)), pool)
      end
  end.

(** The fields of a record that are called [value]. *)
Definition value_texts (parts : list string) : list string :=
  flat_map (λ p, match ParseKeyValueToken p with
                 | Some (key, value) => if String.eqb key "value" then [value] else []
                 | None => []
                 end) parts.

Definition parse_row_id (parts : list string) : Outcome Z :=
  match FindFieldValue parts "row_id" with
  | None => Ok kInvalidRowId
  | Some text => match stoull text with inr (v, _) => Ok v | inl _ => rejected end
  end.

(** The table of a [ROW] record, and the texts of its values. *)
Definition parse_row_table (parts : list string) : Outcome (string * string * list string) :=
  match FindFieldValue parts "db", FindFieldValue parts "table" with
  | Some n, Some tn => Ok (UnescapeField n, UnescapeField tn, value_texts parts)
  | _, _ =>
      match parts with
      | _ :: n :: tn :: texts => Ok (UnescapeField n, UnescapeField tn, texts)
      | _ => rejected
      end
  end.

Definition load_row (parts : list string) (dbs : Databases) (pool : StringPool) : Outcome Databases * StringPool :=
  match parse_row_table parts with
  | Err er => (Err er, pool)
  | Crash c => (Crash c, pool)
  | Ok (n, tn, texts) =>
      match find_table_in n tn dbs with
      | None => (Ok dbs, pool)
      | Some (d, t) =>
          match parse_row_id parts with
          | Err er => (Err er, pool)
          | Crash c => (Crash c, pool)
          | Ok id =>
              let '(values, pool) := decode_values texts pool in
              ((let* values := values in
                if negb (length values =? length (schema_columns (t_schema t)))%nat then rejected
                else
                  let '(id, heap) := HeapInsert (MkRow id values) (t_heap t) in
                  let '(indexes, ended) :=
                    update_indexes (clone_index_row (t_schema t) (MkRow id values)) (map_to_list (t_indexes t)) (t_indexes t) in
                  let* _ := ended in
                  Ok (put_table n tn d (MkTable (t_schema t) heap indexes) dbs)), pool)
          end
      end
  end.

(** One record of the state file; unknown tags are skipped. *)
Definition load_record (parts : list string) (dbs : Databases) (pool : StringPool) : Outcome Databases * StringPool :=
  let tag := default "" (head parts) in
  if String.eqb tag "DATABASE" then
    (match FindFieldValue parts "name" with
     | None => rejected
     | Some n => Ok (load_database (UnescapeField n) dbs)
     end, pool)
  else if (String.eqb tag "DB" && (2 <=? length parts)%nat)%bool then
    (match parts with _ :: n :: _ => Ok (load_database (UnescapeField n) dbs) | _ => rejected end, pool)
  else if String.eqb tag "TABLE" then (load_table parts dbs, pool)
  else if String.eqb tag "COLUMN" then (load_column parts dbs, pool)
  else if String.eqb tag "ROW" then load_row parts dbs pool
  else (Ok dbs, pool).

End files.

Definition is_comment (l : string) : bool :=
  match l with EmptyString => true | String ch _ => Ascii.eqb ch "#"%char end.

(** The first record may be the version of the format: [None] if it is a record
    to load, else whether the version is supported. *)
Definition check_format (parts : list string) : option bool :=
  match parts with
  | tag :: rest =>
      if String.eqb tag kFormatTag
      then Some (match rest with [version] => IsSupportedFormatVersion version | _ => false end)
      else None
  | [] => None
  end.

Section load.
Context {T : Type} `{!IndexOps T}.

Notation Databases := (gmap string (DatabaseRuntime T)).

(** The loop over the lines: the databases and the pool when it ended, and how. *)
Fixpoint load_state_lines (lines : list string) (format_checked : bool) (dbs : Databases) (pool : StringPool)
    : Outcome unit * Databases * StringPool :=
  match lines with
  | [] => (Ok tt, dbs, pool)
  | l :: lines =>
      if is_comment l then load_state_lines lines format_checked dbs pool
      else
        let parts := SplitByTab l in
        match (if format_checked then None else check_format parts) with
        | Some false => (rejected, dbs, pool)
        | Some true => load_state_lines lines true dbs pool
        | None =>
            let '(result, pool) := load_record parts dbs pool in
            match result with
            | Ok dbs => load_state_lines lines true dbs pool
            | Err er => (Err er, dbs, pool)
            | Crash c => (Crash c, dbs, pool)
            end
        end
  end.

(** ** Reading the history *)

Definition parse_event (parts : list string) : Outcome ChangeRecord :=
  match FindFieldValue parts "kind", FindFieldValue parts "db", FindFieldValue parts "table",
        FindFieldValue parts "timestamp" with
  | Some kind, Some n, Some tn, Some timestamp =>
      let* kind := or_rejected (ParseChangeKind kind) in
      let* id := parse_row_id parts in
      Ok (MkChange kind (UnescapeField n) (UnescapeField tn) (UnescapeField timestamp) id None None None)
  | _, _, _, _ => rejected
  end.

Definition parse_schema_column (parts : list string) (pool : StringPool) : Outcome ColumnDefinition * StringPool :=
  match FindFieldValue parts "name", FindFieldValue parts "type", FindFieldValue parts "constraint",
        FindFieldValue parts "default" with
  | Some c, Some type, Some constraint, Some default =>
      match parse_type_name type, parse_constraint_name constraint, TryDecodeValue default with
      | Some type, Some constraint, Some value =>
          let '(default, pool) :=
            match value with
            | VNull => (None, pool)
            | VStr s => let '(p, pool) := Intern s pool in (Some (VInterned p), pool)
            | _ => (Some value, pool)
            end in
          (Ok (MkColumn (UnescapeField c) type constraint default), pool)
      | _, _, _ => (rejected, pool)
      end
  | _, _, _, _ => (rejected, pool)
  end.

Definition add_schema_column (c : ColumnDefinition) (record : ChangeRecord) : ChangeRecord :=
  let schema := default (MkSchema (ch_database record) (ch_table record) [] []) (ch_schema record) in
  MkChange (ch_kind record) (ch_database record) (ch_table record) (ch_timestamp record) (ch_row_id record)
    (Some (MkSchema (schema_database schema) (schema_table schema) (schema_columns schema ++ [c]) (schema_indexes schema)))
    (ch_before record) (ch_after record).

(** The values of an image: a field without a key is a value too. *)
Definition image_texts (parts : list string) : list string :=
  flat_map (λ p, match ParseKeyValueToken p with
                 | Some (key, value) => if String.eqb key "value" then [value] else []
                 | None => [p]
                 end) (tail parts).

Definition parse_image (parts : list string) (pool : StringPool) : Outcome RowData * StringPool :=
  match parse_row_id parts with
  | Err er => (Err er, pool)
  | Crash c => (Crash c, pool)
  | Ok id =>
      let '(values, pool) := decode_values (image_texts parts) pool in
      ((let* values := values in Ok (MkRow id values)), pool)
  end.

Definition with_before (row : RowData) (record : ChangeRecord) : ChangeRecord :=
  MkChange (ch_kind record) (ch_database record) (ch_table record) (ch_timestamp record) (ch_row_id record)
    (ch_schema record) (Some row) (ch_after record).

Definition with_after (row : RowData) (record : ChangeRecord) : ChangeRecord :=
  MkChange (ch_kind record) (ch_database record) (ch_table record) (ch_timestamp record) (ch_row_id record)
    (ch_schema record) (ch_before record) (Some row).

(** The records read so far, and the one that is not finished. *)
Definition Loaded : Type := list ChangeRecord * option ChangeRecord.

Definition load_history_record (parts : list string) (loaded : Loaded) (pool : StringPool)
    : Outcome Loaded * StringPool :=
  let tag := default "" (head parts) in
  if String.eqb tag "EVENT" then
    (match loaded.2 with
     | Some _ => rejected
     | None => let* record := parse_event parts in Ok (loaded.1, Some record)
     end, pool)
  else if String.eqb tag "SCHEMA_COLUMN" then
    match loaded.2 with
    | None => (rejected, pool)
    | Some record =>
        let '(column, pool) := parse_schema_column parts pool in
        ((let* column := column in Ok (loaded.1, Some (add_schema_column column record))), pool)
    end
  else if (String.eqb tag "BEFORE" || String.eqb tag "AFTER")%bool then
    match loaded.2 with
    | None => (rejected, pool)
    | Some record =>
        let '(row, pool) := parse_image parts pool in
        ((let* row := row in
          Ok (loaded.1, Some (if String.eqb tag "BEFORE" then with_before row record else with_after row record))), pool)
    end
  else if (String.eqb tag "EVENT_END" && (length parts =? 1)%nat)%bool then
    (match loaded.2 with None => rejected | Some record => Ok (loaded.1 ++ [record], None) end, pool)
  else (rejected, pool).

Fixpoint load_history_lines (lines : list string) (format_checked : bool) (loaded : Loaded) (pool : StringPool)
    : Outcome (list ChangeRecord) * StringPool :=
  match lines with
  | [] => (match loaded.2 with Some _ => rejected | None => Ok loaded.1 end, pool)
  | l :: lines =>
      if is_comment l then load_history_lines lines format_checked loaded pool
      else
        let parts := SplitByTab l in
        match (if format_checked then None else check_format parts) with
        | Some false => (rejected, pool)
        | Some true => load_history_lines lines true loaded pool
        | None =>
            let '(result, pool) := load_history_record parts loaded pool in
            match result with
            | Ok loaded => load_history_lines lines true loaded pool
            | Err er => (Err er, pool)
            | Crash c => (Crash c, pool)
            end
        end
  end.

(** ** [Load]

    How it ended, and the state, the change log and the pool, which it changes
    also when it fails; [Ok false] is [return false]. *)

Definition load_result (o : Outcome unit) : Outcome bool :=
  match o with Ok _ => Ok true | Err _ => Ok false | Crash c => Crash c end.

Definition Load (disk : Disk) (s : RuntimeState T) (versions : VersionStore) (pool : StringPool)
    : Outcome bool * RuntimeState T * VersionStore * StringPool :=
  match disk_state disk with
  | None => (Ok true, s, versions, pool)
  | Some text =>
      let '(ended, dbs, pool) := load_state_lines (lines_of text) false ∅ pool in
      let s := MkRuntime dbs in
      match ended with
      | Ok _ =>
          match disk_history disk with
          | None => (Ok true, s, Clear versions, pool)
          | Some text =>
              let '(records, pool) := load_history_lines (lines_of text) false ([], None) pool in
              match records with
              | Ok records =>
                  (match ValidateRuntimeIndexConsistency s with
                   | Ok _ => Ok true
                   | Err _ => Ok false
                   | Crash c => Crash c
                   end, s, ReplaceAll records versions, pool)
              | Err _ => (Ok false, s, versions, pool)
              | Crash c => (Crash c, s, versions, pool)
              end
          end
      | failure => (load_result failure, s, versions, pool)
      end
  end.

(** The constructor of the engine loads into empty stores and does not look at
    the result. *)
Definition load_into_empty (disk : Disk) : Outcome (RuntimeState T * VersionStore * StringPool) :=
  let '(ended, s, versions, pool) := Load disk (MkRuntime ∅) [] empty_pool in
  match ended with Crash c => Crash c | _ => Ok (s, versions, pool) end.

(** The disk of an engine, with the faults of its writes. *)
Definition file_persistence (faults : nat → SaveFault) : PersistenceOps T Disk := {|
  save s versions pool disk k := Save (faults k) s versions disk;
  load := load_into_empty
|}.

End load.
