(* ===== verification/PersistenceFacts.v ===== *)
(** * PersistenceFacts: what is saved is loaded again

    Every record that [Save] writes is read back by [Load] as the record it was
    made from; tables, databases and the change log follow by induction.  Loaded
    strings are interned anew, so states are compared by their texts
    ([plain_row], [saved_column]). *)
From S2P Require Import Prelude Numerals CommonTypes Storage Codec Protocol BStarPlusTree IndexSpec.
From S2P Require Import RuntimeState RuntimeFacts.
From S2P Require Import Ast VersionStore Predicates Execution ExecutionFacts History Wal Engine EngineFacts.
From S2P Require Import Persistence.
From Stdlib Require Import Ascii.

Open Scope Z_scope.

(** ** Tokens *)

(** Texts that the splitter runs through. *)
Definition escaped (s : string) : Prop := ∃ w, s = EscapeField w.

Lemma escaped_field w : escaped (EscapeField w).
Proof. by exists w. Qed.

Lemma escaped_app a b : escaped a → escaped b → escaped (a +:+ b).
Proof. intros [w1 ->] [w2 ->]. exists (w1 +:+ w2). by rewrite escape_app. Qed.

Lemma escaped_self s : EscapeField s = s → escaped s.
Proof. intros E. by exists s. Qed.

Lemma escaped_number z : escaped (to_string z).
Proof. apply escaped_self, escape_plain, plain_to_string. Qed.

Lemma escaped_value v : escaped (EncodeValue v).
Proof.
  destruct v; cbn [EncodeValue]; [by apply escaped_self| | |];
    (apply escaped_app; [by apply escaped_self|first [apply escaped_number|apply escaped_field]]).
Qed.

Lemma escaped_type t : escaped (ValueTypeName t).
Proof. destruct t; by apply escaped_self. Qed.

Lemma escaped_constraint c : escaped (ConstraintName c).
Proof. destruct c; by apply escaped_self. Qed.

Lemma escaped_kind k : escaped (ChangeKindName k).
Proof. destruct k; by apply escaped_self. Qed.

Lemma escaped_default c : escaped (default_text c).
Proof. unfold default_text. destruct (col_default c); [apply escaped_value|by apply escaped_self]. Qed.

Definition escaped_pair (kv : string * string) : Prop := EscapeField kv.1 = kv.1 ∧ escaped kv.2.

Lemma escaped_values vs : Forall escaped_pair (map value_field vs).
Proof. apply Forall_fmap, Forall_true. intros v. split; [done|apply escaped_value]. Qed.

Create HintDb records.
#[export] Hint Resolve escaped_field escaped_number escaped_value escaped_type escaped_constraint escaped_kind
  escaped_default escaped_values : records.
#[export] Hint Extern 1 (escaped_pair _) => (split; [reflexivity|]; simpl) : records.
#[export] Hint Extern 1 (Forall escaped_pair (_ :: _)) => apply Forall_cons; split : records.
#[export] Hint Extern 1 (Forall escaped_pair []) => apply Forall_nil; exact I : records.

Lemma split_loop_text cur s t : escaped s → split_loop tab cur false (s +:+ t) = split_loop tab (cur +:+ s) false t.
Proof. intros [w ->]. by apply split_loop_escaped. Qed.

Definition token (kv : string * string) : string := kv.1 +:+ "=" +:+ kv.2.

Lemma escaped_token kv : escaped_pair kv → escaped (token kv).
Proof.
  destruct kv as [k v]. intros [Hk Hv]. apply escaped_app; [by apply escaped_self|].
  apply escaped_app; [by apply escaped_self|done].
Qed.

Lemma split_fields cur kvs : Forall escaped_pair kvs → split_loop tab cur false (fields kvs) = cur :: map token kvs.
Proof.
  intros H. revert cur. induction H as [|[k v] kvs Hkv H IH]; intros cur; simpl; [done|]. f_equal.
  change (k +:+ String "=" v) with (token (k, v)).
  rewrite (split_loop_text "" (token (k, v)) (fields kvs)) by by apply escaped_token. apply IH.
Qed.

Lemma split_record tag kvs : EscapeField tag = tag → Forall escaped_pair kvs →
  SplitByTab (record_line tag kvs) = tag :: map token kvs.
Proof.
  intros Ht Hk. unfold SplitByTab, record_line. rewrite split_loop_text by by apply escaped_self.
  by apply split_fields.
Qed.

(** ** Lines *)

Lemma one_line_app a b : one_line (a +:+ b) ↔ one_line a ∧ one_line b.
Proof. unfold one_line. rewrite no_char_app. by rewrite andb_true_iff. Qed.

Lemma one_line_escape s : one_line (EscapeField s) ↔ one_line s.
Proof. unfold one_line. by rewrite escape_no_newline. Qed.

Lemma one_line_number z : one_line (to_string z).
Proof. apply plain_no_newline, plain_to_string. Qed.

Definition line_pair (kv : string * string) : Prop := one_line kv.1 ∧ one_line kv.2.

Lemma one_line_fields kvs : Forall line_pair kvs → one_line (fields kvs).
Proof.
  induction 1 as [|[k v] kvs [Hk Hv] _ IH]; [done|]. simpl in *. apply one_line_app. split; [|done].
  change (one_line (String tab "" +:+ (k +:+ ("=" +:+ v)))). by rewrite !one_line_app.
Qed.

(** Texts that the files can hold. *)
Definition value_line (v : Value) : Prop :=
  match v with VStr s => one_line s | VInterned p => one_line (intern_text p) | _ => True end.

Definition row_lines_ok (row : RowData) : Prop := Forall value_line (row_values row).

Definition column_lines_ok (c : ColumnDefinition) : Prop :=
  one_line (col_name c) ∧ match col_default c with Some v => value_line v | None => True end.

Lemma one_line_value v : value_line v → one_line (EncodeValue v).
Proof.
  destruct v; cbn [EncodeValue]; [done|intros _; apply one_line_app; split; [done|apply one_line_number]| |];
    intros H; apply one_line_app; (split; [done|]); by apply one_line_escape.
Qed.

Lemma one_line_values vs : Forall value_line vs → Forall line_pair (map value_field vs).
Proof. intros H. apply Forall_fmap. eapply Forall_impl; [exact H|]. intros v Hv. split; [done|by apply one_line_value]. Qed.

Lemma one_line_default c : column_lines_ok c → one_line (default_text c).
Proof. intros [_ H]. unfold default_text. destruct (col_default c); [by apply one_line_value|done]. Qed.

Lemma one_line_type t : one_line (ValueTypeName t).
Proof. by destruct t. Qed.

Lemma one_line_constraint c : one_line (ConstraintName c).
Proof. by destruct c. Qed.

Lemma one_line_kind k : one_line (ChangeKindName k).
Proof. by destruct k. Qed.

#[export] Hint Resolve one_line_number one_line_type one_line_constraint one_line_kind one_line_default one_line_values
  : records.
#[export] Hint Extern 1 (one_line (EscapeField _)) => apply one_line_escape : records.
#[export] Hint Extern 1 (one_line _) => reflexivity : records.
#[export] Hint Extern 1 (line_pair _) => (split; simpl; [reflexivity|]) : records.
#[export] Hint Extern 1 (Forall line_pair (_ :: _)) => apply Forall_cons; split : records.
#[export] Hint Extern 1 (Forall line_pair []) => apply Forall_nil; exact I : records.

Lemma one_line_record tag kvs : one_line tag → Forall line_pair kvs → one_line (record_line tag kvs).
Proof. intros Ht Hk. apply one_line_app. split; [done|by apply one_line_fields]. Qed.

(** ** Values *)

Lemma decode_encode v : value_ok v → TryDecodeValue (EncodeValue v) = Some (plain_value v).
Proof.
  destruct v as [|z|s|p]; simpl; intros Hv; try done.
  - unfold TryDecodeValue. simpl. unfold decode_int. rewrite stoll_to_string by done. by rewrite Nat.eqb_refl.
  - unfold TryDecodeValue. simpl. by rewrite unescape_escape.
  - unfold TryDecodeValue. simpl. by rewrite unescape_escape.
Qed.

Lemma plain_value_idem v : plain_value (plain_value v) = plain_value v.
Proof. by destruct v. Qed.

Lemma decode_values_encode vs pool : Forall value_ok vs → pool_wf pool →
  ∃ vs' pool', decode_values (map EncodeValue vs) pool = (Ok vs', pool') ∧ map plain_value vs' = map plain_value vs ∧
    Forall value_ok vs' ∧ pool_wf pool'.
Proof.
  intros H. revert pool. induction H as [|v vs Hv _ IH]; intros pool Hp; simpl; [by exists [], pool|].
  rewrite decode_encode by done.
  assert (∃ v' pool', match plain_value v with VStr s => let '(p, pool) := Intern s pool in (VInterned p, pool)
    | _ => (plain_value v, pool) end = (v', pool') ∧ plain_value v' = plain_value v ∧ value_ok v' ∧ pool_wf pool')
    as (v' & pool1 & -> & Hv' & Hok & Hp1).
  { pose proof (λ s, Intern_text s pool Hp) as Htext. pose proof (λ s, Intern_wf s pool Hp) as Hwf.
    destruct v as [|z|s|p]; simpl; try (by eexists _, _);
      [specialize (Htext s); specialize (Hwf s); destruct (Intern s pool)
      |specialize (Htext (intern_text p)); specialize (Hwf (intern_text p)); destruct (Intern (intern_text p) pool)];
      eexists _, _; (split; [done|]); simpl in *; by rewrite Htext. }
  destruct (IH pool1 Hp1) as (vs' & pool2 & -> & Hvs' & Hok' & Hp2). simpl. eexists _, _. split; [done|]. simpl.
  split; [congruence|]. split; [by constructor|done].
Qed.

(** ** Columns and rows *)

(** A column as it is loaded: a default of NULL is no default. *)
Definition saved_column (c : ColumnDefinition) : ColumnDefinition :=
  MkColumn (col_name c) (col_type c) (col_constraint c)
    match col_default c with Some VNull | None => None | Some v => Some (plain_value v) end.

Definition saved_schema (schema : TableSchema) : TableSchema :=
  MkSchema (schema_database schema) (schema_table schema) (map saved_column (schema_columns schema)) (schema_indexes schema).

Lemma parse_type_print t : parse_type_name (ValueTypeName t) = Some t.
Proof. by destruct t. Qed.

Lemma parse_constraint_print c : parse_constraint_name (ConstraintName c) = Some c.
Proof. by destruct c. Qed.

Lemma parse_kind_print k : ParseChangeKind (ChangeKindName k) = Some k.
Proof. by destruct k. Qed.

Lemma decode_default c : default_ok c →
  TryDecodeValue (default_text c) = Some match col_default c with Some v => plain_value v | None => VNull end.
Proof. unfold default_ok, default_text. destruct (col_default c) as [v|]; [|done]. intros H. by apply decode_encode, H. Qed.

Lemma value_texts_print texts : value_texts (map token (map (λ t, ("value", t)) texts)) = texts.
Proof. unfold value_texts. induction texts as [|t texts IH]; simpl; [done|]. by rewrite IH. Qed.

Lemma value_tokens vs : map token (map value_field vs) = map token (map (λ t, ("value", t)) (map EncodeValue vs)).
Proof. by rewrite !map_map. Qed.

Lemma image_texts_print tag id texts :
  image_texts (tag :: token ("row_id", id) :: map token (map (λ t, ("value", t)) texts)) = texts.
Proof. unfold image_texts. simpl. induction texts as [|t texts IH]; simpl; [done|]. by rewrite IH. Qed.

Lemma parse_row_id_print parts id : FindFieldValue parts "row_id" = Some (to_string id) → in_uint64 id →
  parse_row_id parts = Ok id.
Proof. intros H Hid. unfold parse_row_id. by rewrite H, stoull_to_string. Qed.

Section tables.
Context {T : Type} `{!IndexOps T} `{!IndexLaws T}.

Implicit Types (dbs : gmap string (DatabaseRuntime T)) (t : TableRuntime T).

Lemma load_record_database n dbs pool :
  load_record (SplitByTab (database_line n)) dbs pool = (Ok (load_database n dbs), pool).
Proof.
  unfold database_line. rewrite split_record by auto 8 with records. unfold load_record, FindFieldValue. simpl.
  by rewrite unescape_escape.
Qed.

Lemma load_record_table n tn d dbs pool : dbs !! n = Some d → db_tables d !! tn = None →
  load_record (SplitByTab (table_line n tn)) dbs pool =
  (Ok (put_table n tn d (MkTable (MkSchema n tn [] []) (NewTableHeap (MkSchema n tn [] [])) ∅) dbs), pool).
Proof.
  intros Hn Ht. unfold table_line. rewrite split_record by auto 8 with records.
  unfold load_record, load_table, FindFieldValue. simpl. rewrite !unescape_escape, !Hn. simpl. rewrite ?Hn.
  unfold emplace. by rewrite Ht.
Qed.

(** A column that is added to a table without rows. *)
Definition add_column (tn : string) (c : ColumnDefinition) t : TableRuntime T :=
  let schema := MkSchema (schema_database (t_schema t)) (schema_table (t_schema t)) (schema_columns (t_schema t) ++ [c])
                  (schema_indexes (t_schema t) ++ column_index tn c) in
  MkTable schema (NewTableHeap schema)
    (if bool_decide (col_constraint c = kIndexed) then emplace (col_name c) index_new (t_indexes t) else t_indexes t).

Lemma load_record_column n tn c d t dbs pool : find_table_in n tn dbs = Some (d, t) → default_ok c →
  load_record (SplitByTab (column_line n tn c)) dbs pool = (Ok (put_table n tn d (add_column tn (saved_column c) t) dbs), pool).
Proof.
  intros Ht Hc. unfold column_line. rewrite split_record by auto 12 with records.
  unfold load_record, load_column, parse_column, FindFieldValue. simpl.
  rewrite parse_type_print, parse_constraint_print, decode_default by done. simpl.
  rewrite !unescape_escape. rewrite Ht. f_equal. f_equal. unfold add_column, column_index, saved_column. simpl.
  assert (Hd : (if IsNull match col_default c with Some v => plain_value v | None => VNull end then None
    else Some match col_default c with Some v => plain_value v | None => VNull end) =
    match col_default c with Some VNull | None => None | Some v => Some (plain_value v) end).
  { by destruct (col_default c) as [[]|]. }
  rewrite Hd. case_bool_decide; [done|]. by rewrite app_nil_r.
Qed.

Lemma find_put n tn d t dbs : find_table_in n tn (put_table n tn d t dbs) =
  Some (MkDatabase (db_name d) (<[tn := t]> (db_tables d)), t).
Proof. unfold find_table_in, put_table. rewrite lookup_insert_eq. simpl. by rewrite lookup_insert_eq. Qed.

Lemma put_put n tn d t t' dbs :
  put_table n tn (MkDatabase (db_name d) (<[tn := t]> (db_tables d))) t' (put_table n tn d t dbs) = put_table n tn d t' dbs.
Proof. unfold put_table. simpl. by rewrite !insert_insert_eq. Qed.

(** Lines are loaded one after the other. *)
Lemma load_step l lines dbs dbs' pool pool' : is_comment l = false → load_record (SplitByTab l) dbs pool = (Ok dbs', pool') →
  load_state_lines (l :: lines) true dbs pool = load_state_lines lines true dbs' pool'.
Proof. intros Hc Hl. cbn [load_state_lines]. by rewrite Hc, Hl. Qed.

Lemma load_columns n tn cs lines d t dbs pool : Forall default_ok cs →
  load_state_lines (map (column_line n tn) cs ++ lines) true (put_table n tn d t dbs) pool =
  load_state_lines lines true (put_table n tn d (foldl (λ t c, add_column tn (saved_column c) t) t cs) dbs) pool.
Proof.
  intros H. revert t. induction H as [|c cs Hc _ IH]; intros t; [done|].
  cbn [map app foldl]. erewrite load_step; [|done|by apply load_record_column; [apply find_put|]]. by rewrite put_put, IH.
Qed.

(** The columns of a new table. *)
Lemma add_columns n tn cs t : t_schema t = MkSchema n tn (schema_columns (t_schema t)) (schema_indexes (t_schema t)) →
  t_heap t = NewTableHeap (t_schema t) → t_indexes t = new_indexes (t_schema t) →
  let t' := foldl (λ t c, add_column tn (saved_column c) t) t cs in
  t_schema t' = MkSchema n tn (schema_columns (t_schema t) ++ map saved_column cs)
                  (schema_indexes (t_schema t) ++ column_indexes tn cs) ∧
  t_heap t' = NewTableHeap (t_schema t') ∧ t_indexes t' = new_indexes (t_schema t').
Proof.
  revert t. induction cs as [|c cs IH]; intros t Hs Hh Hi; simpl.
  { by rewrite !app_nil_r. }
  destruct (IH (add_column tn (saved_column c) t)) as (H1 & H2 & H3).
  - simpl. rewrite Hs. done.
  - done.
  - simpl. unfold new_indexes. simpl. rewrite foldl_app. rewrite Hi. unfold column_index. simpl.
    unfold new_indexes. by case_bool_decide.
  - split; [|done]. rewrite H1. simpl. by rewrite <-!app_assoc.
Qed.

(** Rows with the same texts have the same keys and fit the same columns. *)
Lemma encode_plain v ty : EncodeIndexKey (plain_value v) ty = EncodeIndexKey v ty.
Proof. by destruct v. Qed.

Lemma plain_eq_encode v v' ty : plain_value v' = plain_value v → EncodeIndexKey v' ty = EncodeIndexKey v ty.
Proof. intros H. by rewrite <-(encode_plain v), <-(encode_plain v'), H. Qed.

Lemma map_eq_lookup {A B} (f : A → B) l l' i : map f l' = map f l → f <$> l' !! i = f <$> l !! i.
Proof. intros H. change (f <$> l' = f <$> l) in H. by rewrite <-!list_lookup_fmap, H. Qed.

Lemma key_of_plain schema i row row' : map plain_value (row_values row') = map plain_value (row_values row) →
  key_of (saved_schema schema) i row' = key_of schema i row.
Proof.
  intros H%(map_eq_lookup _ _ _ i). unfold key_of, value_at, column_at, saved_schema. simpl.
  destruct (row_values row' !! i) as [v'|], (row_values row !! i) as [v|]; simpl in *; try done.
  rewrite list_lookup_fmap. destruct (schema_columns schema !! i) as [c|]; simpl; [|done].
  injection H as H. by apply plain_eq_encode.
Qed.

Lemma cell_ok_plain v v' c : cell_ok v c → plain_value v' = plain_value v → value_ok v' → cell_ok v' (saved_column c).
Proof.
  intros [H1 H2] Hp Hv. split; [|done]. simpl. rewrite <-H1.
  assert (∀ w, CanAssignToType (plain_value w) (col_type c) (allow_null c) = CanAssignToType w (col_type c) (allow_null c))
    as Hpl by (by intros []).
  unfold allow_null in *. simpl. rewrite <-(Hpl v), <-(Hpl v'), Hp. done.
Qed.

Lemma row_ok_plain schema row vs' : row_ok schema row → map plain_value vs' = map plain_value (row_values row) →
  Forall value_ok vs' → row_ok (saved_schema schema) (MkRow (row_id row) vs').
Proof.
  unfold row_ok, saved_schema. simpl. destruct row as [id vs]. simpl. intros H. revert vs'.
  induction H as [|v c vs cs Hv _ IH]; intros [|v' vs'] Hp Hok; simpl in *; try done.
  inversion Hok; subst. injection Hp as Hp1 Hp2. constructor; [by eapply cell_ok_plain|by apply IH].
Qed.

Lemma row_values_ok schema row : row_ok schema row → Forall value_ok (row_values row).
Proof. unfold row_ok. induction 1 as [|v c vs cs [_ Hv] _ IH]; constructor; done. Qed.

(** The table after the rows [done] were loaded. *)
Definition loaded_table (schema : TableSchema) (done : list RowData) (m : gmap string T) : TableRuntime T :=
  MkTable schema (MkHeap schema done (foldl next_after 0 done)) m.

Definition loaded_indexes (schema : TableSchema) (done : list RowData) (m : gmap string T) : Prop :=
  dom m = dom (new_indexes schema : gmap string T) ∧ ∀ c u, m !! c = Some u → filled schema done c u.

Definition id_ok (row : RowData) : Prop := 0 ≤ row_id row < kInvalidRowId.

Lemma load_record_row n tn schema done m row d dbs pool :
  row_ok schema row → id_ok row → loaded_indexes (saved_schema schema) done m → pool_wf pool →
  ∃ row' m' pool', load_record (SplitByTab (row_line n tn row)) (put_table n tn d (loaded_table (saved_schema schema) done m) dbs) pool
      = (Ok (put_table n tn d (loaded_table (saved_schema schema) (done ++ [row']) m') dbs), pool') ∧
    plain_row row' = plain_row row ∧ row_ok (saved_schema schema) row' ∧
    loaded_indexes (saved_schema schema) (done ++ [row']) m' ∧ pool_wf pool'.
Proof.
  intros Hrow Hid [Hdom Hm] Hp. unfold row_line. rewrite split_record by (simpl; auto 12 with records).
  unfold load_record. cbn [head default String.eqb Ascii.eqb Bool.eqb andb orb].
  unfold load_row, parse_row_table, FindFieldValue. simpl. rewrite !unescape_escape, find_put.
  rewrite (parse_row_id_print _ (row_id row)); [|done|unfold id_ok, in_uint64, kInvalidRowId, uint64_modulus in *; lia].
  unfold value_texts. simpl. fold (value_texts (map token (map value_field (row_values row)))).
  rewrite value_tokens, value_texts_print.
  destruct (decode_values_encode (row_values row) pool (row_values_ok _ _ Hrow) Hp) as (vs' & pool' & -> & Hpl & Hok & Hp').
  pose proof (row_ok_plain schema row vs' Hrow Hpl Hok) as Hrow'. cbn [obind].
  assert (Hlen : length vs' = length (map saved_column (schema_columns schema))) by (by apply Forall2_length in Hrow').
  rewrite (proj2 (Nat.eqb_eq _ _) Hlen). cbn [negb].
  assert (Hne : row_id row ≠ kInvalidRowId) by (unfold id_ok in Hid; lia).
  rewrite (surjective_pairing (HeapInsert _ _)), HeapInsert_keeps_id by done.
  assert (Hid1 : ∀ h, (HeapInsert (MkRow (row_id row) vs') h).1 = row_id row).
  { intros h. unfold HeapInsert. simpl. rewrite bool_decide_false by done. by case_bool_decide. }
  rewrite Hid1. cbn [loaded_table t_heap t_schema t_indexes heap_schema heap_rows heap_next].
  destruct (update_indexes_map (λ c _ u', filled (saved_schema schema) (done ++ [MkRow (row_id row) vs']) c u')
    (clone_index_row (saved_schema schema) (MkRow (row_id row) vs')) m) as (m' & -> & Hdom' & Hm').
  { intros c u Hc. unfold clone_index_row. destruct (FindColumnIndex (saved_schema schema) c) as [i|] eqn:Hi.
    - by apply filled_step; [| |apply Hm].
    - exists u. split; [done|]. intros j Hj. congruence. }
  cbn [obind]. rewrite put_put. exists (MkRow (row_id row) vs'), m', pool'. split; [|split_and!; try done].
  - unfold loaded_table. by rewrite foldl_app.
  - unfold plain_row. simpl. by rewrite Hpl.
  - split; [congruence|]. intros c u Hc. by destruct (Hm' c u Hc) as (? & _ & ?).
Qed.

Lemma load_rows n tn schema rows lines d done m dbs pool :
  Forall (row_ok schema) rows → Forall id_ok rows → loaded_indexes (saved_schema schema) done m → pool_wf pool →
  ∃ rows' m' pool', load_state_lines (map (row_line n tn) rows ++ lines) true
      (put_table n tn d (loaded_table (saved_schema schema) done m) dbs) pool =
      load_state_lines lines true (put_table n tn d (loaded_table (saved_schema schema) (done ++ rows') m') dbs) pool' ∧
    map plain_row rows' = map plain_row rows ∧ Forall (row_ok (saved_schema schema)) rows' ∧
    loaded_indexes (saved_schema schema) (done ++ rows') m' ∧ pool_wf pool'.
Proof.
  intros Hr. revert done m pool. induction Hr as [|row rows Hrow _ IH]; intros done m pool Hid Hm Hp.
  { exists [], m, pool. by rewrite app_nil_r. }
  inversion Hid as [|? ? Hid1 Hid2]; subst.
  destruct (load_record_row n tn schema done m row d dbs pool Hrow Hid1 Hm Hp) as (row' & m1 & pool1 & E & H1 & H2 & H3 & H4).
  destruct (IH (done ++ [row']) m1 pool1 Hid2 H3 H4) as (rows' & m2 & pool2 & E2 & G1 & G2 & G3 & G4).
  exists (row' :: rows'), m2, pool2. cbn [map app]. erewrite load_step; [|done|exact E]. rewrite E2.
  rewrite <-app_assoc in *. cbn [app] in *. split_and!; try done; [simpl; congruence|by constructor].
Qed.

(** ** Tables *)

(** A table as it is loaded: the same columns, rows and next row id. *)
Record same_table (t t' : TableRuntime T) : Prop := {
  st_schema : t_schema t' = saved_schema (t_schema t);
  st_rows : map plain_row (heap_rows (t_heap t')) = map plain_row (heap_rows (t_heap t));
  st_next : heap_next (t_heap t') = heap_next (t_heap t)
}.

Lemma find_saved_column schema c : FindColumnIndex (saved_schema schema) c = FindColumnIndex schema c.
Proof.
  unfold FindColumnIndex, saved_schema. simpl. induction (schema_columns schema) as [|d cs IH]; simpl; [done|]. by rewrite IH.
Qed.

Lemma column_indexes_saved tn cs : column_indexes tn (map saved_column cs) = column_indexes tn cs.
Proof. unfold column_indexes. induction cs as [|c cs IH]; simpl; [done|]. by rewrite IH. Qed.

Lemma plain_rows_ids rows rows' : map plain_row rows' = map plain_row rows → map row_id rows' = map row_id rows.
Proof.
  intros H. apply (f_equal (map row_id)) in H. by rewrite !map_map in H.
Qed.

Lemma next_of_ids rows rows' k : map row_id rows' = map row_id rows → foldl next_after k rows' = foldl next_after k rows.
Proof.
  revert rows' k. induction rows as [|r rows IH]; intros [|r' rows'] k; simpl; try done. intros [= Hr Hrs].
  unfold next_after at 2 4. rewrite Hr. by apply IH.
Qed.

Lemma index_keys_plain schema i rows rows' : map plain_row rows' = map plain_row rows →
  index_keys (saved_schema schema) i rows' = index_keys schema i rows.
Proof.
  revert rows'. unfold index_keys. induction rows as [|r rows IH]; intros [|r' rows']; simpl; try done. intros [= _ Hr Hrs].
  rewrite IH by done. f_equal. unfold key_text. by rewrite (key_of_plain _ _ r).
Qed.

Lemma not_null_plain i rows rows' : map plain_row rows' = map plain_row rows → Forall (not_null_at i) rows → Forall (not_null_at i) rows'.
Proof.
  intros H Hn. revert rows' H. induction Hn as [|r rows Hr _ IH]; intros [|r' rows']; simpl; try done. intros [= _ Hv Hrs].
  constructor; [|by apply IH]. unfold not_null_at in *. apply (map_eq_lookup _ _ _ i) in Hv. intros E. rewrite E in Hv.
  destruct (row_values r !! i) as [v|]; [|done]. by destruct v.
Qed.

Lemma default_ok_saved c : default_ok c → default_ok (saved_column c).
Proof. unfold default_ok, saved_column. simpl. destruct (col_default c) as [[]|]; naive_solver. Qed.

Lemma loaded_table_ok n tn t rows' m' :
  table_inv n tn t → map plain_row rows' = map plain_row (heap_rows (t_heap t)) →
  Forall (row_ok (saved_schema (t_schema t))) rows' → loaded_indexes (saved_schema (t_schema t)) rows' m' →
  table_inv n tn (loaded_table (saved_schema (t_schema t)) rows' m') ∧
  same_table t (loaded_table (saved_schema (t_schema t)) rows' m').
Proof.
  intros [Hok Hd Hn Htn Hix] Hpl Hrows [Hdom Hm]. pose proof (plain_rows_ids _ _ Hpl) as Hids.
  assert (Hnext : foldl next_after 0 rows' = heap_next (t_heap t)).
  { rewrite (tok_next _ Hok). by apply next_of_ids. }
  split; [|by split]. destruct Hok as [[[Hs Hb] Hlim] Hnx Hsc Hr [Hdx Hc]].
  split; simpl; try done; [|by apply Forall_fmap, (Forall_impl _ _ _ Hd), default_ok_saved
    |by rewrite column_indexes_saved].
  split; simpl; try done.
  - split; simpl; rewrite Hnext; [|done]. split; [by rewrite Hids|].
    apply (Forall_map row_id (λ i, 0 ≤ i < heap_next (t_heap t))). rewrite Hids. by apply Forall_map.
  - apply filled_new_consistent; [done|done|]. intros def Hdef. simpl in Hdef. rewrite find_saved_column.
    assert (Hin : idx_column def ∈ dom (t_indexes t)).
    { rewrite Hdx. apply elem_of_list_to_set. apply list_elem_of_fmap. by exists def. }
    apply elem_of_dom in Hin as [u Hu]. destruct (Hc _ u Hu) as (i & Hi & [_ Hu1 Hu2]). exists i. split; [done|].
    split; [by rewrite (index_keys_plain _ _ _ _ Hpl)|by apply (not_null_plain i _ _ Hpl)].
Qed.

Lemma load_table_lines n tn t lines d dbs pool :
  table_inv n tn t → dbs !! n = Some d → db_tables d !! tn = None → pool_wf pool →
  ∃ t' pool', load_state_lines (table_lines n (tn, t) ++ lines) true dbs pool =
      load_state_lines lines true (put_table n tn d t' dbs) pool' ∧
    table_inv n tn t' ∧ same_table t t' ∧ pool_wf pool'.
Proof.
  intros Hinv Hd Ht Hp. unfold table_lines. rewrite <-!app_assoc. cbn [app].
  change (load_state_lines (?a :: ?b :: ?l) true dbs pool) with (load_state_lines l true dbs pool).
  erewrite load_step; [|done|by apply load_record_table].
  rewrite load_columns by apply (ti_defaults _ _ _ Hinv).
  set (t0 := MkTable (MkSchema n tn [] []) _ _).
  destruct (add_columns n tn (schema_columns (t_schema t)) t0 eq_refl eq_refl eq_refl) as (H1 & H2 & H3).
  set (t1 := foldl _ t0 _) in *.
  assert (Hs1 : t_schema t1 = saved_schema (t_schema t)).
  { rewrite H1. destruct Hinv as [_ _ Hn Htn Hix]. unfold saved_schema. simpl. by rewrite Hix, Hn, Htn. }
  assert (Ht1 : t1 = loaded_table (saved_schema (t_schema t)) [] (new_indexes (saved_schema (t_schema t)))).
  { rewrite Hs1 in H2, H3. clear H1. clearbody t1. destruct t1 as [s1 h1 i1]. simpl in *. by rewrite Hs1, H2, H3. }
  rewrite Ht1. destruct Hinv as [Hok Hdf Hn Htn Hix]. pose proof (Build_table_inv _ _ _ Hok Hdf Hn Htn Hix) as Hinv.
  destruct (load_rows n tn (t_schema t) (ScanAll (t_heap t)) ([""] ++ lines) d [] (new_indexes (saved_schema (t_schema t))) dbs pool)
    as (rows' & m' & pool' & E & G1 & G2 & G3 & G4); [by apply tok_rows| | |done|].
  { destruct (tok_heap _ Hok) as [[_ Hb] Hlim]. eapply Forall_impl; [exact Hb|]. unfold id_ok. simpl. lia. }
  { split; [done|]. intros c u Hu. by apply filled_new. }
  eexists _, pool'. split; [exact E|]. simpl. destruct (loaded_table_ok n tn t rows' m' Hinv G1 G2 G3) as [L1 L2].
  split_and!; done.
Qed.

(** ** Databases *)

Definition same_database (n : string) (d d' : DatabaseRuntime T) : Prop :=
  db_name d' = n ∧ ∀ tn, option_Forall2 same_table (db_tables d !! tn) (db_tables d' !! tn).

(** A state as it is loaded. *)
Definition same_state (s s' : RuntimeState T) : Prop :=
  ∀ n, option_Forall2 (same_database n) (databases s !! n) (databases s' !! n).

Definition loaded_as n tn (t t' : TableRuntime T) : Prop := table_inv n tn t' ∧ same_table t t'.

Lemma load_tables n l lines tbls dbs pool :
  NoDup l.*1 → (∀ tn t, (tn, t) ∈ l → table_inv n tn t ∧ tbls !! tn = None) → dbs !! n = Some (MkDatabase n tbls) → pool_wf pool →
  ∃ tbls' pool', load_state_lines (flat_map (table_lines n) l ++ lines) true dbs pool =
      load_state_lines lines true (<[n := MkDatabase n tbls']> dbs) pool' ∧ pool_wf pool' ∧
    (∀ tn, tn ∉ l.*1 → tbls' !! tn = tbls !! tn) ∧
    (∀ tn t, (tn, t) ∈ l → ∃ t', tbls' !! tn = Some t' ∧ loaded_as n tn t t').
Proof.
  revert tbls dbs pool. induction l as [|[tn t] l IH]; intros tbls dbs pool Hnd Hl Hd Hp.
  { exists tbls, pool. rewrite insert_id by done. split_and!; try done. intros ? ? []%not_elem_of_nil. }
  cbn [flat_map]. rewrite <-app_assoc. destruct (Hl tn t) as [Hinv Hno]; [by left|].
  destruct (load_table_lines n tn t (flat_map (table_lines n) l ++ lines) _ dbs pool Hinv Hd Hno Hp)
    as (t' & pool1 & -> & Hinv' & Hsame & Hp1).
  cbn in Hnd. apply NoDup_cons in Hnd as [Hn Hnd]. unfold put_table. cbn [db_name db_tables].
  destruct (IH (<[tn := t']> tbls) (<[n := MkDatabase n (<[tn := t']> tbls)]> dbs) pool1) as (tbls' & pool2 & -> & Hp2 & Hout & Hin);
    [done| |by rewrite lookup_insert_eq|done|].
  { intros tn2 t2 Ht2. destruct (Hl tn2 t2) as [? ?]; [by right|]. split; [done|]. rewrite lookup_insert_ne; [done|].
    intros <-. apply Hn. apply list_elem_of_fmap. by exists (tn, t2). }
  exists tbls', pool2. rewrite insert_insert_eq. split_and!; try done.
  - intros k [Hk1 Hk2]%not_elem_of_cons. by rewrite Hout, lookup_insert_ne.
  - intros k u [[= -> ->]|Hk]%elem_of_cons; [|by apply Hin]. exists t'. by rewrite Hout, lookup_insert_eq.
Qed.

Lemma load_tables_map n (tables : gmap string (TableRuntime T)) lines dbs pool :
  map_Forall (λ tn t, table_inv n tn t) tables → dbs !! n = Some (MkDatabase n ∅) → pool_wf pool →
  ∃ tbls' pool', load_state_lines (flat_map (table_lines n) (map_to_list tables) ++ lines) true dbs pool =
      load_state_lines lines true (<[n := MkDatabase n tbls']> dbs) pool' ∧ pool_wf pool' ∧
    ∀ tn, option_Forall2 (loaded_as n tn) (tables !! tn) (tbls' !! tn).
Proof.
  intros Hinv Hd Hp. destruct (load_tables n (map_to_list tables) lines ∅ dbs pool) as (tbls' & pool' & -> & Hp' & Hout & Hin); try done.
  { apply NoDup_fst_map_to_list. }
  { intros tn t Ht%elem_of_map_to_list. split; [by apply (Hinv tn)|apply lookup_empty]. }
  exists tbls', pool'. split_and!; try done. intros tn. destruct (tables !! tn) as [t|] eqn:E.
  - destruct (Hin tn t) as (t' & -> & H); [by apply elem_of_map_to_list|]. by constructor.
  - rewrite Hout, lookup_empty; [constructor|]. intros ([k c] & -> & Hkc)%list_elem_of_fmap.
    apply elem_of_map_to_list in Hkc. simpl in E. congruence.
Qed.

Definition database_loaded n (d d' : DatabaseRuntime T) : Prop :=
  db_name d' = n ∧ ∀ tn, option_Forall2 (loaded_as n tn) (db_tables d !! tn) (db_tables d' !! tn).

Lemma load_databases l lines dbs pool :
  NoDup l.*1 → (∀ n d, (n, d) ∈ l → map_Forall (λ tn t, table_inv n tn t) (db_tables d) ∧ dbs !! n = None) → pool_wf pool →
  ∃ dbs' pool', load_state_lines (flat_map database_lines l ++ lines) true dbs pool = load_state_lines lines true dbs' pool' ∧
    pool_wf pool' ∧ (∀ n, n ∉ l.*1 → dbs' !! n = dbs !! n) ∧
    (∀ n d, (n, d) ∈ l → ∃ d', dbs' !! n = Some d' ∧ database_loaded n d d').
Proof.
  revert dbs pool. induction l as [|[n d] l IH]; intros dbs pool Hnd Hl Hp.
  { exists dbs, pool. split_and!; try done. intros ? ? []%not_elem_of_nil. }
  cbn [flat_map database_lines app]. rewrite <-app_assoc. destruct (Hl n d) as [Hinv Hno]; [by left|].
  erewrite load_step; [|done|apply load_record_database]. unfold load_database, emplace. rewrite Hno.
  destruct (load_tables_map n (db_tables d) (flat_map database_lines l ++ lines) (<[n := MkDatabase n ∅]> dbs) pool)
    as (tbls' & pool1 & -> & Hp1 & Ht); [done|by rewrite lookup_insert_eq|done|]. rewrite insert_insert_eq.
  cbn in Hnd. apply NoDup_cons in Hnd as [Hn Hnd].
  destruct (IH (<[n := MkDatabase n tbls']> dbs) pool1) as (dbs' & pool2 & -> & Hp2 & Hout & Hin); [done| |done|].
  { intros n2 d2 Hd2. destruct (Hl n2 d2) as [? ?]; [by right|]. split; [done|]. rewrite lookup_insert_ne; [done|].
    intros <-. apply Hn. apply list_elem_of_fmap. by exists (n, d2). }
  exists dbs', pool2. split_and!; try done.
  - intros k [Hk1 Hk2]%not_elem_of_cons. by rewrite Hout, lookup_insert_ne.
  - intros k u [[= -> ->]|Hk]%elem_of_cons; [|by apply Hin]. rewrite Hout, lookup_insert_eq by done. by eexists.
Qed.

(** ** The state file *)

(** No name and no string of the state has a newline. *)
Definition table_lines_ok (tn : string) t : Prop :=
  one_line tn ∧ Forall column_lines_ok (schema_columns (t_schema t)) ∧ Forall row_lines_ok (heap_rows (t_heap t)).

Definition state_lines_ok (s : RuntimeState T) : Prop :=
  map_Forall (λ n d, one_line n ∧ map_Forall table_lines_ok (db_tables d)) (databases s).

Lemma table_lines_one_line n tn t : one_line n → table_lines_ok tn t → Forall one_line (table_lines n (tn, t)).
Proof.
  intros Hn (Htn & Hc & Hr). unfold table_lines. apply Forall_app. split.
  { repeat constructor; [by apply one_line_app; auto with records|by apply one_line_app; auto with records|].
    apply one_line_record; auto 10 with records. }
  apply Forall_app. split; [|apply Forall_app; split; [|by repeat constructor]].
  - apply Forall_fmap, (Forall_impl _ _ _ Hc). intros c Hcc. pose proof Hcc as [? _]. apply one_line_record; auto 12 with records.
  - apply Forall_fmap, (Forall_impl _ _ _ Hr). intros row Hrow. apply one_line_record; simpl; auto 12 with records.
Qed.

Lemma state_lines_one_line s : state_lines_ok s →
  Forall one_line (state_preamble ++ flat_map database_lines (map_to_list (databases s))).
Proof.
  intros Hs. apply Forall_app. split; [by repeat constructor|]. apply Forall_flat_map, Forall_forall.
  intros [n d] Hnd%elem_of_map_to_list. destruct (Hs n d Hnd) as [Hn Ht]. constructor; [apply one_line_record; auto 10 with records|].
  apply Forall_flat_map, Forall_forall. intros [tn t] Htn%elem_of_map_to_list. by apply table_lines_one_line; [|apply Ht].
Qed.

Lemma lines_of_unlines ls : Forall one_line ls → lines_of (unlines ls) = ls.
Proof. intros H. pose proof (lines_unlines ls "" H) as E. rewrite str_app_nil_r in E. rewrite E. apply app_nil_r. Qed.

Lemma load_saved_state s pool : runtime_inv s → state_lines_ok s → pool_wf pool →
  ∃ s' pool', load_state_lines (lines_of (state_text s)) false ∅ pool = (Ok tt, databases s', pool') ∧
    runtime_inv s' ∧ same_state s s' ∧ pool_wf pool'.
Proof.
  intros Hinv Hs Hp. unfold state_text. rewrite lines_of_unlines by by apply state_lines_one_line.
  change (load_state_lines (state_preamble ++ ?l) false ∅ pool) with (load_state_lines (T := T) l true ∅ pool).
  rewrite <-(app_nil_r (flat_map _ _)).
  destruct (load_databases (map_to_list (databases s)) [] ∅ pool) as (dbs' & pool' & -> & Hp' & Hout & Hin); try done.
  { apply NoDup_fst_map_to_list. }
  { intros n d Hd%elem_of_map_to_list. split; [|apply lookup_empty]. intros tn t Ht. by eapply Hinv. }
  assert (Hall : ∀ n, option_Forall2 (database_loaded n) (databases s !! n) (dbs' !! n)).
  { intros n. destruct (databases s !! n) as [d|] eqn:E.
    - destruct (Hin n d) as (d' & -> & H); [by apply elem_of_map_to_list|]. by constructor.
    - rewrite Hout, lookup_empty; [constructor|]. intros ([k c] & -> & Hkc)%list_elem_of_fmap.
      apply elem_of_map_to_list in Hkc. simpl in E. congruence. }
  exists (MkRuntime dbs'), pool'. split_and!; try done.
  - intros n d' tn t' Hd' Ht'. simpl in *. specialize (Hall n). rewrite Hd' in Hall. inversion Hall as [d d0 [_ Ht]|]; subst.
    specialize (Ht tn). rewrite Ht' in Ht. by inversion Ht as [t t0 [? ?]|]; subst.
  - intros n. simpl. eapply option_Forall2_weaken; [|apply Hall]. intros d d' [H1 H2]. split; [done|]. intros tn.
    eapply option_Forall2_weaken; [|apply H2]. by intros t t' [_ ?].
Qed.

End tables.

(** ** The history file *)

(** A change as it is loaded: a schema keeps its columns, if it has any. *)
Definition saved_columns (r : ChangeRecord) : option TableSchema :=
  match ch_schema r with
  | Some (MkSchema _ _ (c :: cs) _) => Some (MkSchema (ch_database r) (ch_table r) (map saved_column (c :: cs)) [])
  | _ => None
  end.

Definition plain_record (r : ChangeRecord) : ChangeRecord :=
  MkChange (ch_kind r) (ch_database r) (ch_table r) (ch_timestamp r) (ch_row_id r) (saved_columns r)
    (plain_row <$> ch_before r) (plain_row <$> ch_after r).

(** Numbers fit their types and texts have no newline. *)
Definition image_ok (row : RowData) : Prop :=
  in_uint64 (row_id row) ∧ Forall value_ok (row_values row) ∧ row_lines_ok row.

Definition on_some {A} (P : A → Prop) (o : option A) : Prop := match o with Some a => P a | None => True end.

Record record_ok (r : ChangeRecord) : Prop := {
  ro_names : one_line (ch_database r) ∧ one_line (ch_table r) ∧ one_line (ch_timestamp r);
  ro_row_id : in_uint64 (ch_row_id r);
  ro_schema : on_some (λ schema, Forall (λ c, default_ok c ∧ column_lines_ok c) (schema_columns schema)) (ch_schema r);
  ro_before : on_some image_ok (ch_before r);
  ro_after : on_some image_ok (ch_after r)
}.

Lemma load_history_step l lines loaded loaded' pool pool' : is_comment l = false →
  load_history_record (SplitByTab l) loaded pool = (Ok loaded', pool') →
  load_history_lines (l :: lines) true loaded pool = load_history_lines lines true loaded' pool'.
Proof. intros Hc Hl. cbn [load_history_lines]. by rewrite Hc, Hl. Qed.

Lemma load_event r done pool : record_ok r →
  load_history_record (SplitByTab (event_line r)) (done, None) pool =
  (Ok (done, Some (MkChange (ch_kind r) (ch_database r) (ch_table r) (ch_timestamp r) (ch_row_id r) None None None)), pool).
Proof.
  intros Hr. unfold event_line. rewrite split_record by auto 12 with records.
  unfold load_history_record, parse_event, FindFieldValue. simpl. rewrite parse_kind_print. simpl.
  rewrite (parse_row_id_print _ (ch_row_id r)); [|done|apply Hr]. simpl. by rewrite !unescape_escape.
Qed.

Lemma load_schema_column c r done pool : default_ok c → pool_wf pool →
  ∃ c' pool', load_history_record (SplitByTab (schema_column_line c)) (done, Some r) pool =
      (Ok (done, Some (add_schema_column c' r)), pool') ∧ saved_column c' = saved_column c ∧ pool_wf pool'.
Proof.
  intros Hc Hp. unfold schema_column_line. rewrite split_record by auto 12 with records.
  unfold load_history_record, parse_schema_column, FindFieldValue. simpl.
  rewrite parse_type_print, parse_constraint_print, decode_default by done. rewrite unescape_escape.
  unfold saved_column. destruct (col_default c) as [[|z|x|p]|]; simpl; try (by eexists _, _).
  - pose proof (Intern_text x pool Hp) as Ht. pose proof (Intern_wf x pool Hp) as Hw.
    destruct (Intern x pool) as [q pool']. eexists _, _. split; [done|]. simpl in *. by rewrite Ht.
  - pose proof (Intern_text (intern_text p) pool Hp) as Ht. pose proof (Intern_wf (intern_text p) pool Hp) as Hw.
    destruct (Intern (intern_text p) pool) as [q pool']. eexists _, _. split; [done|]. simpl in *. by rewrite Ht.
Qed.

Lemma load_schema_columns cs lines r done pool : Forall default_ok cs → pool_wf pool →
  ∃ cs' pool', load_history_lines (map schema_column_line cs ++ lines) true (done, Some r) pool =
      load_history_lines lines true (done, Some (foldl (λ r c, add_schema_column c r) r cs')) pool' ∧
    map saved_column cs' = map saved_column cs ∧ pool_wf pool'.
Proof.
  intros H. revert r pool. induction H as [|c cs Hc _ IH]; intros r pool Hp; [by exists [], pool|].
  destruct (load_schema_column c r done pool Hc Hp) as (c' & pool1 & E & H1 & Hp1).
  destruct (IH (add_schema_column c' r) pool1 Hp1) as (cs' & pool2 & E2 & H2 & Hp2).
  exists (c' :: cs'), pool2. cbn [map app]. erewrite load_history_step; [|done|exact E]. rewrite E2.
  split_and!; try done. simpl. congruence.
Qed.

Lemma add_schema_columns cs r pre : ch_schema r = Some (MkSchema (ch_database r) (ch_table r) pre []) →
  foldl (λ r c, add_schema_column c r) r cs =
  MkChange (ch_kind r) (ch_database r) (ch_table r) (ch_timestamp r) (ch_row_id r)
    (Some (MkSchema (ch_database r) (ch_table r) (pre ++ cs) [])) (ch_before r) (ch_after r).
Proof.
  revert r pre. induction cs as [|c cs IH]; intros r pre Hr; simpl.
  { rewrite app_nil_r, <-Hr. by destruct r. }
  rewrite (IH _ (pre ++ [c])); simpl; [by rewrite <-app_assoc|by rewrite Hr].
Qed.

Lemma load_image tag row done r pool : tag = "BEFORE" ∨ tag = "AFTER" → image_ok row → pool_wf pool →
  ∃ row' pool', load_history_record (SplitByTab (image_line tag row)) (done, Some r) pool =
      (Ok (done, Some (if String.eqb tag "BEFORE" then with_before row' r else with_after row' r)), pool') ∧
    plain_row row' = plain_row row ∧ pool_wf pool'.
Proof.
  intros Htag (Hid & Hv & _) Hp. unfold image_line.
  rewrite split_record by (auto 8 with records || by destruct Htag as [->| ->]). rewrite map_cons, value_tokens.
  assert (Hrec : ∀ parts, head parts = Some tag → load_history_record parts (done, Some r) pool =
    let '(row, pool) := parse_image parts pool in
    ((let* row := row in Ok (done, Some (if String.eqb tag "BEFORE" then with_before row r else with_after row r))), pool)).
  { intros parts Hh. unfold load_history_record. rewrite Hh. by destruct Htag as [-> | ->]. }
  rewrite Hrec by done. unfold parse_image.
  rewrite (parse_row_id_print _ (row_id row)) by done. rewrite image_texts_print.
  destruct (decode_values_encode (row_values row) pool Hv Hp) as (vs' & pool' & -> & Hpl & _ & Hp'). simpl.
  eexists _, _. split; [done|]. split; [|done]. unfold plain_row. simpl. by rewrite Hpl.
Qed.

Definition with_image (tag : string) (o : option RowData) (r : ChangeRecord) : ChangeRecord :=
  match o with Some row => if String.eqb tag "BEFORE" then with_before row r else with_after row r | None => r end.

Lemma load_option_image tag o lines done r pool : tag = "BEFORE" ∨ tag = "AFTER" → on_some image_ok o → pool_wf pool →
  ∃ o' pool', load_history_lines (option_lines (λ row, [image_line tag row]) o ++ lines) true (done, Some r) pool =
      load_history_lines lines true (done, Some (with_image tag o' r)) pool' ∧ plain_row <$> o' = plain_row <$> o ∧ pool_wf pool'.
Proof.
  intros Htag Ho Hp. destruct o as [row|]; [|by exists None, pool].
  destruct (load_image tag row done r pool Htag Ho Hp) as (row' & pool' & E & Hpl & Hp'). exists (Some row'), pool'.
  cbn [option_lines app]. erewrite load_history_step; [|by destruct Htag as [->| ->]|exact E]. simpl. by rewrite Hpl.
Qed.

Lemma load_option_schema (o : option TableSchema) lines done r pool :
  on_some (λ schema, Forall (λ c, default_ok c ∧ column_lines_ok c) (schema_columns schema)) o → ch_schema r = None → pool_wf pool →
  ∃ o' pool', load_history_lines (option_lines (λ schema, map schema_column_line (schema_columns schema)) o ++ lines) true
      (done, Some r) pool =
      load_history_lines lines true (done, Some (MkChange (ch_kind r) (ch_database r) (ch_table r) (ch_timestamp r) (ch_row_id r)
        o' (ch_before r) (ch_after r))) pool' ∧ pool_wf pool' ∧
    ∀ b a, saved_columns (MkChange (ch_kind r) (ch_database r) (ch_table r) (ch_timestamp r) (ch_row_id r) o' b a) =
      saved_columns (MkChange (ch_kind r) (ch_database r) (ch_table r) (ch_timestamp r) (ch_row_id r) o b a).
Proof.
  intros Ho Hr Hp. destruct o as [schema|].
  2: { exists None, pool. split; [|done]. destruct r; simpl in *. by subst. }
  destruct (load_schema_columns (schema_columns schema) lines r done pool) as (cs' & pool' & E & Hcs & Hp'); [|done|].
  { eapply Forall_impl; [exact Ho|]. by intros c []. }
  destruct schema as [sn st cs six]. simpl in *. rewrite E. destruct cs' as [|c' cs'].
  - destruct cs; [|done]. exists None, pool'. split; [|done]. destruct r; simpl in *. by subst.
  - destruct cs as [|c cs]; [done|]. cbn [foldl]. rewrite (add_schema_columns cs' (add_schema_column c' r) [c']);
      [|unfold add_schema_column; simpl; by rewrite Hr].
    eexists _, pool'. split; [done|]. split; [done|]. intros b a. unfold saved_columns. simpl. simpl in Hcs. congruence.
Qed.

Lemma load_record_lines r lines done pool : record_ok r → pool_wf pool →
  ∃ r' pool', load_history_lines (record_lines r ++ lines) true (done, None) pool =
      load_history_lines lines true (done ++ [r'], None) pool' ∧ plain_record r' = plain_record r ∧ pool_wf pool'.
Proof.
  intros Hr Hp. unfold record_lines. rewrite <-!app_assoc. cbn [app].
  erewrite load_history_step; [|done|by apply load_event].
  set (r0 := MkChange _ _ _ _ _ None None None).
  destruct (load_option_schema (ch_schema r) (option_lines (λ row, [image_line "BEFORE" row]) (ch_before r) ++
    option_lines (λ row, [image_line "AFTER" row]) (ch_after r) ++ "EVENT_END" :: "" :: lines) done r0 pool (ro_schema _ Hr) eq_refl Hp)
    as (o & pool1 & -> & Hp1 & Hcols).
  match goal with |- context [load_history_lines _ true (done, Some ?x) pool1] => set (r1 := x) end.
  destruct (load_option_image "BEFORE" (ch_before r) (option_lines (λ row, [image_line "AFTER" row]) (ch_after r) ++
    "EVENT_END" :: "" :: lines) done r1 pool1 (or_introl eq_refl) (ro_before _ Hr) Hp1) as (b & pool2 & -> & Hb & Hp2).
  destruct (load_option_image "AFTER" (ch_after r) ("EVENT_END" :: "" :: lines) done (with_image "BEFORE" b r1) pool2
    (or_intror eq_refl) (ro_after _ Hr) Hp2) as (a & pool3 & -> & Ha & Hp3).
  eexists _, pool3. split; [reflexivity|]. split; [|done].
  assert (E : with_image "AFTER" a (with_image "BEFORE" b r1) =
    MkChange (ch_kind r) (ch_database r) (ch_table r) (ch_timestamp r) (ch_row_id r) o b a).
  { by destruct a, b. }
  rewrite E. unfold plain_record. cbn [ch_kind ch_database ch_table ch_timestamp ch_row_id ch_before ch_after].
  rewrite Hb, Ha. f_equal. etransitivity; [exact (Hcols b a)|by destruct r].
Qed.

Lemma load_records rs lines done pool : Forall record_ok rs → pool_wf pool →
  ∃ rs' pool', load_history_lines (flat_map record_lines rs ++ lines) true (done, None) pool =
      load_history_lines lines true (done ++ rs', None) pool' ∧ map plain_record rs' = map plain_record rs ∧ pool_wf pool'.
Proof.
  intros H. revert done pool. induction H as [|r rs Hr _ IH]; intros done pool Hp.
  { exists [], pool. by rewrite app_nil_r. }
  cbn [flat_map]. rewrite <-app_assoc.
  destruct (load_record_lines r (flat_map record_lines rs ++ lines) done pool Hr Hp) as (r' & pool1 & -> & Hpl & Hp1).
  destruct (IH (done ++ [r']) pool1 Hp1) as (rs' & pool2 & -> & Hpls & Hp2). exists (r' :: rs'), pool2.
  rewrite <-app_assoc. split_and!; [done| |done]. simpl. congruence.
Qed.

Lemma image_lines_one_line tag o : one_line tag → on_some image_ok o →
  Forall one_line (option_lines (λ row, [image_line tag row]) o).
Proof.
  intros Ht Ho. destruct o as [row|]; [|constructor]. destruct Ho as (_ & _ & Hr). constructor; [|constructor].
  apply one_line_record; auto 10 with records.
Qed.

Lemma record_lines_one_line r : record_ok r → Forall one_line (record_lines r).
Proof.
  intros [(H1 & H2 & H3) H4 Hs Hb Ha]. unfold record_lines. apply Forall_app. split.
  { constructor; [|constructor]. apply one_line_record; auto 12 with records. }
  apply Forall_app. split.
  { destruct (ch_schema r) as [schema|]; [|constructor]. apply Forall_fmap, (Forall_impl _ _ _ Hs). intros c [_ Hc].
    pose proof Hc as [? _]. apply one_line_record; auto 12 with records. }
  apply Forall_app. split; [by apply image_lines_one_line|].
  apply Forall_app. split; [by apply image_lines_one_line|by repeat constructor].
Qed.

Lemma load_saved_history rs pool : Forall record_ok rs → pool_wf pool →
  ∃ rs' pool', load_history_lines (lines_of (history_text rs)) false ([], None) pool = (Ok rs', pool') ∧
    map plain_record rs' = map plain_record rs ∧ pool_wf pool'.
Proof.
  intros Hr Hp. unfold history_text. rewrite lines_of_unlines.
  2: { apply Forall_app. split; [by repeat constructor|]. apply Forall_flat_map, (Forall_impl _ _ _ Hr), record_lines_one_line. }
  change (load_history_lines (history_preamble ++ ?l) false ([], None) pool) with (load_history_lines l true ([], None) pool).
  rewrite <-(app_nil_r (flat_map _ _)). destruct (load_records rs [] [] pool Hr Hp) as (rs' & pool' & -> & H).
  by exists rs', pool'.
Qed.

(** ** Saving and loading *)

Section persistence.
Context {T : Type} `{!IndexOps T} `{!IndexLaws T}.

Implicit Types (s : RuntimeState T) (disk : Disk).

Lemma replace_file_cases write remove_error rename_error text final temp :
  let '(ok, final', temp') := replace_file write remove_error rename_error text final temp in
  (final' = final ∨ final' = Some text ∨ (final' = None ∧ rename_error = true ∧ temp' = Some text)) ∧
  (ok = true → final' = Some text).
Proof. unfold replace_file. destruct write, rename_error, remove_error; simpl; naive_solver. Qed.

Lemma Save_true fault s vs disk disk' : Save fault s vs disk = (true, disk') →
  disk_state disk' = Some (state_text s) ∧ disk_history disk' = Some (history_text vs).
Proof.
  unfold Save. pose proof (replace_file_cases (state_write fault) (state_remove_error fault) (state_rename_error fault)
    (state_text s) (disk_state disk) (disk_state_tmp disk)) as H1.
  destruct (replace_file _ _ _ (state_text s) _ _) as [[[|] st] stt]; simpl; [|done]. destruct H1 as [_ H1].
  pose proof (replace_file_cases (history_write fault) (history_remove_error fault) (history_rename_error fault)
    (history_text vs) (disk_history disk) (disk_history_tmp disk)) as H2.
  destruct (replace_file _ _ _ (history_text vs) _ _) as [[ok h] ht]. destruct H2 as [_ H2]. intros [= -> <-]. simpl. auto.
Qed.

Lemma Load_saved disk s vs s0 vs0 pool :
  disk_state disk = Some (state_text s) → disk_history disk = Some (history_text vs) →
  runtime_inv s → state_lines_ok s → Forall record_ok vs → pool_wf pool →
  ∃ s' vs' pool', Load disk s0 vs0 pool = (Ok true, s', vs', pool') ∧
    runtime_inv s' ∧ same_state s s' ∧ map plain_record vs' = map plain_record vs ∧ pool_wf pool'.
Proof.
  intros H1 H2 Hinv Hs Hvs Hp. unfold Load. rewrite H1, H2.
  destruct (load_saved_state s pool Hinv Hs Hp) as (s' & pool1 & -> & Hinv' & Hsame & Hp1).
  destruct (load_saved_history vs pool1 Hvs Hp1) as (vs' & pool2 & -> & Hpl & Hp2).
  assert (Hid : MkRuntime (databases s') = s') by by destruct s'. rewrite Hid.
  rewrite (validate_runtime_ok s') by by apply runtime_inv_ok. by exists s', vs', pool2.
Qed.

(** C13: saving and loading is the identity: when [Save] reports success on a
    consistent state whose names and strings have no newline, with a change log
    whose names and strings have none and whose numbers fit their 64-bit types,
    [Load] accepts the files and gives a consistent state with the same
    databases, tables, columns, rows, row ids and next row ids, and the same
    change log, up to the index definitions of recorded schemas and with NULL
    defaults counting as none. *)
Theorem save_load_roundtrip fault s vs disk disk' s0 vs0 pool :
  runtime_inv s → state_lines_ok s → Forall record_ok vs → pool_wf pool → Save fault s vs disk = (true, disk') →
  ∃ s' vs' pool', Load disk' s0 vs0 pool = (Ok true, s', vs', pool') ∧
    runtime_ok s' ∧ same_state s s' ∧ map plain_record vs' = map plain_record vs.
Proof.
  intros Hinv Hs Hvs Hp [H1 H2]%Save_true.
  destruct (Load_saved disk' s vs s0 vs0 pool H1 H2 Hinv Hs Hvs Hp) as (s' & vs' & pool' & E & Hinv' & Hsame & Hpl & _).
  exists s', vs', pool'. split_and!; try done. by apply runtime_inv_ok.
Qed.

(** C14: a file is never torn: whatever goes wrong in [Save], the state file is
    what it was, or the whole new text, or it is missing because renaming
    failed, and then the temporary file is the whole new text; the same holds
    for the history file, which is written only after the state file is there. *)
Theorem save_never_torn fault s vs disk :
  let '(ok, disk') := Save fault s vs disk in
  (disk_state disk' = disk_state disk ∨ disk_state disk' = Some (state_text s) ∨
   (disk_state disk' = None ∧ state_rename_error fault = true ∧ disk_state_tmp disk' = Some (state_text s))) ∧
  (disk_history disk' = disk_history disk ∨
   (disk_state disk' = Some (state_text s) ∧
    (disk_history disk' = Some (history_text vs) ∨
     (disk_history disk' = None ∧ history_rename_error fault = true ∧ disk_history_tmp disk' = Some (history_text vs))))) ∧
  (ok = true → disk_state disk' = Some (state_text s) ∧ disk_history disk' = Some (history_text vs)).
Proof.
  unfold Save. pose proof (replace_file_cases (state_write fault) (state_remove_error fault) (state_rename_error fault)
    (state_text s) (disk_state disk) (disk_state_tmp disk)) as H1.
  destruct (replace_file _ _ _ (state_text s) _ _) as [[[|] st] stt]; simpl; [|naive_solver]. destruct H1 as [_ H1].
  specialize (H1 eq_refl). subst st.
  pose proof (replace_file_cases (history_write fault) (history_remove_error fault) (history_rename_error fault)
    (history_text vs) (disk_history disk) (disk_history_tmp disk)) as H2.
  destruct (replace_file _ _ _ (history_text vs) _ _) as [[ok h] ht]. naive_solver.
Qed.

(** ** Restarts *)

Context (regex_match : string → string → Outcome bool) (clock : nat → Tm) (io : nat → WriteFault) (faults : nat → SaveFault).

#[local] Instance engine_files : PersistenceOps T Disk := file_persistence faults.

(** C12: an acknowledged change survives a restart: after a COMMIT or another
    change that reported success, an engine that is started on the files that
    are there then has the same committed databases, tables, rows and change
    log, no open transaction, and is consistent again; log, disk and renaming
    may fail in any way before and after.  No name or string of the state and of
    the change log has a newline in it, the numbers of the change log fit their
    64-bit types, an INSERT does not run out of row ids,
    and no REVERT is of a table for whose name the log has a CREATE TABLE with
    other columns.  The change log is the same up to the index definitions of
    recorded schemas, and NULL defaults count as none. *)
Theorem acknowledged_survives_restart session sql en r session' en' root rename_error io' :
  engine_reachable regex_match clock io en → request_fits session sql en →
  ExecuteSql regex_match clock io session sql en = (Ok r, session', en') → changes_committed session sql en →
  state_lines_ok (en_runtime en') → Forall record_ok (en_versions en') →
  ∃ en2, NewEngine regex_match clock io' root rename_error (en_disk en') (en_wal en') = Ok en2 ∧ engine_ok en2 ∧
    same_state (en_runtime en') (en_runtime en2) ∧ map plain_record (en_versions en2) = map plain_record (en_versions en') ∧
    en_transactions en2 = ∅.
Proof.
  intros Hen Hfit Hrun Hch Hs Hvs.
  pose proof (engine_inv_ok _ (request_ok regex_match clock io true session sql en (engine_reachable_inv _ _ _ _ Hen) Hfit)) as Hok.
  unfold Engine.ExecuteSql in Hrun. rewrite Hrun in Hok. simpl in Hok.
  destruct (acknowledged_saved regex_match clock io session sql en r session' en' Hrun Hch) as [(disk & k & Hsave) (cut & Hwal)].
  simpl in Hsave. apply Save_true in Hsave as [H1 H2].
  destruct (Load_saved (en_disk en') (en_runtime en') (en_versions en') (MkRuntime ∅) [] empty_pool H1 H2
    (enk_runtime _ Hok) Hs Hvs empty_pool_wf) as (s' & vs' & pool' & E & Hinv' & Hsame & Hpl & Hp').
  unfold NewEngine. simpl. unfold load_into_empty. rewrite E. simpl. unfold ReplayWal. cbn [en_wal]. rewrite Hwal.
  destruct (reset_log_empty cut) as [-> | ->]; cbn [obind]; (eexists; split; [done|]); unfold with_wal.
  - destruct (WalReset _ _) as [ok file]. simpl. by split_and!.
  - destruct (QuarantineCorrupted _ _ _) as [[ok file] aside]. simpl. by split_and!.
Qed.

End persistence.
