(* ===== verification/PersistenceSamples.v ===== *)
(** * PersistenceSamples: a database that is stopped and started again

    The theorems about saving and loading applied to an engine on files, and
    what happens to a string with a newline. *)
From S2P Require Import Prelude Numerals CommonTypes Storage Codec BStarPlusTree IndexSpec BStarPlusTreeSpec.
From S2P Require Import RuntimeState.
From S2P Require Import RuntimeFacts Ast VersionStore Predicates Execution ExecutionFacts Planner Lexer.
From S2P Require Import Parser ParserFacts.
From S2P Require Import History Wal Engine EngineFacts Samples EngineSamples Persistence PersistenceFacts.

Open Scope Z_scope.

(** ** The conditions are decidable *)

#[local] Instance one_line_dec s : Decision (one_line s).
Proof. unfold one_line. apply _. Defined.

#[local] Instance value_line_dec v : Decision (value_line v).
Proof. destruct v; simpl; apply _. Defined.

#[local] Instance value_ok_dec v : Decision (value_ok v).
Proof. destruct v; simpl; apply _. Defined.

#[local] Instance row_lines_ok_dec row : Decision (row_lines_ok row).
Proof. unfold row_lines_ok. apply _. Defined.

#[local] Instance column_lines_ok_dec c : Decision (column_lines_ok c).
Proof. unfold column_lines_ok. destruct (col_default c); apply _. Defined.

#[local] Instance default_ok_dec c : Decision (default_ok c).
Proof.
  unfold default_ok. destruct (col_default c) as [v|]; [|left; done].
  destruct (decide (value_ok v)) as [H|H]; [left; by intros d [= <-]|right; naive_solver].
Defined.

#[local] Instance image_ok_dec row : Decision (image_ok row).
Proof. unfold image_ok. apply _. Defined.

#[local] Instance on_some_dec {A} (P : A → Prop) `{!∀ a, Decision (P a)} o : Decision (on_some P o).
Proof. destruct o; simpl; apply _. Defined.

#[local] Instance record_ok_dec r : Decision (record_ok r).
Proof.
  refine (cast_if (decide ((one_line (ch_database r) ∧ one_line (ch_table r) ∧ one_line (ch_timestamp r)) ∧ in_uint64 (ch_row_id r) ∧
    on_some (λ schema, Forall (λ c, default_ok c ∧ column_lines_ok c) (schema_columns schema)) (ch_schema r) ∧
    on_some image_ok (ch_before r) ∧ on_some image_ok (ch_after r)))).
  - abstract (by destruct_and!; split).
  - abstract (intros []; naive_solver).
Defined.

#[local] Instance table_lines_ok_dec {T} tn (t : TableRuntime T) : Decision (table_lines_ok tn t).
Proof. unfold table_lines_ok. apply _. Defined.

#[local] Instance state_lines_ok_dec {T} (s : RuntimeState T) : Decision (state_lines_ok s).
Proof. unfold state_lines_ok. apply _. Defined.

(** ** An engine on files *)

Definition no_faults (k : nat) : SaveFault := MkSaveFault Written false false Written false false.

#[local] Instance sample_files : PersistenceOps BStarPlusTree Disk := file_persistence no_faults.

Notation FileEngine := (DbmsEngine BStarPlusTree Disk).

Definition empty_disk : Disk := MkDisk None None None None.

Definition fresh : FileEngine := MkEngine (MkRuntime ∅) ∅ (MkCatalog "data" [] []) [] empty_pool None empty_disk 0 0.

Definition run_file (session : SessionContext) (sql : string) (en : FileEngine) : Response :=
  ExecuteSql literal_regex sample_clock all_written session sql en.

Definition filled_requests : list (SessionContext * string) :=
  [(alice, "CREATE DATABASE shop;"); (alice, "CREATE TABLE shop.items (id INT INDEXED, name STRING DEFAULT " +:+ quote "none" +:+ ");");
   (alice, "INSERT INTO shop.items (id, name) VALUES (1, " +:+ quote "a=b" +:+ "), (2, NULL);");
   (alice, "DELETE FROM shop.items WHERE id == 2;"); (alice, "BEGIN;");
   (alice, "INSERT INTO shop.items (id, name) VALUES (7, NULL);")].

Definition stored : FileEngine := serve literal_regex sample_clock all_written filled_requests fresh.

Lemma stored_reachable : engine_reachable literal_regex sample_clock all_written stored.
Proof.
  unfold stored, filled_requests. cbn [serve]. do 6 (apply engine_served; [|concrete_request]). apply engine_started.
Qed.

Definition restarted (en : FileEngine) : Outcome FileEngine :=
  NewEngine literal_regex sample_clock all_written "data" false (en_disk en) (en_wal en).

Definition plain_items (s : RuntimeState BStarPlusTree) : option (list (list Value)) := option_map (map (map plain_value)) (items s).

Definition committed_transaction : Response := run_file alice "COMMIT;" stored.

Lemma acknowledged_survives_restart_witness :
  plain_items (en_runtime committed_transaction.2) = Some [[VInt 1; VStr "a=b"]; [VInt 7; VStr "none"]] ∧
  ∃ en2, restarted committed_transaction.2 = Ok en2 ∧ same_state (en_runtime committed_transaction.2) (en_runtime en2).
Proof.
  split; [vm_compute; reflexivity|].
  assert (Hrun : committed_transaction = (Ok (message_result "transaction committed"), committed_transaction.1.2, committed_transaction.2))
    by (vm_compute; reflexivity).
  destruct (acknowledged_survives_restart literal_regex sample_clock all_written no_faults alice "COMMIT;" stored
    (message_result "transaction committed") committed_transaction.1.2 committed_transaction.2 "data" false all_written stored_reachable)
    as (en2 & H1 & _ & H2 & _).
  - concrete_request.
  - exact Hrun.
  - left. vm_compute. reflexivity.
  - apply (bool_decide_unpack _). vm_compute. exact I.
  - apply (bool_decide_unpack _). vm_compute. exact I.
  - exists en2. split; [exact H1|exact H2].
Defined.

Lemma save_load_roundtrip_witness :
  ∃ s' vs' pool', Load (Save (no_faults 0) (en_runtime stored) (en_versions stored) empty_disk).2 (MkRuntime ∅) [] empty_pool =
    (Ok true, s', vs', pool') ∧ same_state (en_runtime stored) s'.
Proof.
  destruct (save_load_roundtrip (no_faults 0) (en_runtime stored) (en_versions stored) empty_disk
    (Save (no_faults 0) (en_runtime stored) (en_versions stored) empty_disk).2 (MkRuntime ∅) [] empty_pool)
    as (s' & vs' & pool' & H1 & _ & H2 & _).
  - apply enk_runtime, (engine_reachable_ok _ _ _ _ stored_reachable).
  - apply (bool_decide_unpack _). vm_compute. exact I.
  - apply (bool_decide_unpack _). vm_compute. exact I.
  - exact empty_pool_wf.
  - vm_compute. reflexivity.
  - exists s', vs', pool'. split; [exact H1|exact H2].
Defined.

(** ** A newline in a string *)

Definition newline_insert : string := "INSERT INTO shop.items (id, name) VALUES (3, " +:+ quote ("one" +:+ String newline "two") +:+ "), (4, " +:+ quote "x" +:+ ");".

Definition newline_engine : Response :=
  run_file alice newline_insert (run_file alice "ROLLBACK;" stored).2.

(** a string with a newline destroys data: the INSERT is acknowledged, but
    the next start, which reports nothing, serves the string cut off at the
    newline, and the change log of all tables is gone. *)
Theorem newline_loses_rows :
  newline_engine.1.1 = Ok (message_result "rows inserted") ∧
  plain_items (en_runtime newline_engine.2) =
    Some [[VInt 1; VStr "a=b"]; [VInt 3; VStr ("one" +:+ String newline "two")]; [VInt 4; VStr "x"]] ∧
  match restarted newline_engine.2 with
  | Ok en2 => plain_items (en_runtime en2) = Some [[VInt 1; VStr "a=b"]; [VInt 3; VStr "one"]; [VInt 4; VStr "x"]] ∧
              length (en_versions newline_engine.2) = 7%nat ∧ en_versions en2 = []
  | _ => False
  end.
Proof. vm_compute. repeat split. Qed.
