(* ===== verification/Rbac.v ===== *)
(** * Rbac: accounts, grants and tokens (src/catalog/rbac.cpp)

    HMAC-SHA256, the random device, the clock and the faults of the file system
    are parameters: [hmac key message] is the digest of OpenSSL, [None] its null
    pointer; salts, secrets and times are arguments of the operations that draw
    them. *)
From S2P Require Import Prelude Numerals CommonTypes Codec Wal Persistence Lexer Parser.
From Stdlib Require Import Ascii.

Open Scope Z_scope.

(** ** Data *)

Inductive Permission := kRead | kWrite | kCreateTablePermission | kDropTablePermission | kDropDatabasePermission.

#[export] Instance Permission_eq_dec : EqDecision Permission.
Proof. solve_decision. Defined.

Definition PermissionMask (permission : Permission) : Z :=
  match permission with
  | kRead => Z.shiftl 1 0
  | kWrite => Z.shiftl 1 1
  | kCreateTablePermission => Z.shiftl 1 2
  | kDropTablePermission => Z.shiftl 1 3
  | kDropDatabasePermission => Z.shiftl 1 4
  end.

Record AccountRecord := MkAccount {
  acc_user : string;
  acc_salt : string;
  acc_hash : string;
  acc_groups : list string
}.

Record DatabaseGrantRecord := MkGrants {
  default_permissions : Z;
  group_permissions : gmap string Z;
  user_permissions : gmap string Z
}.

Record AuthFiles := MkAuthFiles {
  accounts_tsv : option string;
  grants_tsv : option string;
  secret_txt : option string
}.

Record AccessController := MkAccess {
  ac_secret : string;
  ac_accounts : gmap string AccountRecord;
  ac_groups : gset string;
  ac_grants : gmap string DatabaseGrantRecord;
  ac_files : AuthFiles
}.

(** ** Files *)

Definition comma : ascii := ascii_of_nat 44.

Definition JoinGroups (groups : list string) : string := join comma (map EscapeField groups).

(** Empty groups are skipped. *)
Definition SplitGroups (raw : string) : list string :=
  map UnescapeField (filter (λ g, g ≠ "") (split_loop comma "" false raw)).

Definition auth_format_line : string := "FORMAT" +:+ String tab "1".

Definition account_line (entry : string * AccountRecord) : string :=
  let '(user_id, record) := entry in
  record_line "ACCOUNT"
    [("user_id", EscapeField user_id); ("salt", EscapeField (acc_salt record));
     ("password_hash", EscapeField (acc_hash record)); ("groups", JoinGroups (acc_groups record))].

Definition group_line (group : string) : string := record_line "GROUP" [("name", EscapeField group)].

Definition accounts_text (ac : AccessController) : string :=
  unlines (auth_format_line :: map account_line (map_to_list (ac_accounts ac)) ++ map group_line (elements (ac_groups ac))).

Definition default_line (n : string) (mask : Z) : string :=
  record_line "DEFAULT" [("db", EscapeField n); ("mask", to_string mask)].

Definition group_grant_line (n : string) (entry : string * Z) : string :=
  record_line "GROUP_GRANT" [("db", EscapeField n); ("group", EscapeField entry.1); ("mask", to_string entry.2)].

Definition user_grant_line (n : string) (entry : string * Z) : string :=
  record_line "USER_GRANT" [("db", EscapeField n); ("user", EscapeField entry.1); ("mask", to_string entry.2)].

Definition grant_lines (entry : string * DatabaseGrantRecord) : list string :=
  let '(n, record) := entry in
  default_line n (default_permissions record)
  :: map (group_grant_line n) (map_to_list (group_permissions record))
  ++ map (user_grant_line n) (map_to_list (user_permissions record)).

Definition grants_text (ac : AccessController) : string :=
  unlines (auth_format_line :: flat_map grant_lines (map_to_list (ac_grants ac))).

(** What happens to the two writes. *)
Record PersistFault := MkPersistFault { accounts_write : WriteFault; grants_write : WriteFault }.

Definition with_auth_files (files : AuthFiles) (ac : AccessController) : AccessController :=
  MkAccess (ac_secret ac) (ac_accounts ac) (ac_groups ac) (ac_grants ac) files.

(** [false] with its message, or [true]; only opening a file is checked. *)
Definition Persist (fault : PersistFault) (ac : AccessController) : option string * AccessController :=
  let files := ac_files ac in
  let '(_, accounts) := write_text (accounts_write fault) (accounts_text ac) (accounts_tsv files) in
  match accounts_write fault with
  | OpenFails => (Some "failed to persist accounts", ac)
  | _ =>
      let ac := with_auth_files (MkAuthFiles accounts (grants_tsv files) (secret_txt files)) ac in
      let '(_, grants) := write_text (grants_write fault) (grants_text ac) (grants_tsv files) in
      match grants_write fault with
      | OpenFails => (Some "failed to persist grants", ac)
      | _ => (None, with_auth_files (MkAuthFiles accounts grants (secret_txt files)) ac)
      end
  end.

(** A field of an [ACCOUNT] record; the last one of a name counts. *)
Definition account_field (record : AccountRecord) (part : string) : AccountRecord :=
  match split_at_equals part with
  | None => record
  | Some (key, raw) =>
      let value := UnescapeField raw in
      if String.eqb key "user_id" then MkAccount value (acc_salt record) (acc_hash record) (acc_groups record)
      else if String.eqb key "salt" then MkAccount (acc_user record) value (acc_hash record) (acc_groups record)
      else if String.eqb key "password_hash" then MkAccount (acc_user record) (acc_salt record) value (acc_groups record)
      else if String.eqb key "groups" then MkAccount (acc_user record) (acc_salt record) (acc_hash record) (SplitGroups raw)
      else record
  end.

Definition Accounts : Type := gmap string AccountRecord * gset string.

Definition load_account_line (loaded : Accounts) (l : string) : Accounts :=
  let '(accounts, groups) := loaded in
  if String.eqb l "" then loaded
  else
    match SplitByTab l with
    | tag :: parts =>
        if String.eqb tag "ACCOUNT" then
          let record := foldl account_field (MkAccount "" "" "" []) parts in
          if String.eqb (acc_user record) "" then loaded
          else (match accounts !! acc_user record with Some _ => accounts | None => <[acc_user record := record]> accounts end,
                groups ∪ list_to_set (acc_groups record))
        else if String.eqb tag "GROUP" then
          match parts with
          | part :: _ => match split_at_equals part with Some (_, raw) => (accounts, groups ∪ {[UnescapeField raw]}) | None => loaded end
          | [] => loaded
          end
        else loaded
    | [] => loaded
    end.

Record GrantFields := MkGrantFields { gf_db : string; gf_group : string; gf_user : string; gf_mask : Z }.

(** [static_cast<std::uint32_t>(std::stoul(value))]; its exceptions are not caught. *)
Definition grant_field (fields : Outcome GrantFields) (part : string) : Outcome GrantFields :=
  let* f := fields in
  match split_at_equals part with
  | None => Ok f
  | Some (key, raw) =>
      let value := UnescapeField raw in
      if String.eqb key "db" then Ok (MkGrantFields value (gf_group f) (gf_user f) (gf_mask f))
      else if String.eqb key "group" then Ok (MkGrantFields (gf_db f) value (gf_user f) (gf_mask f))
      else if String.eqb key "user" then Ok (MkGrantFields (gf_db f) (gf_group f) value (gf_mask f))
      else if String.eqb key "mask" then
        match stoull value with
        | inr (v, _) => Ok (MkGrantFields (gf_db f) (gf_group f) (gf_user f) (v mod 4294967296))
        | inl _ => Crash NumberFormat
        end
      else Ok f
  end.

Definition no_grants : DatabaseGrantRecord := MkGrants 0 ∅ ∅.

(** [database_grants_[database_name]], which inserts an empty record. *)
Definition grants_at (n : string) (grants : gmap string DatabaseGrantRecord) : DatabaseGrantRecord := default no_grants (grants !! n).

Definition load_grant_line (loaded : Outcome (gmap string DatabaseGrantRecord)) (l : string)
    : Outcome (gmap string DatabaseGrantRecord) :=
  let* grants := loaded in
  if String.eqb l "" then Ok grants
  else
    match SplitByTab l with
    | tag :: parts =>
        if String.eqb tag "FORMAT" then Ok grants
        else
          let* f := foldl grant_field (Ok (MkGrantFields "" "" "" 0)) parts in
          if String.eqb (gf_db f) "" then Ok grants
          else
            let record := grants_at (gf_db f) grants in
            let record :=
              if String.eqb tag "DEFAULT" then MkGrants (gf_mask f) (group_permissions record) (user_permissions record)
              else if String.eqb tag "GROUP_GRANT" then
                MkGrants (default_permissions record) (<[gf_group f := gf_mask f]> (group_permissions record)) (user_permissions record)
              else if String.eqb tag "USER_GRANT" then
                MkGrants (default_permissions record) (group_permissions record) (<[gf_user f := gf_mask f]> (user_permissions record))
              else record in
            Ok (<[gf_db f := record]> grants)
    | [] => Ok grants
    end.

Definition LoadAccess (files : AuthFiles) : Outcome AccessController :=
  let '(accounts, groups) :=
    match accounts_tsv files with Some text => foldl load_account_line (∅, ∅) (lines_of text) | None => (∅, ∅) end in
  let* grants := match grants_tsv files with Some text => foldl load_grant_line (Ok ∅) (lines_of text) | None => Ok ∅ end in
  Ok (MkAccess "" accounts groups grants files).

(** [std::getline] on the secret file; [secret] is what [NewSecret] would give. *)
Definition EnsureJwtSecret (secret : string) (fault : WriteFault) (ac : AccessController) : AccessController :=
  let files := ac_files ac in
  let stored := match secret_txt files with Some text => default "" (head (lines_of text)) | None => "" end in
  if String.eqb stored "" then
    MkAccess secret (ac_accounts ac) (ac_groups ac) (ac_grants ac)
      (MkAuthFiles (accounts_tsv files) (grants_tsv files) (write_text fault secret (secret_txt files)).2)
  else MkAccess stored (ac_accounts ac) (ac_groups ac) (ac_grants ac) files.

Definition NewAccessController (secret : string) (fault : WriteFault) (files : AuthFiles) : Outcome AccessController :=
  let* ac := LoadAccess files in Ok (EnsureJwtSecret secret fault ac).

(** ** Base64 *)

Definition kBase64UrlAlphabet : string := "ABCDEFGHIJKLMNOPQRSTUVWXYZabcdefghijklmnopqrstuvwxyz0123456789-_".

Definition byte_of (c : ascii) : Z := Z.of_nat (nat_of_ascii c).
Definition char_of (b : Z) : ascii := ascii_of_nat (Z.to_nat b).

(** [kBase64UrlAlphabet[i]] for an [i] of six bits. *)
Definition alphabet_char (i : Z) : ascii := default "A"%char (String.get (Z.to_nat i) kBase64UrlAlphabet).

Definition sextet (value shift : Z) : ascii := alphabet_char (Z.land (Z.shiftr value shift) 63).

Fixpoint Base64UrlEncode (data : string) : string :=
  match data with
  | String a (String b (String c rest)) =>
      let value := Z.lor (Z.lor (Z.shiftl (byte_of a) 16) (Z.shiftl (byte_of b) 8)) (byte_of c) in
      String (sextet value 18) (String (sextet value 12) (String (sextet value 6) (String (sextet value 0) (Base64UrlEncode rest))))
  | String a (String b EmptyString) =>
      let value := Z.lor (Z.shiftl (byte_of a) 16) (Z.shiftl (byte_of b) 8) in
      String (sextet value 18) (String (sextet value 12) (String (sextet value 6) ""))
  | String a EmptyString =>
      let value := Z.shiftl (byte_of a) 16 in String (sextet value 18) (String (sextet value 12) "")
  | EmptyString => ""
  end.

(** [reverse[ch]]: the position in the alphabet. *)
Fixpoint position_in (alphabet : string) (ch : ascii) : option Z :=
  match alphabet with
  | EmptyString => None
  | String c rest => if Ascii.eqb c ch then Some 0 else match position_in rest ch with Some i => Some (i + 1) | None => None end
  end.

(** The loop on [value], of 32 bits, and [bits]; less than eight bits are left
    over from a round, so that the inner loop runs at most once. *)
Fixpoint decode_loop (data : string) (value bits : Z) : option string :=
  match data with
  | EmptyString => if (bits =? 1) || (bits =? 3) || (bits =? 5) then None else Some ""
  | String ch data =>
      match position_in kBase64UrlAlphabet ch with
      | None => None
      | Some decoded =>
          let value := Z.lor (Z.shiftl value 6 mod 4294967296) decoded in
          let bits := bits + 6 in
          if 8 <=? bits then
            let bits := bits - 8 in
            match decode_loop data value bits with
            | Some bytes => Some (String (char_of (Z.land (Z.shiftr value bits) 255)) bytes)
            | None => None
            end
          else decode_loop data value bits
      end
  end.

Definition Base64UrlDecode (data : string) : option string := decode_loop data 0 0.

(** ** Claims *)

(** The text behind the first occurrence of [marker]. *)
Fixpoint find_behind (marker s : string) : option string :=
  match strip_prefix marker s with
  | Some rest => Some rest
  | None => match s with EmptyString => None | String _ s => find_behind marker s end
  end.

(** The text before the first [ch]. *)
Fixpoint text_before (ch : ascii) (s : string) : option string :=
  match s with
  | EmptyString => None
  | String c s => if Ascii.eqb c ch then Some "" else match text_before ch s with Some t => Some (String c t) | None => None end
  end.

Definition quote (s : string) : string := String dquote s +:+ String dquote "".

Definition ExtractStringClaim (json key : string) : option string :=
  match find_behind (quote key +:+ ":" +:+ String dquote "") json with
  | Some rest => text_before dquote rest
  | None => None
  end.

Fixpoint take_number (s : string) : string :=
  match s with
  | EmptyString => ""
  | String c s => if is_digit c || Ascii.eqb c "-" then String c (take_number s) else ""
  end.

Definition ExtractNumericClaim (json key : string) : option Z :=
  match find_behind (quote key +:+ ":") json with
  | None => None
  | Some rest =>
      let digits := take_number (skip_spaces rest).2 in
      if String.eqb digits "" then None
      else match stoll digits with inr (v, _) => Some v | inl _ => None end
  end.

(** ** Tokens *)

Definition kJwtHeaderJson : string := "{" +:+ quote "alg" +:+ ":" +:+ quote "HS256" +:+ "," +:+ quote "typ" +:+ ":" +:+ quote "JWT" +:+ "}".

Fixpoint hex_bytes (digest : string) : string :=
  match digest with EmptyString => "" | String c rest => hex_padded 2 (byte_of c) (hex_bytes rest) end.

Definition payload_json (user_id : string) (expires_unix : Z) : string :=
  "{" +:+ quote "sub" +:+ ":" +:+ quote user_id +:+ "," +:+ quote "exp" +:+ ":" +:+ to_string expires_unix +:+ "}".

(** The parts between the dots. *)
Fixpoint split_dots (current s : string) : list string :=
  match s with
  | EmptyString => [current]
  | String c s => if Ascii.eqb c "." then current :: split_dots "" s else split_dots (push_back current c) s
  end.

Section tokens.
Context (hmac : string → string → option string).

Definition HashPassword (salt password : string) : string :=
  match hmac salt (salt +:+ ":" +:+ password) with Some digest => hex_bytes digest | None => "" end.

Definition SignTokenPayload (secret payload : string) : string :=
  match hmac secret payload with Some digest => Base64UrlEncode digest | None => "" end.

Definition IssueToken (secret user_id : string) (expires_unix : Z) : string :=
  let signing_input := Base64UrlEncode kJwtHeaderJson +:+ "." +:+ Base64UrlEncode (payload_json user_id expires_unix) in
  signing_input +:+ "." +:+ SignTokenPayload secret signing_input.

Definition LoginAndIssueToken (user_id password : string) (now_unix : Z) (ac : AccessController) : string + string :=
  match ac_accounts ac !! user_id with
  | None => inl "user not found"
  | Some record =>
      if negb (String.eqb (HashPassword (acc_salt record) password) (acc_hash record)) then inl "invalid credentials"
      else inr (IssueToken (ac_secret ac) user_id (now_unix + 3600))
  end.

Definition ValidateTokenAndGetUser (token : string) (now_unix : Z) (ac : AccessController) : option string :=
  match split_dots "" token with
  | [header_b64; payload_b64; signature_b64] =>
      if String.eqb header_b64 "" || String.eqb payload_b64 "" || String.eqb signature_b64 "" then None
      else
        match Base64UrlDecode header_b64, Base64UrlDecode payload_b64 with
        | Some header, Some payload =>
            if negb (String.eqb header kJwtHeaderJson) then None
            else if negb (String.eqb (SignTokenPayload (ac_secret ac) (header_b64 +:+ "." +:+ payload_b64)) signature_b64) then None
            else
              match ExtractStringClaim payload "sub", ExtractNumericClaim payload "exp" with
              | Some user_id, Some expires_unix =>
                  if expires_unix <? now_unix then None
                  else match ac_accounts ac !! user_id with Some _ => Some user_id | None => None end
              | _, _ => None
              end
        | _, _ => None
        end
  | _ => None
  end.

(** ** Accounts and groups

    Each operation returns its error message, or [None] for success; a failed
    [Persist] keeps the change in memory. *)

Definition RegisterAccount (user_id password group salt : string) (fault : PersistFault) (ac : AccessController)
    : option string * AccessController :=
  if String.eqb user_id "" || String.eqb password "" then (Some "user and password are required", ac)
  else
    match ac_accounts ac !! user_id with
    | Some _ => (Some "user already exists", ac)
    | None =>
        let effective_group :=
          if String.eqb group "" then if (size (ac_accounts ac) =? 0)%nat then "admin" else "user" else group in
        let record := MkAccount user_id salt (HashPassword salt password) [effective_group] in
        Persist fault
          (MkAccess (ac_secret ac) (<[user_id := record]> (ac_accounts ac)) (ac_groups ac ∪ {[effective_group]}) (ac_grants ac)
            (ac_files ac))
    end.

End tokens.

Definition CreateGroup (group_name : string) (fault : PersistFault) (ac : AccessController) : option string * AccessController :=
  if String.eqb group_name "" then (Some "group is required", ac)
  else Persist fault (MkAccess (ac_secret ac) (ac_accounts ac) (ac_groups ac ∪ {[group_name]}) (ac_grants ac) (ac_files ac)).

Definition AddUserToGroup (user_id group_name : string) (fault : PersistFault) (ac : AccessController)
    : option string * AccessController :=
  match ac_accounts ac !! user_id with
  | None => (Some "user not found", ac)
  | Some record =>
      if bool_decide (group_name ∈ ac_groups ac) then
        let groups := if bool_decide (group_name ∈ acc_groups record) then acc_groups record else acc_groups record ++ [group_name] in
        let record := MkAccount (acc_user record) (acc_salt record) (acc_hash record) groups in
        Persist fault (MkAccess (ac_secret ac) (<[user_id := record]> (ac_accounts ac)) (ac_groups ac) (ac_grants ac) (ac_files ac))
      else (Some "group not found", ac)
  end.

(** ** Grants *)

Definition with_grants (n : string) (record : DatabaseGrantRecord) (ac : AccessController) : AccessController :=
  MkAccess (ac_secret ac) (ac_accounts ac) (ac_groups ac) (<[n := record]> (ac_grants ac)) (ac_files ac).

(** [mask |= m] and [mask &= ~m] on 32 bits. *)
Definition mask_or (mask : Z) (permission : Permission) : Z := Z.lor mask (PermissionMask permission).
Definition mask_clear (mask : Z) (permission : Permission) : Z := Z.land mask (Z.lxor (PermissionMask permission) 4294967295).

Definition GrantDefault (n : string) (permission : Permission) (fault : PersistFault) (ac : AccessController)
    : option string * AccessController :=
  if String.eqb n "" then (Some "database is required", ac)
  else
    let record := grants_at n (ac_grants ac) in
    Persist fault (with_grants n (MkGrants (mask_or (default_permissions record) permission) (group_permissions record)
      (user_permissions record)) ac).

Definition RevokeDefault (n : string) (permission : Permission) (fault : PersistFault) (ac : AccessController)
    : option string * AccessController :=
  match ac_grants ac !! n with
  | None => (Some "database grant record not found", ac)
  | Some record =>
      Persist fault (with_grants n (MkGrants (mask_clear (default_permissions record) permission) (group_permissions record)
        (user_permissions record)) ac)
  end.

(** [permissions[key]], which inserts a zero. *)
Definition mask_at (key : string) (permissions : gmap string Z) : Z := default 0 (permissions !! key).

Definition GrantGroup (n group_name : string) (permission : Permission) (fault : PersistFault) (ac : AccessController)
    : option string * AccessController :=
  if bool_decide (group_name ∈ ac_groups ac) then
    let record := grants_at n (ac_grants ac) in
    Persist fault (with_grants n (MkGrants (default_permissions record)
      (<[group_name := mask_or (mask_at group_name (group_permissions record)) permission]> (group_permissions record))
      (user_permissions record)) ac)
  else (Some "group not found", ac).

Definition RevokeGroup (n group_name : string) (permission : Permission) (fault : PersistFault) (ac : AccessController)
    : option string * AccessController :=
  match ac_grants ac !! n with
  | None => (Some "database grant record not found", ac)
  | Some record =>
      Persist fault (with_grants n (MkGrants (default_permissions record)
        (<[group_name := mask_clear (mask_at group_name (group_permissions record)) permission]> (group_permissions record))
        (user_permissions record)) ac)
  end.

Definition GrantUser (n user_id : string) (permission : Permission) (fault : PersistFault) (ac : AccessController)
    : option string * AccessController :=
  match ac_accounts ac !! user_id with
  | None => (Some "user not found", ac)
  | Some _ =>
      let record := grants_at n (ac_grants ac) in
      Persist fault (with_grants n (MkGrants (default_permissions record) (group_permissions record)
        (<[user_id := mask_or (mask_at user_id (user_permissions record)) permission]> (user_permissions record))) ac)
  end.

Definition RevokeUser (n user_id : string) (permission : Permission) (fault : PersistFault) (ac : AccessController)
    : option string * AccessController :=
  match ac_grants ac !! n with
  | None => (Some "database grant record not found", ac)
  | Some record =>
      Persist fault (with_grants n (MkGrants (default_permissions record) (group_permissions record)
        (<[user_id := mask_clear (mask_at user_id (user_permissions record)) permission]> (user_permissions record))) ac)
  end.

(** ** Decisions *)

Definition HasAccounts (ac : AccessController) : bool := negb (size (ac_accounts ac) =? 0)%nat.

Definition IsAdmin (user_id : string) (ac : AccessController) : bool :=
  match ac_accounts ac !! user_id with
  | None => false
  | Some record => bool_decide ("admin" ∈ acc_groups record)
  end.

Definition HasPermissionInMask (mask : Z) (permission : Permission) : bool :=
  negb (Z.land mask (PermissionMask permission) =? 0).

Definition has_entry (permissions : gmap string Z) (permission : Permission) (key : string) : bool :=
  match permissions !! key with Some mask => HasPermissionInMask mask permission | None => false end.

Definition Authorize (user_id n : string) (permission : Permission) (ac : AccessController) : bool :=
  match ac_accounts ac !! user_id with
  | None => false
  | Some account =>
      if IsAdmin user_id ac then true
      else
        match ac_grants ac !! n with
        | None => false
        | Some record =>
            HasPermissionInMask (default_permissions record) permission
            || existsb (has_entry (group_permissions record) permission) (acc_groups account)
            || has_entry (user_permissions record) permission user_id
        end
  end.

Definition UserGroups (user_id : string) (ac : AccessController) : list string :=
  match ac_accounts ac !! user_id with None => [] | Some record => acc_groups record end.

Definition ParsePermissionName (permission_name : string) : option Permission :=
  let upper := ToUpper permission_name in
  if String.eqb upper "READ" then Some kRead
  else if String.eqb upper "WRITE" then Some kWrite
  else if String.eqb upper "CREATE_TABLE" then Some kCreateTablePermission
  else if String.eqb upper "DROP_TABLE" then Some kDropTablePermission
  else if String.eqb upper "DROP_DATABASE" then Some kDropDatabasePermission
  else None.
