(* ===== verification/RbacFacts.v ===== *)
(** * RbacFacts: tokens, grants and the files of access control

    Base64 and the files are inverted by their readers; a token is accepted
    exactly as long as it is signed and fresh; the masks of the grants refine a
    set of facts who may do what. *)
From S2P Require Import Prelude Numerals CommonTypes Codec Protocol Wal Persistence PersistenceFacts Lexer.
From S2P Require Import Parser Rbac.
From Stdlib Require Import Ascii.

Open Scope Z_scope.

(** ** Base64 *)

Lemma lor_shift x n d : 0 ≤ n → 0 ≤ d < 2 ^ n → Z.lor (Z.shiftl x n) d = x * 2 ^ n + d.
Proof.
  intros Hn Hd. rewrite <-Z.shiftl_mul_pow2 by done. rewrite <-Z.add_lor_land.
  assert (Hland : Z.land (Z.shiftl x n) d = 0); [|lia].
  destruct (Z.eq_dec d 0) as [->|Hd0]; [apply Z.land_0_r|].
  apply Z.bits_inj'. intros i Hi. rewrite Z.land_spec, Z.bits_0.
  destruct (Z.lt_ge_cases i n); [by rewrite Z.shiftl_spec_low|].
  rewrite (Z.bits_above_log2 d i), andb_false_r; [done|lia|].
  apply Z.log2_lt_pow2; [lia|]. eapply Z.lt_le_trans; [apply Hd|]. apply Z.pow_le_mono_r; lia.
Qed.

Lemma byte_range c : 0 ≤ byte_of c < 256.
Proof. unfold byte_of. pose proof (nat_ascii_bounded c). lia. Qed.

Lemma char_of_byte c : char_of (byte_of c) = c.
Proof. unfold char_of, byte_of. by rewrite Nat2Z.id, ascii_nat_embedding. Qed.

(** The 64 characters, looked up and found again. *)
Lemma position_alphabet i : 0 ≤ i < 64 → position_in kBase64UrlAlphabet (alphabet_char i) = Some i.
Proof.
  intros Hi. assert (H : forallb (λ k, bool_decide (position_in kBase64UrlAlphabet (alphabet_char (Z.of_nat k)) = Some (Z.of_nat k)))
    (seq 0 64) = true) by (vm_compute; reflexivity).
  rewrite forallb_forall in H. specialize (H (Z.to_nat i)). rewrite Z2Nat.id in H by lia.
  apply bool_decide_eq_true in H; [done|]. apply in_seq. lia.
Qed.

Definition six (x k : Z) : Z := x / 2 ^ k mod 64.

Lemma position_sextet x k : 0 ≤ k → position_in kBase64UrlAlphabet (sextet x k) = Some (six x k).
Proof.
  intros Hk. unfold sextet, six. rewrite Z.shiftr_div_pow2 by done. change 63 with (Z.ones 6).
  rewrite Z.land_ones by done. apply position_alphabet. apply Z.mod_pos_bound. done.
Qed.

Definition push (v d : Z) : Z := v * 64 mod 4294967296 + d.

Lemma decode_sextet x k rest v bits : 0 ≤ k → 0 ≤ bits < 8 →
  decode_loop (String (sextet x k) rest) v bits =
  if 8 <=? bits + 6
  then String (char_of (push v (six x k) / 2 ^ (bits - 2) mod 256)) <$> decode_loop rest (push v (six x k)) (bits - 2)
  else decode_loop rest (push v (six x k)) (bits + 6).
Proof.
  intros Hk Hb. cbn [decode_loop]. rewrite position_sextet by done.
  assert (Hv : Z.lor (Z.shiftl v 6 mod 4294967296) (six x k) = push v (six x k)).
  { rewrite Z.shiftl_mul_pow2 by done. change (2 ^ 6) with 64.
    replace (v * 64 mod 4294967296) with (Z.shiftl (v mod 67108864) 6).
    - rewrite lor_shift; [|done|apply Z.mod_pos_bound; done]. unfold push. change (2 ^ 6) with 64.
      f_equal. rewrite <-Zmult_mod_distr_r. done.
    - rewrite Z.shiftl_mul_pow2 by done. change (2 ^ 6) with 64. by rewrite <-Zmult_mod_distr_r. }
  rewrite Hv. replace (bits + 6 - 8) with (bits - 2) by lia. destruct (Z.leb_spec 8 (bits + 6)); [|done].
  rewrite Z.shiftr_div_pow2 by lia. change 255 with (Z.ones 8). rewrite Z.land_ones by done. change (2 ^ 8) with 256.
  by destruct (decode_loop rest _ _).
Qed.

Lemma push_low v d : 0 ≤ d < 64 → push v d mod 64 = d.
Proof.
  intros Hd. unfold push. change 4294967296 with (67108864 * 64). rewrite Zmult_mod_distr_r.
  rewrite Z.add_comm, Z.mod_add by done. by apply Z.mod_small.
Qed.

(** The byte that a character completes depends on six bits before it. *)
Lemma push_byte v d k : 0 ≤ d < 64 → k = 0 ∨ k = 2 ∨ k = 4 →
  push v d / 2 ^ k mod 256 = (v mod 64 * 64 + d) / 2 ^ k mod 256.
Proof.
  intros Hd Hk. unfold push. change 4294967296 with (67108864 * 64). rewrite Zmult_mod_distr_r.
  pose proof (Z.div_mod v 64 ltac:(done)) as Hv. pose proof (Z.div_mod v 67108864 ltac:(done)) as Hw.
  set (r := v mod 64) in *. set (w := v mod 67108864) in *. set (q := v / 64) in *. set (p := v / 67108864) in *.
  replace (w * 64 + d) with ((r * 64 + d) + (q - p * 1048576) * 4096) by lia.
  destruct Hk as [->|[->| ->]].
  - rewrite !Z.div_1_r. replace ((q - p * 1048576) * 4096) with ((q - p * 1048576) * 16 * 256) by lia. by rewrite Z.mod_add.
  - replace ((q - p * 1048576) * 4096) with ((q - p * 1048576) * 4 * 256 * 2 ^ 2) by lia.
    rewrite Z.div_add by done. by rewrite Z.mod_add.
  - replace ((q - p * 1048576) * 4096) with ((q - p * 1048576) * 256 * 2 ^ 4) by lia. rewrite Z.div_add by done. by rewrite Z.mod_add.
Qed.

Lemma six_range x k : 0 ≤ six x k < 64.
Proof. by apply Z.mod_pos_bound. Qed.

Ltac six_arith :=
  unfold six; change (2 ^ 18) with 262144; change (2 ^ 12) with 4096; change (2 ^ 6) with 64; change (2 ^ 4) with 16;
  change (2 ^ 2) with 4; change (2 ^ 0) with 1; Z.to_euclidean_division_equations; lia.

(** A group of three bytes, read from any remains of earlier groups. *)
Lemma decode_group x rest v : 0 ≤ x < 16777216 →
  decode_loop (String (sextet x 18) (String (sextet x 12) (String (sextet x 6) (String (sextet x 0) rest)))) v 0 =
  (λ bytes, String (char_of (x / 65536)) (String (char_of (x / 256 mod 256)) (String (char_of (x mod 256)) bytes))) <$>
    decode_loop rest (push (push (push (push v (six x 18)) (six x 12)) (six x 6)) (six x 0)) 0.
Proof.
  intros Hx. pose proof (six_range x) as Hs.
  rewrite (decode_sextet x 18 _ v 0) by lia. change (8 <=? 0 + 6) with false. cbv iota. change (0 + 6) with 6.
  rewrite (decode_sextet x 12 _ _ 6) by lia. change (8 <=? 6 + 6) with true. cbv iota. change (6 - 2) with 4.
  rewrite (decode_sextet x 6 _ _ 4) by lia. change (8 <=? 4 + 6) with true. cbv iota. change (4 - 2) with 2.
  rewrite (decode_sextet x 0 _ _ 2) by lia. change (8 <=? 2 + 6) with true. cbv iota. change (2 - 2) with 0.
  rewrite !push_byte by auto. rewrite !push_low by done.
  assert (H1 : (six x 18 * 64 + six x 12) / 2 ^ 4 mod 256 = x / 65536) by six_arith.
  assert (H2 : (six x 12 * 64 + six x 6) / 2 ^ 2 mod 256 = x / 256 mod 256) by six_arith.
  assert (H3 : (six x 6 * 64 + six x 0) / 2 ^ 0 mod 256 = x mod 256) by six_arith.
  rewrite H1, H2, H3. by destruct (decode_loop rest _ _).
Qed.

Lemma decode_group_two x v : 0 ≤ x < 16777216 →
  decode_loop (String (sextet x 18) (String (sextet x 12) (String (sextet x 6) ""))) v 0 =
  Some (String (char_of (x / 65536)) (String (char_of (x / 256 mod 256)) "")).
Proof.
  intros Hx. pose proof (six_range x) as Hs.
  rewrite (decode_sextet x 18 _ v 0) by lia. change (8 <=? 0 + 6) with false. cbv iota. change (0 + 6) with 6.
  rewrite (decode_sextet x 12 _ _ 6) by lia. change (8 <=? 6 + 6) with true. cbv iota. change (6 - 2) with 4.
  rewrite (decode_sextet x 6 _ _ 4) by lia. change (8 <=? 4 + 6) with true. cbv iota. change (4 - 2) with 2.
  rewrite !push_byte by auto. rewrite !push_low by done.
  assert (H1 : (six x 18 * 64 + six x 12) / 2 ^ 4 mod 256 = x / 65536) by six_arith.
  assert (H2 : (six x 12 * 64 + six x 6) / 2 ^ 2 mod 256 = x / 256 mod 256) by six_arith.
  by rewrite H1, H2.
Qed.

Lemma decode_group_one x v : 0 ≤ x < 16777216 →
  decode_loop (String (sextet x 18) (String (sextet x 12) "")) v 0 = Some (String (char_of (x / 65536)) "").
Proof.
  intros Hx. pose proof (six_range x) as Hs.
  rewrite (decode_sextet x 18 _ v 0) by lia. change (8 <=? 0 + 6) with false. cbv iota. change (0 + 6) with 6.
  rewrite (decode_sextet x 12 _ _ 6) by lia. change (8 <=? 6 + 6) with true. cbv iota. change (6 - 2) with 4.
  rewrite !push_byte by auto. rewrite !push_low by done.
  assert (H1 : (six x 18 * 64 + six x 12) / 2 ^ 4 mod 256 = x / 65536) by six_arith. by rewrite H1.
Qed.

(** The number that three bytes make. *)
Lemma pack_three a b c : Z.lor (Z.lor (Z.shiftl (byte_of a) 16) (Z.shiftl (byte_of b) 8)) (byte_of c) =
  byte_of a * 65536 + byte_of b * 256 + byte_of c.
Proof.
  pose proof (byte_range b). pose proof (byte_range c).
  replace (Z.shiftl (byte_of b) 8) with (byte_of b * 256) by (by rewrite Z.shiftl_mul_pow2).
  rewrite (lor_shift (byte_of a) 16) by (change (2 ^ 16) with 65536; lia). change (2 ^ 16) with 65536.
  replace (byte_of a * 65536 + byte_of b * 256) with (Z.shiftl (byte_of a * 256 + byte_of b) 8)
    by (rewrite Z.shiftl_mul_pow2 by done; change (2 ^ 8) with 256; lia).
  rewrite lor_shift by (change (2 ^ 8) with 256; lia). rewrite Z.shiftl_mul_pow2 by done. change (2 ^ 8) with 256. lia.
Qed.

Lemma pack_two a b : Z.lor (Z.shiftl (byte_of a) 16) (Z.shiftl (byte_of b) 8) = byte_of a * 65536 + byte_of b * 256.
Proof.
  pose proof (byte_range b). replace (Z.shiftl (byte_of b) 8) with (byte_of b * 256) by (by rewrite Z.shiftl_mul_pow2).
  rewrite lor_shift by (change (2 ^ 16) with 65536; lia). by change (2 ^ 16) with 65536.
Qed.

Lemma encode_three a b c rest : Base64UrlEncode (String a (String b (String c rest))) =
  let x := byte_of a * 65536 + byte_of b * 256 + byte_of c in
  String (sextet x 18) (String (sextet x 12) (String (sextet x 6) (String (sextet x 0) (Base64UrlEncode rest)))).
Proof. cbn [Base64UrlEncode]. by rewrite pack_three. Qed.

(** Induction by groups of three characters. *)
Lemma string_ind3 (P : string → Prop) :
  P "" → (∀ a, P (String a "")) → (∀ a b, P (String a (String b ""))) →
  (∀ a b c s, P s → P (String a (String b (String c s)))) → ∀ s, P s.
Proof.
  intros H0 H1 H2 H3 s. assert (H : ∀ n s, (String.length s ≤ n)%nat → P s); [|by apply (H (String.length s))].
  clear s. induction n as [|n IH]; intros s Hs; [destruct s; [done|simpl in Hs; lia]|].
  destruct s as [|a [|b [|c s]]]; auto. apply H3, IH. simpl in Hs. lia.
Qed.

Lemma decode_encode_base64 s v : decode_loop (Base64UrlEncode s) v 0 = Some s.
Proof.
  revert v. induction s as [|a|a b|a b c s IH] using string_ind3; intros v; [done|..].
  - pose proof (byte_range a). cbn [Base64UrlEncode]. rewrite Z.shiftl_mul_pow2 by done. change (2 ^ 16) with 65536.
    rewrite decode_group_one by lia. rewrite Z.div_mul by done. by rewrite char_of_byte.
  - pose proof (byte_range a). pose proof (byte_range b). cbn [Base64UrlEncode]. rewrite pack_two, decode_group_two by lia.
    replace ((byte_of a * 65536 + byte_of b * 256) / 65536) with (byte_of a) by (Z.to_euclidean_division_equations; lia).
    replace ((byte_of a * 65536 + byte_of b * 256) / 256 mod 256) with (byte_of b) by (Z.to_euclidean_division_equations; lia).
    by rewrite !char_of_byte.
  - pose proof (byte_range a). pose proof (byte_range b). pose proof (byte_range c). rewrite encode_three. cbv zeta.
    rewrite decode_group, IH by lia. simpl.
    replace ((byte_of a * 65536 + byte_of b * 256 + byte_of c) / 65536) with (byte_of a) by (Z.to_euclidean_division_equations; lia).
    replace ((byte_of a * 65536 + byte_of b * 256 + byte_of c) / 256 mod 256) with (byte_of b) by (Z.to_euclidean_division_equations; lia).
    replace ((byte_of a * 65536 + byte_of b * 256 + byte_of c) mod 256) with (byte_of c) by (Z.to_euclidean_division_equations; lia).
    by rewrite !char_of_byte.
Qed.

(** decoding inverts encoding for every byte string, whatever its length
    is modulo three. *)
Theorem base64_roundtrip s : Base64UrlDecode (Base64UrlEncode s) = Some s.
Proof. apply decode_encode_base64. Qed.

(** ** Texts of tokens *)

Definition dot : ascii := "."%char.

Lemma alphabet_no_dot i : 0 ≤ i < 64 → Ascii.eqb (alphabet_char i) dot = false.
Proof.
  intros Hi. assert (H : forallb (λ k, negb (Ascii.eqb (alphabet_char (Z.of_nat k)) dot)) (seq 0 64) = true) by (vm_compute; reflexivity).
  rewrite forallb_forall in H. specialize (H (Z.to_nat i)). rewrite Z2Nat.id in H by lia.
  apply negb_true_iff, H, in_seq. lia.
Qed.

Lemma sextet_no_dot x k : 0 ≤ k → Ascii.eqb (sextet x k) dot = false.
Proof.
  intros Hk. unfold sextet. change 63 with (Z.ones 6). rewrite Z.land_ones by done. apply alphabet_no_dot. by apply Z.mod_pos_bound.
Qed.

Lemma encode_no_dot s : no_char dot (Base64UrlEncode s) = true.
Proof.
  induction s as [|a|a b|a b c s IH] using string_ind3; [done|..]; cbn [Base64UrlEncode no_char]; by rewrite ?sextet_no_dot.
Qed.

Lemma encode_nonempty s : s ≠ "" → Base64UrlEncode s ≠ "".
Proof. by destruct s as [|a [|b [|c s]]]. Qed.

Lemma split_dots_app cur s t : no_char dot s = true → split_dots cur (s +:+ t) = split_dots (cur +:+ s) t.
Proof.
  revert cur. induction s as [|c s IH]; intros cur; simpl; [by rewrite str_app_nil_r|].
  intros [Hc%negb_true_iff Hs]%andb_true_iff. unfold dot in Hc. rewrite Hc, IH by done. by rewrite push_back_app.
Qed.

Lemma split_three a b c : no_char dot a = true → no_char dot b = true → no_char dot c = true →
  split_dots "" (a +:+ "." +:+ b +:+ "." +:+ c) = [a; b; c].
Proof.
  intros Ha Hb Hc. rewrite split_dots_app by done. simpl. f_equal. rewrite split_dots_app by done. simpl. f_equal.
  rewrite <-(str_app_nil_r c) at 1. by rewrite split_dots_app.
Qed.

Lemma text_before_app ch s t : no_char ch s = true → text_before ch (s +:+ String ch t) = Some s.
Proof.
  induction s as [|c s IH]; simpl; [by rewrite Ascii.eqb_refl|]. intros [Hc%negb_true_iff Hs]%andb_true_iff.
  by rewrite Hc, IH.
Qed.

(** A marker that starts with a quote is not inside a text without quotes. *)
Lemma find_behind_skip marker s t : no_char dquote s = true →
  find_behind (String dquote marker) (s +:+ t) = find_behind (String dquote marker) t.
Proof.
  induction s as [|c s IH]; cbn [String.append no_char]; [done|]. intros [Hc%negb_true_iff Hs]%andb_true_iff.
  rewrite <-(IH Hs). cbn [find_behind strip_prefix]. rewrite (Ascii.eqb_sym dquote c), Hc. done.
Qed.

Lemma take_number_plain s t : plain s = true → take_number (s +:+ String "}" t) = s.
Proof.
  induction s as [|c s IH]; simpl; [done|]. unfold plain_char. intros [Hc Hs]%andb_true_iff. by rewrite Hc, IH.
Qed.

Lemma plain_no_space s t : plain s = true → s ≠ "" → skip_spaces (s +:+ t) = (0%nat, s +:+ t).
Proof.
  destruct s as [|c s]; [done|]. simpl. intros [Hc _]%andb_true_iff _.
  assert (is_space c = false) as ->; [|done]. unfold plain_char in Hc. apply orb_true_iff in Hc as [Hc|Hc].
  - by apply is_digit_not_space.
  - by apply Ascii.eqb_eq in Hc as ->.
Qed.

Lemma to_string_nonempty z : to_string z ≠ "".
Proof.
  unfold to_string. destruct (Z.ltb_spec z 0); [done|]. destruct (nat_to_string_head z) as (c & s & -> & _); [lia|done].
Qed.

Lemma exp_claim z : in_int64 z →
  (let digits := take_number (skip_spaces (to_string z +:+ "}")).2 in
   if String.eqb digits "" then None else match stoll digits with inr (v, _) => Some v | inl _ => None end) = Some z.
Proof.
  intros Hz. rewrite plain_no_space by auto using plain_to_string, to_string_nonempty. cbn [snd].
  rewrite take_number_plain by apply plain_to_string. cbv zeta. rewrite stoll_to_string by done.
  destruct (String.eqb_spec (to_string z) ""); [by destruct (to_string_nonempty z)|done].
Qed.

(** What a payload claims: the subject ends at the first quote. *)
Lemma sub_claim u rest z : no_char dquote u = true →
  ExtractStringClaim (payload_json (u +:+ rest) z) "sub" =
  text_before dquote (u +:+ (rest +:+ String dquote ("," +:+ quote "exp" +:+ ":" +:+ to_string z +:+ "}"))).
Proof.
  intros Hu. unfold ExtractStringClaim, payload_json.
  match goal with |- context [find_behind ?m ?j] => assert (E : find_behind m j =
    Some (u +:+ (rest +:+ String dquote ("," +:+ quote "exp" +:+ ":" +:+ to_string z +:+ "}")))) end.
  { cbn -[to_string]. rewrite <-!str_app_assoc. done. }
  by rewrite E.
Qed.

Lemma not_exp_marker u rest : no_char dquote u = true →
  strip_prefix ("exp" +:+ String dquote ":") (u +:+ String dquote (String "," rest)) = None.
Proof.
  intros Hu. destruct u as [|c1 [|c2 [|c3 [|c4 u]]]]; cbn [String.append strip_prefix no_char] in Hu |- *; try done;
    repeat match goal with |- context [if Ascii.eqb ?a ?b then _ else _] => destruct (Ascii.eqb_spec a b) as [<-|]; [|done] end; done.
Qed.

Lemma exp_in_payload u z : no_char dquote u = true → in_int64 z → ExtractNumericClaim (payload_json u z) "exp" = Some z.
Proof.
  intros Hu Hz. unfold ExtractNumericClaim, payload_json.
  match goal with |- context [find_behind ?m ?j] => assert (E : find_behind m j = Some (to_string z +:+ "}")) end.
  { pose proof (not_exp_marker u (quote "exp" +:+ ":" +:+ to_string z +:+ "}") Hu) as Hno.
    pose proof (find_behind_skip ("exp" +:+ String dquote ":") u
      (String dquote (String "," (quote "exp" +:+ ":" +:+ to_string z +:+ "}"))) Hu) as Hskip.
    cbn -[to_string] in Hno, Hskip |- *. rewrite <-!str_app_assoc. cbn -[to_string]. rewrite Hno, Hskip. done. }
  rewrite E. by apply exp_claim.
Qed.

(** ** Tokens *)

Section tokens.
Context (hmac : string → string → option string).

(** OpenSSL computes a digest of 32 bytes for every key and message. *)
Definition hmac_digests : Prop := ∀ key message, ∃ digest, hmac key message = Some digest ∧ digest ≠ "".

Implicit Types ac : AccessController.

Lemma sign_good secret m : hmac_digests → no_char dot (SignTokenPayload hmac secret m) = true ∧ SignTokenPayload hmac secret m ≠ "".
Proof.
  intros H. unfold SignTokenPayload. destruct (H secret m) as (d & -> & Hd). split; [apply encode_no_dot|by apply encode_nonempty].
Qed.

(** Validation of an issued token is the check of its claims. *)
Lemma validate_issued u z now ac : hmac_digests →
  ValidateTokenAndGetUser hmac (IssueToken hmac (ac_secret ac) u z) now ac =
  match ExtractStringClaim (payload_json u z) "sub", ExtractNumericClaim (payload_json u z) "exp" with
  | Some user, Some e => if e <? now then None else match ac_accounts ac !! user with Some _ => Some user | None => None end
  | _, _ => None
  end.
Proof.
  intros H. unfold ValidateTokenAndGetUser, IssueToken.
  set (h := Base64UrlEncode kJwtHeaderJson). set (p := Base64UrlEncode (payload_json u z)).
  destruct (sign_good (ac_secret ac) (h +:+ "." +:+ p) H) as [Hs1 Hs2]. set (s := SignTokenPayload hmac _ _) in *.
  assert (E : (h +:+ "." +:+ p) +:+ "." +:+ s = h +:+ "." +:+ p +:+ "." +:+ s) by (rewrite <-!str_app_assoc; done).
  rewrite E, split_three by (done || apply encode_no_dot).
  assert (Hp : p ≠ "") by (by apply encode_nonempty). assert (Hh : h ≠ "") by done.
  destruct (String.eqb_spec h ""); [done|]. destruct (String.eqb_spec p ""); [done|]. destruct (String.eqb_spec s ""); [done|].
  cbn [orb]. unfold Base64UrlDecode. rewrite (decode_encode_base64 kJwtHeaderJson), (decode_encode_base64 (payload_json u z)).
  rewrite String.eqb_refl. cbn [negb]. fold s. by rewrite String.eqb_refl.
Qed.

(** C17: a token is good for an hour: when a login of a user whose name has no
    quote gives a token, then exactly until 3600 seconds after the login the
    token is accepted, as a token of that user; times fit 64 bits, and the HMAC
    gives a digest whenever it is called. *)
Theorem login_token_valid_for_an_hour u password t ac token now :
  hmac_digests → no_char dquote u = true → in_int64 (t + 3600) →
  LoginAndIssueToken hmac u password t ac = inr token →
  ValidateTokenAndGetUser hmac token now ac = if now <=? t + 3600 then Some u else None.
Proof.
  intros H Hu Ht. unfold LoginAndIssueToken. destruct (ac_accounts ac !! u) as [record|] eqn:Ea; [|done].
  destruct (negb _); [done|]. intros [= <-]. rewrite validate_issued by done.
  pose proof (sub_claim u "" (t + 3600) Hu) as Hsub. rewrite str_app_nil_r in Hsub. rewrite Hsub. cbn [String.append].
  rewrite text_before_app, exp_in_payload by done. rewrite Ea.
  destruct (Z.ltb_spec (t + 3600) now), (Z.leb_spec now (t + 3600)); (done || lia).
Qed.

(** C16: only signed tokens are accepted: a token that is accepted as a user's
    ends with the signature, under the secret of the server, of the two parts
    before it, names that user, who has an account, and has not expired. *)
Theorem accepted_token_is_signed token now ac u :
  ValidateTokenAndGetUser hmac token now ac = Some u →
  ∃ header_b64 payload_b64 payload e,
    token = header_b64 +:+ "." +:+ payload_b64 +:+ "." +:+ SignTokenPayload hmac (ac_secret ac) (header_b64 +:+ "." +:+ payload_b64) ∧
    Base64UrlDecode header_b64 = Some kJwtHeaderJson ∧ Base64UrlDecode payload_b64 = Some payload ∧
    ExtractStringClaim payload "sub" = Some u ∧ ExtractNumericClaim payload "exp" = Some e ∧ now ≤ e ∧
    is_Some (ac_accounts ac !! u).
Proof.
  unfold ValidateTokenAndGetUser.
  assert (Hjoin : ∀ s cur, ∃ w ws, split_dots cur s = w :: ws ∧ join dot (w :: ws) = cur +:+ s).
  { induction s as [|c s IH]; intros cur; simpl; [exists cur, []; by rewrite str_app_nil_r|].
    destruct (Ascii.eqb_spec c ".") as [->|].
    - destruct (IH "") as (w & ws & -> & E). exists cur, (w :: ws). split; [done|]. change (join dot (cur :: w :: ws)) with (cur +:+ String dot (join dot (w :: ws))). by rewrite E.
    - destruct (IH (push_back cur c)) as (w & ws & -> & E). exists w, ws. split; [done|]. etransitivity; [exact E|apply push_back_app]. }
  destruct (Hjoin token "") as (w & ws & -> & E). clear Hjoin. destruct ws as [|p [|s [|]]]; try done.
  destruct (_ || _); [done|]. destruct (Base64UrlDecode w) as [header|] eqn:Eh; [|done].
  destruct (Base64UrlDecode p) as [payload|] eqn:Ep; [|done].
  destruct (String.eqb_spec header kJwtHeaderJson) as [->|]; [|done]. cbn [negb].
  destruct (String.eqb_spec (SignTokenPayload hmac (ac_secret ac) (w +:+ "." +:+ p)) s) as [<-|]; [|done]. cbn [negb].
  destruct (ExtractStringClaim payload "sub") as [user|] eqn:Es; [|done].
  destruct (ExtractNumericClaim payload "exp") as [e|] eqn:En; [|done].
  destruct (Z.ltb_spec e now); [done|]. destruct (ac_accounts ac !! user) as [record|] eqn:Ea; [|done]. intros [= <-].
  exists w, p, payload, e. split_and!; try done; by rewrite <-?E, ?Ea.
Qed.

(** C28: a name with quotes impersonates: for any account whose name has no
    quote, the token that a user with that name and one suffix of quotes gets
    at login is accepted, within its hour, as a token of that account; times
    fit 64 bits, and the HMAC gives a digest whenever it is called. *)
Theorem quoted_name_impersonates victim password t ac token now :
  hmac_digests → no_char dquote victim = true → is_Some (ac_accounts ac !! victim) → in_int64 (t + 3600) → now ≤ t + 3600 →
  LoginAndIssueToken hmac (victim +:+ String dquote "," +:+ quote "x" +:+ ":" +:+ String dquote "") password t ac = inr token →
  ValidateTokenAndGetUser hmac token now ac = Some victim.
Proof.
  intros H Hv [record Ha] Ht Hnow. unfold LoginAndIssueToken. destruct (ac_accounts ac !! (victim +:+ _)) as [r|]; [|done].
  destruct (negb _); [done|]. intros [= <-]. rewrite validate_issued by done.
  rewrite (sub_claim victim) by done. cbn [String.append quote]. rewrite text_before_app by done.
  unfold ExtractNumericClaim, payload_json.
  match goal with |- context [find_behind ?m ?j] => assert (E : find_behind m j = Some (to_string (t + 3600) +:+ "}")) end.
  { pose proof (λ rest, not_exp_marker victim rest Hv) as Hno.
    pose proof (λ rest, find_behind_skip ("exp" +:+ String dquote ":") victim (String dquote (String "," rest)) Hv) as Hskip.
    cbn -[to_string] in Hno, Hskip |- *. rewrite <-!str_app_assoc. cbn -[to_string]. rewrite Hno, Hskip. done. }
  rewrite E, exp_claim by done. rewrite Ha. destruct (Z.ltb_spec (t + 3600) now); [lia|done].
Qed.

End tokens.

(** ** Masks *)

Definition permission_bit (p : Permission) : Z :=
  match p with kRead => 0 | kWrite => 1 | kCreateTablePermission => 2 | kDropTablePermission => 3 | kDropDatabasePermission => 4 end.

Lemma has_permission_bit m p : HasPermissionInMask m p = Z.testbit m (permission_bit p).
Proof.
  unfold HasPermissionInMask. replace (PermissionMask p) with (2 ^ permission_bit p) by by destruct p.
  assert (Hp : 0 ≤ permission_bit p) by by destruct p.
  assert (Hbit : ∀ i, Z.testbit (Z.land m (2 ^ permission_bit p)) i = if i =? permission_bit p then Z.testbit m i else false).
  { intros i. rewrite Z.land_spec, Z.pow2_bits_eqb by done. rewrite Z.eqb_sym. by destruct (i =? permission_bit p); [rewrite andb_true_r|rewrite andb_false_r]. }
  destruct (Z.eqb_spec (Z.land m (2 ^ permission_bit p)) 0) as [E|E]; simpl.
  - specialize (Hbit (permission_bit p)). rewrite E, Z.bits_0, Z.eqb_refl in Hbit. done.
  - destruct (Z.testbit m (permission_bit p)) eqn:Ht; [done|]. exfalso. apply E. apply Z.bits_inj'. intros i Hi.
    rewrite Hbit, Z.bits_0. destruct (Z.eqb_spec i (permission_bit p)) as [->|]; [done|done].
Qed.

Lemma has_permission_or m p q : HasPermissionInMask (mask_or m p) q = if bool_decide (p = q) then true else HasPermissionInMask m q.
Proof.
  rewrite !has_permission_bit. unfold mask_or. rewrite Z.lor_spec.
  destruct p, q; simpl; by rewrite ?orb_true_r, ?orb_false_r.
Qed.

Lemma has_permission_clear m p q :
  HasPermissionInMask (mask_clear m p) q = if bool_decide (p = q) then false else HasPermissionInMask m q.
Proof.
  rewrite !has_permission_bit. unfold mask_clear. rewrite Z.land_spec.
  destruct p, q; simpl; by rewrite ?andb_true_r, ?andb_false_r.
Qed.

(** ** Grants as facts *)

(** Who a permission on a database is given to. *)
Inductive Subject := Everyone | Group (g : string) | User (u : string).

#[export] Instance Subject_eq_dec : EqDecision Subject.
Proof. solve_decision. Defined.

Definition Fact : Type := string * Subject * Permission.

(** The bit that the controller keeps for a fact. *)
Definition granted (ac : AccessController) (f : Fact) : bool :=
  let '(n, s, p) := f in
  let record := grants_at n (ac_grants ac) in
  match s with
  | Everyone => HasPermissionInMask (default_permissions record) p
  | Group g => HasPermissionInMask (mask_at g (group_permissions record)) p
  | User u => HasPermissionInMask (mask_at u (user_permissions record)) p
  end.

(** The operations that change the state. *)
Inductive AuthCommand :=
| CmdRegister (user_id password group salt : string)
| CmdCreateGroup (g : string)
| CmdAddToGroup (u g : string)
| CmdGrant (n : string) (s : Subject) (p : Permission)
| CmdRevoke (n : string) (s : Subject) (p : Permission).

Section commands.
Context (hmac : string → string → option string).

Definition run_command (c : AuthCommand) (fault : PersistFault) (ac : AccessController) : option string * AccessController :=
  match c with
  | CmdRegister u pw g salt => RegisterAccount hmac u pw g salt fault ac
  | CmdCreateGroup g => CreateGroup g fault ac
  | CmdAddToGroup u g => AddUserToGroup u g fault ac
  | CmdGrant n Everyone p => GrantDefault n p fault ac
  | CmdGrant n (Group g) p => GrantGroup n g p fault ac
  | CmdGrant n (User u) p => GrantUser n u p fault ac
  | CmdRevoke n Everyone p => RevokeDefault n p fault ac
  | CmdRevoke n (Group g) p => RevokeGroup n g p fault ac
  | CmdRevoke n (User u) p => RevokeUser n u p fault ac
  end.

Fixpoint run_commands (cs : list (AuthCommand * PersistFault)) (ac : AccessController) : AccessController :=
  match cs with [] => ac | (c, fault) :: cs => run_commands cs (run_command c fault ac).2 end.

(** A grant needs its subject to exist, a revocation a record of the database. *)
Definition accepted (c : AuthCommand) (ac : AccessController) : bool :=
  match c with
  | CmdGrant n Everyone _ => negb (String.eqb n "")
  | CmdGrant _ (Group g) _ => bool_decide (g ∈ ac_groups ac)
  | CmdGrant _ (User u) _ => bool_decide (is_Some (ac_accounts ac !! u))
  | CmdRevoke n _ _ => bool_decide (is_Some (ac_grants ac !! n))
  | _ => false
  end.

(** The fact an accepted command sets, and to what. *)
Definition effect (c : AuthCommand) : list (Fact * bool) :=
  match c with CmdGrant n s p => [((n, s, p), true)] | CmdRevoke n s p => [((n, s, p), false)] | _ => [] end.

Fixpoint effects (cs : list (AuthCommand * PersistFault)) (ac : AccessController) : list (Fact * bool) :=
  match cs with
  | [] => []
  | (c, fault) :: cs => (if accepted c ac then effect c else []) ++ effects cs (run_command c fault ac).2
  end.

(** What the last effect on a fact set it to. *)
Definition last_word (f : Fact) (es : list (Fact * bool)) (before : bool) : bool :=
  foldl (λ b e, if bool_decide (e.1 = f) then e.2 else b) before es.

Definition subjects (u : string) (account : AccountRecord) : list Subject := Everyone :: User u :: map Group (acc_groups account).

Lemma Persist_frame fault ac : let ac' := (Persist fault ac).2 in
  ac_accounts ac' = ac_accounts ac ∧ ac_groups ac' = ac_groups ac ∧ ac_grants ac' = ac_grants ac ∧ ac_secret ac' = ac_secret ac.
Proof. unfold Persist. by destruct (accounts_write fault), (grants_write fault). Qed.

Lemma granted_persist fault ac f : granted (Persist fault ac).2 f = granted ac f.
Proof. destruct f as [[n s] p]. unfold granted. by destruct (Persist_frame fault ac) as (_ & _ & -> & _). Qed.

(** Setting the mask of one subject. *)
Lemma granted_with_grants n record ac n' s p :
  granted (with_grants n record ac) (n', s, p) =
  if bool_decide (n = n') then
    match s with
    | Everyone => HasPermissionInMask (default_permissions record) p
    | Group g => HasPermissionInMask (mask_at g (group_permissions record)) p
    | User u => HasPermissionInMask (mask_at u (user_permissions record)) p
    end
  else granted ac (n', s, p).
Proof.
  unfold granted, with_grants, grants_at. simpl. case_bool_decide as E; [subst; by rewrite lookup_insert_eq|].
  by rewrite lookup_insert_ne.
Qed.

Lemma mask_at_insert k v k' m : mask_at k' (<[k := v]> m) = if bool_decide (k = k') then v else mask_at k' m.
Proof. unfold mask_at. case_bool_decide; [subst; by rewrite lookup_insert_eq|by rewrite lookup_insert_ne]. Qed.

Ltac fact_cases :=
  repeat first
    [ progress simplify_eq
    | rewrite has_permission_or | rewrite has_permission_clear
    | match goal with |- context [bool_decide ?P] => case_bool_decide end ];
  try done; try (exfalso; congruence).

Lemma run_command_granted c fault ac f :
  granted (run_command c fault ac).2 f = last_word f (if accepted c ac then effect c else []) (granted ac f).
Proof.
  destruct f as [[n' s'] p'].
  destruct c as [u pw g salt|g|u g|n s p|n s p]; cbn [accepted effect last_word foldl run_command].
  - unfold RegisterAccount. destruct (_ || _); [done|]. destruct (ac_accounts ac !! u); [done|]. by rewrite granted_persist.
  - unfold CreateGroup. destruct (String.eqb g ""); [done|]. by rewrite granted_persist.
  - unfold AddUserToGroup. destruct (ac_accounts ac !! u); [|done]. case_bool_decide; [|done]. by rewrite granted_persist.
  - destruct s as [|g|u]; cbn [last_word foldl fst snd].
    + unfold GrantDefault. destruct (String.eqb n ""); [done|]. cbn [negb]. rewrite granted_persist, granted_with_grants. simpl.
      destruct s'; fact_cases.
    + unfold GrantGroup. case_bool_decide; [|done]. rewrite granted_persist, granted_with_grants. simpl.
      destruct s'; rewrite ?mask_at_insert; fact_cases.
    + unfold GrantUser. destruct (ac_accounts ac !! u) eqn:E; [|by rewrite bool_decide_false by (by intros [])].
      rewrite bool_decide_true by done. rewrite granted_persist, granted_with_grants. simpl.
      destruct s'; rewrite ?mask_at_insert; fact_cases.
  - assert (Hat : ∀ record, ac_grants ac !! n = Some record → grants_at n (ac_grants ac) = record) by (unfold grants_at; by intros ? ->).
    destruct s as [|g|u]; cbn [last_word foldl fst snd];
      [unfold RevokeDefault|unfold RevokeGroup|unfold RevokeUser];
      (destruct (ac_grants ac !! n) as [record|] eqn:E; [|by rewrite bool_decide_false by (by intros [])]);
      rewrite bool_decide_true by done; rewrite granted_persist, granted_with_grants; simpl;
      specialize (Hat record eq_refl); destruct s'; rewrite ?mask_at_insert; fact_cases; by rewrite Hat.
Qed.

Lemma run_commands_granted cs ac f : granted (run_commands cs ac) f = last_word f (effects cs ac) (granted ac f).
Proof.
  revert ac. induction cs as [|[c fault] cs IH]; intros ac; simpl; [done|].
  rewrite IH, run_command_granted. unfold last_word. by rewrite foldl_app.
Qed.

Lemma has_entry_mask m p k : has_entry m p k = HasPermissionInMask (mask_at k m) p.
Proof. unfold has_entry, mask_at. destruct (m !! k); [done|]. simpl. by rewrite has_permission_bit, Z.bits_0. Qed.

Lemma Authorize_granted u n p ac :
  Authorize u n p ac = true ↔ ∃ account, ac_accounts ac !! u = Some account ∧
    ("admin" ∈ acc_groups account ∨ ∃ s, s ∈ subjects u account ∧ granted ac (n, s, p) = true).
Proof.
  unfold Authorize, IsAdmin. destruct (ac_accounts ac !! u) as [account|] eqn:Ea; [|naive_solver].
  case_bool_decide as Hadmin; [naive_solver|].
  assert (Hspec : (∃ s, s ∈ subjects u account ∧ granted ac (n, s, p) = true) ↔
    granted ac (n, Everyone, p) = true ∨ (∃ g, g ∈ acc_groups account ∧ granted ac (n, Group g, p) = true) ∨ granted ac (n, User u, p) = true).
  { unfold subjects. setoid_rewrite elem_of_cons. setoid_rewrite elem_of_cons. setoid_rewrite list_elem_of_fmap. naive_solver. }
  transitivity (∃ s, s ∈ subjects u account ∧ granted ac (n, s, p) = true); [|naive_solver]. rewrite Hspec.
  unfold granted, grants_at. destruct (ac_grants ac !! n) as [record|].
  - simpl. rewrite !orb_true_iff, existsb_exists, has_entry_mask. setoid_rewrite has_entry_mask.
    setoid_rewrite <-list_elem_of_In. naive_solver.
  - simpl. unfold mask_at. setoid_rewrite lookup_empty. simpl. rewrite !has_permission_bit, !Z.bits_0. naive_solver.
Qed.

Definition no_accounts (secret : string) (files : AuthFiles) : AccessController := MkAccess secret ∅ ∅ ∅ files.

(** C15: the masks refine a log of grants: after any commands on a controller
    that starts empty, with any failures to write its files, a user is
    authorized exactly when the user has an account and is in the group admin,
    or the last accepted grant or revocation of that permission on that database
    to everyone, to a group of the user or to the user was a grant. *)
Theorem authorize_refines_grant_log secret files cs u n p :
  let ac := no_accounts secret files in
  Authorize u n p (run_commands cs ac) = true ↔
  ∃ account, ac_accounts (run_commands cs ac) !! u = Some account ∧
    ("admin" ∈ acc_groups account ∨
     ∃ s, s ∈ subjects u account ∧ last_word (n, s, p) (effects cs ac) false = true).
Proof.
  intros ac. rewrite Authorize_granted. setoid_rewrite run_commands_granted.
  assert (H0 : ∀ f, granted ac f = false).
  { intros [[n' s] p']. unfold granted, grants_at, mask_at. simpl. rewrite lookup_empty. simpl.
    destruct s; rewrite ?lookup_empty; simpl; by rewrite has_permission_bit, Z.bits_0. }
  setoid_rewrite H0. done.
Qed.

End commands.

(** ** Files *)

Definition group_name_ok (g : string) : Prop := g ≠ "" ∧ one_line g ∧ no_char comma g = true.

Definition account_file_ok (u : string) (a : AccountRecord) : Prop :=
  acc_user a = u ∧ u ≠ "" ∧ one_line u ∧ one_line (acc_salt a) ∧ one_line (acc_hash a) ∧ Forall group_name_ok (acc_groups a).

Definition mask_entry_ok (k : string) (mask : Z) : Prop := one_line k ∧ 0 ≤ mask < 4294967296.

Definition grants_file_ok (n : string) (r : DatabaseGrantRecord) : Prop :=
  n ≠ "" ∧ mask_entry_ok n (default_permissions r) ∧ map_Forall mask_entry_ok (group_permissions r) ∧
  map_Forall mask_entry_ok (user_permissions r).

(** Names without newlines, groups without commas, masks of 32 bits; the groups
    of accounts are groups. *)
Record access_ok (ac : AccessController) : Prop := {
  ao_accounts : map_Forall account_file_ok (ac_accounts ac);
  ao_groups : set_Forall one_line (ac_groups ac);
  ao_members : map_Forall (λ _ a, (list_to_set (acc_groups a) : gset string) ⊆ ac_groups ac) (ac_accounts ac);
  ao_grants : map_Forall grants_file_ok (ac_grants ac)
}.

Lemma split_comma_escaped cur g t : no_char comma g = true →
  split_loop comma cur false (EscapeField g +:+ t) = split_loop comma (cur +:+ EscapeField g) false t.
Proof.
  revert cur. induction g as [|ch g IH]; intros cur; simpl; [by rewrite str_app_nil_r|].
  intros [Hc%negb_true_iff Hg]%andb_true_iff. destruct (needs_escape ch) eqn:E.
  - simpl. by rewrite IH, !push_back_app.
  - assert (Ascii.eqb ch backslash = false) as E1 by (by apply orb_false_iff in E as [[? _]%orb_false_iff _]).
    simpl. by rewrite E1, Hc, IH, push_back_app.
Qed.

Lemma split_comma_join g gs : Forall group_name_ok (g :: gs) →
  split_loop comma "" false (join comma (map EscapeField (g :: gs))) = map EscapeField (g :: gs).
Proof.
  revert g. induction gs as [|h gs IH]; intros g H; inversion H as [|? ? (_ & _ & Hg) Hgs]; subst.
  - simpl. rewrite <-(str_app_nil_r (EscapeField g)) at 1. by rewrite split_comma_escaped.
  - change (join comma (map EscapeField (g :: h :: gs)))
      with (EscapeField g +:+ String comma (join comma (map EscapeField (h :: gs)))).
    rewrite split_comma_escaped by done. cbn [split_loop]. rewrite Ascii.eqb_refl.
    assert (Ascii.eqb comma backslash = false) as -> by done. rewrite IH by done. done.
Qed.

Lemma escape_nonempty g : g ≠ "" → EscapeField g ≠ "".
Proof. destruct g as [|ch g]; [done|]. simpl. by destruct (needs_escape ch). Qed.

Lemma split_join_groups gs : Forall group_name_ok gs → SplitGroups (JoinGroups gs) = gs.
Proof.
  intros H. unfold SplitGroups, JoinGroups. destruct gs as [|g gs]; [done|]. rewrite split_comma_join by done.
  generalize dependent (g :: gs). clear. intros gs H. induction H as [|g gs (Hg & _) _ IH]; [done|]. cbn [map].
  rewrite filter_cons_True by by apply escape_nonempty. cbn [map]. by rewrite IH, unescape_escape.
Qed.

Lemma join_groups_escape gs : JoinGroups gs = EscapeField (join comma gs).
Proof.
  unfold JoinGroups. induction gs as [|g [|h gs] IH]; [done|done|].
  change (join comma (map EscapeField (g :: h :: gs))) with (EscapeField g +:+ String comma (join comma (map EscapeField (h :: gs)))).
  rewrite IH. change (join comma (g :: h :: gs)) with (g +:+ String comma (join comma (h :: gs))). by rewrite escape_app.
Qed.

Lemma join_groups_one_line gs : Forall group_name_ok gs → one_line (JoinGroups gs).
Proof.
  intros H. rewrite join_groups_escape. apply one_line_escape. induction H as [|g gs (_ & Hg & _) Hgs IH]; [done|].
  destruct gs as [|h gs]; [done|]. change (join comma (g :: h :: gs)) with (g +:+ (String comma "" +:+ join comma (h :: gs))).
  by rewrite !one_line_app.
Qed.

Lemma load_account_lines l m gs :
  NoDup l.*1 → (∀ u a, (u, a) ∈ l → account_file_ok u a ∧ m !! u = None) →
  foldl load_account_line (m, gs) (map account_line l) =
  (list_to_map l ∪ m, foldl (λ gs (entry : string * AccountRecord), gs ∪ list_to_set (acc_groups entry.2)) gs l).
Proof.
  revert m gs. induction l as [|[u a] l IH]; intros m gs Hnd Hl; [cbn; by rewrite (left_id_L ∅ (∪))|].
  destruct (Hl u a) as [(Hu & Hne & H1 & H2 & H3 & H4) Hno]; [by left|]. cbn [map foldl].
  assert (E : load_account_line (m, gs) (account_line (u, a)) = (<[u := a]> m, gs ∪ list_to_set (acc_groups a))).
  { unfold account_line, load_account_line. set (kvs := [_; _; _; _]).
    assert (Hkvs : Forall escaped_pair kvs) by (subst kvs; rewrite join_groups_escape; auto 12 with records).
    rewrite (split_record "ACCOUNT" kvs) by done. subst kvs.
    assert (Hrec : foldl account_field (MkAccount "" "" "" []) (map token [("user_id", EscapeField u); ("salt", EscapeField (acc_salt a));
      ("password_hash", EscapeField (acc_hash a)); ("groups", JoinGroups (acc_groups a))]) = a).
    { cbn -[SplitGroups JoinGroups UnescapeField EscapeField]. rewrite !unescape_escape, split_join_groups by done. destruct a. simpl in *. by subst. }
    rewrite Hrec. cbn -[list_to_set]. rewrite Hu. destruct (String.eqb_spec u ""); [done|]. by rewrite Hno. }
  rewrite E. cbn in Hnd. apply NoDup_cons in Hnd as [Hu2 Hnd]. rewrite IH; [|done|].
  - cbn [list_to_map foldr]. f_equal. rewrite <-insert_union_l, insert_union_r; [done|].
    apply not_elem_of_list_to_map_1. done.
  - intros u2 a2 Ha2. destruct (Hl u2 a2) as [? ?]; [by right|]. split; [done|]. rewrite lookup_insert_ne; [done|].
    intros <-. apply Hu2. apply list_elem_of_fmap. by exists (u, a2).
Qed.

Lemma load_group_lines l m (gs : gset string) :
  foldl load_account_line (m, gs) (map group_line l) = (m, gs ∪ list_to_set l).
Proof.
  revert gs. induction l as [|g l IH]; intros gs; cbn [map foldl]; [f_equal; set_solver|].
  assert (E : load_account_line (m, gs) (group_line g) = (m, gs ∪ {[g]})).
  { unfold group_line, load_account_line. rewrite split_record by auto 8 with records. cbn. by rewrite unescape_escape. }
  rewrite E, IH. f_equal. set_solver.
Qed.

Lemma member_groups_subset (l : list (string * AccountRecord)) (gs G : gset string) :
  gs ⊆ G → (∀ u a, (u, a) ∈ l → (list_to_set (acc_groups a) : gset string) ⊆ G) →
  foldl (λ gs (entry : string * AccountRecord), gs ∪ list_to_set (acc_groups entry.2)) gs l ⊆ G.
Proof.
  revert gs. induction l as [|[u a] l IH]; intros gs Hgs Hl; [done|]. cbn [foldl]. apply IH; [|intros; eapply Hl; by right].
  specialize (Hl u a). simpl. set_solver.
Qed.

Lemma load_mask mask : 0 ≤ mask < 4294967296 →
  stoull (UnescapeField (to_string mask)) = inr (mask, String.length (to_string mask)) ∧ mask mod 4294967296 = mask.
Proof.
  intros H. rewrite <-(escape_plain (to_string mask)) at 1 by apply plain_to_string. rewrite unescape_escape.
  split; [|by apply Z.mod_small]. apply stoull_to_string. unfold in_uint64, uint64_modulus. lia.
Qed.

(** The fields of each kind of record. *)
Lemma load_default_line n mask g : n ≠ "" → 0 ≤ mask < 4294967296 →
  load_grant_line (Ok g) (default_line n mask) =
  Ok (<[n := MkGrants mask (group_permissions (grants_at n g)) (user_permissions (grants_at n g))]> g).
Proof.
  intros Hn Hm. destruct (load_mask mask Hm) as [E1 E2]. unfold load_grant_line, default_line.
  rewrite split_record by auto 8 with records. cbn -[stoull UnescapeField EscapeField]. rewrite unescape_escape.
  rewrite E1. cbn -[EscapeField]. rewrite E2. by destruct (String.eqb_spec n "").
Qed.

Lemma load_group_grant_line n k mask g : n ≠ "" → 0 ≤ mask < 4294967296 →
  load_grant_line (Ok g) (group_grant_line n (k, mask)) =
  Ok (<[n := MkGrants (default_permissions (grants_at n g)) (<[k := mask]> (group_permissions (grants_at n g)))
               (user_permissions (grants_at n g))]> g).
Proof.
  intros Hn Hm. destruct (load_mask mask Hm) as [E1 E2]. unfold load_grant_line, group_grant_line.
  rewrite split_record by auto 8 with records. cbn -[stoull UnescapeField EscapeField]. rewrite !unescape_escape.
  rewrite E1. cbn -[EscapeField]. rewrite E2. by destruct (String.eqb_spec n "").
Qed.

Lemma load_user_grant_line n k mask g : n ≠ "" → 0 ≤ mask < 4294967296 →
  load_grant_line (Ok g) (user_grant_line n (k, mask)) =
  Ok (<[n := MkGrants (default_permissions (grants_at n g)) (group_permissions (grants_at n g))
               (<[k := mask]> (user_permissions (grants_at n g)))]> g).
Proof.
  intros Hn Hm. destruct (load_mask mask Hm) as [E1 E2]. unfold load_grant_line, user_grant_line.
  rewrite split_record by auto 8 with records. cbn -[stoull UnescapeField EscapeField]. rewrite !unescape_escape.
  rewrite E1. cbn -[EscapeField]. rewrite E2. by destruct (String.eqb_spec n "").
Qed.

Lemma grants_at_insert n r g : grants_at n (<[n := r]> g) = r.
Proof. unfold grants_at. by rewrite lookup_insert_eq. Qed.

Lemma load_group_grants n l d gm um g : n ≠ "" → NoDup l.*1 → (∀ k mask, (k, mask) ∈ l → 0 ≤ mask < 4294967296) →
  foldl load_grant_line (Ok (<[n := MkGrants d gm um]> g)) (map (group_grant_line n) l) =
  Ok (<[n := MkGrants d (list_to_map l ∪ gm) um]> g).
Proof.
  intros Hn. revert gm. induction l as [|[k mask] l IH]; intros gm Hnd Hl; [cbn; by rewrite (left_id_L ∅ (∪))|].
  cbn in Hnd. apply NoDup_cons in Hnd as [Hk Hnd]. cbn [map foldl]. rewrite load_group_grant_line by (done || eapply Hl; by left).
  rewrite grants_at_insert. cbn [default_permissions group_permissions user_permissions]. rewrite insert_insert_eq.
  rewrite IH; [|done|intros; eapply Hl; by right]. cbn [list_to_map foldr]. do 3 f_equal.
  rewrite <-insert_union_l, insert_union_r; [done|by apply not_elem_of_list_to_map_1].
Qed.

Lemma load_user_grants n l d gm um g : n ≠ "" → NoDup l.*1 → (∀ k mask, (k, mask) ∈ l → 0 ≤ mask < 4294967296) →
  foldl load_grant_line (Ok (<[n := MkGrants d gm um]> g)) (map (user_grant_line n) l) =
  Ok (<[n := MkGrants d gm (list_to_map l ∪ um)]> g).
Proof.
  intros Hn. revert um. induction l as [|[k mask] l IH]; intros um Hnd Hl; [cbn; by rewrite (left_id_L ∅ (∪))|].
  cbn in Hnd. apply NoDup_cons in Hnd as [Hk Hnd]. cbn [map foldl]. rewrite load_user_grant_line by (done || eapply Hl; by left).
  rewrite grants_at_insert. cbn [default_permissions group_permissions user_permissions]. rewrite insert_insert_eq.
  rewrite IH; [|done|intros; eapply Hl; by right]. cbn [list_to_map foldr]. do 3 f_equal.
  rewrite <-insert_union_l, insert_union_r; [done|by apply not_elem_of_list_to_map_1].
Qed.

Lemma load_grants_of n r g : grants_file_ok n r → g !! n = None →
  foldl load_grant_line (Ok g) (grant_lines (n, r)) = Ok (<[n := r]> g).
Proof.
  intros (Hn & [_ Hd] & Hg & Hu) Hno. unfold grant_lines. cbn [foldl]. rewrite load_default_line by done.
  unfold grants_at. rewrite Hno. cbn [default group_permissions user_permissions no_grants]. rewrite foldl_app.
  rewrite load_group_grants; [|done|apply NoDup_fst_map_to_list|].
  2: { intros k mask Hk%elem_of_map_to_list. by apply (Hg k). }
  rewrite load_user_grants; [|done|apply NoDup_fst_map_to_list|].
  2: { intros k mask Hk%elem_of_map_to_list. by apply (Hu k). }
  rewrite !list_to_map_to_list, !(right_id_L ∅ (∪)). by destruct r.
Qed.

Lemma load_all_grants l g : NoDup l.*1 → (∀ n r, (n, r) ∈ l → grants_file_ok n r ∧ g !! n = None) →
  foldl load_grant_line (Ok g) (flat_map grant_lines l) = Ok (list_to_map l ∪ g).
Proof.
  revert g. induction l as [|[n r] l IH]; intros g Hnd Hl; [cbn; by rewrite (left_id_L ∅ (∪))|].
  destruct (Hl n r) as [Hr Hno]; [by left|]. cbn [flat_map]. rewrite foldl_app, load_grants_of by done.
  cbn in Hnd. apply NoDup_cons in Hnd as [Hn Hnd]. rewrite IH; [|done|].
  - cbn [list_to_map foldr]. f_equal. rewrite <-insert_union_l, insert_union_r; [done|by apply not_elem_of_list_to_map_1].
  - intros n2 r2 Hr2. destruct (Hl n2 r2) as [? ?]; [by right|]. split; [done|]. rewrite lookup_insert_ne; [done|].
    intros <-. apply Hn. apply list_elem_of_fmap. by exists (n, r2).
Qed.

Lemma accounts_text_lines ac : access_ok ac → lines_of (accounts_text ac) =
  auth_format_line :: map account_line (map_to_list (ac_accounts ac)) ++ map group_line (elements (ac_groups ac)).
Proof.
  intros [Ha Hg _ _]. apply lines_of_unlines. constructor; [done|]. apply Forall_app. split; apply Forall_fmap, Forall_forall.
  - intros [u a] Hu%elem_of_map_to_list. destruct (Ha u a Hu) as (_ & _ & H1 & H2 & H3 & H4).
    pose proof (join_groups_one_line _ H4). apply one_line_record; auto 12 with records.
  - intros g H. apply one_line_record; [done|]. apply elem_of_elements, Hg in H. auto 8 with records.
Qed.

Lemma grant_lines_one_line n r : grants_file_ok n r → Forall one_line (grant_lines (n, r)).
Proof.
  intros (_ & [Hn _] & Hg & Hu). constructor; [apply one_line_record; auto 8 with records|].
  apply Forall_app. split; apply Forall_fmap, Forall_forall; intros [k mask] Hk%elem_of_map_to_list;
    [apply Hg in Hk as [? _]|apply Hu in Hk as [? _]]; apply one_line_record; simpl; auto 8 with records.
Qed.

Lemma grants_text_lines ac : access_ok ac → lines_of (grants_text ac) =
  auth_format_line :: flat_map grant_lines (map_to_list (ac_grants ac)).
Proof.
  intros [_ _ _ Hg]. apply lines_of_unlines. constructor; [done|]. apply Forall_flat_map, Forall_forall.
  intros [n r] Hr%elem_of_map_to_list. by apply grant_lines_one_line, Hg.
Qed.

(** C18: access control survives a restart: when names are not empty and have
    no newline, groups no comma, the groups of the accounts are known, and the
    files are written, the next start has exactly the same accounts, groups and
    grants. *)
Theorem access_files_roundtrip ac ac' :
  access_ok ac → Persist (MkPersistFault Written Written) ac = (None, ac') →
  LoadAccess (ac_files ac') = Ok (MkAccess "" (ac_accounts ac) (ac_groups ac) (ac_grants ac) (ac_files ac')).
Proof.
  intros Hok [= <-]. unfold LoadAccess. cbn [with_auth_files ac_files accounts_tsv grants_tsv].
  change (accounts_text (with_auth_files _ ac)) with (accounts_text ac). change (grants_text (with_auth_files _ ac)) with (grants_text ac).
  rewrite accounts_text_lines, grants_text_lines by done. cbn [foldl].
  change (load_account_line (∅, ∅) auth_format_line) with (∅ : gmap string AccountRecord, ∅ : gset string).
  change (load_grant_line (Ok ∅) auth_format_line) with (Ok (∅ : gmap string DatabaseGrantRecord)).
  destruct Hok as [Ha Hg Hm Hgr]. rewrite foldl_app.
  rewrite load_account_lines; [|apply NoDup_fst_map_to_list|].
  2: { intros u a Hu%elem_of_map_to_list. split; [by apply Ha|apply lookup_empty]. }
  rewrite load_group_lines, load_all_grants; [|apply NoDup_fst_map_to_list|].
  2: { intros n r Hr%elem_of_map_to_list. split; [by apply Hgr|apply lookup_empty]. }
  rewrite !list_to_map_to_list, !(right_id_L ∅ (∪)). cbn [obind]. do 2 f_equal.
  pose proof (member_groups_subset (map_to_list (ac_accounts ac)) ∅ (ac_groups ac)) as Hsub.
  rewrite list_to_set_elements_L. enough (foldl (λ gs (entry : string * AccountRecord), gs ∪ list_to_set (acc_groups entry.2)) ∅
    (map_to_list (ac_accounts ac)) ⊆ ac_groups ac) by set_solver.
  apply Hsub; [set_solver|]. intros u a Hu%elem_of_map_to_list. by apply (Hm u).
Qed.
