(* ===== verification/RbacSamples.v ===== *)
(** * RbacSamples: accounts, tokens and grants of a small controller

    The theorems about access control applied to concrete commands, with a
    keyed text in place of HMAC-SHA256, and what a comma in a group does. *)
From S2P Require Import Prelude Numerals CommonTypes Codec Wal Persistence PersistenceFacts Rbac RbacFacts.
From Stdlib Require Import Ascii.

Open Scope Z_scope.

(** A digest that depends on the key and the message. *)
Definition sample_hmac (key message : string) : option string := Some (key +:+ "|" +:+ message +:+ "|").

Lemma sample_hmac_digests : hmac_digests sample_hmac.
Proof. intros key message. eexists. split; [reflexivity|]. by destruct key. Qed.

Definition all_good : PersistFault := MkPersistFault Written Written.

Definition no_files : AuthFiles := MkAuthFiles None None None.

Definition sample_commands : list (AuthCommand * PersistFault) :=
  map (λ c, (c, all_good))
    [CmdRegister "root" "secret" "" "s1"; CmdRegister "ann" "pw" "" "s2"; CmdCreateGroup "staff"; CmdAddToGroup "ann" "staff";
     CmdGrant "shop" (Group "staff") kRead; CmdGrant "shop" (Group "staff") kWrite; CmdRevoke "shop" (Group "staff") kWrite].

Definition sample_access : AccessController := run_commands sample_hmac sample_commands (no_accounts "key" no_files).

Definition ann_token : string := match LoginAndIssueToken sample_hmac "ann" "pw" 1000 sample_access with inr t => t | inl _ => "" end.

Lemma ann_login : LoginAndIssueToken sample_hmac "ann" "pw" 1000 sample_access = inr ann_token.
Proof. vm_compute. reflexivity. Qed.

Lemma login_token_valid_for_an_hour_witness :
  ValidateTokenAndGetUser sample_hmac ann_token 4600 sample_access = Some "ann" ∧
  ValidateTokenAndGetUser sample_hmac ann_token 4601 sample_access = None.
Proof.
  split.
  - refine (login_token_valid_for_an_hour sample_hmac "ann" "pw" 1000 sample_access ann_token 4600 sample_hmac_digests _ _ ann_login);
      [reflexivity|vm_compute; split; discriminate].
  - refine (login_token_valid_for_an_hour sample_hmac "ann" "pw" 1000 sample_access ann_token 4601 sample_hmac_digests _ _ ann_login);
      [reflexivity|vm_compute; split; discriminate].
Defined.

Lemma accepted_token_is_signed_witness : ∃ h p payload e,
  ann_token = h +:+ "." +:+ p +:+ "." +:+ SignTokenPayload sample_hmac (ac_secret sample_access) (h +:+ "." +:+ p) ∧
  Base64UrlDecode h = Some kJwtHeaderJson ∧ Base64UrlDecode p = Some payload ∧
  ExtractStringClaim payload "sub" = Some "ann" ∧ ExtractNumericClaim payload "exp" = Some e ∧ 1200 ≤ e ∧
  is_Some (ac_accounts sample_access !! "ann").
Proof. apply accepted_token_is_signed. vm_compute. reflexivity. Defined.

(** A user whose name continues the payload. *)
Definition mallory : string := "root" +:+ String dquote "," +:+ Rbac.quote "x" +:+ ":" +:+ String dquote "".

Definition attacked : AccessController := (RegisterAccount sample_hmac mallory "pw" "guest" "s3" all_good sample_access).2.

Definition mallory_token : string := match LoginAndIssueToken sample_hmac mallory "pw" 1000 attacked with inr t => t | inl _ => "" end.

Lemma quoted_name_impersonates_witness :
  IsAdmin mallory attacked = false ∧ ValidateTokenAndGetUser sample_hmac mallory_token 1001 attacked = Some "root" ∧
  IsAdmin "root" attacked = true.
Proof.
  split; [vm_compute; reflexivity|]. split; [|vm_compute; reflexivity].
  refine (quoted_name_impersonates sample_hmac "root" "pw" 1000 attacked mallory_token 1001 sample_hmac_digests _ _ _ _ _).
  - reflexivity.
  - vm_compute. eexists. reflexivity.
  - vm_compute. split; discriminate.
  - vm_compute. discriminate.
  - vm_compute. reflexivity.
Defined.

(** ** Files *)

#[local] Instance one_line_decision s : Decision (one_line s).
Proof. unfold one_line. apply _. Defined.

#[local] Instance group_name_ok_dec g : Decision (group_name_ok g).
Proof. unfold group_name_ok. apply _. Defined.

#[local] Instance account_file_ok_dec u a : Decision (account_file_ok u a).
Proof. unfold account_file_ok. apply _. Defined.

#[local] Instance mask_entry_ok_dec k m : Decision (mask_entry_ok k m).
Proof. unfold mask_entry_ok. apply _. Defined.

#[local] Instance grants_file_ok_dec n r : Decision (grants_file_ok n r).
Proof. unfold grants_file_ok. apply _. Defined.

Lemma access_files_roundtrip_witness :
  LoadAccess (ac_files (Persist all_good sample_access).2) =
  Ok (MkAccess "" (ac_accounts sample_access) (ac_groups sample_access) (ac_grants sample_access)
        (ac_files (Persist all_good sample_access).2)).
Proof.
  refine (access_files_roundtrip sample_access (Persist all_good sample_access).2 _ _).
  - split; apply (bool_decide_unpack _); vm_compute; exact I.
  - vm_compute. reflexivity.
Defined.

(** A group with a comma is read back as two groups: a user who registers with
    the group below is an administrator after the next start. *)
Definition comma_group : AccessController := (RegisterAccount sample_hmac "eve" "pw" "guest,admin" "s4" all_good sample_access).2.

Lemma comma_group_becomes_admin :
  IsAdmin "eve" comma_group = false ∧
  match LoadAccess (ac_files comma_group) with Ok ac => IsAdmin "eve" ac = true | _ => False end.
Proof. vm_compute. done. Qed.
