(* ===== verification/JobQueue.v ===== *)
(** * The queue of asynchronous jobs

    [src/runtime/job_queue.cpp]. The queue is shared between the threads that
    call its methods and one worker thread. Every method takes the mutex for
    its whole body, and [WorkerLoop] takes it twice per job, around the
    executor, which runs without it; so an execution of the program is a
    sequence of critical sections, in any order the threads are scheduled. A
    step of the model is one method call or one part of the worker's loop. The
    executor is a parameter, as in the code; it acts on a world that other
    threads may change between two steps. *)
From S2P Require Import Prelude.
From S2P Require Import CommonTypes.
Open Scope Z_scope.

Record JobRecord := MkJob {
  job_id : string;
  job_sql : string;
  job_status : string;
  job_result_payload : string;
  job_result_code : Z
}.

(** Where the worker thread is in its loop. *)
Inductive Worker :=
  | NoThread                                          (* not started, or joined *)
  | Waiting                                           (* before the first critical section *)
  | Executing (current : JobRecord)                   (* between the critical sections *)
  | Storing (current : JobRecord) (code : Z) (payload : string)  (* before the second one *)
  | Returned.                                         (* left the loop, not joined *)

Section job_queue.
Context {W : Type}.

(** [std::function<std::pair<int, std::string>(const std::string &)>]; [None]
    when an exception leaves it. *)
Definition JobExecutor : Type := string → W → option (Z * string) * W.

Record JobQueue := MkQueue {
  jobs_ : list JobRecord;
  records_ : gmap string JobRecord;
  executor_ : option JobExecutor;
  running_ : bool;
  worker_ : Worker
}.

Definition NewQueue : JobQueue := MkQueue [] ∅ None false NoThread.

(** [None]: [std::terminate], when a thread object that is still joinable is
    assigned to, or an exception leaves the worker. *)
Definition Start (executor : JobExecutor) (q : JobQueue) : option JobQueue :=
  if running_ q then Some q
  else match worker_ q with
       | NoThread => Some (MkQueue (jobs_ q) (records_ q) (Some executor) true Waiting)
       | _ => None
       end.

(** The critical section of [Stop]; [join_worker] is the rest of it. *)
Definition Stop (q : JobQueue) : JobQueue :=
  if negb (running_ q) then q
  else MkQueue (jobs_ q) (records_ q) (executor_ q) false (worker_ q).

(** [worker_.join()]: waits until the worker has returned. *)
Definition join_worker (q : JobQueue) : option JobQueue :=
  match worker_ q with
  | NoThread => Some q
  | Returned => Some (MkQueue (jobs_ q) (records_ q) (executor_ q) (running_ q) NoThread)
  | _ => None
  end.

Definition with_status (status : string) (job : JobRecord) : JobRecord :=
  MkJob (job_id job) (job_sql job) status (job_result_payload job) (job_result_code job).

Definition Enqueue (job : JobRecord) (q : JobQueue) : JobQueue :=
  let job := with_status "QUEUED" job in
  MkQueue (jobs_ q ++ [job]) (<[job_id job := job]> (records_ q)) (executor_ q) (running_ q) (worker_ q).

Definition FindJob (id : string) (q : JobQueue) : option JobRecord := records_ q !! id.

Definition TryDequeue (q : JobQueue) : option JobRecord * JobQueue :=
  match jobs_ q with
  | [] => (None, q)
  | job :: jobs => (Some job, MkQueue jobs (records_ q) (executor_ q) (running_ q) (worker_ q))
  end.

Definition no_executor_result : Z * string :=
  (500, "type=INTERNAL_ERROR code=9 message=async executor unavailable sql=" +:+ String dquote (String dquote "")).

(** The first critical section, where [condition_.wait] lets the worker
    through; [None] while it has to wait. *)
Definition take_job (q : JobQueue) : option JobQueue :=
  match jobs_ q with
  | [] => if running_ q then None
          else Some (MkQueue [] (records_ q) (executor_ q) (running_ q) Returned)
  | current :: jobs =>
      Some (MkQueue jobs (alter (with_status "RUNNING") (job_id current) (records_ q))
              (executor_ q) (running_ q) (Executing current))
  end.

Definition store_result (code : Z) (payload : string) (record : JobRecord) : JobRecord :=
  MkJob (job_id record) (job_sql record) (if code =? 200 then "DONE" else "FAILED") payload code.

(** One part of [WorkerLoop]: the outer [None] is [std::terminate], the inner
    one that the worker cannot run. *)
Definition WorkerStep (q : JobQueue) (w : W) : option (option JobQueue * W) :=
  match worker_ q with
  | NoThread | Returned => Some (None, w)
  | Waiting => Some (take_job q, w)
  | Executing current =>
      match executor_ q with
      | None =>
          let '(code, payload) := no_executor_result in
          Some (Some (MkQueue (jobs_ q) (records_ q) (executor_ q) (running_ q) (Storing current code payload)), w)
      | Some executor =>
          match executor (job_sql current) w with
          | (None, _) => None
          | (Some (code, payload), w) =>
              Some (Some (MkQueue (jobs_ q) (records_ q) (executor_ q) (running_ q) (Storing current code payload)), w)
          end
      end
  | Storing current code payload =>
      Some (Some (MkQueue (jobs_ q) (alter (store_result code payload) (job_id current) (records_ q))
                    (executor_ q) (running_ q) Waiting), w)
  end.

End job_queue.
Arguments JobExecutor : clear implicits.
Arguments JobQueue : clear implicits.

(** ** Schedules *)

Section schedules.
Context {W : Type} (exec : JobExecutor W).
Implicit Types (q : JobQueue W) (w : W) (job j : JobRecord).

(** What the threads of a server do: it starts the worker once, and stops and
    joins it when it is destroyed. [DoWorld] is a change that another thread
    makes to what the executor works on. *)
Inductive Action :=
  | DoEnqueue (job : JobRecord)
  | DoStop
  | DoJoin
  | DoWorker
  | DoWorld (f : W → W).

(** A thread that cannot go on leaves everything as it is. *)
Definition act (a : Action) (c : JobQueue W * W) : option (JobQueue W * W) :=
  let '(q, w) := c in
  match a with
  | DoEnqueue job => Some (Enqueue job q, w)
  | DoStop => Some (Stop q, w)
  | DoJoin => Some (default q (join_worker q), w)
  | DoWorker => '(q', w) ← WorkerStep q w; Some (default q q', w)
  | DoWorld f => Some (q, f w)
  end.

Fixpoint run (acts : list Action) (c : JobQueue W * W) : option (JobQueue W * W) :=
  match acts with
  | [] => Some c
  | a :: acts => c ← act a c; run acts c
  end.

Definition is_worker (a : Action) : bool := match a with DoWorker => true | _ => false end.
Definition worker_turns (acts : list Action) : nat := length (filter (λ a, is_worker a = true) acts).

Definition enqueues (a : Action) : list JobRecord := match a with DoEnqueue job => [job] | _ => [] end.
Definition enqueued (acts : list Action) : list JobRecord := acts ≫= enqueues.

(** What the record of a job is after it was executed. *)
Definition finished (j record : JobRecord) : Prop :=
  ∃ w w' code payload, exec (job_sql j) w = (Some (code, payload), w') ∧
    record = MkJob (job_id j) (job_sql j) (if code =? 200 then "DONE" else "FAILED") payload code.

Definition current_of (wk : Worker) : list JobRecord :=
  match wk with Executing j | Storing j _ _ => [j] | _ => [] end.

(** The turns of the worker before it comes back to its first critical section. *)
Definition turns_left (wk : Worker) : nat :=
  match wk with Executing _ => 2 | Storing _ _ _ => 1 | _ => 0 end.

Definition alive (wk : Worker) : Prop :=
  match wk with NoThread | Returned => False | _ => True end.

(** How far a job is, with the turns of the worker it still takes. No other
    job in the queue has its id. *)
Inductive progress (j : JobRecord) (q : JobQueue W) (n : nat) : Prop :=
  | in_queue l r :
      jobs_ q = l ++ with_status "QUEUED" j :: r →
      Forall (λ x, job_id x ≠ job_id j) (current_of (worker_ q) ++ l ++ r) →
      alive (worker_ q) →
      FindJob (job_id j) q = Some (with_status "QUEUED" j) →
      n = (turns_left (worker_ q) + 3 * length l + 3)%nat →
      progress j q n
  | in_execution :
      worker_ q = Executing (with_status "QUEUED" j) →
      Forall (λ x, job_id x ≠ job_id j) (jobs_ q) →
      FindJob (job_id j) q = Some (with_status "RUNNING" j) →
      n = 2%nat →
      progress j q n
  | in_storing w w' code payload :
      worker_ q = Storing (with_status "QUEUED" j) code payload →
      exec (job_sql j) w = (Some (code, payload), w') →
      Forall (λ x, job_id x ≠ job_id j) (jobs_ q) →
      FindJob (job_id j) q = Some (with_status "RUNNING" j) →
      n = 1%nat →
      progress j q n
  | is_finished record :
      Forall (λ x, job_id x ≠ job_id j) (current_of (worker_ q) ++ jobs_ q) →
      FindJob (job_id j) q = Some record → finished j record →
      n = 0%nat →
      progress j q n.

Lemma find_alter_ne f i id (m : gmap string JobRecord) :
  i ≠ id → alter f i m !! id = m !! id.
Proof. apply lookup_alter_ne. Qed.

Lemma find_alter_eq f id (m : gmap string JobRecord) record :
  m !! id = Some record → alter f id m !! id = Some (f record).
Proof. intros Hm. rewrite lookup_alter_eq. by rewrite Hm. Qed.

(** ** What the queue has done *)

(** Of the jobs that were enqueued, some are finished, at most one is being
    executed, and the others wait in the order they came. *)
Record queue_inv (all : list JobRecord) (q : JobQueue W) : Prop := {
  qi_executor : executor_ q = Some exec;
  qi_split : ∃ served, map (with_status "QUEUED") all = served ++ current_of (worker_ q) ++ jobs_ q ∧
      ∀ j, j ∈ served → ∃ record, FindJob (job_id j) q = Some record ∧ finished j record;
  qi_queued : ∀ j, j ∈ jobs_ q → FindJob (job_id j) q = Some j;
  qi_running : ∀ j, j ∈ current_of (worker_ q) → FindJob (job_id j) q = Some (with_status "RUNNING" j);
  qi_storing : match worker_ q with
               | Storing j code payload => ∃ w w', exec (job_sql j) w = (Some (code, payload), w')
               | _ => True
               end;
  qi_alive : running_ q = true → alive (worker_ q)
}.

Lemma ids_apart (l1 l2 : list JobRecord) c j :
  NoDup (job_id <$> l1 ++ c :: l2) → j ∈ l1 ++ l2 → job_id c ≠ job_id j.
Proof.
  rewrite fmap_app, fmap_cons, NoDup_app, NoDup_cons. intros (_ & Hd & Hc & _) Hj Heq.
  apply elem_of_app in Hj as [Hj|Hj].
  - apply (Hd (job_id j)); [by apply list_elem_of_fmap_2|]. rewrite <-Heq. apply list_elem_of_here.
  - apply Hc. rewrite Heq. by apply list_elem_of_fmap_2.
Qed.

Lemma ids_queued all served current jobs :
  map (with_status "QUEUED") all = served ++ current ++ jobs → NoDup (job_id <$> all) →
  NoDup (job_id <$> served ++ current ++ jobs).
Proof. intros <-. by rewrite <-list_fmap_compose. Qed.

Lemma worker_keeps all q w q' w' :
  NoDup (job_id <$> all) → queue_inv all q → act DoWorker (q, w) = Some (q', w') → queue_inv all q'.
Proof.
  intros Hnd [Hex (served & Hsplit & Hserved) Hq Hrun Hst Hal] Hact.
  pose proof (ids_queued _ _ _ _ Hsplit Hnd) as Hids.
  destruct q as [jobs rec ex rn wk]; simpl in *; subst ex. unfold act, WorkerStep in Hact; simpl in Hact.
  destruct wk as [| |c|c code payload|]; simpl in *.
  - by simplify_eq; constructor; eauto.
  - simplify_eq. unfold take_job; simpl. destruct jobs as [|c jobs]; simpl.
    { destruct rn; simpl; constructor; simpl; eauto; done. }
    assert (Hc : ∀ j, j ∈ served ++ jobs → job_id c ≠ job_id j) by (intros j; by apply ids_apart).
    constructor; simpl; try done.
    + exists served. split; [done|]. intros j Hj. unfold FindJob; simpl.
      rewrite find_alter_ne by (apply Hc; set_solver). by apply Hserved.
    + intros j Hj. unfold FindJob; simpl. rewrite find_alter_ne by (apply Hc; set_solver). apply Hq. set_solver.
    + intros j ->%list_elem_of_singleton. apply find_alter_eq, Hq. set_solver.
  - destruct (exec (job_sql c) w) as [[[code payload]|] w1] eqn:Hx; [|done]. simpl in Hact. simplify_eq.
    constructor; simpl; eauto.
  - simplify_eq. simpl.
    assert (Hc : ∀ j, j ∈ served ++ jobs → job_id c ≠ job_id j) by (intros j; by apply ids_apart).
    destruct Hst as (w1 & w2 & Hx). constructor; simpl; try done.
    + exists (served ++ [c]). split; [by rewrite <-app_assoc|]. intros j [Hj| ->%list_elem_of_singleton]%elem_of_app.
      * unfold FindJob; simpl. rewrite find_alter_ne by (apply Hc; set_solver). by apply Hserved.
      * unfold FindJob; simpl. eexists. split; [apply find_alter_eq, Hrun; set_solver|].
        by exists w1, w2, code, payload.
    + intros j Hj. unfold FindJob; simpl. rewrite find_alter_ne by (apply Hc; set_solver). by apply Hq.
    + by intros j ?%not_elem_of_nil.
  - by simplify_eq; constructor; eauto.
Qed.

Lemma other_keeps all q w a q' w' :
  is_worker a = false → NoDup (job_id <$> all ++ enqueues a) → queue_inv all q → act a (q, w) = Some (q', w') →
  queue_inv (all ++ enqueues a) q'.
Proof.
  intros Ha Hnd [Hex (served & Hsplit & Hserved) Hq Hrun Hst Hal] Hact.
  destruct q as [jobs rec ex rn wk]; simpl in *; subst ex.
  destruct a as [job| | | |f]; try done; simpl in *; rewrite ?app_nil_r; simplify_eq.
  - assert (Hc : ∀ j, j ∈ served ++ current_of wk ++ jobs → job_id job ≠ job_id j).
    { intros j Hj. rewrite <-Hsplit in Hj. apply list_elem_of_fmap in Hj as (j0 & -> & Hj).
      apply (ids_apart all [] job j0); [done|by rewrite app_nil_r]. }
    assert (Hf : ∀ j, j ∈ served ++ current_of wk ++ jobs →
              FindJob (job_id j) (Enqueue job (MkQueue jobs rec (Some exec) rn wk)) = rec !! job_id j).
    { intros j Hj. unfold FindJob; simpl. rewrite lookup_insert_ne; [done|]. by apply Hc. }
    constructor; simpl; try done.
    + exists served. split; [by rewrite map_app, Hsplit, <-!app_assoc|].
      intros j Hj. rewrite Hf by set_solver. by apply Hserved.
    + intros j [Hj| ->%list_elem_of_singleton]%elem_of_app; [rewrite Hf by set_solver; by apply Hq|].
      unfold FindJob; simpl. by rewrite lookup_insert_eq.
    + intros j Hj. rewrite Hf by set_solver. by apply Hrun.
  - unfold Stop; simpl. destruct rn; simpl; constructor; simpl; eauto; done.
  - destruct wk; simpl; constructor; simpl; eauto.
  - constructor; simpl; eauto.
Qed.

Lemma run_app acts acts' c : run (acts ++ acts') c = run acts c ≫= run acts'.
Proof.
  revert c. induction acts as [|a acts IH]; intros c; [done|]. cbn [run app].
  destruct (act a c) as [c'|]; [|done]. apply IH.
Qed.

Lemma enqueued_app acts acts' : enqueued (acts ++ acts') = enqueued acts ++ enqueued acts'.
Proof. unfold enqueued. apply bind_app. Qed.

Lemma run_keeps acts all q w q' w' :
  NoDup (job_id <$> all ++ enqueued acts) → queue_inv all q → run acts (q, w) = Some (q', w') →
  queue_inv (all ++ enqueued acts) q'.
Proof.
  revert all q w. induction acts as [|a acts IH]; intros all q w Hnd Hi Hrun; cbn [run] in Hrun.
  { simplify_eq. by rewrite app_nil_r. }
  destruct (act a (q, w)) as [[q1 w1]|] eqn:Hact; [|done]. simpl in Hrun.
  change (enqueued (a :: acts)) with (enqueues a ++ enqueued acts) in *. rewrite (assoc_L (++)) in *.
  apply (IH _ q1 w1); try done.
  assert (Hnd' : NoDup (job_id <$> all ++ enqueues a)) by (rewrite fmap_app in Hnd; by apply NoDup_app in Hnd as [? _]).
  destruct (is_worker a) eqn:Hw; [|by eapply other_keeps].
  destruct a; try done. simpl in *. rewrite app_nil_r in *. by eapply worker_keeps.
Qed.

(** The queue as the server starts it. *)
Definition StartedQueue : JobQueue W := MkQueue [] ∅ (Some exec) true Waiting.

Lemma StartedQueue_inv : queue_inv [] StartedQueue.
Proof.
  constructor; try done; simpl; try (by intros j ?%not_elem_of_nil).
  exists []. split; [done|]. by intros j ?%not_elem_of_nil.
Qed.

(** C34: The queue is first in, first out: whatever the threads do, the jobs
    enqueued so far (with distinct ids) are, in the order they were enqueued,
    the finished ones, whose records hold what the executor returned for their
    SQL, then the one being executed, whose status is RUNNING, then the waiting
    ones, whose status is QUEUED. *)
Theorem jobs_first_in_first_out acts w q' w' :
  NoDup (job_id <$> enqueued acts) → run acts (StartedQueue, w) = Some (q', w') →
  ∃ served, map (with_status "QUEUED") (enqueued acts) = served ++ current_of (worker_ q') ++ jobs_ q' ∧
    (∀ j, j ∈ served → ∃ record, FindJob (job_id j) q' = Some record ∧ finished j record) ∧
    (∀ j, j ∈ current_of (worker_ q') → FindJob (job_id j) q' = Some (with_status "RUNNING" j)) ∧
    (∀ j, j ∈ jobs_ q' → FindJob (job_id j) q' = Some j).
Proof.
  intros Hnd Hrun. destruct (run_keeps acts [] StartedQueue w q' w' Hnd StartedQueue_inv Hrun) as [_ (served & ? & ?) ? ? _ _].
  by exists served.
Qed.

(** ** Every job is served *)

(** The worker brings a job that it is not concerned with no further back. *)
Lemma queued_progress j q w l r :
  executor_ q = Some exec →
  jobs_ q = l ++ with_status "QUEUED" j :: r →
  Forall (λ x, job_id x ≠ job_id j) (current_of (worker_ q) ++ l ++ r) →
  alive (worker_ q) →
  FindJob (job_id j) q = Some (with_status "QUEUED" j) →
  ∀ q' w', act DoWorker (q, w) = Some (q', w') →
  executor_ q' = Some exec ∧ progress j q' (turns_left (worker_ q) + 3 * length l + 2)%nat.
Proof.
  intros Hex Hj Hne Hal Hf q' w'. destruct q as [jobs rec ex rn wk]; simpl in *; subst. unfold FindJob in Hf; simpl in Hf.
  destruct wk as [| |c|c code payload|]; try done; unfold act, WorkerStep; simpl in *.
  - destruct l as [|c l]; unfold take_job; simpl in *; intros [= <- <-]; (split; [done|]).
    + apply in_execution; simpl; try done. unfold FindJob; simpl. by rewrite (find_alter_eq _ _ _ _ Hf).
    + apply Forall_cons in Hne as [Hc Hne].
      eapply in_queue with (l:=l) (r:=r); simpl; try done; [by constructor| |lia].
      unfold FindJob; simpl. by rewrite find_alter_ne.
  - destruct (exec (job_sql c) w) as [[[code payload]|] w1]; simpl; [|done]. intros [= <- <-]. split; [done|].
    eapply in_queue with (l:=l) (r:=r); simpl; try done; lia.
  - apply Forall_cons in Hne as [Hc Hne]. intros [= <- <-]. split; [done|].
    eapply in_queue with (l:=l) (r:=r); simpl; try done. unfold FindJob; simpl. by rewrite find_alter_ne.
Qed.

Lemma finished_stays j q w record :
  executor_ q = Some exec →
  Forall (λ x, job_id x ≠ job_id j) (current_of (worker_ q) ++ jobs_ q) →
  FindJob (job_id j) q = Some record → finished j record →
  ∀ q' w', act DoWorker (q, w) = Some (q', w') → executor_ q' = Some exec ∧ progress j q' 0%nat.
Proof.
  intros Hex Hne Hf Hfin q' w'. destruct q as [jobs rec ex rn wk]; simpl in *; subst. unfold FindJob in Hf; simpl in Hf.
  assert (Hdone : ∀ jobs' rec' wk', Forall (λ x, job_id x ≠ job_id j) (current_of wk' ++ jobs') →
            rec' !! job_id j = rec !! job_id j → progress j (MkQueue jobs' rec' (Some exec) rn wk') 0%nat).
  { intros jobs' rec' wk' Hne' Hr. eapply is_finished; simpl; try done. unfold FindJob; simpl. by rewrite Hr. }
  destruct wk as [| |c|c code payload|]; unfold act, WorkerStep; simpl in *.
  - intros [= <- <-]. auto.
  - unfold take_job; simpl. destruct jobs as [|c jobs]; simpl.
    + destruct rn; intros [= <- <-]; auto.
    + apply Forall_cons in Hne as [Hc Hne]. intros [= <- <-]. split; [done|].
      apply Hdone; [by constructor|by apply find_alter_ne].
  - destruct (exec (job_sql c) w) as [[[code payload]|] w1]; simpl; [|done]. intros [= <- <-]. auto.
  - apply Forall_cons in Hne as [Hc Hne]. intros [= <- <-]. split; [done|].
    apply Hdone; [done|by apply find_alter_ne].
  - intros [= <- <-]. auto.
Qed.

Lemma worker_progress j q w n q' w' :
  executor_ q = Some exec → progress j q n → act DoWorker (q, w) = Some (q', w') →
  executor_ q' = Some exec ∧ progress j q' (n - 1)%nat.
Proof.
  intros Hex [l r Hj Hne Hal Hf ->|Hw Hne Hf ->|w0 w1 code payload Hw Hx Hne Hf ->|record Hne Hf Hfin ->]; simpl.
  - intros Ha. destruct (queued_progress j q w l r Hex Hj Hne Hal Hf q' w' Ha) as [He Hp]. split; [done|]. by replace (_ - 1)%nat with (turns_left (worker_ q) + 3 * length l + 2)%nat by lia.
  - destruct q as [jobs rec ex rn wk]; simpl in *; subst. unfold FindJob in Hf; simpl in Hf.
    unfold act, WorkerStep; simpl. destruct (exec (job_sql j) w) as [[[code payload]|] w1] eqn:Hx; simpl; [|done].
    intros [= <- <-]. split; [done|]. by eapply in_storing.
  - destruct q as [jobs rec ex rn wk]; simpl in *; subst. unfold FindJob in Hf; simpl in Hf.
    unfold act, WorkerStep; simpl. intros [= <- <-]. split; [done|].
    eapply is_finished; simpl; try done; [unfold FindJob; simpl; by rewrite (find_alter_eq _ _ _ _ Hf)|].
    by exists w0, w1, code, payload.
  - intros Ha. by apply (finished_stays j q w record Hex Hne Hf Hfin q' w').
Qed.

(** The other threads do not touch a job, as long as no new one has its id. *)
Lemma other_progress j q w n a :
  is_worker a = false → Forall (λ x, job_id x ≠ job_id j) (enqueues a) →
  executor_ q = Some exec → progress j q n →
  ∃ q' w', act a (q, w) = Some (q', w') ∧ executor_ q' = Some exec ∧ progress j q' n.
Proof.
  intros Ha Hids Hex Hp. destruct q as [jobs rec ex rn wk]; simpl in *; subst ex.
  destruct a as [job| | | |f]; try done; simpl in *.
  - apply Forall_cons in Hids as [Hid _]. eexists _, _. split; [done|]. split; [done|].
    assert (Hf' : ∀ r, rec !! job_id j = Some r →
              <[job_id job := with_status "QUEUED" job]> rec !! job_id j = Some r) by (intros r Hr; by rewrite lookup_insert_ne).
    destruct Hp as [l r Hj Hne Hal Hf ->|Hw Hne Hf ->|w0 w1 code payload Hw Hx Hne Hf ->|record Hne Hf Hfin ->]; simpl in *.
    + subst. eapply in_queue with (l:=l) (r:=r ++ [with_status "QUEUED" job]); simpl; try done; [by rewrite <-app_assoc| |].
      * rewrite !Forall_app in *. naive_solver.
      * by apply Hf'.
    + subst. apply in_execution; simpl; try done; [|by apply Hf']. apply Forall_app; naive_solver.
    + subst. eapply in_storing; simpl; try done; [|by apply Hf']. apply Forall_app; naive_solver.
    + eapply is_finished; simpl; try done; [|by apply Hf']. rewrite !Forall_app in *. naive_solver.
  - exists (Stop (MkQueue jobs rec (Some exec) rn wk)), w. unfold Stop; simpl. destruct rn; simpl; split_and!; try done.
    destruct Hp; [eapply in_queue|eapply in_execution|eapply in_storing|eapply is_finished]; done.
  - destruct wk; [eauto 10..|].
    eexists _, _. split; [done|]. split; [done|].
    destruct Hp as [| | |record]; try done. by eapply is_finished.
  - eexists _, _. done.
Qed.

Lemma run_progress j acts q w n q' w' :
  executor_ q = Some exec → Forall (λ x, job_id x ≠ job_id j) (enqueued acts) → progress j q n →
  run acts (q, w) = Some (q', w') → progress j q' (n - worker_turns acts)%nat.
Proof.
  revert q w n. induction acts as [|a acts IH]; intros q w n Hex Hids Hp; cbn [run].
  { intros [= <- <-]. by rewrite Nat.sub_0_r. }
  apply Forall_app in Hids as [Ha Hids]. destruct (is_worker a) eqn:Hw.
  - destruct a; try done. destruct (act DoWorker (q, w)) as [[q1 w1]|] eqn:Hact; [|done]. simpl. intros Hrun.
    destruct (worker_progress j q w n q1 w1 Hex Hp Hact) as [Hex1 Hp1].
    specialize (IH q1 w1 (n - 1)%nat Hex1 Hids Hp1 Hrun). unfold worker_turns in *; simpl.
    by rewrite <-Nat.sub_add_distr in IH.
  - destruct (other_progress j q w n a) as (q1 & w1 & Hact & Hex1 & Hp1); try done.
    rewrite Hact; simpl. intros Hrun. specialize (IH q1 w1 n Hex1 Hids Hp1 Hrun). unfold worker_turns in *.
    by rewrite filter_cons_False by (by rewrite Hw).
Qed.

(** The process ends in [std::terminate] only when the executor throws on a job. *)
Lemma act_terminates all q w a : queue_inv all q → act a (q, w) = None →
  ∃ j w', j ∈ all ∧ (exec (job_sql j) w').1 = None.
Proof.
  intros [Hex (served & Hsplit & _) _ _ _ _]. destruct a; try done. simpl. unfold WorkerStep. rewrite Hex.
  destruct (worker_ q) as [| |c|c code payload|] eqn:Hw; try done. simpl in Hsplit.
  destruct (exec (job_sql c) w) as [[[code payload]|] w1] eqn:Hx; try done. intros _.
  assert (Hc : c ∈ map (with_status "QUEUED") all) by (rewrite Hsplit; set_solver).
  apply list_elem_of_fmap in Hc as (j & -> & Hj). exists j, w. split; [done|]. simpl in Hx. by rewrite Hx.
Qed.

Lemma run_terminates acts all q w :
  NoDup (job_id <$> all ++ enqueued acts) → queue_inv all q → run acts (q, w) = None →
  ∃ j w', j ∈ all ++ enqueued acts ∧ (exec (job_sql j) w').1 = None.
Proof.
  revert all q w. induction acts as [|a acts IH]; intros all q w Hnd Hi Hrun; cbn [run] in Hrun; [done|].
  change (enqueued (a :: acts)) with (enqueues a ++ enqueued acts) in *. rewrite (assoc_L (++)) in *.
  destruct (act a (q, w)) as [[q1 w1]|] eqn:Hact; simpl in Hrun.
  - apply (IH _ q1 w1); try done. rewrite fmap_app in Hnd. apply NoDup_app in Hnd as [Hnd _].
    pose proof (run_keeps [a] all q w q1 w1) as Hk. cbn [run] in Hk. rewrite Hact in Hk.
    change (enqueued [a]) with (enqueues a ++ []) in Hk. rewrite app_nil_r in Hk. by apply Hk.
  - destruct (act_terminates all q w a Hi Hact) as (j & w' & Hj & Hx). exists j, w'. split; [set_solver|done].
Qed.

(** C33: Every job is served: a job that is enqueued before the queue is
    stopped, all jobs having distinct ids, is finished once the worker thread
    has had three turns for each job waiting before it and five more, however
    these turns interleave with the other threads, a stop of the queue included;
    then its record holds what the executor returned for its SQL, with the
    status DONE for the code 200 and FAILED otherwise.  The one way around it is
    that the executor throws an exception on the SQL of an enqueued job, which
    leaves the worker thread and ends the process. *)
Theorem job_is_served before job after w :
  NoDup (job_id <$> enqueued (before ++ DoEnqueue job :: after)) →
  (∃ q1 w1, run before (StartedQueue, w) = Some (q1, w1) ∧ running_ q1 = true ∧
            3 * length (jobs_ q1) + 5 ≤ worker_turns after)%nat →
  match run (before ++ DoEnqueue job :: after) (StartedQueue, w) with
  | Some (q2, _) => ∃ record, FindJob (job_id job) q2 = Some record ∧ finished job record
  | None => ∃ j w', j ∈ enqueued (before ++ DoEnqueue job :: after) ∧ (exec (job_sql j) w').1 = None
  end.
Proof.
  intros Hnd0 (q1 & w1 & Hrun & Hr & Hturns).
  destruct (run (before ++ _) _) as [[q2 w2]|] eqn:Hall;
    [|apply (run_terminates _ [] StartedQueue w); [exact Hnd0|apply StartedQueue_inv|done]].
  pose proof Hnd0 as Hnd. rewrite enqueued_app in Hnd.
  change (enqueued (DoEnqueue job :: after)) with ([job] ++ enqueued after) in Hnd.
  assert (Hnd1 : NoDup (job_id <$> enqueued before)) by (rewrite fmap_app in Hnd; by apply NoDup_app in Hnd as [? _]).
  destruct (run_keeps before [] StartedQueue w q1 w1 Hnd1 StartedQueue_inv Hrun) as [Hex (served & Hsplit & _) _ _ _ Hal].
  assert (Hold : Forall (λ x, job_id x ≠ job_id job) (served ++ current_of (worker_ q1) ++ jobs_ q1)).
  { rewrite <-Hsplit. apply Forall_fmap, Forall_forall. intros j Hj. simpl. intros Heq.
    apply (ids_apart (enqueued before) (enqueued after) job j); [done|set_solver|done]. }
  assert (Hnew : Forall (λ x, job_id x ≠ job_id job) (enqueued after)).
  { apply Forall_forall. intros j Hj Heq.
    apply (ids_apart (enqueued before) (enqueued after) job j); [done|set_solver|done]. }
  assert (Hp : progress job (Enqueue job q1) (turns_left (worker_ q1) + 3 * length (jobs_ q1) + 3)).
  { eapply in_queue with (l:=jobs_ q1) (r:=[]); simpl; auto.
    - rewrite app_nil_r. by apply Forall_app in Hold as [_ ?].
    - unfold FindJob; simpl. by rewrite lookup_insert_eq. }
  rewrite run_app, Hrun in Hall.
  pose proof (run_progress job after (Enqueue job q1) w1 _ q2 w2 Hex Hnew Hp Hall) as Hp2.
  assert (Htl : (turns_left (worker_ q1) ≤ 2)%nat) by (destruct (worker_ q1); simpl; lia).
  replace (_ - worker_turns after)%nat with 0%nat in Hp2 by lia.
  destruct Hp2 as [| | |record _ Hf Hfin _]; [lia|done|done|]. by exists record.
Qed.
End schedules.

(** ** A schedule *)

Section sample.

(** An executor that counts its calls and fails for the empty text. *)
Definition counting_executor : JobExecutor nat :=
  λ sql n, (Some (if String.eqb sql "" then (400, "empty") else (200, sql)), S n).

Definition sample_job (id sql : string) : JobRecord := MkJob id sql "" "" 0.

(** The second job comes while the first one is executed, and the queue is
    stopped before either is finished. *)
Definition sample_before : list (@Action nat) := [DoEnqueue (sample_job "a" "x"); DoWorker].
Definition sample_after : list (@Action nat) :=
  [DoWorld (λ n, n + 10)%nat; DoStop; DoWorker; DoJoin] ++ replicate 5 DoWorker ++ [DoJoin].

Lemma jobs_first_in_first_out_witness :
  run (sample_before ++ [DoEnqueue (sample_job "b" "")]) (StartedQueue counting_executor, 0%nat)
    = Some (MkQueue [MkJob "b" "" "QUEUED" "" 0]
              (<["b" := MkJob "b" "" "QUEUED" "" 0]> (<["a" := MkJob "a" "x" "RUNNING" "" 0]> ∅))
              (Some counting_executor) true (Executing (MkJob "a" "x" "QUEUED" "" 0)), 0%nat) ∧
  ∃ served, [MkJob "a" "x" "QUEUED" "" 0; MkJob "b" "" "QUEUED" "" 0] =
    served ++ [MkJob "a" "x" "QUEUED" "" 0] ++ [MkJob "b" "" "QUEUED" "" 0].
Proof.
  assert (Hrun : run (sample_before ++ [DoEnqueue (sample_job "b" "")])
      (StartedQueue counting_executor, 0%nat)
    = Some (MkQueue [MkJob "b" "" "QUEUED" "" 0]
              (<["b" := MkJob "b" "" "QUEUED" "" 0]> (<["a" := MkJob "a" "x" "RUNNING" "" 0]> ∅))
              (Some counting_executor) true (Executing (MkJob "a" "x" "QUEUED" "" 0)), 0%nat))
    by (vm_compute; reflexivity).
  split; [done|].
  assert (Hids : NoDup (job_id <$> enqueued (sample_before ++ [DoEnqueue (sample_job "b" "")])))
    by (apply (bool_decide_unpack _); vm_compute; exact I).
  destruct (jobs_first_in_first_out counting_executor _ _ _ _ Hids Hrun) as (served & Hserved & _).
  by exists served.
Defined.

Definition sample_run : option (JobQueue nat * nat) :=
  run (sample_before ++ DoEnqueue (sample_job "b" "") :: sample_after) (StartedQueue counting_executor, 0%nat).

Lemma job_is_served_witness :
  ∃ q2 w2 record, sample_run = Some (q2, w2) ∧
    FindJob "b" q2 = Some record ∧ finished counting_executor (sample_job "b" "") record.
Proof.
  pose proof (job_is_served counting_executor sample_before (sample_job "b" "") sample_after 0%nat) as H.
  fold sample_run in H. destruct sample_run as [[q2 w2]|] eqn:E; [|by vm_compute in E].
  exists q2, w2. destruct H as (record & Hf & Hfin).
  - apply (bool_decide_unpack _). vm_compute. exact I.
  - eexists _, _. split; [reflexivity|]. split; [done|]. vm_compute. lia.
  - exists record. split; [reflexivity|]. split; [exact Hf|exact Hfin].
Defined.

(** An executor that throws ends the process. *)
Lemma throwing_job_terminates :
  run [DoEnqueue (sample_job "a" "x"); DoWorker; DoWorker] (StartedQueue (λ _ n, (None, n)), 0%nat) = None.
Proof. reflexivity. Qed.

End sample.
