(* ===== verification/Uuid.v ===== *)
(** * Identifiers of jobs and cluster transactions

    [src/common/uuid.cpp]. The sixteen bytes come from a random number
    generator, which is not modelled: [NewGuidV4] is a function of the bytes it
    was given. *)
From S2P Require Import Prelude.
From S2P Require Import Numerals.
From Stdlib Require Import Ascii.
Open Scope Z_scope.

(** The version and variant bits of the bytes at 6 and 8. *)
Definition guid_byte (index : nat) (b : Z) : Z :=
  if (index =? 6)%nat then Z.lor (Z.land b 15) 64
  else if (index =? 8)%nat then Z.lor (Z.land b 63) 128
  else b.

Definition guid_dash (index : nat) : bool := bool_decide (index ∈ [4; 6; 8; 10]%nat).

(** [output << std::hex << byte] with a zero before a single digit. *)
Fixpoint guid_text (index : nat) (bytes : list Z) : string :=
  match bytes with
  | [] => ""
  | b :: bytes =>
      (if guid_dash index then "-" else "") +:+ hex_padded 2 (guid_byte index b) (guid_text (S index) bytes)
  end.

Definition NewGuidV4 (bytes : list Z) : string := guid_text 0 bytes.
