(* ===== verification/Text.v ===== *)
(** * Texts of commands

    Helpers that [src/server/entrypoint.cpp] and [apps/cli/main.cpp] share:
    splitting at white space, trimming, searching and endpoints. *)
From S2P Require Import Prelude Numerals CommonTypes Codec.
From Stdlib Require Import Ascii.
Open Scope Z_scope.

(** [while (input >> token)]: the longest runs without white space. *)
Fixpoint split_whitespace (current value : string) : list string :=
  match value with
  | EmptyString => if String.eqb current "" then [] else [current]
  | String ch rest =>
      if is_space ch then
        if String.eqb current "" then split_whitespace "" rest else current :: split_whitespace "" rest
      else split_whitespace (push_back current ch) rest
  end.

Definition SplitWhitespace (value : string) : list string := split_whitespace "" value.

(** The characters of [find_first_not_of(" \t\r\n")]. *)
Definition is_blank (ch : ascii) : bool :=
  Ascii.eqb ch " " || Ascii.eqb ch tab || Ascii.eqb ch (ascii_of_nat 13) || Ascii.eqb ch newline.

Fixpoint trim_left (s : string) : string :=
  match s with
  | EmptyString => ""
  | String ch rest => if is_blank ch then trim_left rest else s
  end.

(** Up to the last character that is not blank. *)
Fixpoint trim_right (s : string) : string :=
  match s with
  | EmptyString => ""
  | String ch rest =>
      let rest := trim_right rest in
      if is_blank ch && String.eqb rest "" then "" else String ch rest
  end.

Definition TrimCopy (text : string) : string := trim_right (trim_left text).

Fixpoint all_blank (s : string) : bool :=
  match s with EmptyString => true | String ch rest => is_blank ch && all_blank rest end.

(** [text.back()] of a text that is not empty. *)
Fixpoint back_char (s : string) : option ascii :=
  match s with
  | EmptyString => None
  | String ch EmptyString => Some ch
  | String _ rest => back_char rest
  end.

(** [text.pop_back()]. *)
Fixpoint pop_back (s : string) : string :=
  match s with
  | EmptyString | String _ EmptyString => ""
  | String ch rest => String ch (pop_back rest)
  end.

(** [value.substr(0, i)] and [value.substr(i + 1)] for [i = value.find(ch)]. *)
Fixpoint split_first (sep : ascii) (s : string) : option (string * string) :=
  match s with
  | EmptyString => None
  | String ch rest =>
      if Ascii.eqb ch sep then Some ("", rest)
      else match split_first sep rest with Some (l, r) => Some (String ch l, r) | None => None end
  end.

(** The same for [i = value.rfind(ch)]. *)
Fixpoint split_last (sep : ascii) (s : string) : option (string * string) :=
  match s with
  | EmptyString => None
  | String ch rest =>
      match split_last sep rest with
      | Some (l, r) => Some (String ch l, r)
      | None => if Ascii.eqb ch sep then Some ("", rest) else None
      end
  end.

Definition ParseEndpoint (endpoint : string) : option (string * Z) :=
  match split_last ":" endpoint with
  | None => None
  | Some (host, digits) =>
      if String.eqb host "" || String.eqb digits "" then None
      else
        match stoi digits with
        | inr (port, _) => if (port <=? 0) || (port >? 65535) then None else Some (host, port)
        | inl _ => None
        end
  end.

(** [text.find(part) != npos]. *)
Fixpoint contains (part s : string) : bool :=
  String.prefix part s || match s with EmptyString => false | String _ rest => contains part rest end.

(** [", "] between the parts, as the loops with [index != 0] print them. *)
Fixpoint comma_separated (parts : list string) : string :=
  match parts with
  | [] => ""
  | [p] => p
  | p :: parts => p +:+ ", " +:+ comma_separated parts
  end.

Lemma split_first_app sep a b : no_char sep a = true → split_first sep (a +:+ String sep b) = Some (a, b).
Proof.
  induction a as [|c a IH]; simpl; [by rewrite Ascii.eqb_refl|]. intros [H1%negb_true_iff H2]%andb_true_iff.
  by rewrite H1, IH.
Qed.
