(* ===== verification/Doubles.v ===== *)
(** * Doubles: the floating-point numbers of the C++ program

    What the sources use of [double]: conversion from integers, addition,
    division, [operator<<] with the six digits of a stream and [std::stod], all
    on the IEEE 754 numbers of the Standard Library with 53 bits. The sign of a
    NaN is not kept.

    The lemmas show that integers up to [2 ^ 53] are added exactly. *)
From S2P Require Import Prelude Numerals VersionStore.
From Stdlib Require Import Ascii SpecFloat.
Open Scope Z_scope.

Notation double := spec_float.

Definition double_of_int (z : Z) : double := binary_normalize 53 1024 z 0 false.
Definition double_add (x y : double) : double := SFadd 53 1024 x y.
Definition double_div (x y : double) : double := SFdiv 53 1024 x y.
Definition double_zero : double := S754_zero false.

(** The double nearest to [num / den], ties to even. *)
Definition round_ratio (negative : bool) (num den : Z) : double :=
  let '(m, e, l) := SFdiv_core_binary 53 1024 num 0 den 0 in binary_round_aux 53 1024 negative m e l.

(** ** Output

    Six significant digits of [num / den], rounded to nearest with ties to
    even as the C library prints them, and the exponent of the first one. A
    double is below [10 ^ 309] and, unless it is zero, above [10 ^ -324]. *)
Fixpoint exponent_up (fuel : nat) (num den x : Z) : Z :=
  match fuel with
  | O => x
  | S fuel => if num <? 10 * den then x else exponent_up fuel num (10 * den) (x + 1)
  end.

Fixpoint exponent_down (fuel : nat) (num den x : Z) : Z :=
  match fuel with
  | O => x
  | S fuel => if den <=? num then x else exponent_down fuel (10 * num) den (x - 1)
  end.

Definition decimal_exponent (num den : Z) : Z :=
  if num <? den then exponent_down 400 num den 0 else exponent_up 400 num den 0.

Definition divide_nearest_even (num den : Z) : Z :=
  let '(q, r) := Z.div_eucl num den in
  match 2 * r ?= den with
  | Lt => q
  | Gt => q + 1
  | Eq => if Z.even q then q else q + 1
  end.

Definition six_digits (num den : Z) : Z * Z :=
  let x := decimal_exponent num den in
  let d := if x <=? 5 then divide_nearest_even (num * 10 ^ (5 - x)) den else divide_nearest_even num (den * 10 ^ (x - 5)) in
  if d =? 1000000 then (100000, x + 1) else (d, x).

(** Without the zeros at the end. *)
Fixpoint strip_zeros (s : string) : string :=
  match s with
  | EmptyString => ""
  | String ch rest =>
      let rest := strip_zeros rest in
      if Ascii.eqb ch "0" && String.eqb rest "" then "" else String ch rest
  end.

(** [d] with a decimal point before its last [k] digits. *)
Definition with_point (d : Z) (k : nat) : string :=
  let unit := 10 ^ Z.of_nat k in
  let fraction := strip_zeros (zero_padded k (d mod unit) "") in
  to_string (d / unit) +:+ (if String.eqb fraction "" then "" else "." +:+ fraction).

Definition print_ratio (num den : Z) : string :=
  let '(d, x) := six_digits num den in
  if (-4 <=? x) && (x <? 6) then with_point d (Z.to_nat (5 - x))
  else
    with_point d 5 +:+ "e" +:+ (if x <? 0 then "-" else "+")
    +:+ (if Z.abs x <? 100 then zero_padded 2 (Z.abs x) "" else to_string (Z.abs x)).

(** [operator<<]. *)
Definition print_double (x : double) : string :=
  match x with
  | S754_nan => "nan"
  | S754_infinity s => if s then "-inf" else "inf"
  | S754_zero s => if s then "-0" else "0"
  | S754_finite s m e =>
      (if s then "-" else "")
      +:+ if 0 <=? e then print_ratio (Zpos m * 2 ^ e) 1 else print_ratio (Zpos m) (2 ^ (- e))
  end.

(** ** Input *)

Definition is_hex_digit (c : ascii) : bool :=
  let n := nat_of_ascii c in
  is_digit c || ((65 <=? n)%nat && (n <=? 70)%nat) || ((97 <=? n)%nat && (n <=? 102)%nat).

Definition hex_digit_value (c : ascii) : Z :=
  let n := Z.of_nat (nat_of_ascii c) in
  if n <? 58 then n - 48 else if n <? 71 then n - 55 else n - 87.

(** The longest prefix of digits in a base: its value from [acc], its length
    and the rest. *)
Fixpoint take_number (good : ascii → bool) (value : ascii → Z) (base : Z) (s : string) (acc : Z) (n : nat) : Z * nat * string :=
  match s with
  | String c rest => if good c then take_number good value base rest (acc * base + value c) (S n) else (acc, n, s)
  | EmptyString => (acc, n, s)
  end.

(** Digits with an optional point: the value without the point, the number of
    digits and of those behind the point, and the rest. *)
Definition take_mantissa (good : ascii → bool) (value : ascii → Z) (base : Z) (s : string) : Z * nat * nat * string :=
  let '(v, n, rest) := take_number good value base s 0 O in
  match rest with
  | String "." rest' =>
      let '(v', m, rest'') := take_number good value base rest' v O in
      if (n + m =? 0)%nat then (0, O, O, s) else (v', (n + m)%nat, m, rest'')
  | _ => (v, n, O, rest)
  end.

Definition take_sign (s : string) : bool * string :=
  match s with
  | String "-" rest => (true, rest)
  | String "+" rest => (false, rest)
  | _ => (false, s)
  end.

(** The exponent behind one of two letters, 0 when there is none. *)
Definition take_exponent (lower upper : ascii) (s : string) : Z :=
  match s with
  | String c rest =>
      if Ascii.eqb c lower || Ascii.eqb c upper then
        let '(negative, digits) := take_sign rest in
        let '(v, _) := take_digits digits 0 in if negative then - v else v
      else 0
  | EmptyString => 0
  end.

(** The result of a conversion, which is out of range when it is too large, or
    too small to have the full precision and not exact. *)
Definition checked (negative : bool) (num den : Z) : NumExn + double :=
  match round_ratio negative num den with
  | S754_finite s m e =>
      let exact := if 0 <=? e then Zpos m * 2 ^ e * den =? num else Zpos m * den =? num * 2 ^ (- e) in
      if (Zpos (digits2_pos m) <? 53) && negb exact then inl OutOfRange else inr (S754_finite s m e)
  | _ => inl OutOfRange
  end.

(** [v * 10 ^ e] for a number [v] of [n] digits. *)
Definition of_decimal (negative : bool) (v : Z) (n : nat) (e : Z) : NumExn + double :=
  if v =? 0 then inr (S754_zero negative)
  else if (309 <? e) || (e + Z.of_nat n <? -330) then inl OutOfRange
  else if 0 <=? e then checked negative (v * 10 ^ e) 1 else checked negative v (10 ^ (- e)).

(** [v * 2 ^ e] for a number [v] of [n] hexadecimal digits. *)
Definition of_hexadecimal (negative : bool) (v : Z) (n : nat) (e : Z) : NumExn + double :=
  if v =? 0 then inr (S754_zero negative)
  else if (1024 <? e) || (e + 4 * Z.of_nat n <? -1100) then inl OutOfRange
  else if 0 <=? e then checked negative (v * 2 ^ e) 1 else checked negative v (2 ^ (- e)).

Fixpoint lower_prefix (word s : string) : bool :=
  match word, s with
  | EmptyString, _ => true
  | String w word, String c s =>
      let n := nat_of_ascii c in
      let c := if (65 <=? n)%nat && (n <=? 90)%nat then ascii_of_nat (n + 32) else c in
      Ascii.eqb c w && lower_prefix word s
  | _, _ => false
  end.

Definition decimal_number (negative : bool) (s : string) : NumExn + double :=
  let '(v, n, m, rest) := take_mantissa is_digit digit_value 10 s in
  if (n =? 0)%nat then inl InvalidArgument
  else of_decimal negative v n (take_exponent "e" "E" rest - Z.of_nat m).

(** [std::stod]: white space, a sign, and the longest number. *)
Definition stod (s : string) : NumExn + double :=
  let '(negative, s) := take_sign (skip_spaces s).2 in
  if lower_prefix "inf" s then inr (S754_infinity negative)
  else if lower_prefix "nan" s then inr S754_nan
  else if lower_prefix "0x" s then
    let digits := match s with String _ (String _ rest) => rest | _ => "" end in
    let '(v, n, m, rest) := take_mantissa is_hex_digit hex_digit_value 16 digits in
    if (n =? 0)%nat then inr (S754_zero negative)
    else of_hexadecimal negative v n (take_exponent "p" "P" rest - 4 * Z.of_nat m)
  else decimal_number negative s.

(** ** Sums of integers are exact *)

Lemma digits2_spec p : 2 ^ (Zpos (digits2_pos p) - 1) ≤ Zpos p < 2 ^ Zpos (digits2_pos p).
Proof.
  induction p as [p IH|p IH|]; cbn [digits2_pos]; [| |done];
    rewrite Pos2Z.inj_succ, Z.pow_succ_r by lia;
    replace (Z.succ (Zpos (digits2_pos p)) - 1) with (Z.succ (Zpos (digits2_pos p) - 1)) by lia;
    rewrite Z.pow_succ_r by lia; lia.
Qed.

Lemma digits2_log2 p : Zpos (digits2_pos p) = Z.log2 (Zpos p) + 1.
Proof.
  pose proof (digits2_spec p) as H. rewrite (Z.log2_unique (Zpos p) (Zpos (digits2_pos p) - 1)); [lia|lia|].
  by replace (Z.succ (Zpos (digits2_pos p) - 1)) with (Zpos (digits2_pos p)) by lia.
Qed.

Lemma iter_xO m p : Zpos (Pos.iter xO m p) = Zpos m * 2 ^ Zpos p.
Proof.
  induction p as [|p IH] using Pos.peano_ind; [simpl; lia|].
  rewrite Pos.iter_succ, Pos2Z.inj_succ, Z.pow_succ_r by lia. rewrite (Pos2Z.inj_xO (Pos.iter xO m p)), IH. lia.
Qed.

Lemma iter_pos_nat {A} (f : A → A) p x : iter_pos f p x = Nat.iter (Pos.to_nat p) f x.
Proof.
  revert x. induction p as [p IH|p IH|]; intros x; cbn [iter_pos]; [| |done]; rewrite !IH, <-Nat.iter_add.
  - by rewrite Nat.iter_swap, Pos2Nat.inj_xI, <-Nat.double_twice.
  - by rewrite Pos2Nat.inj_xO, <-Nat.double_twice.
Qed.

Lemma shr_exact p m :
  0 < m → iter_pos shr_1 p (Build_shr_record (m * 2 ^ Zpos p) false false) = Build_shr_record m false false.
Proof.
  intros Hm. rewrite iter_pos_nat, <-(positive_nat_Z p). induction (Pos.to_nat p) as [|n IH]; simpl; [f_equal; lia|].
  rewrite <-IH. clear IH. rewrite <-Nat.iter_swap. f_equal.
  rewrite Nat2Z.inj_succ, Z.pow_succ_r by lia.
  assert (H : 0 < m * 2 ^ Z.of_nat n) by nia. destruct (m * 2 ^ Z.of_nat n) as [|q|q] eqn:E; try lia.
  replace (m * (2 * 2 ^ Z.of_nat n)) with (Zpos q~0) by lia. done.
Qed.

(** The representation of an integer below [2 ^ 53]. *)
Definition int_double (k : Z) : double := S754_finite false (Z.to_pos (k * 2 ^ (52 - Z.log2 k))) (Z.log2 k - 52).

Lemma log2_53 k : 0 < k < 2 ^ 53 → 0 ≤ Z.log2 k ≤ 52.
Proof. intros H. split; [apply Z.log2_nonneg|]. pose proof (proj1 (Z.log2_lt_pow2 k 53 ltac:(lia)) ltac:(lia)). lia. Qed.

Lemma int_mantissa k : 0 < k < 2 ^ 53 → 0 < k * 2 ^ (52 - Z.log2 k).
Proof. intros H. pose proof (log2_53 k H). pose proof (Z.pow_pos_nonneg 2 (52 - Z.log2 k)). nia. Qed.

(** A number with 53 digits is not rounded. *)
Lemma shr_fexp_int k :
  0 < k < 2 ^ 53 →
  shr_fexp 53 1024 (k * 2 ^ (52 - Z.log2 k)) (Z.log2 k - 52) loc_Exact =
    (Build_shr_record (k * 2 ^ (52 - Z.log2 k)) false false, Z.log2 k - 52).
Proof.
  intros Hk. pose proof (log2_53 k Hk) as Hl. pose proof (int_mantissa k Hk) as Hp. unfold shr_fexp.
  replace (fexp 53 1024 (Zdigits2 (k * 2 ^ (52 - Z.log2 k)) + (Z.log2 k - 52)) - (Z.log2 k - 52)) with 0; [done|].
  destruct (k * 2 ^ (52 - Z.log2 k)) as [|q|q] eqn:Eq; try lia. cbn [Zdigits2].
  rewrite digits2_log2, <-Eq, Z.log2_mul_pow2 by lia. unfold fexp, emin. lia.
Qed.

(** What is left after the first rounding step has no bits to lose. *)
Lemma round_again k :
  0 < k < 2 ^ 53 →
  (let '(mrs, e) := shr_fexp 53 1024 (k * 2 ^ (52 - Z.log2 k)) (Z.log2 k - 52) loc_Exact in
   match shr_m mrs with
   | Z0 => S754_zero false
   | Zpos m => if Z.leb e (1024 - 53) then S754_finite false m e else S754_infinity false
   | _ => S754_nan
   end) = int_double k.
Proof.
  intros Hk. pose proof (log2_53 k Hk). rewrite shr_fexp_int by done. cbn [shr_m]. unfold int_double.
  pose proof (int_mantissa k Hk). destruct (k * 2 ^ (52 - Z.log2 k)) as [|q|q]; try lia.
  by rewrite (proj2 (Z.leb_le (Z.log2 k - 52) (1024 - 53))) by lia.
Qed.

Lemma round_aux_int k :
  0 < k < 2 ^ 53 → binary_round_aux 53 1024 false (k * 2 ^ (52 - Z.log2 k)) (Z.log2 k - 52) loc_Exact = int_double k.
Proof.
  intros Hk. unfold binary_round_aux. rewrite shr_fexp_int at 1 by done. cbn [shr_m loc_of_shr_record round_nearest_even].
  by apply round_again.
Qed.

Lemma binary_round_int m j k :
  0 < k < 2 ^ 53 → 0 ≤ j → Zpos m = k * 2 ^ j → binary_round 53 1024 false m (- j) = int_double k.
Proof.
  intros Hk Hj Hm. pose proof (log2_53 k Hk) as Hl. unfold binary_round.
  assert (Hf : fexp 53 1024 (Zpos (digits2_pos m) + - j) = Z.log2 k - 52)
    by (rewrite digits2_log2, Hm, Z.log2_mul_pow2 by lia; unfold fexp, emin; lia).
  rewrite Hf. unfold shl_align. destruct (Z.log2 k - 52 - - j) as [|p|p] eqn:E.
  - rewrite Hm. replace j with (52 - Z.log2 k) at 1 by lia. replace (- j) with (Z.log2 k - 52) by lia. by apply round_aux_int.
  - unfold binary_round_aux. unfold shr_fexp at 1. cbn [Zdigits2 shr_record_of_loc]. rewrite Hf, E. cbn [shr].
    replace (Zpos m) with (k * 2 ^ (52 - Z.log2 k) * 2 ^ Zpos p)
      by (rewrite Hm, <-Z.mul_assoc, <-Z.pow_add_r by lia; do 2 f_equal; lia).
    rewrite shr_exact by (by apply int_mantissa). cbn [shr_m loc_of_shr_record round_nearest_even].
    replace (- j + Zpos p) with (Z.log2 k - 52) by lia. by apply round_again.
  - rewrite iter_xO, Hm, <-Z.mul_assoc, <-Z.pow_add_r by lia. replace (j + Zpos p) with (52 - Z.log2 k) by lia.
    by apply round_aux_int.
Qed.

Lemma double_of_small_int k : 0 < k < 2 ^ 53 → double_of_int k = int_double k.
Proof.
  intros Hk. unfold double_of_int, binary_normalize. destruct k as [|k|k]; try lia.
  apply (binary_round_int k 0); lia.
Qed.

Lemma aligned_int k j :
  0 < k < 2 ^ 53 → 52 - Z.log2 k ≤ j →
  Zpos (fst (shl_align (Z.to_pos (k * 2 ^ (52 - Z.log2 k))) (Z.log2 k - 52) (- j))) = k * 2 ^ j.
Proof.
  intros Hk Hj. pose proof (log2_53 k Hk). pose proof (int_mantissa k Hk). unfold shl_align.
  destruct (- j - (Z.log2 k - 52)) as [|p|p] eqn:E; [|lia|]; cbn [fst].
  - rewrite Z2Pos.id by done. do 2 f_equal. lia.
  - rewrite iter_xO, Z2Pos.id, <-Z.mul_assoc, <-Z.pow_add_r by lia. do 2 f_equal. lia.
Qed.

Lemma double_add_int a b : 0 ≤ a → 0 ≤ b → a + b < 2 ^ 53 → double_add (double_of_int a) (double_of_int b) = double_of_int (a + b).
Proof.
  intros Ha Hb Hs. destruct (decide (a = 0)) as [->|Ha0].
  { rewrite Z.add_0_l. destruct (decide (b = 0)) as [->|]; [done|]. by rewrite (double_of_small_int b) by lia. }
  destruct (decide (b = 0)) as [->|Hb0]. { by rewrite Z.add_0_r, (double_of_small_int a) by lia. }
  rewrite !double_of_small_int by lia. unfold int_double at 1 2. cbn [double_add SFadd].
  unfold double_add, SFadd. set (j := Z.max (52 - Z.log2 a) (52 - Z.log2 b)).
  replace (Z.min (Z.log2 a - 52) (Z.log2 b - 52)) with (- j) by lia.
  cbn [cond_Zopp]. rewrite !aligned_int by lia. rewrite <-Z.mul_add_distr_r.
  pose proof (log2_53 a ltac:(lia)). pose proof (Z.pow_pos_nonneg 2 j).
  destruct ((a + b) * 2 ^ j) as [|m|m] eqn:E; try nia. unfold binary_normalize. apply binary_round_int; lia.
Qed.

(** A sum of integers, from left to right, whose total is below [2 ^ 53]. *)
Lemma double_sum_int zs acc :
  0 ≤ acc → Forall (λ z, 0 ≤ z) zs → acc + foldr Z.add 0 zs < 2 ^ 53 →
  foldl (λ d z, double_add d (double_of_int z)) (double_of_int acc) zs = double_of_int (acc + foldr Z.add 0 zs).
Proof.
  revert acc. induction zs as [|z zs IH]; intros acc Ha Hz Hs; simpl in *; [by rewrite Z.add_0_r|].
  apply Forall_cons in Hz as [Hz Hzs].
  assert (0 ≤ foldr Z.add 0 zs) by (clear -Hzs; induction Hzs; simpl; lia).
  rewrite double_add_int by lia. rewrite IH by (try done; lia). f_equal. lia.
Qed.

(** ** Small integers are printed and read back exactly *)

(** A mantissa with more digits than 53, all zero behind the first 53. *)
Lemma round_aux_shifted k j : 0 < k < 2 ^ 53 → 52 - Z.log2 k ≤ j →
  binary_round_aux 53 1024 false (k * 2 ^ j) (- j) loc_Exact = int_double k.
Proof.
  intros Hk Hj. pose proof (log2_53 k Hk) as Hl. pose proof (int_mantissa k Hk) as Hm.
  destruct (decide (j = 52 - Z.log2 k)) as [->|Hne].
  { replace (- (52 - Z.log2 k)) with (Z.log2 k - 52) by lia. by apply round_aux_int. }
  destruct (k * 2 ^ j) as [|m|m] eqn:E; [pose proof (Z.pow_pos_nonneg 2 j); nia| |pose proof (Z.pow_pos_nonneg 2 j); nia].
  assert (Hf : fexp 53 1024 (Zdigits2 (Zpos m) + - j) = Z.log2 k - 52)
    by (cbn [Zdigits2]; rewrite digits2_log2, <-E, Z.log2_mul_pow2 by lia; unfold fexp, emin; lia).
  unfold binary_round_aux. unfold shr_fexp at 1. cbn [shr_record_of_loc]. rewrite Hf.
  destruct (Z.log2 k - 52 - - j) as [|p|p] eqn:Ep; [lia| |lia]. cbn [shr].
  replace (Zpos m) with (k * 2 ^ (52 - Z.log2 k) * 2 ^ Zpos p)
    by (rewrite <-E, <-Z.mul_assoc, <-Z.pow_add_r by lia; do 2 f_equal; lia).
  rewrite shr_exact by done. cbn [shr_m loc_of_shr_record round_nearest_even].
  replace (- j + Zpos p) with (Z.log2 k - 52) by lia. by apply round_again.
Qed.

Lemma round_ratio_int k : 0 < k < 2 ^ 53 → round_ratio false k 1 = int_double k.
Proof.
  intros Hk. pose proof (log2_53 k Hk) as Hl. unfold round_ratio, SFdiv_core_binary.
  assert (Hd : Zdigits2 k = Z.log2 k + 1) by (destruct k as [|p|p]; try lia; cbn [Zdigits2]; apply digits2_log2).
  rewrite Hd. cbn [Zdigits2 digits2_pos]. unfold fexp, emin.
  replace (Z.min _ _) with (- (53 - Z.log2 k)) by lia.
  replace (0 - 0 - - (53 - Z.log2 k)) with (53 - Z.log2 k) by lia.
  destruct (53 - Z.log2 k) as [|p|p] eqn:Ep; [lia| |lia]. rewrite <-Ep, Z.shiftl_mul_pow2 by lia.
  unfold Z.div_eucl at 1. destruct (k * 2 ^ (53 - Z.log2 k)) as [|m|m] eqn:E;
    [pose proof (Z.pow_pos_nonneg 2 (53 - Z.log2 k)); nia| |pose proof (Z.pow_pos_nonneg 2 (53 - Z.log2 k)); nia].
  assert (Hdiv : Z.pos_div_eucl m 1 = (Zpos m, 0)).
  { pose proof (Z.div_eucl_eq (Zpos m) 1 ltac:(lia)) as H1. pose proof (Z.mod_pos_bound (Zpos m) 1 ltac:(lia)) as H2.
    unfold Z.modulo, Z.div_eucl in *. destruct (Z.pos_div_eucl m 1) as [q r]. f_equal; lia. }
  rewrite Hdiv. change (new_location 1 0) with loc_Exact. rewrite <-E.
  apply round_aux_shifted; lia.
Qed.

Lemma checked_int k : 0 < k < 2 ^ 53 → checked false k 1 = inr (int_double k).
Proof.
  intros Hk. pose proof (log2_53 k Hk) as Hl. pose proof (int_mantissa k Hk) as Hm. unfold checked.
  rewrite round_ratio_int by done. unfold int_double. cbv zeta.
  assert (Hd : Zpos (digits2_pos (Z.to_pos (k * 2 ^ (52 - Z.log2 k)))) = 53)
    by (rewrite digits2_log2, Z2Pos.id, Z.log2_mul_pow2 by lia; lia).
  by rewrite Hd.
Qed.

(** The first digit of [k] has the exponent [x]. *)
Lemma exponent_up_int fuel k D x y :
  0 < D → 0 ≤ x ≤ y → 10 ^ y ≤ k < 10 ^ (y + 1) → y - x < Z.of_nat fuel →
  exponent_up fuel (k * D) (10 ^ x * D) x = y.
Proof.
  revert x. induction fuel as [|fuel IH]; intros x HD Hx Hk Hf; [lia|]. cbn [exponent_up].
  assert (H10 : 10 * (10 ^ x * D) = 10 ^ (x + 1) * D) by (rewrite Z.pow_add_r by lia; lia). rewrite H10.
  destruct (Z.ltb_spec (k * D) (10 ^ (x + 1) * D)) as [Hlt|Hge].
  - assert (Hlt' : k < 10 ^ (x + 1)) by nia. destruct (decide (x = y)) as [|Hne]; [done|].
    pose proof (Z.pow_le_mono_r 10 (x + 1) y ltac:(lia) ltac:(lia)). lia.
  - destruct (decide (x = y)) as [->|Hne]; [nia|]. apply IH; lia.
Qed.

Lemma divide_exact a D : 0 < D → divide_nearest_even (a * D) D = a.
Proof.
  intros HD. unfold divide_nearest_even. pose proof (Z.div_eucl_eq (a * D) D ltac:(lia)) as H.
  pose proof (Z.mod_pos_bound (a * D) D HD) as Hr. unfold Z.modulo in Hr. destruct (Z.div_eucl (a * D) D) as [q r].
  assert (Hq : (a - q) * D = r) by lia. assert (a - q = 0) by (destruct (Z.lt_trichotomy (a - q) 0) as [|[|]]; nia).
  assert (q = a) as -> by lia. assert (r = 0) as -> by lia. simpl. by destruct D.
Qed.

Lemma print_ratio_int k D : 0 < k < 10 ^ 6 → 0 < D → print_ratio (k * D) D = to_string k.
Proof.
  intros Hk HD.
  assert (∃ y, 0 ≤ y ≤ 5 ∧ 10 ^ y ≤ k < 10 ^ (y + 1)) as (y & Hy & Hky).
  { destruct (decide (k < 10)); [exists 0; lia|]. destruct (decide (k < 100)); [exists 1; lia|].
    destruct (decide (k < 1000)); [exists 2; lia|]. destruct (decide (k < 10000)); [exists 3; lia|].
    destruct (decide (k < 100000)); [exists 4; lia|]. exists 5; lia. }
  assert (Hx : decimal_exponent (k * D) D = y).
  { unfold decimal_exponent. destruct (Z.ltb_spec (k * D) D); [nia|].
    replace D with (10 ^ 0 * D) at 2 by lia. apply exponent_up_int; lia. }
  unfold print_ratio, six_digits. rewrite Hx. rewrite (proj2 (Z.leb_le y 5)) by lia.
  replace (k * D * 10 ^ (5 - y)) with (k * 10 ^ (5 - y) * D) by lia. rewrite divide_exact by done.
  pose proof (Z.pow_pos_nonneg 10 (5 - y) ltac:(lia) ltac:(lia)) as Hp.
  assert (Hsix : 10 ^ (y + 1) * 10 ^ (5 - y) = 1000000) by (rewrite <-Z.pow_add_r by lia; by replace (y + 1 + (5 - y)) with 6 by lia).
  destruct (Z.eqb_spec (k * 10 ^ (5 - y)) 1000000) as [|_]; [nia|].
  rewrite (proj2 (Z.leb_le (-4) y)), (proj2 (Z.ltb_lt y 6)) by lia. cbn [andb].
  unfold with_point. rewrite Z2Nat.id by lia. rewrite Z.mod_mul, Z.div_mul by lia.
  assert (strip_zeros (zero_padded (Z.to_nat (5 - y)) 0 "") = "") as ->; [|by rewrite str_app_nil_r].
  assert (y = 0 ∨ y = 1 ∨ y = 2 ∨ y = 3 ∨ y = 4 ∨ y = 5) as Hcases by lia. clear -Hcases. destruct_or! Hcases; subst y; vm_compute; reflexivity.
Qed.

(** Integers below [10 ^ 6] are printed with all their digits ... *)
Lemma print_small_int k : 0 ≤ k < 10 ^ 6 → print_double (double_of_int k) = to_string k.
Proof.
  intros Hk. destruct (decide (k = 0)) as [->|]; [done|].
  assert (Hk53 : 0 < k < 2 ^ 53) by lia. pose proof (log2_53 k Hk53). pose proof (int_mantissa k Hk53).
  pose proof (proj1 (Z.log2_lt_pow2 k 20 ltac:(lia)) ltac:(lia)).
  rewrite double_of_small_int by done. unfold int_double. cbn [print_double].
  rewrite (proj2 (Z.leb_gt 0 (Z.log2 k - 52))) by lia. rewrite Z2Pos.id by lia.
  replace (- (Z.log2 k - 52)) with (52 - Z.log2 k) by lia. cbn [String.append].
  apply print_ratio_int; [lia|]. apply Z.pow_pos_nonneg; lia.
Qed.

Lemma take_number_digits s acc n :
  take_digits s acc = (let '(v, m, _) := take_number is_digit digit_value 10 s acc n in (v, (m - n)%nat)) ∧
  let '(_, m, rest) := take_number is_digit digit_value 10 s acc n in
  (n ≤ m)%nat ∧ String.length s = (m - n + String.length rest)%nat.
Proof.
  revert acc n. induction s as [|c s IH]; intros acc n; cbn [take_number take_digits]; [rewrite Nat.sub_diag; simpl; auto with lia|].
  destruct (is_digit c); [|rewrite Nat.sub_diag; simpl; auto with lia].
  destruct (IH (acc * 10 + digit_value c) (S n)) as [IH1 IH2]. rewrite IH1.
  destruct (take_number _ _ _ s _ (S n)) as [[v m] rest]. destruct IH2 as [Hm Hl]. split; [f_equal; lia|].
  cbn [String.length]. lia.
Qed.

Lemma take_mantissa_int k : 0 ≤ k →
  take_mantissa is_digit digit_value 10 (nat_to_string k) = (k, String.length (nat_to_string k), O, "").
Proof.
  intros Hk. destruct (nat_to_string_digits k "" Hk I) as [H1 H2]. rewrite str_app_nil_r in H1. unfold take_mantissa.
  destruct (take_number_digits (nat_to_string k) 0 O) as [H3 H4]. rewrite H1 in H3.
  destruct (take_number _ _ _ _ 0 O) as [[v n] rest]. injection H3 as <- Hn. destruct H4 as [_ Hl].
  destruct rest as [|c rest]; [|simpl in Hl; lia]. f_equal. f_equal. f_equal. lia.
Qed.

Lemma digit_head c : is_digit c = true →
  is_space c = false ∧ Ascii.eqb c "-" = false ∧ Ascii.eqb c "+" = false ∧
  (∀ s, lower_prefix "inf" (String c s) = false) ∧ (∀ s, lower_prefix "nan" (String c s) = false).
Proof. destruct c as [[] [] [] [] [] [] [] []]; vm_compute; try done. Qed.

(** ... and read back. *)
Lemma stod_small_int k : 0 < k < 2 ^ 53 → stod (to_string k) = inr (double_of_int k).
Proof.
  intros Hk. unfold to_string. destruct (Z.ltb_spec k 0); [lia|].
  destruct (nat_to_string_head k) as (c & s & E & Hc); [lia|]. pose proof (take_mantissa_int k ltac:(lia)) as Hm.
  destruct (nat_to_string_digits k "" ltac:(lia) I) as [Hd Hlen]. rewrite str_app_nil_r in Hd. rewrite E in *.
  destruct (digit_head c Hc) as (Hsp & Hminus & Hplus & Hinf & Hnan). unfold stod. cbn [skip_spaces]. rewrite Hsp. cbn [snd].
  assert (take_sign (String c s) = (false, String c s)) as -> by (clear -Hminus Hplus; destruct c as [[] [] [] [] [] [] [] []]; done).
  rewrite Hinf, Hnan.
  assert (lower_prefix "0x" (String c s) = false) as ->.
  { destruct (lower_prefix "0x" (String c s)) eqn:Hx; [|done]. exfalso. cbn [lower_prefix] in Hx.
    apply andb_true_iff in Hx as [_ Hx]. destruct s as [|c' s]; [done|]. apply andb_true_iff in Hx as [Hx _].
    cbn [take_digits] in Hd. rewrite Hc in Hd.
    assert (Hc' : is_digit c' = false) by (clear -Hx; destruct c' as [[] [] [] [] [] [] [] []]; done).
    rewrite Hc' in Hd. injection Hd as _ Hd. done. }
  unfold decimal_number. rewrite Hm. cbn [String.length Nat.eqb take_exponent].
  unfold of_decimal. destruct (Z.eqb_spec k 0); [lia|].
  replace (0 - Z.of_nat 0) with 0 by lia. destruct (Z.ltb_spec (0 + Z.of_nat (S (String.length s))) (-330)); [lia|].
  cbn [orb Z.ltb Z.compare Z.leb]. change (10 ^ 0) with 1. rewrite Z.mul_1_r, checked_int by done.
  by rewrite double_of_small_int.
Qed.
