(* ===== verification/Telemetry.v ===== *)
(** * Telemetry: rolling windows over the requests of a server

    [src/runtime/telemetry.cpp] and the texts and the aggregation of snapshots
    in [src/server/entrypoint.cpp]. Times are the nanoseconds of the system
    clock; counters are [std::uint64_t] and wrap around. *)
From S2P Require Import Prelude Numerals CommonTypes Codec Text VersionStore Wal Doubles.
From Stdlib Require Import Ascii.
Open Scope Z_scope.

Definition nanoseconds (seconds : Z) : Z := seconds * 1000000000.

Definition kWindow10Minutes : Z := nanoseconds 600.
Definition kWindow1Minute : Z := nanoseconds 60.
Definition kWindow10Seconds : Z := nanoseconds 10.

Record RequestEvent := MkEvent {
  event_time : Z;
  event_latency : double;
  event_failed : bool
}.

(** [events_]. *)
Definition TelemetryRegistry : Type := list RequestEvent.

Notation Buckets := (gmap Z Z).

Record TelemetrySnapshot := MkSnapshot {
  current_rps : double;
  average_rps_10m : double;
  max_rps_10m : double;
  average_latency_10s_ms : double;
  error_count_1m : Z;
  error_rate_1m : double;
  requests_1m : Z;
  latency_samples_10s : Z;
  latency_sum_10s_ms : double;
  requests_per_second_10m : Buckets
}.

Definition empty_snapshot : TelemetrySnapshot :=
  MkSnapshot double_zero double_zero double_zero double_zero 0 double_zero 0 0 double_zero ∅.

Definition add_u64 (a b : Z) : Z := (a + b) mod uint64_modulus.

(** [buckets[key]], which a map creates when it is not there. *)
Definition bucket (key : Z) (buckets : Buckets) : Z := default 0 (buckets !! key).

Definition add_to_bucket (key count : Z) (buckets : Buckets) : Buckets :=
  <[key := add_u64 (bucket key buckets) count]> buckets.

(** [duration_cast<seconds>] truncates. *)
Definition second_of (time : Z) : Z := Z.quot time 1000000000.

Fixpoint PruneLocked (now : Z) (events : TelemetryRegistry) : TelemetryRegistry :=
  match events with
  | [] => []
  | ev :: rest => if now - event_time ev >? kWindow10Minutes then PruneLocked now rest else events
  end.

Definition RecordSuccess (now : Z) (latency_ms : double) (events : TelemetryRegistry) : TelemetryRegistry :=
  PruneLocked now events ++ [MkEvent now latency_ms false].

Definition RecordFailure (now : Z) (latency_ms : double) (events : TelemetryRegistry) : TelemetryRegistry :=
  PruneLocked now events ++ [MkEvent now latency_ms true].

(** One event in the loop of [Snapshot]. *)
Definition count_event (now : Z) (s : TelemetrySnapshot) (ev : RequestEvent) : TelemetrySnapshot :=
  let age := now - event_time ev in
  let last_minute := age <=? kWindow1Minute in
  let last_seconds := age <=? kWindow10Seconds in
  MkSnapshot (current_rps s) (average_rps_10m s) (max_rps_10m s) (average_latency_10s_ms s)
    (if last_minute && event_failed ev then add_u64 (error_count_1m s) 1 else error_count_1m s)
    (error_rate_1m s)
    (if last_minute then add_u64 (requests_1m s) 1 else requests_1m s)
    (if last_seconds then add_u64 (latency_samples_10s s) 1 else latency_samples_10s s)
    (if last_seconds then double_add (latency_sum_10s_ms s) (event_latency ev) else latency_sum_10s_ms s)
    (add_to_bucket (second_of (event_time ev)) 1 (requests_per_second_10m s)).

Definition bucket_total (buckets : Buckets) : Z := map_fold (λ _ count total, add_u64 total count) 0 buckets.
Definition bucket_max (buckets : Buckets) : Z := map_fold (λ _ count largest, Z.max largest count) 0 buckets.

Definition ratio (num : double) (samples : Z) : double :=
  if samples =? 0 then double_zero else double_div num (double_of_int samples).

(** The end of [Snapshot] and of [AggregateTelemetry]: the rates. *)
Definition derive_rates (now_second : Z) (s : TelemetrySnapshot) : TelemetrySnapshot :=
  let buckets := <[now_second := bucket now_second (requests_per_second_10m s)]> (requests_per_second_10m s) in
  MkSnapshot (double_of_int (bucket now_second buckets))
    (double_div (double_of_int (bucket_total buckets)) (double_of_int 600))
    (double_of_int (bucket_max buckets))
    (ratio (latency_sum_10s_ms s) (latency_samples_10s s))
    (error_count_1m s)
    (ratio (double_of_int (error_count_1m s)) (requests_1m s))
    (requests_1m s) (latency_samples_10s s) (latency_sum_10s_ms s) buckets.

(** The snapshot, and the events that are kept. *)
Definition Snapshot (now : Z) (events : TelemetryRegistry) : TelemetrySnapshot * TelemetryRegistry :=
  let events := PruneLocked now events in
  (match events with
   | [] => empty_snapshot
   | _ => derive_rates (second_of now) (foldl (count_event now) empty_snapshot events)
   end, events).

(** ** Several servers *)

(** What one remote snapshot adds. *)
Definition merge_snapshot (merged s : TelemetrySnapshot) : TelemetrySnapshot :=
  MkSnapshot (current_rps merged) (average_rps_10m merged) (max_rps_10m merged) (average_latency_10s_ms merged)
    (add_u64 (error_count_1m merged) (error_count_1m s))
    (error_rate_1m merged)
    (add_u64 (requests_1m merged) (requests_1m s))
    (add_u64 (latency_samples_10s merged) (latency_samples_10s s))
    (double_add (latency_sum_10s_ms merged) (latency_sum_10s_ms s))
    (map_fold add_to_bucket (requests_per_second_10m merged) (requests_per_second_10m s)).

Definition AggregateTelemetry (now : Z) (local_snapshot : TelemetrySnapshot) (remote_snapshots : list TelemetrySnapshot)
    : TelemetrySnapshot :=
  derive_rates (second_of now) (foldl merge_snapshot local_snapshot remote_snapshots).

(** ** Texts *)

Definition assign (key value : string) : string := key +:+ "=" +:+ value.

(** The buckets in the order of a [std::map]. *)
Definition key_le (a b : Z * Z) : Prop := a.1 ≤ b.1.

#[export] Instance key_le_dec a b : Decision (key_le a b).
Proof. unfold key_le. apply _. Defined.

Definition bucket_list (buckets : Buckets) : list (Z * Z) := merge_sort key_le (map_to_list buckets).

Definition bucket_text (entry : Z * Z) : string := to_string entry.1 +:+ ":" +:+ to_string entry.2.

(** The fields in front of [buckets]. *)
Definition telemetry_fields (s : TelemetrySnapshot) : list string :=
  [assign "current_rps" (print_double (current_rps s));
   assign "average_rps_10m" (print_double (average_rps_10m s));
   assign "max_rps_10m" (print_double (max_rps_10m s));
   assign "average_latency_10s_ms" (print_double (average_latency_10s_ms s));
   assign "error_count_1m" (to_string (error_count_1m s));
   assign "error_rate_1m" (print_double (error_rate_1m s))].

Definition SerializeLocalTelemetry (s : TelemetrySnapshot) : string :=
  join tab (telemetry_fields s
    ++ [assign "requests_1m" (to_string (requests_1m s));
        assign "latency_samples_10s" (to_string (latency_samples_10s s));
        assign "latency_sum_10s_ms" (print_double (latency_sum_10s_ms s));
        assign "buckets" (join "," (map bucket_text (bucket_list (requests_per_second_10m s))))]).

(** The pieces [std::getline] with a separator returns. *)
Fixpoint pieces_from (sep : ascii) (current text : string) : list string :=
  match text with
  | EmptyString => if String.eqb current "" then [] else [current]
  | String ch rest =>
      if Ascii.eqb ch sep then current :: pieces_from sep "" rest else pieces_from sep (push_back current ch) rest
  end.

(** One [key:count]; [emplace] keeps an entry that is there. *)
Definition parse_bucket (text : string) (buckets : Buckets) : option Buckets :=
  match split_first ":" text with
  | None => None
  | Some (key, count) =>
      match stoll key, stoull count with
      | inr (key, _), inr (count, _) => Some (match buckets !! key with Some _ => buckets | None => <[key := count]> buckets end)
      | _, _ => None
      end
  end.

Fixpoint parse_buckets (texts : list string) (buckets : Buckets) : option Buckets :=
  match texts with
  | [] => Some buckets
  | text :: texts => match parse_bucket text buckets with Some buckets => parse_buckets texts buckets | None => None end
  end.

Definition as_double (value : string) : option double := match stod value with inr d => Some d | inl _ => None end.
Definition as_count (value : string) : option Z := match stoull value with inr (n, _) => Some n | inl _ => None end.

(** The assignment of one field; an unknown one is skipped. *)
Definition set_field (key value : string) (s : TelemetrySnapshot) : option TelemetrySnapshot :=
  let '(MkSnapshot cur avg mx lat errors rate requests samples total buckets) := s in
  if String.eqb key "current_rps" then
    d ← as_double value; Some (MkSnapshot d avg mx lat errors rate requests samples total buckets)
  else if String.eqb key "average_rps_10m" then
    d ← as_double value; Some (MkSnapshot cur d mx lat errors rate requests samples total buckets)
  else if String.eqb key "max_rps_10m" then
    d ← as_double value; Some (MkSnapshot cur avg d lat errors rate requests samples total buckets)
  else if String.eqb key "average_latency_10s_ms" then
    d ← as_double value; Some (MkSnapshot cur avg mx d errors rate requests samples total buckets)
  else if String.eqb key "error_count_1m" then
    n ← as_count value; Some (MkSnapshot cur avg mx lat n rate requests samples total buckets)
  else if String.eqb key "error_rate_1m" then
    d ← as_double value; Some (MkSnapshot cur avg mx lat errors d requests samples total buckets)
  else if String.eqb key "requests_1m" then
    n ← as_count value; Some (MkSnapshot cur avg mx lat errors rate n samples total buckets)
  else if String.eqb key "latency_samples_10s" then
    n ← as_count value; Some (MkSnapshot cur avg mx lat errors rate requests n total buckets)
  else if String.eqb key "latency_sum_10s_ms" then
    d ← as_double value; Some (MkSnapshot cur avg mx lat errors rate requests samples d buckets)
  else if String.eqb key "buckets" && negb (String.eqb value "") then
    bs ← parse_buckets (pieces_from "," "" value) buckets;
    Some (MkSnapshot cur avg mx lat errors rate requests samples total bs)
  else Some s.

Definition parse_field (part : string) (s : TelemetrySnapshot) : option TelemetrySnapshot :=
  match split_first "=" part with
  | None => Some s
  | Some (key, value) => set_field key value s
  end.

Fixpoint parse_fields (parts : list string) (s : TelemetrySnapshot) : option TelemetrySnapshot :=
  match parts with
  | [] => Some s
  | part :: parts => s ← parse_field part s; parse_fields parts s
  end.

Definition ParseLocalTelemetry (payload : string) : option TelemetrySnapshot := parse_fields (SplitByTab payload) empty_snapshot.

(** The reply to TELEMETRY SNAPSHOT. *)
Definition telemetry_summary (s : TelemetrySnapshot) (nodes_total nodes_available : Z) : string :=
  join " " (telemetry_fields s
    ++ [assign "nodes_total" (to_string (nodes_total + 1)); assign "nodes_available" (to_string (nodes_available + 1))]).
