(* ===== verification/TelemetryFacts.v ===== *)
(** * What the telemetry counts

    A snapshot is compared with the log of all requests that were ever
    answered: the registry forgets old events, but its numbers are those of the
    full log, and adding up the snapshots of several servers gives the numbers
    of all their requests. *)
From S2P Require Import Prelude Numerals CommonTypes Codec Text VersionStore Wal Doubles Telemetry.
From Stdlib Require Import SpecFloat.
Open Scope Z_scope.

(** ** The log of all requests *)

Record Handled := MkHandled { h_time : Z; h_latency : Z; h_failed : bool }.

Definition event_of (h : Handled) : RequestEvent := MkEvent (h_time h) (double_of_int (h_latency h)) (h_failed h).

(** The requests that are not older than [window]. *)
Definition recent (window now : Z) (log : list Handled) : list Handled := filter (λ h, now - h_time h ≤ window) log.

Definition failures (log : list Handled) : list Handled := filter (λ h, h_failed h = true) log.

Definition total_latency (log : list Handled) : Z := foldr Z.add 0 (map h_latency log).

(** Those of the last ten minutes in second [k]. *)
Definition in_second (k now : Z) (log : list Handled) : list Handled :=
  filter (λ h, second_of (h_time h) = k) (recent kWindow10Minutes now log).

Definition count {A} (l : list A) : Z := Z.of_nat (length l).

(** The counters of a snapshot are those of the log ... *)
Record counted (now : Z) (log : list Handled) (s : TelemetrySnapshot) : Prop := {
  counted_requests : requests_1m s = count (recent kWindow1Minute now log);
  counted_errors : error_count_1m s = count (failures (recent kWindow1Minute now log));
  counted_samples : latency_samples_10s s = count (recent kWindow10Seconds now log);
  counted_latency : latency_sum_10s_ms s = double_of_int (total_latency (recent kWindow10Seconds now log));
  counted_buckets : ∀ k, bucket k (requests_per_second_10m s) = count (in_second k now log)
}.

(** ... and so are the rates. *)
Record summarizes (now : Z) (log : list Handled) (s : TelemetrySnapshot) : Prop := {
  summary_counted : counted now log s;
  summary_current : current_rps s = double_of_int (count (in_second (second_of now) now log));
  summary_average : average_rps_10m s = double_div (double_of_int (count (recent kWindow10Minutes now log))) (double_of_int 600);
  summary_max : ∃ largest, max_rps_10m s = double_of_int largest ∧ (∀ k, count (in_second k now log) ≤ largest) ∧
    (largest = 0 ∨ ∃ k, count (in_second k now log) = largest);
  summary_latency : average_latency_10s_ms s =
    ratio (double_of_int (total_latency (recent kWindow10Seconds now log))) (count (recent kWindow10Seconds now log));
  summary_errors : error_rate_1m s =
    ratio (double_of_int (count (failures (recent kWindow1Minute now log)))) (count (recent kWindow1Minute now log))
}.

(** Logs whose numbers fit the types: no counter wraps around and the latencies
    add up exactly. *)
Definition log_ok (log : list Handled) : Prop :=
  count log < uint64_modulus ∧ Forall (λ h, 0 ≤ h_latency h) log ∧ total_latency log < 2 ^ 53.

(** ** Counting *)

Lemma count_app {A} (a b : list A) : count (a ++ b) = count a + count b.
Proof. unfold count. rewrite length_app. lia. Qed.

Lemma count_filter_le {A} (P : A → Prop) `{∀ x, Decision (P x)} l : 0 ≤ count (filter P l) ≤ count l.
Proof. unfold count. pose proof (length_filter P l). lia. Qed.

Lemma recent_app window now a b : recent window now (a ++ b) = recent window now a ++ recent window now b.
Proof. apply filter_app. Qed.

Lemma failures_app a b : failures (a ++ b) = failures a ++ failures b.
Proof. apply filter_app. Qed.

Lemma in_second_app k now a b : in_second k now (a ++ b) = in_second k now a ++ in_second k now b.
Proof. unfold in_second. by rewrite recent_app, filter_app. Qed.

Lemma total_latency_app a b : total_latency (a ++ b) = total_latency a + total_latency b.
Proof. unfold total_latency. rewrite map_app, foldr_app. induction (map h_latency a); simpl; lia. Qed.

Lemma recent_recent w w' now log : w ≤ w' → recent w now (recent w' now log) = recent w now log.
Proof.
  intros Hw. unfold recent. rewrite list_filter_filter_l; [done|]. intros h Hh. lia.
Qed.

Lemma total_latency_recent window now log :
  Forall (λ h, 0 ≤ h_latency h) log → 0 ≤ total_latency (recent window now log) ≤ total_latency log.
Proof.
  intros Hl. unfold total_latency, recent. induction Hl as [|h log Hh Hl IH]; [done|].
  rewrite filter_cons. destruct (decide _); simpl; lia.
Qed.

Lemma log_ok_app a b : log_ok (a ++ b) → log_ok a ∧ log_ok b.
Proof.
  intros (Hc & [Ha Hb]%Forall_app & Ht). rewrite count_app in Hc. rewrite total_latency_app in Ht.
  assert (∀ l, Forall (λ h, 0 ≤ h_latency h) l → 0 ≤ total_latency l) as Hn
    by (intros l Hl; unfold total_latency; induction Hl; simpl; lia).
  pose proof (Hn a Ha). pose proof (Hn b Hb). assert (∀ l : list Handled, 0 ≤ count l) by (unfold count; lia).
  pose proof (H1 a). pose proof (H1 b). unfold log_ok. split_and!; try done; lia.
Qed.

Lemma add_u64_small a b : 0 ≤ a → 0 ≤ b → a + b < uint64_modulus → add_u64 a b = a + b.
Proof. intros. unfold add_u64. apply Z.mod_small. lia. Qed.

Lemma bucket_insert k k' v m : bucket k (<[k' := v]> m) = if decide (k = k') then v else bucket k m.
Proof. unfold bucket. destruct (decide (k = k')) as [->|]; [by rewrite lookup_insert_eq|by rewrite lookup_insert_ne]. Qed.

(** ** Buckets *)

Definition bucket_sum (m : Buckets) : Z := map_fold (λ _ n total, total + n) 0 m.

Lemma bucket_sum_insert k n m : m !! k = None → bucket_sum (<[k := n]> m) = bucket_sum m + n.
Proof. intros Hk. unfold bucket_sum. rewrite map_fold_insert_L; [done|intros; lia|done]. Qed.

Lemma bucket_sum_update k n m : bucket_sum (<[k := n]> m) = bucket_sum m - bucket k m + n.
Proof.
  unfold bucket. destruct (m !! k) as [n'|] eqn:E; simpl; [|rewrite bucket_sum_insert by done; lia].
  rewrite <-insert_delete_eq, bucket_sum_insert by apply lookup_delete_eq.
  rewrite <-(insert_delete_id m k n') at 2 by done. rewrite bucket_sum_insert by apply lookup_delete_eq. lia.
Qed.

Lemma bucket_total_sum m : bucket_total m = bucket_sum m mod uint64_modulus.
Proof.
  induction m as [|k n m Hk Hf IH] using map_first_key_ind; [done|].
  unfold bucket_total, bucket_sum in *. rewrite !map_fold_insert_first_key by done. rewrite IH.
  unfold add_u64. by rewrite Zplus_mod_idemp_l.
Qed.

(** The buckets of a list of keys add up to its length. *)
Lemma bucket_sum_count (keys : list Z) m :
  (∀ k, bucket k m = count (filter (λ k', k' = k) keys)) → bucket_sum m = count keys.
Proof.
  revert m. induction keys as [|key keys IH]; intros m Hm.
  - induction m as [|k n m Hk IHm] using map_ind; [done|].
    pose proof (Hm k) as Hn. rewrite bucket_insert, decide_True in Hn by done. rewrite bucket_sum_insert by done.
    rewrite Hn, IHm; [done|]. intros k'. pose proof (Hm k') as Hm'. rewrite bucket_insert in Hm'.
    destruct (decide (k' = k)) as [->|]; [|done]. unfold bucket. by rewrite Hk.
  - pose proof (Hm key) as Hkey. rewrite filter_cons_True in Hkey by done.
    assert (H : bucket_sum (<[key := bucket key m - 1]> m) = count keys).
    { apply IH. intros k. rewrite bucket_insert. destruct (decide (k = key)) as [->|Hne].
      - rewrite Hkey. unfold count. simpl. lia.
      - rewrite Hm. by rewrite filter_cons_False by congruence. }
    rewrite bucket_sum_update in H. unfold count in *. simpl. lia.
Qed.

Lemma bucket_max_spec m :
  (∀ k, 0 ≤ bucket k m) → (∀ k, bucket k m ≤ bucket_max m) ∧ (bucket_max m = 0 ∨ ∃ k, bucket k m = bucket_max m).
Proof.
  unfold bucket_max. induction m as [|k n m Hk IH] using map_ind; intros Hpos; [by split; [|left]|].
  assert (Hpos' : ∀ k, 0 ≤ bucket k m).
  { intros k'. specialize (Hpos k'). rewrite bucket_insert in Hpos. destruct (decide (k' = k)) as [->|]; [|done].
    unfold bucket. by rewrite Hk. }
  rewrite map_fold_insert_L; [|intros; lia|done]. destruct (IH Hpos') as [Hle Hmax]. split.
  - intros k'. rewrite bucket_insert. destruct (decide _); [|specialize (Hle k')]; lia.
  - right. pose proof (Hpos k) as Hn. rewrite bucket_insert, decide_True in Hn by done.
    destruct (decide (map_fold (λ _ count largest, Z.max largest count) 0 m ≤ n)) as [Hn'|Hn'].
    + exists k. rewrite bucket_insert, decide_True by done. lia.
    + destruct Hmax as [Hmax|[k' Hk']]; [lia|]. exists k'. rewrite bucket_insert.
      destruct (decide (k' = k)) as [->|]; [|lia]. unfold bucket in Hk'. rewrite Hk in Hk'. simpl in Hk'. lia.
Qed.

Lemma bucket_same k m k' : bucket k (<[k' := bucket k' m]> m) = bucket k m.
Proof. rewrite bucket_insert. by destruct (decide (k = k')) as [->|]. Qed.

(** ** Rates *)

Lemma second_keys k (log : list Handled) :
  count (filter (λ h, second_of (h_time h) = k) log) = count (filter (λ k', k' = k) (map (λ h, second_of (h_time h)) log)).
Proof.
  unfold count. f_equal. induction log as [|h l IH]; [done|].
  cbn [map]. rewrite !filter_cons. destruct (decide _); simpl; by rewrite IH.
Qed.

(** The counters of a snapshot are those of the requests [minute], [seconds] and
    [ten] of the last minute, ten seconds and ten minutes ... *)
Record tallied (minute seconds ten : list Handled) (s : TelemetrySnapshot) : Prop := {
  tallied_requests : requests_1m s = count minute;
  tallied_errors : error_count_1m s = count (failures minute);
  tallied_samples : latency_samples_10s s = count seconds;
  tallied_latency : latency_sum_10s_ms s = double_of_int (total_latency seconds);
  tallied_buckets : ∀ k, bucket k (requests_per_second_10m s) = count (filter (λ h, second_of (h_time h) = k) ten)
}.

(** ... and so are the rates at the time [now]. *)
Record summed (now : Z) (minute seconds ten : list Handled) (s : TelemetrySnapshot) : Prop := {
  summed_tallied : tallied minute seconds ten s;
  summed_current : current_rps s = double_of_int (count (filter (λ h, second_of (h_time h) = second_of now) ten));
  summed_average : average_rps_10m s = double_div (double_of_int (count ten)) (double_of_int 600);
  summed_max : ∃ largest, max_rps_10m s = double_of_int largest ∧
    (∀ k, count (filter (λ h, second_of (h_time h) = k) ten) ≤ largest) ∧
    (largest = 0 ∨ ∃ k, count (filter (λ h, second_of (h_time h) = k) ten) = largest);
  summed_latency : average_latency_10s_ms s = ratio (double_of_int (total_latency seconds)) (count seconds);
  summed_errors : error_rate_1m s = ratio (double_of_int (count (failures minute))) (count minute)
}.

Lemma counted_tallied now log s : counted now log s ↔
  tallied (recent kWindow1Minute now log) (recent kWindow10Seconds now log) (recent kWindow10Minutes now log) s.
Proof. split; intros [H1 H2 H3 H4 H5]; by split. Qed.

Lemma derive_summed now minute seconds ten s :
  count ten < uint64_modulus → tallied minute seconds ten s →
  summed now minute seconds ten (derive_rates (second_of now) s).
Proof.
  intros Hc [Hr He Hs Hl Hb]. set (m := requests_per_second_10m s) in *.
  assert (Hb' : ∀ k, bucket k (<[second_of now := bucket (second_of now) m]> m) = count (filter (λ h, second_of (h_time h) = k) ten))
    by (intros k; by rewrite bucket_same).
  split; [split; try done| | | | |]; cbn [derive_rates current_rps average_rps_10m max_rps_10m average_latency_10s_ms error_rate_1m].
  - by rewrite Hb'.
  - do 2 f_equal. rewrite bucket_total_sum.
    rewrite (bucket_sum_count (map (λ h, second_of (h_time h)) ten)); [|intros k; by rewrite Hb', second_keys].
    unfold count in *. rewrite length_map. apply Z.mod_small. lia.
  - eexists. split; [done|]. destruct (bucket_max_spec (<[second_of now := bucket (second_of now) m]> m)) as [Hle Hmax].
    { intros k. rewrite Hb'. unfold count. lia. }
    split; [intros k; rewrite <-Hb'; apply Hle|]. destruct Hmax as [?|[k Hk]]; [by left|right]. exists k. by rewrite <-Hb'.
  - by rewrite Hl, Hs.
  - by rewrite He, Hr.
Qed.

Lemma derive_summarizes now log s :
  count log < uint64_modulus → counted now log s → summarizes now log (derive_rates (second_of now) s).
Proof.
  intros Hc Hs%counted_tallied. pose proof (count_filter_le (λ h, now - h_time h ≤ kWindow10Minutes) log).
  assert (Hten : count (recent kWindow10Minutes now log) < uint64_modulus) by (unfold recent; lia).
  destruct (derive_summed now _ _ _ s Hten Hs) as [H1 H2 H3 H4 H5 H6].
  split; try done. by apply counted_tallied.
Qed.

(** ** Adding up *)

Lemma merge_buckets a b k :
  (∀ k, 0 ≤ bucket k a) → (∀ k, 0 ≤ bucket k b) → (∀ k, bucket k a + bucket k b < uint64_modulus) →
  bucket k (map_fold add_to_bucket a b) = bucket k a + bucket k b.
Proof.
  revert k. induction b as [|key n b Hk Hf IH] using map_first_key_ind; intros k Ha Hb Hs.
  { rewrite map_fold_empty. change (bucket k ∅) with 0. lia. }
  assert (Hless : ∀ k, 0 ≤ bucket k b ≤ bucket k (<[key := n]> b)).
  { intros k'. pose proof (Hb k') as Hk'. rewrite bucket_insert in Hk' |- *. destruct (decide (k' = key)) as [->|]; [|lia].
    unfold bucket. rewrite Hk. simpl. lia. }
  rewrite map_fold_insert_first_key by done. unfold add_to_bucket at 1. rewrite !bucket_insert.
  assert (Hs' : ∀ k, bucket k a + bucket k b < uint64_modulus) by (intros k'; specialize (Hs k'); specialize (Hless k'); lia).
  destruct (decide (k = key)) as [->|]; [|by apply IH; [|intros k'; apply Hless|]].
  rewrite IH; [|done|intros k'; apply Hless|done].
  pose proof (Hs key) as Hs1. pose proof (Hb key) as Hb1. rewrite bucket_insert, decide_True in Hs1, Hb1 by done.
  assert (bucket key b = 0) as -> by (unfold bucket; by rewrite Hk). rewrite Z.add_0_r. by apply add_u64_small.
Qed.

Lemma in_second_le k now log : 0 ≤ count (in_second k now log) ≤ count log.
Proof.
  pose proof (count_filter_le (λ h, second_of (h_time h) = k) (recent kWindow10Minutes now log)).
  pose proof (count_filter_le (λ h, now - h_time h ≤ kWindow10Minutes) log). unfold in_second, recent in *. lia.
Qed.

Lemma recent_le window now log : 0 ≤ count (recent window now log) ≤ count log.
Proof. apply count_filter_le. Qed.

Lemma failures_le window now log : 0 ≤ count (failures (recent window now log)) ≤ count log.
Proof.
  pose proof (count_filter_le (λ h, h_failed h = true) (recent window now log)). pose proof (recent_le window now log).
  unfold failures. lia.
Qed.

Lemma merge_tallied m m' sec sec' ten ten' s s' :
  count (m ++ m') < uint64_modulus → log_ok (sec ++ sec') → count (ten ++ ten') < uint64_modulus →
  tallied m sec ten s → tallied m' sec' ten' s' →
  tallied (m ++ m') (sec ++ sec') (ten ++ ten') (merge_snapshot s s').
Proof.
  intros Hm (Hsec & [Hla Hlb]%Forall_app & Ht) Hten [Hr He Hs Hl Hb] [Hr' He' Hs' Hl' Hb'].
  rewrite count_app in Hm, Hsec, Hten. rewrite total_latency_app in Ht.
  assert (Hpos : ∀ l : list Handled, 0 ≤ count l) by (unfold count; lia).
  assert (Hnn : ∀ l, Forall (λ h, 0 ≤ h_latency h) l → 0 ≤ total_latency l)
    by (intros l HF; unfold total_latency; induction HF; simpl; lia).
  pose proof (count_filter_le (λ h, h_failed h = true) m). pose proof (count_filter_le (λ h, h_failed h = true) m').
  split; cbn [merge_snapshot requests_1m error_count_1m latency_samples_10s latency_sum_10s_ms requests_per_second_10m];
    rewrite ?failures_app, ?count_app, ?total_latency_app.
  - rewrite Hr, Hr'. by apply add_u64_small.
  - rewrite He, He'. unfold failures in *. apply add_u64_small; lia.
  - rewrite Hs, Hs'. by apply add_u64_small.
  - rewrite Hl, Hl'. apply double_add_int; auto.
  - intros k. rewrite filter_app, count_app, <-Hb, <-Hb'.
    assert (Hk : ∀ k l, 0 ≤ count (filter (λ h, second_of (h_time h) = k) l) ≤ count l)
      by (intros k' l; apply count_filter_le).
    apply merge_buckets; intros k'; rewrite ?Hb, ?Hb'; pose proof (Hk k' ten); pose proof (Hk k' ten'); lia.
Qed.

(** ** The events of a registry *)

Lemma empty_counted now : counted now [] empty_snapshot.
Proof. by split. Qed.

Lemma count_event_counted now kept h s :
  log_ok (kept ++ [h]) → now - h_time h ≤ kWindow10Minutes → counted now kept s →
  counted now (kept ++ [h]) (count_event now s (event_of h)).
Proof.
  intros (Hc & [Hk Hh]%Forall_app & Ht) Hr [H1 H2 H3 H4 H5]. rewrite count_app in Hc. rewrite total_latency_app in Ht.
  change (count [h]) with 1 in Hc. unfold total_latency at 2 in Ht. simpl in Ht. rewrite Forall_singleton in Hh.
  assert (Hrec : ∀ w, recent w now [h] = if now - h_time h <=? w then [h] else [])
    by (intros w; unfold recent; rewrite filter_cons; destruct (Z.leb_spec (now - h_time h) w); case_decide; done || lia).
  split; cbn [count_event event_of event_time event_failed event_latency requests_1m error_count_1m latency_samples_10s latency_sum_10s_ms requests_per_second_10m];
    rewrite ?recent_app, ?failures_app, ?count_app, ?total_latency_app, ?Hrec.
  - rewrite H1. pose proof (recent_le kWindow1Minute now kept). destruct (_ <=? _); [|unfold count; simpl; lia].
    change (count [h]) with 1. apply add_u64_small; lia.
  - rewrite H2. pose proof (failures_le kWindow1Minute now kept). destruct (_ <=? _); cbn [andb]; [|unfold count; simpl; lia].
    assert (failures [h] = if h_failed h then [h] else []) as -> by (unfold failures; rewrite filter_cons; by destruct (h_failed h)).
    destruct (h_failed h); [|unfold count; simpl; lia].
    change (count [h]) with 1. apply add_u64_small; lia.
  - rewrite H3. pose proof (recent_le kWindow10Seconds now kept). destruct (_ <=? _); [|unfold count; simpl; lia].
    change (count [h]) with 1. apply add_u64_small; lia.
  - rewrite H4. pose proof (total_latency_recent kWindow10Seconds now kept Hk).
    destruct (_ <=? _); [|unfold total_latency at 3; simpl; by rewrite Z.add_0_r].
    unfold total_latency at 3. simpl. rewrite Z.add_0_r. apply double_add_int; lia.
  - intros k. unfold add_to_bucket. rewrite bucket_insert, in_second_app, count_app, <-H5. unfold in_second. rewrite Hrec.
    rewrite (proj2 (Z.leb_le _ _)) by done. rewrite filter_cons, filter_nil.
    pose proof (in_second_le (second_of (h_time h)) now kept).
    destruct (decide (k = second_of (h_time h))) as [->|]; case_decide; try congruence.
    + rewrite H5. change (count [h]) with 1. apply add_u64_small; lia.
    + unfold count. simpl. lia.
Qed.

Lemma count_events_counted now kept :
  log_ok kept → Forall (λ h, now - h_time h ≤ kWindow10Minutes) kept →
  counted now kept (foldl (count_event now) empty_snapshot (map event_of kept)).
Proof.
  induction kept as [|h kept IH] using rev_ind; intros Hok Hr; [apply empty_counted|].
  apply Forall_app in Hr as [Hr Hh]. rewrite Forall_singleton in Hh. rewrite map_app, foldl_app. simpl.
  apply count_event_counted; [done|done|]. apply IH; [|done]. by apply log_ok_app in Hok as [? _].
Qed.

Lemma filter_all {A} (P : A → Prop) `{∀ x, Decision (P x)} l : Forall P l → filter P l = l.
Proof. induction 1 as [|x l Hx Hl IH]; [done|]. by rewrite filter_cons_True, IH. Qed.

(** With times in order the registry forgets exactly what is too old. *)
Lemma prune_recent now kept :
  StronglySorted Z.le (map h_time kept) → PruneLocked now (map event_of kept) = map event_of (recent kWindow10Minutes now kept).
Proof.
  induction kept as [|h kept IH]; cbn [map PruneLocked event_of event_time]; intros Hs; [done|].
  inversion Hs as [|? ? Hsorted Hle]; subst. unfold recent. rewrite filter_cons.
  destruct (Z.gtb_spec (now - h_time h) kWindow10Minutes); case_decide; try lia; [by apply IH|].
  cbn [map]. do 2 f_equal. symmetry. apply filter_all. rewrite Forall_map in Hle. eapply Forall_impl; [exact Hle|].
  simpl. intros h' Hh'. lia.
Qed.

(** What happens to a registry: requests are answered and snapshots are taken. *)
Inductive TelemetryAction := Answered (h : Handled) | Asked (now : Z).

Definition action_time (a : TelemetryAction) : Z := match a with Answered h => h_time h | Asked now => now end.

Definition observe (events : TelemetryRegistry) (a : TelemetryAction) : TelemetryRegistry :=
  match a with
  | Answered h =>
      if h_failed h then RecordFailure (h_time h) (double_of_int (h_latency h)) events
      else RecordSuccess (h_time h) (double_of_int (h_latency h)) events
  | Asked now => (Snapshot now events).2
  end.

Definition answered (acts : list TelemetryAction) : list Handled :=
  omap (λ a, match a with Answered h => Some h | Asked _ => None end) acts.

Lemma answered_times acts h : h ∈ answered acts → h_time h ∈ map action_time acts.
Proof.
  intros (a & Ha & Hh)%list_elem_of_omap. destruct a; simplify_eq.
  apply list_elem_of_fmap. by exists (Answered h).
Qed.

Lemma answered_sorted acts : StronglySorted Z.le (map action_time acts) → StronglySorted Z.le (map h_time (answered acts)).
Proof.
  induction acts as [|a acts IH]; simpl; intros Hs; [constructor|]. inversion Hs as [|? ? Hsorted Hle]; subst.
  destruct a as [h|now]; simpl in *; [|by apply IH]. constructor; [by apply IH|].
  rewrite Forall_map. apply Forall_forall. intros h' Hh'. rewrite Forall_forall in Hle. apply Hle. by apply answered_times.
Qed.

Lemma recent_recent_later window now now' log :
  now ≤ now' → recent window now' (recent window now log) = recent window now' log.
Proof. intros Hn. unfold recent. rewrite list_filter_filter_l; [done|]. intros h Hh. lia. Qed.

Lemma recent_sorted window now log : StronglySorted Z.le (map h_time log) → StronglySorted Z.le (map h_time (recent window now log)).
Proof.
  induction log as [|h log IH]; intros Hs; [done|]. inversion Hs as [|? ? Hsorted Hle]; subst.
  unfold recent. rewrite filter_cons. case_decide; [|by apply IH]. simpl. constructor; [by apply IH|].
  rewrite Forall_map, !Forall_forall in Hle |- *. intros h' Hh'. apply Hle.
  by apply list_elem_of_filter in Hh' as [_ ?].
Qed.

Lemma observe_answered h events : observe events (Answered h) = PruneLocked (h_time h) events ++ [event_of h].
Proof. destruct h as [t l []]; done. Qed.

(** At every time the registry, pruned, is the recent part of the log. *)
Lemma observed_events acts now :
  StronglySorted Z.le (map action_time (acts ++ [Asked now])) →
  PruneLocked now (foldl observe [] acts) = map event_of (recent kWindow10Minutes now (answered acts)).
Proof.
  revert now. induction acts as [|a acts IH] using rev_ind; intros now Hs; [done|].
  rewrite map_app in Hs. apply StronglySorted_app in Hs as (Hle & Hs & _).
  assert (Hprev : PruneLocked (action_time a) (foldl observe [] acts) = map event_of (recent kWindow10Minutes (action_time a) (answered acts)))
    by (apply IH; by rewrite map_app in Hs |- *).
  assert (Hnow : action_time a ≤ now) by (apply Hle; [rewrite map_app; set_solver|set_solver]).
  assert (Hsorted := answered_sorted (acts ++ [a]) Hs).
  rewrite foldl_app. unfold answered in Hsorted |- *. rewrite omap_app in Hsorted |- *. fold (answered acts) in Hsorted |- *.
  destruct a as [h|t]; cbn [foldl omap list_omap action_time] in *.
  - rewrite observe_answered, Hprev. change [event_of h] with (map event_of [h]). rewrite <-map_app, prune_recent.
    + by rewrite !recent_app, recent_recent_later.
    + assert ([h] = recent kWindow10Minutes (h_time h) [h]) as ->
        by (unfold recent; rewrite filter_all; [done|]; repeat constructor; unfold kWindow10Minutes, nanoseconds; lia).
      rewrite <-recent_app. by apply recent_sorted.
  - change (observe (foldl observe [] acts) (Asked t)) with (PruneLocked t (foldl observe [] acts)). rewrite app_nil_r in *. rewrite Hprev, prune_recent by (by apply recent_sorted).
    by rewrite recent_recent_later.
Qed.

Lemma counted_recent now log s : counted now (recent kWindow10Minutes now log) s → counted now log s.
Proof.
  intros [H1 H2 H3 H4 H5].
  rewrite recent_recent in H1, H2, H3, H4 by (unfold kWindow1Minute, kWindow10Seconds, kWindow10Minutes, nanoseconds; lia).
  split; try done. intros k. rewrite H5. unfold in_second. by rewrite recent_recent.
Qed.

Lemma log_ok_recent window now log : log_ok log → log_ok (recent window now log).
Proof.
  intros (Hc & Hl & Ht). pose proof (recent_le window now log). pose proof (total_latency_recent window now log Hl).
  split_and!; [lia| |lia]. rewrite Forall_forall in Hl |- *. intros h [_ Hh]%list_elem_of_filter. by apply Hl.
Qed.

(** Without recent requests everything is zero. *)
Lemma empty_summarizes now log : recent kWindow10Minutes now log = [] → summarizes now log empty_snapshot.
Proof.
  intros He. assert (Hr : ∀ w, w ≤ kWindow10Minutes → recent w now log = []) by (intros w Hw; by rewrite <-(recent_recent w kWindow10Minutes), He).
  assert (Hs : ∀ k, in_second k now log = []) by (intros k; unfold in_second; by rewrite He).
  split; [split| | | | |]; intros; rewrite ?Hs, ?He, ?Hr by (unfold kWindow1Minute, kWindow10Seconds, kWindow10Minutes, nanoseconds; lia); try done.
  exists 0. split_and!; [done|intros k; by rewrite Hs|by left].
Qed.

(** The numbers of a snapshot are those of the whole past: when the clock
    does not go back, the snapshot taken after any requests and other snapshots
    counts exactly the requests, the failures, the latencies and the requests
    per second of the last minute, ten seconds and ten minutes among all
    requests ever answered, although the registry forgets old ones; the rates
    are the quotients of these numbers. *)
Lemma snapshot_summarizes_log acts now :
  StronglySorted Z.le (map action_time (acts ++ [Asked now])) → log_ok (answered acts) →
  summarizes now (answered acts) (Snapshot now (foldl observe [] acts)).1.
Proof.
  intros Hs Hok. unfold Snapshot. rewrite observed_events by done. cbn [fst].
  set (log := answered acts) in *. set (kept := recent kWindow10Minutes now log).
  assert (Hc : counted now log (foldl (count_event now) empty_snapshot (map event_of kept))).
  { apply counted_recent, count_events_counted; [by apply log_ok_recent|]. apply Forall_forall.
    intros h [? _]%list_elem_of_filter. done. }
  assert (Hsum := derive_summarizes now log _ (proj1 Hok) Hc).
  destruct kept as [|h kept'] eqn:Ek; [|exact Hsum]. by apply empty_summarizes.
Qed.
