(* ===== verification/TelemetryWire.v ===== *)
(** * Snapshots as texts

    What arrives of a snapshot that a node sends: the counters and the requests
    per second exactly, the rates and the sum of the latencies with the six
    digits they are printed with. *)
From S2P Require Import Prelude Numerals CommonTypes Codec Protocol Text VersionStore Wal Doubles Telemetry.
From S2P Require Import TelemetryFacts.
From Stdlib Require Import Ascii SpecFloat.
Open Scope Z_scope.

(** ** Texts without special characters *)

Lemma plain_app a b : plain (a +:+ b) = plain a && plain b.
Proof. induction a as [|c a IH]; simpl; [done|]. by rewrite IH, andb_assoc. Qed.

Lemma plain_zero_padded w n acc : plain acc = true → plain (zero_padded w n acc) = true.
Proof. revert n acc. induction w as [|w IH]; intros n acc Ha; cbn [zero_padded]; [done|]. by apply IH, plain_push_digit. Qed.

Lemma plain_strip_zeros s : plain s = true → plain (strip_zeros s) = true.
Proof.
  induction s as [|c s IH]; cbn [strip_zeros plain]; [done|]. intros [Hc Hs]%andb_true_iff.
  destruct (_ && _); [done|]. cbn [plain]. by rewrite Hc, IH.
Qed.

(** Texts that are not changed by escaping. *)
Definition unescaped (s : string) : Prop := EscapeField s = s.

Lemma unescaped_plain s : plain s = true → unescaped s.
Proof. apply escape_plain. Qed.

Lemma unescaped_app a b : unescaped a → unescaped b → unescaped (a +:+ b).
Proof. unfold unescaped. intros Ha Hb. by rewrite escape_app, Ha, Hb. Qed.

Lemma unescaped_if (b : bool) x y : unescaped x → unescaped y → unescaped (if b then x else y).
Proof. by destruct b. Qed.

Lemma unescaped_to_string z : unescaped (to_string z).
Proof. apply unescaped_plain, plain_to_string. Qed.

Lemma unescaped_padded k z : unescaped (zero_padded k z "").
Proof. by apply unescaped_plain, plain_zero_padded. Qed.

Lemma unescaped_fraction k z : unescaped (strip_zeros (zero_padded k z "")).
Proof. by apply unescaped_plain, plain_strip_zeros, plain_zero_padded. Qed.

Create HintDb texts.
#[export] Hint Resolve unescaped_app unescaped_if unescaped_to_string unescaped_padded unescaped_fraction : texts.
#[export] Hint Extern 2 (unescaped _) => reflexivity : texts.

Lemma unescaped_print d : unescaped (print_double d).
Proof.
  assert (Hp : ∀ m k, unescaped (with_point m k)) by (intros m k; unfold with_point; auto 8 with texts).
  assert (Hr : ∀ num den, unescaped (print_ratio num den)).
  { intros num den. unfold print_ratio. destruct (six_digits num den) as [m x]. auto 12 with texts. }
  destruct d as [[]|[]| |s m e]; try reflexivity. unfold print_double. auto 8 with texts.
Qed.

Lemma unescaped_bucket entry : unescaped (bucket_text entry).
Proof. unfold bucket_text. auto with texts. Qed.

Lemma unescaped_join sep texts : needs_escape sep = false → Forall unescaped texts → unescaped (join sep texts).
Proof.
  intros Hsep Ht. induction Ht as [|t texts Ht Hts IH]; [done|]. destruct texts as [|t' texts]; [done|].
  change (join sep (t :: t' :: texts)) with (t +:+ String sep (join sep (t' :: texts))).
  apply unescaped_app; [done|]. unfold unescaped in *. cbn [EscapeField]. by rewrite Hsep, IH.
Qed.

#[export] Hint Resolve unescaped_print unescaped_bucket : texts.

Lemma split_unescaped f fs : Forall unescaped (f :: fs) → SplitByTab (join tab (f :: fs)) = f :: fs.
Proof.
  intros Hf. assert (H : map EscapeField (f :: fs) = f :: fs) by (induction Hf; simpl; [done|]; by f_equal).
  unfold SplitByTab. rewrite <-H at 1. by rewrite split_join_escaped, H.
Qed.

(** ** Buckets *)

Lemma no_char_plain c s : plain_char c = false → plain s = true → no_char c s = true.
Proof.
  intros Hc. induction s as [|x s IH]; cbn [plain no_char]; [done|]. intros [Hx Hs]%andb_true_iff. rewrite IH by done.
  destruct (Ascii.eqb_spec x c) as [->|]; [congruence|done].
Qed.

Lemma pieces_from_app sep cur s t :
  no_char sep s = true → pieces_from sep cur (s +:+ t) = pieces_from sep (cur +:+ s) t.
Proof.
  revert cur. induction s as [|c s IH]; intros cur; simpl; [by rewrite str_app_nil_r|].
  intros [H1%negb_true_iff H2]%andb_true_iff. by rewrite H1, IH, push_back_app.
Qed.

Lemma pieces_join sep texts :
  Forall (λ t, no_char sep t = true ∧ t ≠ "") texts → pieces_from sep "" (join sep texts) = texts.
Proof.
  intros Ht. induction Ht as [|t texts [Hc Hne] Hts IH]; [done|]. destruct texts as [|t' texts].
  - cbn [join]. rewrite <-(str_app_nil_r t) at 1. rewrite pieces_from_app by done. cbn [pieces_from String.append].
    by apply String.eqb_neq in Hne as ->.
  - change (join sep (t :: t' :: texts)) with (t +:+ String sep (join sep (t' :: texts))).
    rewrite pieces_from_app by done. cbn [pieces_from]. by rewrite Ascii.eqb_refl, IH.
Qed.

Definition entry_ok (entry : Z * Z) : Prop := in_int64 entry.1 ∧ in_uint64 entry.2.

Lemma parse_bucket_text entry m :
  entry_ok entry → m !! entry.1 = None → parse_bucket (bucket_text entry) m = Some (<[entry.1 := entry.2]> m).
Proof.
  intros [Hk Hn] Hm. unfold parse_bucket, bucket_text. change (":" +:+ ?x) with (String ":" x).
  rewrite split_first_app by (apply no_char_plain; [done|apply plain_to_string]).
  by rewrite stoll_to_string, stoull_to_string, Hm by done.
Qed.

Lemma parse_bucket_texts entries m :
  Forall entry_ok entries → NoDup entries.*1 → (∀ k, k ∈ entries.*1 → m !! k = None) →
  parse_buckets (map bucket_text entries) m = Some (list_to_map entries ∪ m).
Proof.
  revert m. induction entries as [|entry entries IH]; intros m Hok Hnd Hm; simpl; [by rewrite (left_id_L ∅ (∪))|].
  apply Forall_cons in Hok as [He Hok]. apply NoDup_cons in Hnd as [Hnew Hnd].
  rewrite parse_bucket_text by (try done; apply Hm; set_solver). rewrite IH; [|done|done|].
  - f_equal. rewrite <-insert_union_r by (by apply not_elem_of_list_to_map_1). by rewrite insert_union_l.
  - intros k Hk. rewrite lookup_insert_ne by (intros <-; done). apply Hm. set_solver.
Qed.

Lemma bucket_list_map m : list_to_map (bucket_list m) = m.
Proof. symmetry. apply list_to_map_flip. unfold bucket_list. by rewrite merge_sort_Permutation. Qed.

Lemma bucket_text_piece entry : no_char "," (bucket_text entry) = true ∧ bucket_text entry ≠ "".
Proof.
  assert (H : ∀ z, no_char "," (to_string z) = true) by (intros z; apply no_char_plain; [done|apply plain_to_string]).
  split; unfold bucket_text; [by rewrite !no_char_app, !H|]. destruct (to_string entry.1); done.
Qed.

Lemma parse_bucket_field m :
  map_Forall (λ k n, entry_ok (k, n)) m →
  parse_buckets (pieces_from "," "" (join "," (map bucket_text (bucket_list m)))) ∅ = Some m.
Proof.
  intros Hm. rewrite pieces_join by (apply Forall_map, Forall_forall; intros; apply bucket_text_piece).
  assert (Hp : bucket_list m ≡ₚ map_to_list m) by apply merge_sort_Permutation.
  rewrite parse_bucket_texts; [by rewrite bucket_list_map, (right_id_L ∅ (∪))| | |by intros; rewrite lookup_empty].
  - apply Forall_forall. intros [k n] Hin. rewrite Hp in Hin. apply elem_of_map_to_list in Hin. by apply Hm.
  - rewrite Hp. apply NoDup_fst_map_to_list.
Qed.

(** ** Snapshots *)

Definition counters_ok (s : TelemetrySnapshot) : Prop :=
  in_uint64 (error_count_1m s) ∧ in_uint64 (requests_1m s) ∧ in_uint64 (latency_samples_10s s) ∧
  map_Forall (λ k n, entry_ok (k, n)) (requests_per_second_10m s).

(** A double as it is read back. *)
Definition reread (d d' : double) : Prop := as_double (print_double d) = Some d'.

Lemma as_count_to_string z : in_uint64 z → as_count (to_string z) = Some z.
Proof. intros Hz. unfold as_count. by rewrite stoull_to_string. Qed.

Lemma join_empty sep texts : Forall (λ t, t ≠ "") texts → join sep texts = "" → texts = [].
Proof. intros Ht. destruct texts as [|t [|t' texts]]; [done| |]; apply Forall_cons in Ht as [Ht _]; by destruct t. Qed.

Lemma parse_field_assign key value s : no_char "=" key = true → parse_field (assign key value) s = set_field key value s.
Proof.
  intros Hk. unfold parse_field, assign. change ("=" +:+ value) with (String "=" value). by rewrite split_first_app.
Qed.

(** Reads one more field. *)
Ltac next_field := rewrite parse_field_assign by done; unfold set_field at 1; cbn [String.eqb Ascii.eqb Bool.eqb].

(** What arrives: the doubles as they are read back, if all of them can be. *)
Definition arrived (s : TelemetrySnapshot) : option TelemetrySnapshot :=
  cur ← as_double (print_double (current_rps s));
  avg ← as_double (print_double (average_rps_10m s));
  mx ← as_double (print_double (max_rps_10m s));
  lat ← as_double (print_double (average_latency_10s_ms s));
  rate ← as_double (print_double (error_rate_1m s));
  total ← as_double (print_double (latency_sum_10s_ms s));
  Some (MkSnapshot cur avg mx lat (error_count_1m s) rate (requests_1m s) (latency_samples_10s s) total (requests_per_second_10m s)).

Lemma serialized_fields s : ∃ fields, SplitByTab (SerializeLocalTelemetry s) = fields ∧ fields = telemetry_fields s
  ++ [assign "requests_1m" (to_string (requests_1m s)); assign "latency_samples_10s" (to_string (latency_samples_10s s));
      assign "latency_sum_10s_ms" (print_double (latency_sum_10s_ms s));
      assign "buckets" (join "," (map bucket_text (bucket_list (requests_per_second_10m s))))].
Proof.
  eexists. split; [|reflexivity]. unfold SerializeLocalTelemetry, telemetry_fields. cbn [app]. apply split_unescaped.
  unfold assign. repeat (apply Forall_cons; split); try apply Forall_nil; auto with texts.
  apply unescaped_app; [done|]. apply unescaped_app; [done|]. apply unescaped_join; [done|].
  apply Forall_map, Forall_forall. intros. apply unescaped_bucket.
Qed.

Lemma parse_serialized s : counters_ok s → ParseLocalTelemetry (SerializeLocalTelemetry s) = arrived s.
Proof.
  intros (He & Hr & Hs & Hb). unfold ParseLocalTelemetry. destruct (serialized_fields s) as (fields & -> & ->).
  unfold telemetry_fields, arrived. cbn [app parse_fields]. unfold empty_snapshot.
  next_field. destruct (as_double (print_double (current_rps s))) as [cur|]; cbn [mbind option_bind]; [|done].
  next_field. destruct (as_double (print_double (average_rps_10m s))) as [avg|]; cbn [mbind option_bind]; [|done].
  next_field. destruct (as_double (print_double (max_rps_10m s))) as [mx|]; cbn [mbind option_bind]; [|done].
  next_field. destruct (as_double (print_double (average_latency_10s_ms s))) as [lat|]; cbn [mbind option_bind]; [|done].
  next_field. rewrite as_count_to_string by done. cbn [mbind option_bind].
  next_field. destruct (as_double (print_double (error_rate_1m s))) as [rate|]; cbn [mbind option_bind]; [|done].
  next_field. rewrite as_count_to_string by done. cbn [mbind option_bind].
  next_field. rewrite as_count_to_string by done. cbn [mbind option_bind].
  next_field. destruct (as_double (print_double (latency_sum_10s_ms s))) as [total|]; cbn [mbind option_bind]; [|done].
  next_field. cbn [andb]. pose proof (parse_bucket_field _ Hb) as Hm.
  destruct (String.eqb_spec (join "," (map bucket_text (bucket_list (requests_per_second_10m s)))) "") as [E|E].
  - cbn [negb mbind option_bind]. apply join_empty in E; [|apply Forall_map, Forall_forall; intros; apply bucket_text_piece].
    rewrite <-(bucket_list_map (requests_per_second_10m s)). by destruct (bucket_list (requests_per_second_10m s)).
  - cbn [negb]. by rewrite Hm.
Qed.

(** C39: A node's snapshot, whose counters and seconds fit 64 bits and whose
    printed doubles can be read back, arrives at the coordinator with exactly
    its counters and its requests per second; the rates and the sum of the
    latencies arrive as the numbers their six printed digits denote. *)
Theorem telemetry_text_roundtrip s cur avg mx lat rate total :
  counters_ok s →
  reread (current_rps s) cur → reread (average_rps_10m s) avg → reread (max_rps_10m s) mx →
  reread (average_latency_10s_ms s) lat → reread (error_rate_1m s) rate → reread (latency_sum_10s_ms s) total →
  ParseLocalTelemetry (SerializeLocalTelemetry s) =
    Some (MkSnapshot cur avg mx lat (error_count_1m s) rate (requests_1m s) (latency_samples_10s s) total (requests_per_second_10m s)).
Proof.
  unfold reread. intros Hok Hcur Havg Hmx Hlat Hrate Htotal. rewrite parse_serialized by done. unfold arrived.
  rewrite Hcur, Havg, Hmx, Hlat, Hrate, Htotal. done.
Qed.

(** ** The snapshot of a cluster *)

(** What happened on a server until its snapshot was taken, and that time. *)
Definition ServerRun : Type := list TelemetryAction * Z.

Definition log_of_run (r : ServerRun) : list Handled := answered r.1.
Definition snapshot_of (r : ServerRun) : TelemetrySnapshot := (Snapshot r.2 (foldl observe [] r.1)).1.

(** The clock of the server does not go back, and its readings fit 64 bits. *)
Definition run_ok (r : ServerRun) : Prop :=
  StronglySorted Z.le (map action_time (r.1 ++ [Asked r.2])) ∧ Forall in_int64 (map action_time (r.1 ++ [Asked r.2])).

(** The requests of all servers that were in the window when their server took
    its snapshot. *)
Definition seen (window : Z) (runs : list ServerRun) : list Handled :=
  runs ≫= λ r, recent window r.2 (log_of_run r).

Lemma second_in_int64 t : in_int64 t → in_int64 (second_of t).
Proof.
  unfold in_int64, int64_min, int64_max, second_of. intros H. destruct (Z.le_ge_cases 0 t) as [Ht|Ht].
  - pose proof (Z.quot_pos t 1000000000 Ht ltac:(lia)). pose proof (Z.quot_le_upper_bound t 1000000000 t ltac:(lia)). lia.
  - pose proof (Z.quot_pos (- t) 1000000000 ltac:(lia) ltac:(lia)) as Hp.
    pose proof (Z.quot_le_upper_bound (- t) 1000000000 (- t) ltac:(lia)). rewrite Z.quot_opp_l in * by lia. lia.
Qed.

(** The seconds that have a bucket. *)
Lemma event_buckets now events s k :
  is_Some (requests_per_second_10m (foldl (count_event now) s events) !! k) →
  is_Some (requests_per_second_10m s !! k) ∨ k ∈ map (λ ev, second_of (event_time ev)) events.
Proof.
  revert s. induction events as [|ev events IH]; intros s; simpl; [by left|]. intros [H|H]%IH; [|right; by right].
  cbn [count_event requests_per_second_10m] in H. unfold add_to_bucket in H.
  destruct (decide (second_of (event_time ev) = k)) as [->|]; [right; left|left]. by rewrite lookup_insert_ne in H.
Qed.

Lemma snapshot_buckets r k : run_ok r → is_Some (requests_per_second_10m (snapshot_of r) !! k) → in_int64 k.
Proof.
  intros [Hs Ht] Hk. rewrite map_app, Forall_app in Ht. destruct Ht as [Ht [Hnow _]%Forall_cons]. simpl in Hnow.
  unfold snapshot_of, Snapshot in Hk. rewrite observed_events in Hk by done. cbn [fst] in Hk.
  destruct (map event_of (recent kWindow10Minutes r.2 (answered r.1))) as [|ev evs] eqn:Ek.
  { simpl in Hk. rewrite lookup_empty in Hk. by destruct Hk. }
  rewrite <-Ek in Hk. cbn [derive_rates requests_per_second_10m] in Hk.
  destruct (decide (second_of r.2 = k)) as [<-|Hne]; [by apply second_in_int64|].
  rewrite lookup_insert_ne in Hk by done. apply event_buckets in Hk as [[? Hd]|Hd];
    [cbn [empty_snapshot requests_per_second_10m] in Hd; by rewrite lookup_empty in Hd|].
  rewrite map_map in Hd. apply list_elem_of_fmap in Hd as (h' & -> & Hh'). simpl. apply second_in_int64.
  apply list_elem_of_filter in Hh' as [_ Hh']. apply answered_times in Hh'. rewrite Forall_forall in Ht. by apply Ht.
Qed.

Lemma snapshot_tallied r : run_ok r → log_ok (log_of_run r) →
  tallied (recent kWindow1Minute r.2 (log_of_run r)) (recent kWindow10Seconds r.2 (log_of_run r))
    (recent kWindow10Minutes r.2 (log_of_run r)) (snapshot_of r).
Proof. intros [Hs _] Hok. apply counted_tallied. by destruct (snapshot_summarizes_log r.1 r.2 Hs Hok). Qed.

Lemma snapshot_counters_ok r : run_ok r → log_ok (log_of_run r) → counters_ok (snapshot_of r).
Proof.
  intros Hr Hok. pose proof Hok as (Hc & _ & _). destruct (snapshot_tallied r Hr Hok) as [H1 H2 H3 _ H5].
  assert (Hin : ∀ n, 0 ≤ n ≤ count (log_of_run r) → in_uint64 n) by (unfold in_uint64; lia).
  unfold counters_ok. rewrite H1, H2, H3. split_and!; try apply Hin.
  - apply failures_le.
  - apply recent_le.
  - apply recent_le.
  - intros k n Hk. split; [by apply (snapshot_buckets r); [|eexists]|]. simpl.
    specialize (H5 k). unfold bucket in H5. rewrite Hk in H5. simpl in H5. subst n. apply Hin.
    apply (in_second_le k r.2 (log_of_run r)).
Qed.

(** An integer below [10 ^ 6] arrives as it is. *)
Lemma reread_int k d : 0 ≤ k < 10 ^ 6 → reread (double_of_int k) d → d = double_of_int k.
Proof.
  intros Hk. unfold reread, as_double. rewrite print_small_int by done. destruct (decide (k = 0)) as [->|]; [by intros [= <-]|].
  rewrite stod_small_int by lia. by intros [= <-].
Qed.

(** The counters that arrive are those of the server's requests. *)
Lemma received_tallied r s : run_ok r → log_ok (log_of_run r) →
  total_latency (recent kWindow10Seconds r.2 (log_of_run r)) < 10 ^ 6 →
  ParseLocalTelemetry (SerializeLocalTelemetry (snapshot_of r)) = Some s →
  tallied (recent kWindow1Minute r.2 (log_of_run r)) (recent kWindow10Seconds r.2 (log_of_run r))
    (recent kWindow10Minutes r.2 (log_of_run r)) s.
Proof.
  intros Hr Hok Hlat. rewrite parse_serialized by (by apply snapshot_counters_ok).
  destruct (snapshot_tallied r Hr Hok) as [H1 H2 H3 H4 H5]. unfold arrived.
  destruct (as_double (print_double (current_rps _))) as [cur|]; cbn [mbind option_bind]; [|done].
  destruct (as_double (print_double (average_rps_10m _))) as [avg|]; cbn [mbind option_bind]; [|done].
  destruct (as_double (print_double (max_rps_10m _))) as [mx|]; cbn [mbind option_bind]; [|done].
  destruct (as_double (print_double (average_latency_10s_ms _))) as [lat|]; cbn [mbind option_bind]; [|done].
  destruct (as_double (print_double (error_rate_1m _))) as [rate|]; cbn [mbind option_bind]; [|done].
  destruct (as_double (print_double (latency_sum_10s_ms _))) as [total|] eqn:Et; cbn [mbind option_bind]; [|done].
  intros [= <-]. split; try done. cbn [latency_sum_10s_ms]. rewrite H4 in Et. apply reread_int; [|done].
  destruct Hok as (_ & Hl & _). pose proof (total_latency_recent kWindow10Seconds r.2 (log_of_run r) Hl). lia.
Qed.

Lemma seen_cons window r runs : seen window (r :: runs) = recent window r.2 (log_of_run r) ++ seen window runs.
Proof. done. Qed.

Lemma seen_le window runs : 0 ≤ count (seen window runs) ≤ count (runs ≫= log_of_run).
Proof.
  induction runs as [|r runs IH]; [done|]. rewrite seen_cons. cbn [mbind list_bind]. rewrite !count_app.
  pose proof (recent_le window r.2 (log_of_run r)). fold (seen window runs). lia.
Qed.

Lemma log_ok_seen window runs : log_ok (runs ≫= log_of_run) → log_ok (seen window runs).
Proof.
  intros (Hc & Hl & Ht). pose proof (seen_le window runs).
  assert (Hsub : Forall (λ h, 0 ≤ h_latency h) (seen window runs) ∧ total_latency (seen window runs) ≤ total_latency (runs ≫= log_of_run)).
  { clear Hc Ht. induction runs as [|r runs IH]; [done|]. cbn [mbind list_bind] in Hl. apply Forall_app in Hl as [Hr Hl].
    destruct (IH Hl (seen_le window runs)) as [H1 H2]. rewrite seen_cons. cbn [mbind list_bind]. rewrite !total_latency_app.
    pose proof (total_latency_recent window r.2 (log_of_run r) Hr). split; [|lia]. apply Forall_app. split; [|done].
    rewrite Forall_forall in Hr |- *. intros h [_ Hh]%list_elem_of_filter. by apply Hr. }
  destruct Hsub. split_and!; [lia|done|lia].
Qed.

Lemma seen_app window a b : seen window (a ++ b) = seen window a ++ seen window b.
Proof. apply bind_app. Qed.

(** Adding up what arrives. *)
Lemma merge_all_tallied runs s nodes received :
  log_ok ((runs ++ nodes) ≫= log_of_run) →
  tallied (seen kWindow1Minute runs) (seen kWindow10Seconds runs) (seen kWindow10Minutes runs) s →
  Forall2 (λ r s, tallied (recent kWindow1Minute r.2 (log_of_run r)) (recent kWindow10Seconds r.2 (log_of_run r))
    (recent kWindow10Minutes r.2 (log_of_run r)) s) nodes received →
  tallied (seen kWindow1Minute (runs ++ nodes)) (seen kWindow10Seconds (runs ++ nodes)) (seen kWindow10Minutes (runs ++ nodes))
    (foldl merge_snapshot s received).
Proof.
  intros Hok Hs Hall. revert runs s Hok Hs. induction Hall as [|r s' nodes received Hr _ IH]; intros runs s Hok Hs; simpl.
  { by rewrite app_nil_r. }
  rewrite cons_middle, app_assoc in Hok |- *. apply IH; [done|].
  rewrite bind_app in Hok. apply log_ok_app in Hok as [Hok _].
  assert (Hone : ∀ w, seen w [r] = recent w r.2 (log_of_run r)) by (intros w; rewrite seen_cons; apply app_nil_r).
  pose proof (log_ok_seen kWindow1Minute _ Hok) as (Hm & _). pose proof (log_ok_seen kWindow10Minutes _ Hok) as (Ht & _).
  pose proof (log_ok_seen kWindow10Seconds _ Hok) as Hsec. rewrite !seen_app, !Hone in *. by apply merge_tallied.
Qed.

(** C37: The cluster snapshot adds up all requests: the coordinator takes its
    own snapshot and the ones that arrive from nodes, as texts, each taken at a
    time of its own by a server whose clock does not go back; at a later reading
    of its clock it derives the rates. Then the counters, the sum of the
    latencies, the requests per second and the rates are those of all the
    requests of all these servers that were in the last minute, ten seconds or
    ten minutes when their server took its snapshot. The latencies of the last
    ten seconds of a node sum up to less than 10^6 ms (above that the printed
    sum loses digits), no counter wraps around, and all latencies together stay
    below 2^53 ms. *)
Theorem aggregate_summarizes_all now here nodes received :
  Forall run_ok (here :: nodes) → log_ok ((here :: nodes) ≫= log_of_run) →
  Forall (λ r, total_latency (recent kWindow10Seconds r.2 (log_of_run r)) < 10 ^ 6) nodes →
  Forall2 (λ r s, ParseLocalTelemetry (SerializeLocalTelemetry (snapshot_of r)) = Some s) nodes received →
  let all := here :: nodes in
  summed now (seen kWindow1Minute all) (seen kWindow10Seconds all) (seen kWindow10Minutes all)
    (AggregateTelemetry now (snapshot_of here) received).
Proof.
  intros [Hhere Hnodes]%Forall_cons Hok Hlat Hall all. unfold AggregateTelemetry. apply derive_summed.
  { pose proof (seen_le kWindow10Minutes all). destruct Hok as [Hc _]. unfold all in *. lia. }
  pose proof Hok as Hok'. cbn [mbind list_bind] in Hok'. apply log_ok_app in Hok' as [Hok0 Hoks].
  apply (merge_all_tallied [here]); [done| |].
  - rewrite !seen_cons. unfold seen. cbn [mbind list_bind]. rewrite !app_nil_r. by apply snapshot_tallied.
  - clear Hok all. induction Hall as [|r s nodes received Hr _ IH]; constructor;
      apply Forall_cons in Hnodes as [Hn Hnodes]; apply Forall_cons in Hlat as [Hl Hlat];
      apply log_ok_app in Hoks as [Ho Hoks]; [by apply received_tallied|by apply IH].
Qed.
