(* ===== verification/TelemetrySamples.v ===== *)
(** * Telemetry of a few requests

    The theorems about snapshots at concrete requests, and the precision that
    the sum of the latencies loses on its way to the coordinator. *)
From S2P Require Import Prelude Numerals CommonTypes Codec Text VersionStore Wal Doubles Telemetry.
From S2P Require Import TelemetryFacts TelemetryWire.
From Stdlib Require Import SpecFloat.
Open Scope Z_scope.

(** A request that is forgotten, one of the last ten minutes, a failed one of
    the last minute and one of the last seconds. *)
Definition sample_actions : list TelemetryAction :=
  [Answered (MkHandled (nanoseconds 1000) 12 false); Asked (nanoseconds 1400); Answered (MkHandled (nanoseconds 1500) 9 false);
   Answered (MkHandled (nanoseconds 1605) 30 true); Answered (MkHandled (nanoseconds 1659) 7 false)].

Definition sample_now : Z := nanoseconds 1660.

Definition sample_snapshot : TelemetrySnapshot := (Snapshot sample_now (foldl observe [] sample_actions)).1.

(** The printed numbers. *)
Lemma sample_text :
  telemetry_summary sample_snapshot 0 0 =
    "current_rps=0 average_rps_10m=0.005 max_rps_10m=1 average_latency_10s_ms=7 error_count_1m=1 error_rate_1m=0.5 nodes_total=1 nodes_available=1".
Proof. vm_compute. reflexivity. Qed.

Lemma sample_sorted : StronglySorted Z.le (map action_time (sample_actions ++ [Asked sample_now])).
Proof. repeat constructor; vm_compute; discriminate. Qed.

Lemma sample_log_ok : log_ok (answered sample_actions).
Proof. split_and!; [reflexivity|repeat constructor; vm_compute; discriminate|reflexivity]. Qed.

Lemma sample_summarizes : summarizes sample_now (answered sample_actions) sample_snapshot.
Proof. apply (snapshot_summarizes_log sample_actions sample_now); [exact sample_sorted|exact sample_log_ok]. Qed.

(** A node, whose snapshot is taken a second later. *)
Definition node_run : ServerRun :=
  ([Answered (MkHandled (nanoseconds 1605) 30 true); Answered (MkHandled (nanoseconds 1659) 7 false)], nanoseconds 1661).

Definition here_run : ServerRun := (sample_actions, sample_now).

Lemma aggregate_summarizes_all_witness :
  ∃ s, ParseLocalTelemetry (SerializeLocalTelemetry (snapshot_of node_run)) = Some s ∧
    summed (nanoseconds 1662) (seen kWindow1Minute [here_run; node_run]) (seen kWindow10Seconds [here_run; node_run])
      (seen kWindow10Minutes [here_run; node_run]) (AggregateTelemetry (nanoseconds 1662) (snapshot_of here_run) [s]) ∧
    count (seen kWindow10Minutes [here_run; node_run]) = 5.
Proof.
  assert (Hs : ∃ s, ParseLocalTelemetry (SerializeLocalTelemetry (snapshot_of node_run)) = Some s)
    by (eexists; vm_compute; reflexivity).
  destruct Hs as [s Hs]. exists s. split; [exact Hs|]. split; [|vm_compute; reflexivity].
  apply (aggregate_summarizes_all (nanoseconds 1662) here_run [node_run] [s]).
  - repeat constructor; vm_compute; discriminate.
  - split_and!; [reflexivity|repeat constructor; vm_compute; discriminate|reflexivity].
  - repeat constructor.
  - constructor; [exact Hs|constructor].
Defined.

Lemma telemetry_text_roundtrip_witness :
  ∃ s, ParseLocalTelemetry (SerializeLocalTelemetry sample_snapshot) = Some s ∧
    requests_per_second_10m s = requests_per_second_10m sample_snapshot ∧ latency_sum_10s_ms s = latency_sum_10s_ms sample_snapshot.
Proof.
  eexists. split.
  - eapply (telemetry_text_roundtrip sample_snapshot); [|vm_compute; reflexivity..].
    split_and!; [by vm_compute..|].
    apply (bool_decide_unpack _). vm_compute. exact I.
  - split; vm_compute; reflexivity.
Defined.

(** The coordinator adds up what the nodes printed with six digits. *)
Lemma long_latencies_are_rounded : reread (double_of_int 1234567) (double_of_int 1234570).
Proof. vm_compute. reflexivity. Qed.
