(* ===== verification/AccessLog.v ===== *)
(** * The access log of a server

    [WriteAccessLog] of [src/server/entrypoint.cpp] and what it formats. The
    broken-down times are those [gmtime_r] returned. *)
From S2P Require Import Prelude Numerals CommonTypes Codec Protocol VersionStore Wal.
From Stdlib Require Import Ascii.
Open Scope Z_scope.

(** Control characters become spaces. *)
Fixpoint SanitizeLogField (value : string) : string :=
  match value with
  | EmptyString => ""
  | String ch rest =>
      String (if Ascii.eqb ch newline || Ascii.eqb ch (ascii_of_nat 13) || Ascii.eqb ch tab || (nat_of_ascii ch <? 32)%nat
              then " "%char else ch) (SanitizeLogField rest)
  end.

Definition FormatUtcTimestamp (t : Tm) : string :=
  zero_padded 4 (tm_year t) (String "-" (zero_padded 2 (tm_mon t) (String "-" (zero_padded 2 (tm_mday t)
  (String "T" (zero_padded 2 (tm_hour t) (String ":" (zero_padded 2 (tm_min t) (String ":"
  (zero_padded 2 (tm_sec t) (String "." (zero_padded 3 (tm_micros t / 1000) "Z")))))))))))).

(** [setw(6) << setfill('0')] does not cut longer numbers. *)
Definition handler_name (handler_id : Z) : string :=
  "handler-" +:+ (if handler_id <? 1000000 then zero_padded 6 handler_id "" else to_string handler_id).

Definition access_fields (request : RequestEnvelope) (response : ResponseEnvelope) (handler_id : string)
    (started finished : Tm) (latency_ms : Z) : list string :=
  ["start=" +:+ FormatUtcTimestamp started; "finish=" +:+ FormatUtcTimestamp finished;
   "client_id=" +:+ SanitizeLogField (req_client request); "handler_id=" +:+ SanitizeLogField handler_id;
   "status_code=" +:+ to_string (resp_status response); "latency_ms=" +:+ to_string latency_ms;
   "sql=" +:+ String dquote (SanitizeLogField (req_payload request) +:+ String dquote "")].

(** The file after it; what the stream reports is not looked at. *)
Definition WriteAccessLog (fault : WriteFault) (request : RequestEnvelope) (response : ResponseEnvelope) (handler_id : string)
    (started finished : Tm) (latency_ms : Z) (file : WalFile) : WalFile :=
  (append_text fault (line (join tab (access_fields request response handler_id started finished latency_ms))) file).2.

(** ** One request is one line *)

Lemma sanitized_no_char c s : (nat_of_ascii c < 32)%nat → no_char c (SanitizeLogField s) = true.
Proof.
  intros Hc. induction s as [|ch s IH]; cbn [SanitizeLogField no_char]; [done|]. rewrite IH, andb_true_r, negb_true_iff.
  apply Ascii.eqb_neq. intros <-. destruct (_ || _) eqn:E; [vm_compute in Hc; lia|].
  apply orb_false_iff in E as [_ E]. apply Nat.ltb_ge in E. lia.
Qed.

Lemma to_string_no_char c z : plain_char c = false → no_char c (to_string z) = true.
Proof.
  intros Hc. pose proof (plain_to_string z) as H. induction (to_string z) as [|x s IH]; cbn [no_char plain] in *; [done|].
  apply andb_true_iff in H as [Hx Hs]. rewrite IH by done. destruct (Ascii.eqb_spec x c) as [->|]; [congruence|done].
Qed.

Lemma zero_padded_no_char c w z acc : plain_char c = false → no_char c (zero_padded w z acc) = no_char c acc.
Proof.
  intros Hc. revert z acc. induction w as [|w IH]; intros z acc; cbn [zero_padded]; [done|]. rewrite IH. cbn [no_char].
  destruct (Ascii.eqb_spec (digit_char (z mod 10)) c) as [<-|]; [|done].
  destruct (digit_char_spec (z mod 10)) as [Hd _]; [apply Z.mod_pos_bound; lia|]. unfold plain_char in Hc. by rewrite Hd in Hc.
Qed.

Definition control (c : ascii) : Prop := (nat_of_ascii c < 32)%nat.

Lemma control_plain c : control c → plain_char c = false.
Proof. unfold control. destruct c as [[] [] [] [] [] [] [] []]; vm_compute; intros; try done; lia. Qed.

Lemma control_neq c d : control c → (32 ≤ nat_of_ascii d)%nat → Ascii.eqb d c = false.
Proof. intros Hc Hd. apply Ascii.eqb_neq. intros ->. unfold control in Hc. lia. Qed.

(** A text of visible characters only. *)
Fixpoint visible (s : string) : bool :=
  match s with EmptyString => true | String c rest => (32 <=? nat_of_ascii c)%nat && visible rest end.

Lemma visible_no_char c s : control c → visible s = true → no_char c s = true.
Proof.
  intros Hc. induction s as [|d s IH]; cbn [visible no_char]; [done|]. intros [Hd%Nat.leb_le Hs]%andb_true_iff.
  by rewrite control_neq, IH.
Qed.

Lemma timestamp_no_char c t : control c → no_char c (FormatUtcTimestamp t) = true.
Proof.
  intros Hc. unfold FormatUtcTimestamp.
  repeat (rewrite zero_padded_no_char by (by apply control_plain); cbn [no_char];
          rewrite ?control_neq by (first [done | vm_compute; lia]); cbn [negb andb]). done.
Qed.

Lemma handler_name_no_char c n : control c → no_char c (SanitizeLogField (handler_name n)) = true.
Proof. apply sanitized_no_char. Qed.

(** No control character gets into a field, whatever a client sends. *)
Lemma access_fields_no_char c request response n started finished latency_ms :
  control c → Forall (λ f, no_char c f = true) (access_fields request response (handler_name n) started finished latency_ms).
Proof.
  intros Hc. unfold access_fields.
  repeat (apply Forall_cons; split); try apply Forall_nil; rewrite ?no_char_app; cbn [no_char];
    rewrite ?no_char_app, ?timestamp_no_char, ?sanitized_no_char, ?handler_name_no_char, ?to_string_no_char
      by (first [done | by apply control_plain]);
    rewrite ?(visible_no_char c) by done; rewrite ?control_neq by (first [done | vm_compute; lia]); try done.
  all: cbn; rewrite ?control_neq by (first [done | vm_compute; lia]); done.
Qed.
