(* ===== verification/Cluster.v ===== *)
(** * The entrypoint's side of a cluster

    The part of [src/server/entrypoint.cpp] that routes, renders and forwards
    requests to storage nodes: shard routing, the SQL that is sent to nodes,
    two-phase commit, broadcast, dumps and rebalancing. What is outside the
    process is a parameter: the bytes a peer answers with, the servers that are
    registered in the same process, the random bytes of identifiers. So are
    [std::hash] of integers and strings. *)
From S2P Require Import Prelude Numerals CommonTypes Storage IndexSpec RuntimeState Ast Execution Codec.
From S2P Require Import Protocol Wal.
From S2P Require Import Uuid Text.
From Stdlib Require Import Ascii.
Open Scope Z_scope.

Record StorageNodeEndpoint := MkNode {
  node_host : string;
  node_port : Z;
  node_managed : bool;
  node_fail_count : Z
}.

(** ** What is outside

    [exchange host port bytes] connects, writes [bytes] and gives the bytes that
    come back until the peer closes the connection; [None] when the socket, the
    address, the connection or the write fails. The process also has its
    registry of servers: [registered] is [HandleRequest] of the server under a
    name, if there is one; [registry_locked] says whether the thread that makes
    the calls holds [local_node_registry_mutex_]. *)
Class Outside (N : Type) := {
  exchange : string → Z → string → N → option string * N;
  registered : string → option (RequestEnvelope → N → Outcome ResponseEnvelope * N);
  registry_locked : N → bool;
  lock_registry : bool → N → N;
  random_bytes : N → list Z * N
}.

(** Computations that talk to the outside and may throw. *)
Section remote.
Context {N : Type}.

Definition Remote (A : Type) : Type := N → Outcome A * N.

Definition ret {A} (x : A) : Remote A := λ n, (Ok x, n).

Definition rbind {A B} (m : Remote A) (k : A → Remote B) : Remote B := λ n,
  let '(r, n) := m n in
  match r with
  | Ok x => k x n
  | Err er => (Err er, n)
  | Crash c => (Crash c, n)
  end.

(** A pure computation that may throw. *)
Definition lift {A} (o : Outcome A) : Remote A := λ n, (o, n).

End remote.
Arguments Remote : clear implicits.

Notation "'let!' x ':=' m 'in' k" := (rbind m (λ x, k))
  (at level 200, x name, m at level 200, k at level 200) : dbms_scope.
Notation "'let!' ' p ':=' m 'in' k" := (rbind m (λ x, match x with p => k end))
  (at level 200, p pattern, m at level 200, k at level 200) : dbms_scope.

(** ** SQL texts *)

Fixpoint escape_sql (text : string) : string :=
  match text with
  | EmptyString => ""
  | String ch rest =>
      if Ascii.eqb ch backslash || Ascii.eqb ch dquote then String backslash (String ch (escape_sql rest))
      else String ch (escape_sql rest)
  end.

Definition RenderLiteralSql (value : Value) : string :=
  match value with
  | VNull => "NULL"
  | VInt z => to_string z
  | VStr s => String dquote (escape_sql s +:+ String dquote "")
  | VInterned p => String dquote (escape_sql (intern_text p) +:+ String dquote "")
  end.

Definition render_row (row : list Value) : string := "(" +:+ comma_separated (map RenderLiteralSql row) +:+ ")".

Definition RenderInsertSql (table_name : QualifiedName) (column_names : list string) (rows : list (list Value)) : string :=
  "INSERT INTO " +:+ QualifiedNameToString table_name +:+ " (" +:+ comma_separated column_names +:+ ") VALUES "
  +:+ comma_separated (map render_row rows) +:+ ";".

Definition render_column (column : ColumnDefinition) : string :=
  col_name column +:+ " " +:+ (if bool_decide (col_type column = kInt64) then "INT" else "STRING")
  +:+ (if bool_decide (col_constraint column = kNotNull) then " NOT NULL" else "")
  +:+ (if bool_decide (col_constraint column = kIndexed) then " INDEXED" else "")
  +:+ match col_default column with Some v => " DEFAULT " +:+ RenderLiteralSql v | None => "" end.

Definition RenderCreateTableSql (schema : TableSchema) : string :=
  "CREATE TABLE " +:+ schema_table schema +:+ " (" +:+ comma_separated (map render_column (schema_columns schema)) +:+ ");".

Notation RowsByNode := (gmap nat (list (list Value))).

(** ** Shard keys *)

Definition ResolveClusterDatabaseName (table_name : QualifiedName) (session : SessionContext) : option string :=
  match q_database table_name with
  | Some d => Some d
  | None => if String.eqb (ses_database session) "" then None else Some (ses_database session)
  end.

(** The first indexed integer column, or else the first indexed one. *)
Definition ResolveShardKeyColumn (schema : TableSchema) : option string :=
  match List.find (λ c, bool_decide (col_constraint c = kIndexed) && bool_decide (col_type c = kInt64)) (schema_columns schema) with
  | Some c => Some (col_name c)
  | None => col_name <$> List.find (λ c, bool_decide (col_constraint c = kIndexed)) (schema_columns schema)
  end.

(** [extract]: a literal that a column is compared with. *)
Definition extract_literal (shard_key_column : string) (column_expr value_expr : Expression) : option Value :=
  match column_expr, value_expr with
  | ColumnReferenceExpression _ _ column, LiteralExpression value =>
      if String.eqb column shard_key_column then Some value else None
  | _, _ => None
  end.

Fixpoint TryExtractShardKeyValue (expr : Expression) (shard_key_column : string) : option Value :=
  match expr with
  | LogicalExpression kOr _ _ => None
  | LogicalExpression kAnd lhs rhs =>
      match TryExtractShardKeyValue lhs shard_key_column with
      | Some v => Some v
      | None => TryExtractShardKeyValue rhs shard_key_column
      end
  | BinaryComparisonExpression kEqual lhs rhs =>
      match extract_literal shard_key_column lhs rhs with
      | Some v => Some v
      | None => extract_literal shard_key_column rhs lhs
      end
  | _ => None
  end.

Section cluster.
Context {T N : Type} `{!Outside N}.
Context (hash_int64 : Z → Z) (hash_string : string → Z).

Definition ResolveClusterTableSchema (table_name : QualifiedName) (session : SessionContext) (s : RuntimeState T)
    : option TableSchema :=
  n ← ResolveClusterDatabaseName table_name session;
  d ← databases s !! n;
  t ← db_tables d !! q_object table_name;
  Some (t_schema t).

(** [std::get] and [AsString] throw on a value of another type: a null value
    has no route. *)
Definition RouteValueToNode (value : Value) (nodes : list StorageNodeEndpoint) : Outcome nat :=
  match nodes with
  | [] => Ok 0%nat
  | _ =>
      let* h := if bool_decide (GetValueType value = kInt64) then let* z := GetInt64 value in Ok (hash_int64 z)
                else let* s := AsString value in Ok (hash_string s) in
      Ok (Z.to_nat (h mod Z.of_nat (length nodes)))
  end.

(** [evaluate_route]. *)
Definition evaluate_route (table_name : QualifiedName) (where_ : option Expression) (nodes : list StorageNodeEndpoint)
    (session : SessionContext) (s : RuntimeState T) : Outcome (option nat) :=
  match where_, ResolveClusterTableSchema table_name session s ≫= ResolveShardKeyColumn with
  | Some w, Some shard_key =>
      match TryExtractShardKeyValue w shard_key with
      | Some v => let* i := RouteValueToNode v nodes in Ok (Some i)
      | None => Ok None
      end
  | _, _ => Ok None
  end.

Definition RouteNodeIndex (statement : Statement) (nodes : list StorageNodeEndpoint) (session : SessionContext)
    (s : RuntimeState T) : Outcome (option nat) :=
  match nodes with
  | [] => Ok None
  | _ =>
      match statement with
      | SelectStatement table_name _ where_ | UpdateStatement table_name _ where_ | DeleteStatement table_name where_ =>
          evaluate_route table_name where_ nodes session s
      | _ => Ok None
      end
  end.

(** The values of a row of an INSERT, which have to be literals. *)
Fixpoint literal_row (row_exprs : list Expression) : option (list Value) :=
  match row_exprs with
  | [] => Some []
  | LiteralExpression v :: row_exprs => vs ← literal_row row_exprs; Some (v :: vs)
  | _ => None
  end.

(** [rows_by_node[index].push_back(row)]. *)
Definition push_row (index : nat) (row : list Value) (rows_by_node : RowsByNode) : RowsByNode :=
  <[index := default [] (rows_by_node !! index) ++ [row]]> rows_by_node.

(** The loop over the rows: [Ok None] is [return std::nullopt]. *)
Fixpoint split_rows (shard_column_index : nat) (nodes : list StorageNodeEndpoint) (rows : list (list Expression))
    (rows_by_node : RowsByNode) : Outcome (option RowsByNode) :=
  match rows with
  | [] => Ok (Some rows_by_node)
  | row_exprs :: rows =>
      match row_exprs !! shard_column_index, literal_row row_exprs with
      | Some _, Some row =>
          let* key := or_crash UndefinedBehaviour (row !! shard_column_index) in
          let* index := RouteValueToNode key nodes in
          split_rows shard_column_index nodes rows (push_row index row rows_by_node)
      | _, _ => Ok None
      end
  end.

(** The position [std::find] gives. *)
Fixpoint find_position (name : string) (names : list string) : option nat :=
  match names with
  | [] => None
  | n :: names => if String.eqb n name then Some 0%nat else S <$> find_position name names
  end.

Definition SplitInsertByShard (table_name : QualifiedName) (column_names : list string) (rows : list (list Expression))
    (nodes : list StorageNodeEndpoint) (session : SessionContext) (s : RuntimeState T) : Outcome (option (gmap nat string)) :=
  match ResolveClusterTableSchema table_name session s ≫= ResolveShardKeyColumn with
  | None => Ok None
  | Some shard_key =>
      match find_position shard_key column_names, ResolveClusterDatabaseName table_name session with
      | Some shard_column_index, Some n =>
          let qualified_table_name := MkQName (Some n) (q_object table_name) in
          let* split := split_rows shard_column_index nodes rows ∅ in
          match split with
          | None => Ok None
          | Some rows_by_node => Ok (Some (RenderInsertSql qualified_table_name column_names <$> rows_by_node))
          end
      | _, _ => Ok None
      end
  end.

(** ** Forwarding *)

(** The block under [local_node_registry_mutex_], which is held while the
    registered server handles the request, so that a server that forwards in
    turn locks it again: undefined behaviour, as the mutex is not recursive.
    [None] when no server has the name. *)
Definition local_handle (endpoint_key : string) (request : RequestEnvelope) (n : N) : option (Outcome ResponseEnvelope * N) :=
  if registry_locked n then Some (Crash UndefinedBehaviour, n)
  else
    match registered endpoint_key with
    | Some handle => let '(r, n) := handle request (lock_registry true n) in Some (r, lock_registry false n)
    | None => None
    end.

Definition ForwardToStorageNode (node : StorageNodeEndpoint) (request : RequestEnvelope) : Remote N (option ResponseEnvelope) := λ n,
  match local_handle (node_host node +:+ ":" +:+ to_string (node_port node)) request n with
  | Some (r, n) => (let* response := r in Ok (Some response), n)
  | None =>
      match exchange (node_host node) (node_port node) (SerializeRequest request) n with
      | (None, n) => (Ok None, n)
      | (Some bytes, n) =>
          match read_line bytes with
          | None => (Ok None, n)
          | Some (wire_response, _) => (Ok (DeserializeResponse wire_response), n)
          end
      end
  end.

(** [response.has_value() && response->status_code == 200]. *)
Definition answered_200 (response : option ResponseEnvelope) : bool :=
  match response with Some r => resp_status r =? 200 | None => false end.

Definition with_payload (request : RequestEnvelope) (payload : string) : RequestEnvelope :=
  MkRequest (req_client request) (req_jwt request) payload.

(** ** Two-phase commit *)

Definition Prepared : Type := list (StorageNodeEndpoint * string).

(** The loop that prepares: whether all nodes did, and the ones that did. *)
Fixpoint prepare_all (tx_id : string) (request : RequestEnvelope) (prepared prepared_nodes : Prepared)
    : Remote N (bool * Prepared) :=
  match prepared with
  | [] => ret (true, prepared_nodes)
  | (node, sql) :: prepared =>
      let! response := ForwardToStorageNode node (with_payload request ("CLUSTER PREPARE_TX " +:+ tx_id +:+ " " +:+ sql)) in
      if answered_200 response then prepare_all tx_id request prepared (prepared_nodes ++ [(node, sql)])
      else ret (false, prepared_nodes)
  end.

Fixpoint abort_all (tx_id : string) (request : RequestEnvelope) (prepared_nodes : Prepared) : Remote N unit :=
  match prepared_nodes with
  | [] => ret tt
  | (node, _) :: prepared_nodes =>
      let! _ := ForwardToStorageNode node (with_payload request ("CLUSTER ABORT_TX " +:+ tx_id)) in
      abort_all tx_id request prepared_nodes
  end.

Fixpoint commit_all (tx_id : string) (request : RequestEnvelope) (prepared_nodes : Prepared) : Remote N bool :=
  match prepared_nodes with
  | [] => ret true
  | (node, _) :: prepared_nodes =>
      let! response := ForwardToStorageNode node (with_payload request ("CLUSTER COMMIT_TX " +:+ tx_id)) in
      if answered_200 response then commit_all tx_id request prepared_nodes else ret false
  end.

Definition new_guid : Remote N string := λ n, let '(bytes, n) := random_bytes n in (Ok (NewGuidV4 bytes), n).

Definition ExecuteTwoPhaseCommit (prepared : Prepared) (request : RequestEnvelope) : Remote N (option ResponseEnvelope) :=
  let! tx_id := new_guid in
  let! '(all, prepared_nodes) := prepare_all tx_id request prepared [] in
  if negb all then
    let! _ := abort_all tx_id request prepared_nodes in ret None
  else
    let! committed := commit_all tx_id request prepared_nodes in
    if committed then ret (Some (MkResponse 200 "2pc committed")) else ret None.

(** The overload that sends the same statement to every node. *)
Definition TwoPhaseCommitOnAll (nodes : list StorageNodeEndpoint) (request : RequestEnvelope) : Remote N (option ResponseEnvelope) :=
  ExecuteTwoPhaseCommit (map (λ node, (node, req_payload request)) nodes) request.

(** ** Broadcast *)

(** [ExecutePreparedRequests], which nothing calls. *)
Fixpoint ExecutePreparedRequests (prepared : Prepared) (request : RequestEnvelope) : Remote N (option ResponseEnvelope) :=
  match prepared with
  | [] => ret (Some (MkResponse 200 "sharded request applied"))
  | (node, sql) :: prepared =>
      let! response := ForwardToStorageNode node (with_payload request sql) in
      if answered_200 response then ExecutePreparedRequests prepared request else ret None
  end.

(** The responses of all nodes, or the first one that is not 200, or [None]. *)
Fixpoint ask_all (nodes : list StorageNodeEndpoint) (request : RequestEnvelope) (json_parts : list string)
    : Remote N (option (ResponseEnvelope + list string)) :=
  match nodes with
  | [] => ret (Some (inr json_parts))
  | node :: nodes =>
      let! response := ForwardToStorageNode node request in
      match response with
      | None => ret None
      | Some r => if resp_status r =? 200 then ask_all nodes request (json_parts ++ [resp_payload r]) else ret (Some (inl r))
      end
  end.

(** What is between the brackets of a JSON array that is not empty. *)
Definition array_contents (part : string) : option string :=
  let trimmed := TrimCopy part in
  match trimmed with
  | String "[" rest =>
      if bool_decide (back_char rest = Some "]"%char) then
        let inner := pop_back rest in if String.eqb inner "" then None else Some inner
      else None
  | _ => None
  end.

Definition merge_json (json_parts : list string) : string := "[" +:+ comma_separated (omap array_contents json_parts) +:+ "]".

Definition BroadcastToStorageNodes (nodes : list StorageNodeEndpoint) (request : RequestEnvelope) (collect_json : bool)
    : Remote N (option ResponseEnvelope) :=
  let! answers := ask_all nodes request [] in
  match answers with
  | None => ret None
  | Some (inl r) => ret (Some r)
  | Some (inr json_parts) =>
      ret (Some (MkResponse 200 (if collect_json then merge_json json_parts else "broadcast ok")))
  end.

(** ** Dumps of tables *)

Definition dump_value (value : Value) : string :=
  match value with
  | VNull => String tab "Null"
  | VInt z => String tab ("Int:" +:+ to_string z)
  | VStr s => String tab ("String:" +:+ EscapeField s)
  | VInterned p => String tab ("String:" +:+ EscapeField (intern_text p))
  end.

Definition dump_row (row : RowData) : string :=
  String newline "ROW" +:+ foldr (λ v rest, dump_value v +:+ rest) "" (row_values row).

(** The payload of [CLUSTER DUMP_TABLE]. *)
Definition dump_rows (rows : list RowData) : string := "ROWS" +:+ foldr (λ r rest, dump_row r +:+ rest) "" rows.

Definition DecodeClusterValue (encoded : string) : option Value :=
  if String.eqb encoded "Null" then Some VNull
  else
    match strip_prefix "Int:" encoded with
    | Some digits =>
        match stoll digits with
        | inr (parsed, consumed) => if (consumed =? String.length digits)%nat then Some (VInt parsed) else None
        | inl _ => None
        end
    | None =>
        match strip_prefix "String:" encoded with
        | Some text => Some (VStr (UnescapeField text))
        | None => None
        end
    end.

(** The lines behind the first one. *)
Fixpoint parse_dump_lines (lines : list string) : option (list (list Value)) :=
  match lines with
  | [] => Some []
  | l :: lines =>
      if String.eqb l "" then parse_dump_lines lines
      else
        match SplitByTab l with
        | tag :: parts =>
            if String.eqb tag "ROW" then
              row ← mapM DecodeClusterValue parts;
              rows ← parse_dump_lines lines;
              Some (row :: rows)
            else None
        | [] => None
        end
  end.

Definition parse_dump (payload : string) : option (list (list Value)) :=
  match lines_of payload with
  | [] => Some []
  | first :: lines => if String.eqb first "ROWS" then parse_dump_lines lines else None
  end.

(** The requests that the entrypoint makes on its own. *)
Definition rebalance_request (payload : string) : RequestEnvelope := MkRequest "__cluster_rebalance__" "" payload.

Definition FetchTableDump (node : StorageNodeEndpoint) (database_name table_name : string) : Remote N (option (list (list Value))) :=
  let! response := ForwardToStorageNode node (rebalance_request ("CLUSTER DUMP_TABLE " +:+ database_name +:+ " " +:+ table_name)) in
  match response with
  | Some r => if resp_status r =? 200 then ret (parse_dump (resp_payload r)) else ret None
  | None => ret None
  end.

(** ** Metadata and rebalancing *)

(** [true] when [f] gives [true] for each element in turn, up to the first
    [false]: the loops whose body ends with [return false] on a failure. *)
Fixpoint all_in_turn {A} (f : A → Remote N bool) (xs : list A) : Remote N bool :=
  match xs with
  | [] => ret true
  | x :: xs => let! ok := f x in if ok then all_in_turn f xs else ret false
  end.

(** A CREATE that worked, or was not needed. *)
Definition created (response : option ResponseEnvelope) : bool :=
  match response with
  | Some r => (resp_status r =? 200) || contains "already exists" (resp_payload r)
  | None => false
  end.

Definition sync_table (node : StorageNodeEndpoint) (t : TableRuntime T) : Remote N bool :=
  let! response := ForwardToStorageNode node (rebalance_request (RenderCreateTableSql (t_schema t))) in
  ret (created response).

Definition sync_database (database_name : string) (d : DatabaseRuntime T) (node : StorageNodeEndpoint) : Remote N bool :=
  let! response := ForwardToStorageNode node (rebalance_request ("CREATE DATABASE " +:+ database_name +:+ ";")) in
  if negb (created response) then ret false
  else
    let! response := ForwardToStorageNode node (rebalance_request ("USE " +:+ database_name +:+ ";")) in
    if negb (answered_200 response) then ret false
    else all_in_turn (λ entry, sync_table node entry.2) (map_to_list (db_tables d)).

Definition SyncMetadataToNodes (target_nodes : list StorageNodeEndpoint) (s : RuntimeState T) : Remote N bool :=
  all_in_turn (λ entry, all_in_turn (sync_database entry.1 entry.2) target_nodes) (map_to_list (databases s)).

(** The text two rows have in common when they count as one. *)
Definition fingerprint (row : list Value) : string := foldr (λ v rest, RenderLiteralSql v +:+ "|" +:+ rest) "" row.

(** The rows whose text was not seen before, in their order. *)
Fixpoint unseen (seen_rows : gset string) (rows : list (list Value)) : gset string * list (list Value) :=
  match rows with
  | [] => (seen_rows, [])
  | row :: rows =>
      if bool_decide (fingerprint row ∈ seen_rows) then unseen seen_rows rows
      else let '(seen_rows, kept) := unseen ({[fingerprint row]} ∪ seen_rows) rows in (seen_rows, row :: kept)
  end.

(** [all_rows]: what the source nodes hold; [None] is [return false]. *)
Fixpoint dump_sources (source_nodes : list StorageNodeEndpoint) (database_name table_name : string) (seen_rows : gset string)
    (all_rows : list (list Value)) : Remote N (option (list (list Value))) :=
  match source_nodes with
  | [] => ret (Some all_rows)
  | node :: source_nodes =>
      let! dumped := FetchTableDump node database_name table_name in
      match dumped with
      | None => ret None
      | Some rows =>
          let '(seen_rows, kept) := unseen seen_rows rows in
          dump_sources source_nodes database_name table_name seen_rows (all_rows ++ kept)
      end
  end.

(** USE and DELETE on a target node. *)
Definition truncate_target (database_name table_name : string) (node : StorageNodeEndpoint) : Remote N bool :=
  let! response := ForwardToStorageNode node (rebalance_request ("USE " +:+ database_name +:+ ";")) in
  if negb (answered_200 response) then ret false
  else
    let! response := ForwardToStorageNode node (rebalance_request ("DELETE FROM " +:+ table_name +:+ ";")) in
    ret (answered_200 response).

(** The rows by the node they are routed to. *)
Fixpoint route_rows (shard_column_index : nat) (nodes : list StorageNodeEndpoint) (rows : list (list Value))
    (rows_by_node : RowsByNode) : Outcome (option RowsByNode) :=
  match rows with
  | [] => Ok (Some rows_by_node)
  | row :: rows =>
      match row !! shard_column_index with
      | None => Ok None
      | Some key =>
          let* index := RouteValueToNode key nodes in
          route_rows shard_column_index nodes rows (push_row index row rows_by_node)
      end
  end.

Definition rebalance_table (source_nodes target_nodes : list StorageNodeEndpoint) (truncate_targets : bool)
    (database_name : string) (entry : string * TableRuntime T) : Remote N bool :=
  let '(table_name, t) := entry in
  let columns := schema_columns (t_schema t) in
  match ResolveShardKeyColumn (t_schema t) ≫= find_column columns with
  | None => ret true
  | Some shard_column_index =>
      let! all_rows := dump_sources source_nodes database_name table_name ∅ [] in
      match all_rows with
      | None => ret false
      | Some all_rows =>
          let! truncated := if truncate_targets then all_in_turn (truncate_target database_name table_name) target_nodes
                            else ret true in
          if negb truncated then ret false
          else
            let! routed := lift (route_rows shard_column_index target_nodes all_rows ∅) in
            match routed with
            | None => ret false
            | Some rows_by_node =>
                let insert := RenderInsertSql (MkQName (Some database_name) table_name) (map col_name columns) in
                let! prepared := lift (or_crash UndefinedBehaviour
                  (mapM (λ '(index, rows), node ← target_nodes !! index; Some (node, insert rows)) (map_to_list rows_by_node))) in
                match prepared with
                | [] => ret true
                | _ =>
                    let! response := ExecuteTwoPhaseCommit prepared
                      (rebalance_request ("REBALANCE " +:+ database_name +:+ "." +:+ table_name)) in
                    ret (answered_200 response)
                end
            end
      end
  end.

Definition RebalanceClusterData (source_nodes target_nodes : list StorageNodeEndpoint) (truncate_targets : bool)
    (s : RuntimeState T) : Remote N bool :=
  match source_nodes, target_nodes with
  | [], _ | _, [] => ret true
  | _, _ =>
      let! synced := SyncMetadataToNodes target_nodes s in
      if negb synced then ret false
      else
        all_in_turn
          (λ '(database_name, d), all_in_turn (rebalance_table source_nodes target_nodes truncate_targets database_name)
                                    (map_to_list (db_tables d)))
          (map_to_list (databases s))
  end.

(** ** Heartbeat *)

Definition ping_request : RequestEnvelope := MkRequest "__cluster_heartbeat__" "" "CLUSTER PING".

(** [response.has_value() && status_code == 200 && payload == "pong"]. *)
Definition healthy (response : option ResponseEnvelope) : bool :=
  match response with
  | Some r => (resp_status r =? 200) && String.eqb (resp_payload r) "pong"
  | None => false
  end.

(** For each node of the snapshot whether it is dead. *)
Fixpoint ping_all (nodes_snapshot : list StorageNodeEndpoint) : Remote N (list bool) :=
  match nodes_snapshot with
  | [] => ret []
  | node :: nodes =>
      let! response := ForwardToStorageNode node ping_request in
      let! dead := ping_all nodes in
      ret (negb (healthy response) :: dead)
  end.

(** [restarts host port]: whether [fork] works; the child runs on its own. *)
Definition RestartManagedNode (fork_works : bool) (node : StorageNodeEndpoint) : bool :=
  node_managed node && (String.eqb (node_host node) "127.0.0.1" || String.eqb (node_host node) "localhost") && fork_works.

Definition with_fail_count (count : Z) (node : StorageNodeEndpoint) : StorageNodeEndpoint :=
  MkNode (node_host node) (node_port node) (node_managed node) count.

(** One node after the pings: whether it was restarted. A node behind the end
    of the snapshot was added in between and counts as alive. *)
Definition heartbeat_node (fork_works : bool) (dead : option bool) (node : StorageNodeEndpoint) : bool * StorageNodeEndpoint :=
  if negb (default false dead) then (false, with_fail_count 0 node)
  else
    let node := with_fail_count (node_fail_count node + 1) node in
    if node_managed node && (3 <=? node_fail_count node) && RestartManagedNode fork_works node
    then (true, with_fail_count 0 node)
    else (false, node).

(** The update of [storage_nodes_] under the lock. *)
Fixpoint update_nodes (fork_works : bool) (dead : list bool) (nodes : list StorageNodeEndpoint)
    : bool * list StorageNodeEndpoint :=
  match nodes with
  | [] => (false, [])
  | node :: nodes =>
      let '(restarted, node) := heartbeat_node fork_works (head dead) node in
      let '(changed, nodes) := update_nodes fork_works (tail dead) nodes in
      (restarted || changed, node :: nodes)
  end.

(** [before] is [storage_nodes_] when the cycle starts, [current] when it takes
    the lock again. *)
Definition RunHeartbeatCycle (fork_works : bool) (before current : list StorageNodeEndpoint)
    : Remote N (bool * list StorageNodeEndpoint) :=
  let! dead := ping_all before in ret (update_nodes fork_works dead current).

End cluster.
