(* ===== verification/Server.v ===== *)
(** * The entrypoint server

    [src/server/entrypoint.cpp]: sessions, the commands CLUSTER, ASYNC,
    TELEMETRY and AUTH, authorization, the handling of SQL with and without
    storage nodes, the telemetry and the access log. A request is one step on
    the state of the server and on what is outside of it.

    The server of the program handles each connection in a thread of its own
    without a lock around the engine or the sessions; the model is of requests
    that do not overlap. *)
From S2P Require Import Prelude Numerals CommonTypes Storage BStarPlusTree IndexSpec RuntimeState Ast.
From S2P Require Import VersionStore.
From S2P Require Import Execution Lexer Parser Wal Engine Persistence Rbac Codec Protocol JobQueue Uuid Text.
From S2P Require Import Cluster Doubles Telemetry AccessLog.
From Stdlib Require Import Ascii.
Open Scope Z_scope.

Record PendingClusterTransaction := MkPending {
  pending_sql : string;
  pending_client : string;
  pending_database : string
}.

Section data.
Context (T D : Type).

(** What the executor of the job queue works on. *)
Definition EngineAndSessions : Type := DbmsEngine T D * gmap string SessionContext.

Record EntrypointServer := MkServer {
  sv_engine : DbmsEngine T D;
  sv_access : AccessController;
  sv_sessions : gmap string SessionContext;
  sv_jobs : JobQueue EngineAndSessions;
  sv_nodes : list StorageNodeEndpoint;
  sv_pending : gmap string PendingClusterTransaction;
  sv_telemetry : TelemetryRegistry;
  sv_log : WalFile;
  sv_next_handler : Z
}.

End data.
Arguments MkServer {T D} _ _ _ _ _ _ _ _ _.
Arguments sv_engine {T D} _.
Arguments sv_access {T D} _.
Arguments sv_sessions {T D} _.
Arguments sv_jobs {T D} _.
Arguments sv_nodes {T D} _.
Arguments sv_pending {T D} _.
Arguments sv_telemetry {T D} _.
Arguments sv_log {T D} _.
Arguments sv_next_handler {T D} _.

(** The readings of the clocks for the telemetry and the access log: when the
    request started and finished, how many milliseconds lay between, and when a
    snapshot was taken, snapshots were added up and the request was recorded. *)
Record Times := MkTimes {
  time_started : Tm;
  time_finished : Tm;
  time_latency_ms : Z;
  time_snapshot : Z;
  time_aggregate : Z;
  time_record : Z
}.

(** What a request finds besides the state: the time, the salt a registration
    draws, what happens to the writes of the access control files, the other
    times and what happens to the write to the access log. *)
Record Ambient := MkAmbient {
  amb_now : Z;
  amb_salt : string;
  amb_fault : PersistFault;
  amb_times : Times;
  amb_log_fault : WriteFault
}.

(** The fixed error payloads. *)
Definition error_payload (type code message : string) : string :=
  "type=" +:+ type +:+ " code=" +:+ code +:+ " message=" +:+ message +:+ " sql=" +:+ quote "".

Definition validation_error (message : string) : ResponseEnvelope :=
  MkResponse 400 (error_payload "VALIDATION_ERROR" "3" message).

Definition authorization_error (status : Z) (message : string) : ResponseEnvelope :=
  MkResponse status (error_payload "AUTHORIZATION_ERROR" "5" message).

Definition network_error (message : string) : ResponseEnvelope :=
  MkResponse 502 (error_payload "NETWORK_ERROR" "6" message).

Definition not_found_error (message : string) : ResponseEnvelope :=
  MkResponse 404 (error_payload "NOT_FOUND" "7" message).

(** ** Classes of statements *)

Definition IsSelectStatement (s : Statement) : bool := match s with SelectStatement _ _ _ => true | _ => false end.

(** Not the [IsMutatingStatement] of the engine: CHECK INDEX counts here. *)
Definition ServerIsMutatingStatement (s : Statement) : bool :=
  match s with SelectStatement _ _ _ | UseDatabaseStatement _ | UnknownStatement _ => false | _ => true end.

Definition IsMetadataStatement (s : Statement) : bool :=
  match s with
  | CreateDatabaseStatement _ | DropDatabaseStatement _ | UseDatabaseStatement _
  | CreateTableStatement _ _ | DropTableStatement _ => true
  | _ => false
  end.

Definition ShouldBroadcast (s : Statement) : bool :=
  match s with
  | CreateDatabaseStatement _ | DropDatabaseStatement _ | UseDatabaseStatement _ | CreateTableStatement _ _
  | DropTableStatement _ | RevertStatement _ _ _ | BeginTransactionStatement | CommitTransactionStatement
  | RollbackTransactionStatement => true
  | UpdateStatement _ _ where_ | DeleteStatement _ where_ => negb (bool_decide (is_Some where_))
  | _ => false
  end.

(** [ExtractTargetTableName], which nothing calls. *)
Definition ExtractTargetTableName (s : Statement) : option string :=
  match s with
  | CreateTableStatement name _ | DropTableStatement name | InsertStatement name _ _ | UpdateStatement name _ _
  | DeleteStatement name _ | SelectStatement name _ _ | RevertStatement name _ _ => Some (q_object name)
  | _ => None
  end.

Definition RequiredPermission (s : Statement) : option Permission :=
  match s with
  | SelectStatement _ _ _ | UseDatabaseStatement _ => Some kRead
  | InsertStatement _ _ _ | UpdateStatement _ _ _ | DeleteStatement _ _ | RevertStatement _ _ _
  | BeginTransactionStatement | CommitTransactionStatement | RollbackTransactionStatement => Some kWrite
  | CreateDatabaseStatement _ | CreateTableStatement _ _ => Some kCreateTablePermission
  | DropTableStatement _ => Some kDropTablePermission
  | DropDatabaseStatement _ => Some kDropDatabasePermission
  | _ => None
  end.

Definition ResolveAuthorizationDatabaseName (s : Statement) (session : SessionContext) : string :=
  match s with
  | UseDatabaseStatement n | CreateDatabaseStatement n | DropDatabaseStatement n => n
  | CreateTableStatement name _ | DropTableStatement name | InsertStatement name _ _ | UpdateStatement name _ _
  | DeleteStatement name _ | SelectStatement name _ _ | RevertStatement name _ _ =>
      default (ses_database session) (q_database name)
  | _ => ses_database session
  end.

(** ** Results of queries *)

Definition json_value (value : Value) : string :=
  match value with
  | VNull => "null"
  | VInt z => to_string z
  | VStr s => quote (EscapeJsonText s)
  | VInterned p => quote (EscapeJsonText (intern_text p))
  end.

(** One object: as many members as there are both names and values. *)
Definition json_row (column_names : list string) (row : RowData) : string :=
  "{" +:+ comma_separated (zip_with (λ name value, quote (EscapeJsonText name) +:+ ": " +:+ json_value value)
                             column_names (row_values row)) +:+ "}".

Definition QueryResultToJson (result : QueryResult) : string :=
  "[" +:+ comma_separated (map (json_row (res_columns result)) (res_rows result)) +:+ "]".

(** The response to a statement that worked. *)
Definition success_response (statement : Statement) (result : QueryResult) : ResponseEnvelope :=
  MkResponse 200 (if IsSelectStatement statement then QueryResultToJson result else res_message result).

Section server.
Context {T D N : Type} `{!IndexOps T} `{!PersistenceOps T D} `{!Outside N}.
Context (regex_match : string → string → Outcome bool) (clock : nat → Tm) (io : nat → WriteFault).
Context (hmac : string → string → option string).
Context (hash_int64 : Z → Z) (hash_string : string → Z).

Implicit Types (sv : EntrypointServer T D) (request : RequestEnvelope).

Definition with_engine (en : DbmsEngine T D) (sessions : gmap string SessionContext) sv : EntrypointServer T D :=
  MkServer en (sv_access sv) sessions (sv_jobs sv) (sv_nodes sv) (sv_pending sv) (sv_telemetry sv) (sv_log sv)
    (sv_next_handler sv).

Definition with_access (ac : AccessController) sv : EntrypointServer T D :=
  MkServer (sv_engine sv) ac (sv_sessions sv) (sv_jobs sv) (sv_nodes sv) (sv_pending sv) (sv_telemetry sv) (sv_log sv)
    (sv_next_handler sv).

Definition with_jobs (jobs : JobQueue (EngineAndSessions T D)) sv : EntrypointServer T D :=
  MkServer (sv_engine sv) (sv_access sv) (sv_sessions sv) jobs (sv_nodes sv) (sv_pending sv) (sv_telemetry sv) (sv_log sv)
    (sv_next_handler sv).

Definition with_nodes (nodes : list StorageNodeEndpoint) sv : EntrypointServer T D :=
  MkServer (sv_engine sv) (sv_access sv) (sv_sessions sv) (sv_jobs sv) nodes (sv_pending sv) (sv_telemetry sv) (sv_log sv)
    (sv_next_handler sv).

Definition with_pending (pending : gmap string PendingClusterTransaction) sv : EntrypointServer T D :=
  MkServer (sv_engine sv) (sv_access sv) (sv_sessions sv) (sv_jobs sv) (sv_nodes sv) pending (sv_telemetry sv) (sv_log sv)
    (sv_next_handler sv).

Definition with_journal (telemetry : TelemetryRegistry) (log : WalFile) (next_handler : Z) sv : EntrypointServer T D :=
  MkServer (sv_engine sv) (sv_access sv) (sv_sessions sv) (sv_jobs sv) (sv_nodes sv) (sv_pending sv) telemetry log next_handler.

(** ** Sessions *)

Definition GetOrCreateSession (client_id : string) (sessions : gmap string SessionContext)
    : SessionContext * gmap string SessionContext :=
  match sessions !! client_id with
  | Some session => (session, sessions)
  | None => let session := MkSession client_id None "" in (session, <[client_id := session]> sessions)
  end.

(** [engine_.ExecuteSql(session, sql)] on the stored session of a client. *)
Definition execute_for (client_id : string) (session : SessionContext) (sql : string) (es : EngineAndSessions T D)
    : Outcome QueryResult * EngineAndSessions T D :=
  let '(en, sessions) := es in
  let '(result, session, en) := ExecuteSql regex_match clock io session sql en in
  (result, (en, <[client_id := session]> sessions)).

(** The executor that the constructor gives to the job queue. *)
Definition async_executor : JobExecutor (EngineAndSessions T D) := λ sql es,
  match Parse sql with
  | Crash _ => (None, es)
  | Err er => (Some (400, FormatErrorContract er sql), es)
  | Ok statement =>
      let '(session, sessions) := GetOrCreateSession "__async_worker__" es.2 in
      let '(result, es) := execute_for "__async_worker__" session sql (es.1, sessions) in
      match result with
      | Crash _ => (None, es)
      | Err er => (Some (400, FormatErrorContract er sql), es)
      | Ok r => (Some (200, if IsSelectStatement statement then QueryResultToJson r else res_message r), es)
      end
  end.

(** A part of the loop of the worker thread, on the server. *)
Definition async_step sv : option (EntrypointServer T D) :=
  match WorkerStep (sv_jobs sv) (sv_engine sv, sv_sessions sv) with
  | None => None
  | Some (jobs, (en, sessions)) => Some (with_engine en sessions (with_jobs (default (sv_jobs sv) jobs) sv))
  end.

(** The constructor, on a loaded engine and access controller and the access
    log there is. *)
Definition NewServer (en : DbmsEngine T D) (ac : AccessController) (log : WalFile) : EntrypointServer T D :=
  MkServer en ac ∅ (StartedQueue async_executor) [] ∅ [] log 1.

(** ** ASYNC *)

(** [None] when the payload is no such command. *)
Definition ParseAsyncCommand request sv : N → option ResponseEnvelope * EntrypointServer T D * N := λ n,
  match SplitWhitespace (req_payload request) with
  | keyword :: command :: arguments =>
      if negb (String.eqb (ToUpper keyword) "ASYNC") then (None, sv, n)
      else
        let command := ToUpper command in
        if String.eqb command "SUBMIT" then
          match arguments with
          | [] => (Some (validation_error "missing sql for ASYNC SUBMIT"), sv, n)
          | _ =>
              if (String.length (req_payload request) <=? 13)%nat
              then (Some (validation_error "missing sql for ASYNC SUBMIT"), sv, n)
              else
                let '(bytes, n) := random_bytes n in
                let id := NewGuidV4 bytes in
                let job := MkJob id (String.substring 13 (String.length (req_payload request) - 13) (req_payload request)) "QUEUED" "" 0 in
                (Some (MkResponse 202 ("job_id=" +:+ id)), with_jobs (Enqueue job (sv_jobs sv)) sv, n)
          end
        else
          match arguments with
          | id :: _ =>
              if String.eqb command "STATUS" || String.eqb command "RESULT" then
                match FindJob id (sv_jobs sv) with
                | None => (Some (not_found_error "job not found"), sv, n)
                | Some job =>
                    let status := "job_id=" +:+ job_id job +:+ " status=" +:+ job_status job in
                    if String.eqb command "STATUS" then (Some (MkResponse 200 status), sv, n)
                    else if String.eqb (job_status job) "QUEUED" || String.eqb (job_status job) "RUNNING"
                    then (Some (MkResponse 202 status), sv, n)
                    else (Some (MkResponse (job_result_code job) (job_result_payload job)), sv, n)
                end
              else (Some (validation_error "invalid ASYNC command"), sv, n)
          | [] => (Some (validation_error "invalid ASYNC command"), sv, n)
          end
  | _ => (None, sv, n)
  end.

(** ** TELEMETRY *)

Definition with_events (events : TelemetryRegistry) sv : EntrypointServer T D :=
  with_journal events (sv_log sv) (sv_next_handler sv) sv.

Definition telemetry_request : RequestEnvelope := MkRequest "__telemetry__" "" "TELEMETRY LOCAL".

(** The snapshots of the nodes that answer with one. *)
Fixpoint collect_telemetry (nodes : list StorageNodeEndpoint) : Remote N (list TelemetrySnapshot) :=
  match nodes with
  | [] => ret []
  | node :: nodes =>
      let! node_response := ForwardToStorageNode node telemetry_request in
      let! snapshots := collect_telemetry nodes in
      ret (match node_response with
           | Some response =>
               if resp_status response =? 200 then option_list (ParseLocalTelemetry (resp_payload response)) else []
           | None => []
           end ++ snapshots)
  end.

(** [None] when the payload is no such command. *)
Definition ParseTelemetryCommand (times : Times) (payload : string) sv
    : N → Outcome (option ResponseEnvelope) * EntrypointServer T D * N := λ n,
  match SplitWhitespace payload with
  | keyword :: command :: _ =>
      if negb (String.eqb (ToUpper keyword) "TELEMETRY") then (Ok None, sv, n)
      else
        let command := ToUpper command in
        if String.eqb command "LOCAL" then
          let '(snapshot, events) := Snapshot (time_snapshot times) (sv_telemetry sv) in
          (Ok (Some (MkResponse 200 (SerializeLocalTelemetry snapshot))), with_events events sv, n)
        else if negb (String.eqb command "SNAPSHOT") then (Ok (Some (validation_error "invalid TELEMETRY command")), sv, n)
        else
          let '(local_snapshot, events) := Snapshot (time_snapshot times) (sv_telemetry sv) in
          let '(remote_snapshots, n) := collect_telemetry (sv_nodes sv) n in
          (let* remote_snapshots := remote_snapshots in
           Ok (Some (MkResponse 200
             (telemetry_summary (AggregateTelemetry (time_aggregate times) local_snapshot remote_snapshots)
                (Z.of_nat (length (sv_nodes sv))) (Z.of_nat (length remote_snapshots))))),
           with_events events sv, n)
  | _ => (Ok None, sv, n)
  end.

(** ** AUTH *)

(** [require_admin]: the response when the sender is no administrator. *)
Definition require_admin (ambient : Ambient) request sv : option ResponseEnvelope :=
  if negb (HasAccounts (sv_access sv)) then Some (authorization_error 403 "admin required")
  else
    match ValidateTokenAndGetUser hmac (req_jwt request) (amb_now ambient) (sv_access sv) with
    | None => Some (authorization_error 401 "invalid or expired jwt token")
    | Some user_id =>
        if negb (IsAdmin user_id (sv_access sv)) then Some (authorization_error 403 "admin required") else None
    end.

(** The response to an operation of the access controller. *)
Definition access_response (message : string) (result : option string * AccessController) sv
    : ResponseEnvelope * EntrypointServer T D :=
  let '(error, ac) := result in
  (match error with Some error_message => validation_error error_message | None => MkResponse 200 message end, with_access ac sv).

(** An operation that only an administrator may do. *)
Definition admin_command (ambient : Ambient) request sv (k : ResponseEnvelope * EntrypointServer T D)
    : ResponseEnvelope * EntrypointServer T D :=
  match require_admin ambient request sv with Some response => (response, sv) | None => k end.

(** The six grant and revocation commands, when the permission name is right. *)
Definition grant_command (permission_name message : string)
    (operation : Permission → option string * AccessController) sv : ResponseEnvelope * EntrypointServer T D :=
  match ParsePermissionName permission_name with
  | None => (validation_error "invalid permission", sv)
  | Some permission => access_response message (operation permission) sv
  end.

Definition register_command (ambient : Ambient) (user_id password : string) (rest : list string) sv
    : ResponseEnvelope * EntrypointServer T D :=
  let group := match rest with
               | g :: _ => g
               | [] => if HasAccounts (sv_access sv) then "user" else "admin"
               end in
  access_response "registered"
    (RegisterAccount hmac user_id password group (amb_salt ambient) (amb_fault ambient) (sv_access sv)) sv.

Definition login_command (ambient : Ambient) (user_id password : string) sv : ResponseEnvelope :=
  match LoginAndIssueToken hmac user_id password (amb_now ambient) (sv_access sv) with
  | inl error_message => authorization_error 401 error_message
  | inr token => MkResponse 200 ("token=" +:+ token)
  end.

Definition whoami_command (ambient : Ambient) request sv : ResponseEnvelope :=
  if negb (HasAccounts (sv_access sv)) then MkResponse 200 "anonymous"
  else
    match ValidateTokenAndGetUser hmac (req_jwt request) (amb_now ambient) (sv_access sv) with
    | None => authorization_error 401 "invalid or expired jwt token"
    | Some user_id => MkResponse 200 ("user=" +:+ user_id +:+ " groups=" +:+ join comma (UserGroups user_id (sv_access sv)))
    end.

Definition auth_command (ambient : Ambient) request (command : string) (arguments : list string) sv
    : ResponseEnvelope * EntrypointServer T D :=
  let ac := sv_access sv in
  let fault := amb_fault ambient in
  let admin := admin_command ambient request sv in
  let cmd := String.eqb command in
  match arguments with
  | user_id :: password :: rest =>
      if cmd "REGISTER" then register_command ambient user_id password rest sv
      else if cmd "LOGIN" then (login_command ambient user_id password sv, sv)
      else if cmd "CREATE_GROUP" then admin (access_response "group created" (CreateGroup user_id fault ac) sv)
      else if cmd "ADD_USER_GROUP" then admin (access_response "user added to group" (AddUserToGroup user_id password fault ac) sv)
      else if cmd "GRANT_DEFAULT" then
        admin (grant_command password "default grant updated" (λ p, GrantDefault user_id p fault ac) sv)
      else if cmd "REVOKE_DEFAULT" then
        admin (grant_command password "default grant updated" (λ p, RevokeDefault user_id p fault ac) sv)
      else
        match rest with
        | permission :: _ =>
            if cmd "GRANT_GROUP" then
              admin (grant_command permission "group grant updated" (λ p, GrantGroup user_id password p fault ac) sv)
            else if cmd "REVOKE_GROUP" then
              admin (grant_command permission "group grant updated" (λ p, RevokeGroup user_id password p fault ac) sv)
            else if cmd "GRANT_USER" then
              admin (grant_command permission "user grant updated" (λ p, GrantUser user_id password p fault ac) sv)
            else if cmd "REVOKE_USER" then
              admin (grant_command permission "user grant updated" (λ p, RevokeUser user_id password p fault ac) sv)
            else if cmd "WHOAMI" then (whoami_command ambient request sv, sv)
            else (validation_error "invalid AUTH command", sv)
        | [] =>
            if cmd "WHOAMI" then (whoami_command ambient request sv, sv) else (validation_error "invalid AUTH command", sv)
        end
  | [name] =>
      if cmd "CREATE_GROUP" then admin (access_response "group created" (CreateGroup name fault ac) sv)
      else if cmd "WHOAMI" then (whoami_command ambient request sv, sv)
      else (validation_error "invalid AUTH command", sv)
  | [] => if cmd "WHOAMI" then (whoami_command ambient request sv, sv) else (validation_error "invalid AUTH command", sv)
  end.

Definition ParseAuthCommand (ambient : Ambient) request sv : option (ResponseEnvelope * EntrypointServer T D) :=
  match SplitWhitespace (req_payload request) with
  | keyword :: command :: arguments =>
      if String.eqb (ToUpper keyword) "AUTH" then Some (auth_command ambient request (ToUpper command) arguments sv) else None
  | _ => None
  end.

(** ** CLUSTER *)

Definition prepare_command request (rest : string) sv : Outcome ResponseEnvelope * EntrypointServer T D :=
  match split_first " " rest with
  | None => (Ok (validation_error "missing tx id/sql"), sv)
  | Some (tx_id, sql) =>
      if String.eqb tx_id "" || String.eqb sql "" then (Ok (validation_error "missing tx id/sql"), sv)
      else
        match Parse sql with
        | Crash c => (Crash c, sv)
        | Err er => (Ok (MkResponse 400 (FormatErrorContract er sql)), sv)
        | Ok statement =>
            if negb (ServerIsMutatingStatement statement) then (Ok (validation_error "PREPARE_TX requires mutating sql"), sv)
            else
              let '(session, sessions) := GetOrCreateSession (req_client request) (sv_sessions sv) in
              (Ok (MkResponse 200 "prepared"),
               with_pending (<[tx_id := MkPending sql (req_client request) (ses_database session)]> (sv_pending sv))
                 (with_engine (sv_engine sv) sessions sv))
        end
  end.

Definition commit_command (tx_id : string) sv : Outcome ResponseEnvelope * EntrypointServer T D :=
  if String.eqb tx_id "" then (Ok (validation_error "missing tx id"), sv)
  else
    match sv_pending sv !! tx_id with
    | None => (Ok (not_found_error "unknown tx id"), sv)
    | Some pending =>
        let '(session, sessions) := GetOrCreateSession (pending_client pending) (sv_sessions sv) in
        let session := MkSession (ses_client session) (ses_user session) (pending_database pending) in
        let '(result, (en, sessions)) :=
          execute_for (pending_client pending) session (pending_sql pending) (sv_engine sv, sessions) in
        (match result with
         | Ok r => Ok (MkResponse 200 (res_message r))
         | Err er => Ok (MkResponse 400 (FormatErrorContract er (pending_sql pending)))
         | Crash c => Crash c
         end,
         with_engine en sessions (with_pending (delete tx_id (sv_pending sv)) sv))
    end.

Definition abort_command (tx_id : string) sv : ResponseEnvelope * EntrypointServer T D :=
  if String.eqb tx_id "" then (validation_error "missing tx id", sv)
  else (MkResponse 200 "aborted", with_pending (delete tx_id (sv_pending sv)) sv).

(** The session is a local one; the engine keeps what the statements do. *)
Definition dump_command (database_name table_name : string) sv : Outcome ResponseEnvelope * EntrypointServer T D :=
  let '(use_result, session, en) :=
    ExecuteSql regex_match clock io (MkSession "__cluster_dump__" None "") ("USE " +:+ database_name +:+ ";") (sv_engine sv) in
  match use_result with
  | Crash c => (Crash c, with_engine en (sv_sessions sv) sv)
  | Err er => (Ok (MkResponse 400 (FormatErrorContract er database_name)), with_engine en (sv_sessions sv) sv)
  | Ok _ =>
      let '(select_result, _, en) := ExecuteSql regex_match clock io session ("SELECT * FROM " +:+ table_name +:+ ";") en in
      (match select_result with
       | Crash c => Crash c
       | Err er => Ok (MkResponse 400 (FormatErrorContract er table_name))
       | Ok r => Ok (MkResponse 200 (dump_rows (res_rows r)))
       end, with_engine en (sv_sessions sv) sv)
  end.

Fixpoint node_list (index : nat) (nodes : list StorageNodeEndpoint) : string :=
  match nodes with
  | [] => ""
  | node :: nodes =>
      " [" +:+ to_string (Z.of_nat index) +:+ "] " +:+ node_host node +:+ ":" +:+ to_string (node_port node)
      +:+ " managed=" +:+ (if node_managed node then "true" else "false")
      +:+ " fail_count=" +:+ to_string (node_fail_count node) +:+ node_list (S index) nodes
  end.

Definition same_endpoint (endpoint : string * Z) (node : StorageNodeEndpoint) : bool :=
  String.eqb (node_host node) endpoint.1 && (node_port node =? endpoint.2).

(** [erase] of the first node that [find_if] finds; [None] when there is none. *)
Fixpoint erase_node (endpoint : string * Z) (nodes : list StorageNodeEndpoint) : option (list StorageNodeEndpoint) :=
  match nodes with
  | [] => None
  | node :: nodes => if same_endpoint endpoint node then Some nodes else cons node <$> erase_node endpoint nodes
  end.

Definition add_node_command (endpoint : string * Z) (managed : bool) sv
    : N → Outcome ResponseEnvelope * EntrypointServer T D * N := λ n,
  let before_nodes := sv_nodes sv in
  if existsb (same_endpoint endpoint) before_nodes then (Ok (MkResponse 200 "node added"), sv, n)
  else
    let node := MkNode endpoint.1 endpoint.2 managed 0 in
    let sv := with_nodes (before_nodes ++ [node]) sv in
    match before_nodes with
    | [] => (Ok (MkResponse 200 "node added"), sv, n)
    | _ =>
        let '(synced, n) := SyncMetadataToNodes [node] (en_runtime (sv_engine sv)) n in
        (let* _ := synced in Ok (MkResponse 200 "node added"), sv, n)
    end.

Definition remove_node_command (endpoint : string * Z) sv : N → Outcome ResponseEnvelope * EntrypointServer T D * N := λ n,
  match erase_node endpoint (sv_nodes sv) with
  | None => (Ok (MkResponse 200 "node removed"), sv, n)
  | Some after_nodes =>
      let removed_source := List.filter (same_endpoint endpoint) (sv_nodes sv) in
      let sv := with_nodes after_nodes sv in
      match after_nodes with
      | [] => (Ok (MkResponse 200 "node removed"), sv, n)
      | _ =>
          let '(moved, n) :=
            RebalanceClusterData hash_int64 hash_string removed_source after_nodes false (en_runtime (sv_engine sv)) n in
          (let* moved := moved in
           Ok (if moved then MkResponse 200 "node removed" else network_error "rebalance after remove failed"), sv, n)
      end
  end.

(** The commands behind the three that start with a fixed prefix. *)
Definition cluster_command (command : string) (arguments : list string) sv
    : N → Outcome ResponseEnvelope * EntrypointServer T D * N := λ n,
  let invalid := (Ok (validation_error "invalid CLUSTER command"), sv, n) in
  if String.eqb command "PING" then (Ok (MkResponse 200 "pong"), sv, n)
  else if String.eqb command "LIST_NODES" then
    (Ok (MkResponse 200 ("nodes=" +:+ to_string (Z.of_nat (length (sv_nodes sv))) +:+ node_list 0 (sv_nodes sv))), sv, n)
  else
    match arguments with
    | first :: rest =>
        if String.eqb command "DUMP_TABLE" then
          match rest with
          | table_name :: _ => (dump_command first table_name sv, n)
          | [] => invalid
          end
        else if String.eqb command "ADD_NODE" || String.eqb command "REMOVE_NODE" then
          match ParseEndpoint first with
          | None => (Ok (validation_error "invalid endpoint"), sv, n)
          | Some endpoint =>
              if String.eqb command "ADD_NODE" then
                let managed := match rest with m :: _ => String.eqb (ToUpper m) "MANAGED" | [] => false end in
                add_node_command endpoint managed sv n
              else remove_node_command endpoint sv n
          end
        else invalid
    | [] => invalid
    end.

(** [None] when the payload is no such command. *)
Definition ParseClusterCommand request sv : N → option (Outcome ResponseEnvelope) * EntrypointServer T D * N := λ n,
  let payload := req_payload request in
  match strip_prefix "CLUSTER PREPARE_TX " payload with
  | Some rest => let '(r, sv) := prepare_command request rest sv in (Some r, sv, n)
  | None =>
      match strip_prefix "CLUSTER COMMIT_TX " payload with
      | Some tx_id => let '(r, sv) := commit_command tx_id sv in (Some r, sv, n)
      | None =>
          match strip_prefix "CLUSTER ABORT_TX " payload with
          | Some tx_id => let '(r, sv) := abort_command tx_id sv in (Some (Ok r), sv, n)
          | None =>
              match SplitWhitespace payload with
              | keyword :: command :: arguments =>
                  if String.eqb (ToUpper keyword) "CLUSTER" then
                    let '(r, sv, n) := cluster_command (ToUpper command) arguments sv n in (Some r, sv, n)
                  else (None, sv, n)
              | _ => (None, sv, n)
              end
          end
      end
  end.

(** ** SQL *)

(** The session of the sender once the token and the permission were checked,
    or the response that refuses the statement. *)
Definition authorize_statement (ambient : Ambient) request (statement : Statement) (session : SessionContext)
    (ac : AccessController) : ResponseEnvelope * SessionContext + SessionContext :=
  if negb (HasAccounts ac) then inr session
  else
    match ValidateTokenAndGetUser hmac (req_jwt request) (amb_now ambient) ac with
    | None => inl (authorization_error 401 "invalid or expired jwt token", session)
    | Some user_id =>
        let session := MkSession (ses_client session) (Some user_id) (ses_database session) in
        let n := ResolveAuthorizationDatabaseName statement session in
        match RequiredPermission statement with
        | Some permission =>
            if negb (Authorize user_id n permission ac) then inl (authorization_error 403 "permission denied", session)
            else inr session
        | None => inr session
        end
    end.

(** [engine_.ExecuteSql(session, request.payload)], and how it goes on. *)
Definition execute_locally request (statement : Statement) (session : SessionContext) sv
    : Outcome (ResponseEnvelope + ResponseEnvelope) * EntrypointServer T D :=
  let '(result, (en, sessions)) :=
    execute_for (req_client request) session (req_payload request) (sv_engine sv, sv_sessions sv) in
  (match result with
   | Crash c => Crash c
   | Err er => Ok (inl (MkResponse 400 (FormatErrorContract er (req_payload request))))
   | Ok r => Ok (inr (success_response statement r))
   end, with_engine en sessions sv).

(** A response of the cluster, or an error. *)
Definition or_network_error (message : string) (m : Remote N (option ResponseEnvelope)) : Remote N ResponseEnvelope :=
  let! response := m in ret (default (network_error message) response).

(** The statements that every node has to do. *)
Definition broadcast_statement (nodes : list StorageNodeEndpoint) request (statement : Statement)
    : Remote N (option ResponseEnvelope) :=
  if ServerIsMutatingStatement statement then TwoPhaseCommitOnAll nodes request
  else BroadcastToStorageNodes nodes request false.

(** Metadata: here first, then on the nodes. *)
Definition metadata_request (nodes : list StorageNodeEndpoint) request (statement : Statement) (session : SessionContext) sv
    : N → Outcome ResponseEnvelope * EntrypointServer T D * N := λ n,
  let '(local, sv) := execute_locally request statement session sv in
  match local with
  | Crash c => (Crash c, sv, n)
  | Err er => (Err er, sv, n)
  | Ok (inl failure) => (Ok failure, sv, n)
  | Ok (inr success) =>
      if ShouldBroadcast statement then
        let '(answer, n) := broadcast_statement nodes request statement n in
        (let* answer := answer in
         Ok (match answer with None => network_error "cluster metadata broadcast failed" | Some _ => success end), sv, n)
      else (Ok success, sv, n)
  end.

(** The nodes the parts of an INSERT go to. *)
Definition prepared_inserts (nodes : list StorageNodeEndpoint) (routed_sql : gmap nat string) : option Prepared :=
  mapM (λ '(index, sql), node ← nodes !! index; Some (node, sql)) (map_to_list routed_sql).

Definition insert_request (nodes : list StorageNodeEndpoint) request (table_name : QualifiedName)
    (column_names : list string) (rows : list (list Expression)) (session : SessionContext) (s : RuntimeState T)
    : Remote N ResponseEnvelope :=
  let! routed_sql := lift (SplitInsertByShard hash_int64 hash_string table_name column_names rows nodes session s) in
  match routed_sql with
  | None => ret (network_error "unable to shard insert")
  | Some routed_sql =>
      let! prepared := lift (or_crash UndefinedBehaviour (prepared_inserts nodes routed_sql)) in
      or_network_error "cluster sharded insert failed" (ExecuteTwoPhaseCommit prepared request)
  end.

(** UPDATE, DELETE and SELECT with a shard key, SELECT without, and the rest. *)
Definition routed_request (nodes : list StorageNodeEndpoint) request (statement : Statement) (session : SessionContext)
    (s : RuntimeState T) : Remote N ResponseEnvelope :=
  let! node_index := lift (RouteNodeIndex hash_int64 hash_string statement nodes session s) in
  match node_index with
  | None =>
      if IsSelectStatement statement then
        let! fanout := BroadcastToStorageNodes nodes request true in
        match fanout with
        | None => ret (network_error "cluster fan-out failed")
        | Some r => ret (MkResponse 200 (if resp_status r =? 200 then resp_payload r else ""))
        end
      else ret (network_error "unable to route request")
  | Some index =>
      let! node := lift (or_crash UndefinedBehaviour (nodes !! index)) in
      or_network_error "target storage node unavailable" (ForwardToStorageNode node request)
  end.

Definition clustered_request (nodes : list StorageNodeEndpoint) request (statement : Statement) (session : SessionContext) sv
    : N → Outcome ResponseEnvelope * EntrypointServer T D * N := λ n,
  if IsMetadataStatement statement then metadata_request nodes request statement session sv n
  else
    let s := en_runtime (sv_engine sv) in
    let '(response, n) :=
      match statement with
      | InsertStatement table_name column_names rows => insert_request nodes request table_name column_names rows session s n
      | _ =>
          if ShouldBroadcast statement then
            or_network_error (if ServerIsMutatingStatement statement then "cluster 2pc failed" else "cluster broadcast failed")
              (broadcast_statement nodes request statement) n
          else routed_request nodes request statement session s n
      end in
    (response, sv, n).

(** The part of [HandleRequest] behind the commands. *)
Definition HandleSql (ambient : Ambient) request sv : N → Outcome ResponseEnvelope * EntrypointServer T D * N := λ n,
  match Parse (req_payload request) with
  | Crash c => (Crash c, sv, n)
  | Err er => (Ok (MkResponse 400 (FormatErrorContract er (req_payload request))), sv, n)
  | Ok statement =>
      let '(session, sessions) := GetOrCreateSession (req_client request) (sv_sessions sv) in
      let session := MkSession (req_client request) (ses_user session) (ses_database session) in
      let keep session := with_engine (sv_engine sv) (<[req_client request := session]> sessions) sv in
      match authorize_statement ambient request statement session (sv_access sv) with
      | inl (refusal, session) => (Ok refusal, keep session, n)
      | inr session =>
          let sv := keep session in
          match sv_nodes sv with
          | [] =>
              let '(response, sv) := execute_locally request statement session sv in
              (let* response := response in Ok (match response with inl r | inr r => r end), sv, n)
          | nodes => clustered_request nodes request statement session sv n
          end
      end
  end.

(** The commands in their order, and SQL. *)
Definition answer_request (ambient : Ambient) request sv : N → Outcome ResponseEnvelope * EntrypointServer T D * N := λ n,
  let '(cluster_response, sv, n) := ParseClusterCommand request sv n in
  match cluster_response with
  | Some response => (response, sv, n)
  | None =>
      let '(async_response, sv, n) := ParseAsyncCommand request sv n in
      match async_response with
      | Some response => (Ok response, sv, n)
      | None =>
          let '(telemetry_response, sv, n) := ParseTelemetryCommand (amb_times ambient) (req_payload request) sv n in
          match telemetry_response with
          | Ok (Some response) => (Ok response, sv, n)
          | Err er => (Err er, sv, n)
          | Crash c => (Crash c, sv, n)
          | Ok None =>
              match ParseAuthCommand ambient request sv with
              | Some (response, sv) => (Ok response, sv, n)
              | None => HandleSql ambient request sv n
              end
          end
      end
  end.

(** The response is recorded and logged before it is returned. *)
Definition finalize (ambient : Ambient) request (handler_id : string) (response : ResponseEnvelope) sv : EntrypointServer T D :=
  let times := amb_times ambient in
  let latency_ms := double_of_int (time_latency_ms times) in
  let events :=
    if 400 <=? resp_status response then RecordFailure (time_record times) latency_ms (sv_telemetry sv)
    else RecordSuccess (time_record times) latency_ms (sv_telemetry sv) in
  let log := WriteAccessLog (amb_log_fault ambient) request response handler_id (time_started times) (time_finished times)
               (time_latency_ms times) (sv_log sv) in
  with_journal events log (sv_next_handler sv) sv.

Definition HandleRequest (ambient : Ambient) request sv : N → Outcome ResponseEnvelope * EntrypointServer T D * N := λ n,
  let handler_id := handler_name (sv_next_handler sv) in
  let sv := with_journal (sv_telemetry sv) (sv_log sv) ((sv_next_handler sv + 1) mod uint64_modulus) sv in
  let '(response, sv, n) := answer_request ambient request sv n in
  match response with
  | Ok r => (Ok r, finalize ambient request handler_id r sv, n)
  | _ => (response, sv, n)
  end.

(** ** Connections *)

(** [HandleClientSocket] of the two server programs: what a connection that
    sends [bytes] gets back; [None] when it is closed without an answer. *)
Definition HandleClientSocket (ambient : Ambient) (bytes : string) sv : N → Outcome (option string) * EntrypointServer T D * N := λ n,
  match read_line bytes with
  | None => (Ok None, sv, n)
  | Some (wire_request, _) =>
      match DeserializeRequest wire_request with
      | None => (Ok (Some (SerializeResponse (MkResponse 400 (error_payload "PARSE_ERROR" "1" "invalid request envelope")))), sv, n)
      | Some request =>
          let '(response, sv, n) := HandleRequest ambient request sv n in
          (let* response := response in Ok (Some (SerializeResponse response)), sv, n)
      end
  end.

End server.

(** ** The server programs *)

(** The port of [main], or what it prints when it gives up. *)
Definition parse_port (default_port : Z) (args : list string) : string + Z :=
  match args with
  | [] => inr default_port
  | arg :: _ =>
      match stoi arg with
      | inl _ => inl "invalid port"
      | inr (port, _) => if (port <=? 0) || (port >? 65535) then inl "invalid port range" else inr port
      end
  end.

(** Where the server and a storage node keep their data. *)
Definition server_root : string := "./data".
Definition storage_root (port : Z) : string := "./storage_data_" +:+ to_string port.
