(* ===== verification/ServerFacts.v ===== *)
(** * What the server guarantees

    Facts about requests on [Server]: which databases a statement can change,
    and that a request that changes one was authorized. *)
From S2P Require Import Prelude Numerals CommonTypes Storage BStarPlusTree IndexSpec RuntimeState Ast.
From S2P Require Import VersionStore.
From S2P Require Import Predicates Execution ExecutionFacts Planner Lexer Parser Wal Engine EngineFacts.
From S2P Require Import Persistence Rbac Codec Protocol JobQueue Uuid Text Cluster Telemetry AccessLog Server.
From Stdlib Require Import Ascii.
Open Scope Z_scope.

(** ** A statement changes one database *)

Section frame.
Context {T : Type} `{!IndexOps T}.
Context (regex_match : string → string → Outcome bool) (clock : nat → Tm).
Implicit Types e : Env T.

Lemma insert_row_frame n targets inputs t e :
  e_runtime (insert_row clock n targets inputs t e).2 = e_runtime e.
Proof.
  unfold insert_row. destruct (assign_inputs _ _ _); try done.
  destruct (InternStringValues _ _) as [row pool]. destruct (ValidateRowAgainstSchema _ _ _) as [[row' pool'] v].
  destruct (let* _ := v in check_row t (row_values row')) as [[]| |]; try done.
  destruct (HeapInsert _ _) as [rid heap]. by destruct (update_indexes _ _ _) as [ix [[]| |]].
Qed.

Lemma insert_rows_frame n targets rows t e :
  e_runtime (insert_rows clock n targets rows t e).2 = e_runtime e.
Proof.
  revert t e. induction rows as [|inputs rows IH]; intros t e; simpl; [done|].
  pose proof (insert_row_frame n targets inputs t e) as H.
  destruct (insert_row clock n targets inputs t e) as [[[[]| |] t'] e']; simpl in *; try done. by rewrite IH.
Qed.

Lemma update_row_frame n schema assignments row e :
  e_runtime (update_row clock n schema assignments row e).2 = e_runtime e.
Proof.
  unfold update_row. destruct (assign_columns _ _ _); try done.
  destruct (InternStringValues _ _) as [row1 pool]. by destruct (ValidateRowAgainstSchema _ _ _) as [[row2 pool2] [[]| |]].
Qed.

Lemma update_rows_frame n schema assignments w rows e :
  e_runtime (update_rows regex_match clock n schema assignments w rows e).2 = e_runtime e.
Proof.
  revert e. induction rows as [|row rows IH]; intros e; cbn [update_rows]; [done|].
  destruct (passes regex_match w schema row) as [b| |]; try done.
  assert (H : e_runtime (if b then update_row clock n schema assignments row e else (Ok row, e)).2 = e_runtime e)
    by (destruct b; [apply update_row_frame|done]).
  destruct (if b then _ else _) as [[row'| |] e1]; simpl in H; try done.
  specialize (IH e1). destruct (update_rows _ _ _ _ _ _ _ e1) as [r e2]. simpl in *. congruence.
Qed.

Lemma delete_rows_frame n schema w rows e :
  e_runtime (delete_rows regex_match clock n schema w rows e).2 = e_runtime e.
Proof.
  revert e. induction rows as [|row rows IH]; intros e; cbn [delete_rows]; [done|].
  destruct (passes regex_match w schema row) as [[|]| |]; try done.
  - specialize (IH (AppendChangeEvent clock kDeleteRow n (schema_table schema) None (Some row) None e)).
    destruct (delete_rows _ _ _ _ _ _ _) as [r e2]. done.
  - specialize (IH e). destruct (delete_rows _ _ _ _ _ _ _) as [r e2]. done.
Qed.

(** The databases of two environments agree but for [n]. *)
Definition only_database (n : string) (s s' : RuntimeState T) : Prop :=
  ∀ m, m ≠ n → databases s' !! m = databases s !! m.

Lemma only_refl n s : only_database n s s.
Proof. done. Qed.

Lemma only_same n s s' : s' = s → only_database n s s'.
Proof. by intros ->. Qed.

Lemma only_set_table n tn t e : only_database n (e_runtime e) (e_runtime (set_table n tn t e)).
Proof.
  intros m Hm. unfold set_table. destruct (databases (e_runtime e) !! n); [|done].
  simpl. by rewrite lookup_insert_ne by done.
Qed.

Lemma only_replace_rows n tn t rows message e :
  only_database n (e_runtime e) (e_runtime (replace_rows n tn t rows message e).2).
Proof. unfold replace_rows. destruct (RebuildIndexes t rows); try done. apply only_set_table. Qed.

Lemma find_database_name e requested n d :
  find_database e requested = Ok (n, d) → n = default (ses_database (e_session e)) requested.
Proof.
  unfold find_database, ResolveDatabaseName. destruct requested as [r|]; simpl.
  - by destruct (databases (e_runtime e) !! r); intros [= -> ->].
  - destruct (String.eqb _ _); [done|]. simpl. by destruct (databases (e_runtime e) !! _); intros [= -> ->].
Qed.

Lemma resolve_table_name e name n t :
  resolve_table e name = Ok (n, t) → n = default (ses_database (e_session e)) (q_database name).
Proof.
  unfold resolve_table. destruct (find_database e (q_database name)) as [[n' d]| |] eqn:E; simpl; try done.
  apply find_database_name in E as ->. by destruct (db_tables d !! q_object name); intros [= <- _].
Qed.

Definition is_rebuild (s : Statement) : bool := match s with RebuildIndexStatement => true | _ => false end.

(** The database whose permissions are checked is the only one that changes. *)
Lemma execute_only_database s detail e :
  is_rebuild s = false →
  only_database (ResolveAuthorizationDatabaseName s (e_session e)) (e_runtime e)
    (e_runtime (Execute regex_match clock s detail e).2).
Proof.
  intros Hs. destruct s as [?|d|d|d|name columns|name|name columns rows|name assignments w|name w|name items w|name ts mode| | | | |];
    try done; simpl.
  - unfold ExecuteCreateDatabase. destruct (databases (e_runtime e) !! d); [done|]. intros m Hm. simpl. by rewrite lookup_insert_ne.
  - unfold ExecuteDropDatabase. destruct (databases (e_runtime e) !! d); [|done]. intros m Hm. simpl.
    destruct (String.eqb _ _); simpl; by rewrite lookup_delete_ne.
  - unfold ExecuteUseDatabase. by destruct (databases (e_runtime e) !! d).
  - unfold ExecuteCreateTable. destruct (find_database e (q_database name)) as [[n d]| |] eqn:E; try done.
    apply find_database_name in E as <-. destruct (db_tables d !! q_object name); [done|].
    destruct (build_columns _ _ _) as [[cs defs] pool]. simpl. exact (only_set_table n (q_object name) _ (with_pool pool e)).
  - unfold ExecuteDropTable. destruct (find_database e (q_database name)) as [[n d]| |] eqn:E; try done.
    apply find_database_name in E as <-. destruct (db_tables d !! q_object name); [|done].
    intros m Hm. simpl. by rewrite lookup_insert_ne.
  - unfold ExecuteInsert. destruct (resolve_table e name) as [[n t]| |] eqn:E; try done.
    apply resolve_table_name in E as <-. destruct (input_columns _ _); try done.
    pose proof (insert_rows_frame n a rows t e) as H. destruct (insert_rows _ _ _ _ _ _) as [[ended t'] e'].
    simpl in *. rewrite <-H. apply only_set_table.
  - unfold ExecuteUpdate. destruct (resolve_table e name) as [[n t]| |] eqn:E; try done.
    apply resolve_table_name in E as <-. pose proof (update_rows_frame n (t_schema t) assignments w (ScanAll (t_heap t)) e) as H.
    destruct (update_rows _ _ _ _ _ _ _ _) as [[[rows count]| |] e']; simpl in *; rewrite <-H; try done. apply only_replace_rows.
  - unfold ExecuteDelete. destruct (resolve_table e name) as [[n t]| |] eqn:E; try done.
    apply resolve_table_name in E as <-. pose proof (delete_rows_frame n (t_schema t) w (ScanAll (t_heap t)) e) as H.
    destruct (delete_rows _ _ _ _ _ _ _) as [[[rows count]| |] e']; simpl in *; rewrite <-H; try done. apply only_replace_rows.
  - unfold ExecuteRevert. destruct (resolve_table e name) as [[n t]| |] eqn:E; simpl; try done.
    apply resolve_table_name in E as <-. destruct (revert_target _ _ _ _ _); simpl; try done.
    destruct (forallb _ _); [|done].
    match goal with |- context [revert_current clock n ?tn ?tg ?cur e] =>
      pose proof (revert_current_frame clock n tn tg cur e) as [_ H]; destruct (revert_current clock n tn tg cur e) as [[[]| |] e1] end;
      simpl in *; rewrite <-H; try done.
    match goal with |- context [revert_missing clock n ?tn ?cur ?tg e1] =>
      rewrite <-(proj2 (revert_missing_frame clock n tn cur tg e1)) end.
    apply only_replace_rows.
Qed.
End frame.

(** ** Authorization *)

Section authorization.
Context {T D N : Type} `{!IndexOps T} `{!PersistenceOps T D} `{!Outside N}.
Context (regex_match : string → string → Outcome bool) (clock : nat → Tm) (io : nat → WriteFault).
Context (hmac : string → string → option string).
Context (hash_int64 : Z → Z) (hash_string : string → Z).
Implicit Types (sv : EntrypointServer T D) (request : RequestEnvelope) (en : DbmsEngine T D).

Lemma autocommit_only_database write_wal session sql statement en :
  is_rebuild statement = false →
  only_database (ResolveAuthorizationDatabaseName statement session) (en_runtime en)
    (en_runtime (ExecuteAutocommit regex_match clock io write_wal session sql statement en).2).
Proof.
  intros Hs. unfold ExecuteAutocommit. destruct (BuildPlan _ statement) as [plan| |] eqn:Ep; try done.
  unfold ExecutePlan. rewrite (BuildPlan_statement _ _ _ Ep).
  pose proof (execute_only_database regex_match clock statement (plan_detail plan)
    (env_on en session (en_runtime en) (en_versions en)) Hs) as H.
  destruct (Execute _ _ _ _ _) as [result e]. simpl in H.
  set (en1 := with_committed _ _ _). destruct result as [r| |]; try done.
  destruct (Engine.IsMutatingStatement statement); [|done].
  assert (Hm : same_memory en1 (if write_wal then with_wal io (λ fault, AppendSql fault sql) en1 else (true, en1)).2)
    by (destruct write_wal; [apply with_wal_memory|done]).
  destruct (if write_wal then _ else _) as [appended en2]. simpl in Hm. destruct Hm as [Hm _].
  destruct (negb appended); simpl; [by rewrite Hm|].
  destruct (checkpoint_memory io write_wal (e_session e) r en2) as [-> _]. by rewrite Hm.
Qed.

Lemma sql_only_database session sql statement en :
  Parse sql = Ok statement → statement ≠ CommitTransactionStatement → is_rebuild statement = false →
  only_database (ResolveAuthorizationDatabaseName statement session) (en_runtime en)
    (en_runtime (ExecuteSql regex_match clock io session sql en).2).
Proof.
  intros Hp Hc Hr. unfold ExecuteSql.
  destruct (en_transactions en !! TransactionKey session) as [tx|] eqn:Htx.
  - destruct (isolated_request regex_match clock io true session sql en) as [He _];
      [by rewrite Htx|rewrite Hp; congruence|]. apply only_same. unfold committed in He. congruence.
  - unfold ExecuteSqlImpl. rewrite Hp, Htx. destruct statement; try done; try (by apply autocommit_only_database).
    + apply only_same. destruct (begin_only session en) as [He _]. unfold committed in He. congruence.
    + apply only_same. destruct (rollback_only session en) as [He _]. unfold committed in He. congruence.
Qed.

(** The first word of a payload, as the commands compare it. *)
Definition keyword_of (payload : string) : option string := ToUpper <$> head (SplitWhitespace payload).

Lemma strip_prefix_inv prefix s rest : strip_prefix prefix s = Some rest → s = prefix +:+ rest.
Proof.
  revert s. induction prefix as [|c prefix IH]; intros [|d s]; simpl; try (by intros [= ->]); try done.
  destruct (Ascii.eqb_spec c d) as [->|]; [|done]. intros H. by rewrite <-(IH s).
Qed.

Lemma not_cluster_command request sv n :
  keyword_of (req_payload request) ≠ Some "CLUSTER" →
  ParseClusterCommand regex_match clock io hash_int64 hash_string request sv n = (None, sv, n).
Proof.
  intros Hk. unfold ParseClusterCommand. destruct request as [client jwt payload]; cbn [req_payload] in *.
  destruct (strip_prefix "CLUSTER PREPARE_TX " payload) as [r|] eqn:E1.
  { apply strip_prefix_inv in E1 as ->. destruct Hk. reflexivity. }
  destruct (strip_prefix "CLUSTER COMMIT_TX " payload) as [r|] eqn:E2.
  { apply strip_prefix_inv in E2 as ->. destruct Hk. reflexivity. }
  destruct (strip_prefix "CLUSTER ABORT_TX " payload) as [r|] eqn:E3.
  { apply strip_prefix_inv in E3 as ->. destruct Hk. reflexivity. }
  unfold keyword_of in Hk. destruct (SplitWhitespace payload) as [|w [|c args]]; try done. simpl in Hk.
  destruct (String.eqb_spec (ToUpper w) "CLUSTER") as [E|]; [|done]. by rewrite E in Hk.
Qed.

(** ASYNC and AUTH leave the engine alone. *)
Lemma async_command_engine request sv n :
  sv_engine (ParseAsyncCommand (N:=N) request sv n).1.2 = sv_engine sv ∧
  ((ParseAsyncCommand (N:=N) request sv n).1.1 = None → (ParseAsyncCommand (N:=N) request sv n).1.2 = sv).
Proof.
  unfold ParseAsyncCommand. destruct (SplitWhitespace _) as [|w [|c args]]; try done.
  destruct (negb _); [done|]. destruct (String.eqb _ "SUBMIT").
  - destruct args; [done|]. destruct (_ <=? _)%nat; [done|]. by destruct (random_bytes n).
  - destruct args; [done|]. destruct (_ || _); [|done]. destruct (FindJob _ _); [|done].
    destruct (String.eqb _ "STATUS"); [done|]. by destruct (_ || _).
Qed.

Lemma access_response_engine message result sv : sv_engine (access_response message result sv).2 = sv_engine sv.
Proof. by destruct result. Qed.

Lemma grant_command_engine permission message operation sv :
  sv_engine (grant_command permission message operation sv).2 = sv_engine sv.
Proof. unfold grant_command. destruct (ParsePermissionName permission); [apply access_response_engine|done]. Qed.

Lemma admin_command_engine ambient request sv k :
  sv_engine k.2 = sv_engine sv → sv_engine (admin_command hmac ambient request sv k).2 = sv_engine sv.
Proof. unfold admin_command. by destruct (require_admin _ _ _ _). Qed.

Lemma auth_command_engine ambient request command arguments sv :
  sv_engine (auth_command hmac ambient request command arguments sv).2 = sv_engine sv.
Proof.
  unfold auth_command, register_command. destruct arguments as [|a [|b rest]]; repeat case_match;
    first [done | apply access_response_engine
          | apply admin_command_engine; first [apply access_response_engine | apply grant_command_engine]].
Qed.

(** The committed databases of a server. *)
Definition committed_databases sv : gmap string (DatabaseRuntime T) := databases (en_runtime (sv_engine sv)).

(** A statement that may change database [m] for the sender: COMMIT, whose
    statements were checked when they came, REBUILD INDEX, which needs no
    permission, or a statement whose permission the sender has on [m]. *)
Definition may_change (user_id : string) (statement : Statement) (m : string) (ac : AccessController) : Prop :=
  statement = CommitTransactionStatement ∨ statement = RebuildIndexStatement ∨
  ∃ permission, RequiredPermission statement = Some permission ∧ Authorize user_id m permission ac = true.

Lemma execute_locally_engine request statement session sv :
  sv_engine (execute_locally regex_match clock io request statement session sv).2 =
  (ExecuteSql regex_match clock io session (req_payload request) (sv_engine sv)).2.
Proof. unfold execute_locally, execute_for. by destruct (ExecuteSql _ _ _ _ _ _) as [[r ses] en]. Qed.

Lemma authorize_statement_inv ambient request statement session ac session' :
  authorize_statement hmac ambient request statement session ac = inr session' → HasAccounts ac = true →
  ses_database session' = ses_database session ∧
  ∃ user_id, ValidateTokenAndGetUser hmac (req_jwt request) (amb_now ambient) ac = Some user_id ∧
    ∀ permission, RequiredPermission statement = Some permission →
      Authorize user_id (ResolveAuthorizationDatabaseName statement session') permission ac = true.
Proof.
  unfold authorize_statement. intros Ha Hacc. rewrite Hacc in Ha. simpl in Ha.
  destruct (ValidateTokenAndGetUser _ _ _ _) as [u|]; [|done].
  destruct (RequiredPermission statement) as [permission|] eqn:Ep.
  - destruct (Authorize _ _ _ _) eqn:Eauth; simpl in Ha; [|done]. simplify_eq. split; [done|]. exists u. split; [done|].
    intros p' [= <-]. done.
  - simplify_eq. split; [done|]. exists u. by split.
Qed.

Lemma needs_permission statement :
  statement ≠ CommitTransactionStatement → is_rebuild statement = false →
  is_Some (RequiredPermission statement) ∨
  ∀ session sql en, Parse sql = Ok statement →
    en_runtime (ExecuteSql regex_match clock io session sql en).2 = en_runtime en.
Proof.
  intros Hc Hr. destruct statement; try discriminate Hr; simpl; try (left; by eexists); try done; right; intros session sql en Hp;
    (destruct (en_transactions en !! TransactionKey session) as [tx|] eqn:Htx;
     [destruct (isolated_request regex_match clock io true session sql en) as [He _];
        [by rewrite Htx|by rewrite Hp|by unfold committed in He; simplify_eq]
     |unfold ExecuteSql, ExecuteSqlImpl; rewrite Hp, Htx]).
  - done.
  - unfold ExecuteAutocommit; simpl. by destruct (ValidateRuntimeIndexConsistency _).
Qed.

Lemma handle_sql_authorized ambient request sv n resp sv' n' m :
  HandleSql regex_match clock io hmac hash_int64 hash_string ambient request sv n = (resp, sv', n') →
  sv_nodes sv = [] → HasAccounts (sv_access sv) = true → committed_databases sv' !! m ≠ committed_databases sv !! m →
  ∃ statement user_id, Parse (req_payload request) = Ok statement ∧
    ValidateTokenAndGetUser hmac (req_jwt request) (amb_now ambient) (sv_access sv) = Some user_id ∧
    may_change user_id statement m (sv_access sv).
Proof.
  unfold HandleSql. intros Hh Hn Hacc Hdiff.
  destruct (Parse (req_payload request)) as [statement| |] eqn:Hp; [|by simplify_eq|by simplify_eq].
  destruct (GetOrCreateSession _ _) as [session sessions].
  destruct (authorize_statement _ _ _ _ _ _) as [[refusal ses]|ses] eqn:Ha; [by simplify_eq|].
  destruct (authorize_statement_inv _ _ _ _ _ _ Ha Hacc) as (Hdb & u & Hu & Hauth).
  exists statement, u. split_and!; [done|done|].
  simpl in Hh. rewrite Hn in Hh. set (sv1 := with_engine _ _ sv) in Hh.
  pose proof (execute_locally_engine request statement ses sv1) as He.
  destruct (execute_locally _ _ _ _ _ _ _) as [r sv2]. simplify_eq. simpl in He.
  unfold committed_databases in Hdiff. rewrite He in Hdiff.
  assert (Hc : statement = CommitTransactionStatement ∨ statement ≠ CommitTransactionStatement)
    by (destruct statement; auto).
  destruct Hc as [->|Hc]; [by left|].
  destruct (is_rebuild statement) eqn:Hr; [destruct statement; try done; by right; left|].
  right; right. destruct (needs_permission statement Hc Hr) as [[permission Hperm]|Hnone];
    [|destruct Hdiff; by rewrite Hnone].
  exists permission. split; [done|]. rewrite <-(Hauth permission Hperm). f_equal.
  destruct (decide (m = ResolveAuthorizationDatabaseName statement ses)) as [->|Hm]; [done|].
  destruct Hdiff. by apply (sql_only_database ses (req_payload request) statement).
Qed.

Lemma telemetry_command_engine times payload sv n :
  sv_engine (ParseTelemetryCommand (N:=N) times payload sv n).1.2 = sv_engine sv ∧
  ((ParseTelemetryCommand (N:=N) times payload sv n).1.1 = Ok None → (ParseTelemetryCommand (N:=N) times payload sv n).1.2 = sv).
Proof.
  unfold ParseTelemetryCommand. destruct (SplitWhitespace payload) as [|w [|c args]]; try done.
  destruct (negb _); [done|]. destruct (String.eqb _ "LOCAL"); [done|]. destruct (negb _); [done|].
  by destruct (collect_telemetry (sv_nodes sv) n) as [[snapshots| |] n'].
Qed.

Lemma answer_authorized ambient request sv n resp sv' n' m :
  answer_request regex_match clock io hmac hash_int64 hash_string ambient request sv n = (resp, sv', n') →
  keyword_of (req_payload request) ≠ Some "CLUSTER" →
  sv_nodes sv = [] → HasAccounts (sv_access sv) = true → committed_databases sv' !! m ≠ committed_databases sv !! m →
  ∃ statement user_id, Parse (req_payload request) = Ok statement ∧
    ValidateTokenAndGetUser hmac (req_jwt request) (amb_now ambient) (sv_access sv) = Some user_id ∧
    may_change user_id statement m (sv_access sv).
Proof.
  unfold answer_request. intros Hh Hk Hn Hacc Hdiff. rewrite not_cluster_command in Hh by done.
  pose proof (async_command_engine request sv n) as [He Hnone].
  destruct (ParseAsyncCommand request sv n) as [[[response|] sv1] n1]; simpl in *.
  { simplify_eq. unfold committed_databases in Hdiff. by rewrite He in Hdiff. }
  rewrite Hnone in Hh by done.
  pose proof (telemetry_command_engine (amb_times ambient) (req_payload request) sv n1) as [Het Htnone].
  destruct (ParseTelemetryCommand _ _ sv n1) as [[[[response|]| |] sv2] n2]; cbn [fst snd] in *;
    [simplify_eq; unfold committed_databases in Hdiff; by rewrite Het in Hdiff| |simplify_eq; unfold committed_databases in Hdiff; by rewrite Het in Hdiff..].
  rewrite Htnone in Hh by done. unfold ParseAuthCommand in Hh.
  assert (Hauth : ∀ c args, sv_engine (auth_command hmac ambient request c args sv).2 = sv_engine sv)
    by (intros; apply auth_command_engine).
  destruct (SplitWhitespace (req_payload request)) as [|w [|c args]]; try (by eapply handle_sql_authorized).
  destruct (String.eqb (ToUpper w) "AUTH"); [|by eapply handle_sql_authorized].
  specialize (Hauth (ToUpper c) args). destruct (auth_command _ _ _ _ _ _) as [r sv3]. simplify_eq. simpl in Hauth.
  unfold committed_databases in Hdiff. by rewrite Hauth in Hdiff.
Qed.

(** What a request does is what its answer does, and a record of it. *)
Lemma handle_request_answers ambient request sv n :
  let sv1 := with_journal (sv_telemetry sv) (sv_log sv) ((sv_next_handler sv + 1) mod uint64_modulus) sv in
  ∃ resp sv2 n', answer_request regex_match clock io hmac hash_int64 hash_string ambient request sv1 n = (resp, sv2, n') ∧
    HandleRequest regex_match clock io hmac hash_int64 hash_string ambient request sv n =
      (resp, match resp with Ok r => finalize ambient request (handler_name (sv_next_handler sv)) r sv2 | _ => sv2 end, n').
Proof.
  intros sv1. unfold HandleRequest. fold sv1.
  destruct (answer_request _ _ _ _ _ _ _ _ sv1 n) as [[resp sv2] n']. exists resp, sv2, n'. split; [done|]. by destruct resp.
Qed.

(** C29: A database is protected once there are accounts, on a server without
    storage nodes: when the handling of a request that is no CLUSTER command
    changes the committed tables of a database [m], the request is an SQL
    statement, its token is accepted as one of a user, and the user has on [m]
    the permission the statement needs. The exceptions, which need a token of
    some user but no permission on [m], are COMMIT, which publishes whatever the
    transaction of the client's id holds, and REBUILD INDEX. What the worker
    thread later does for a job of ASYNC SUBMIT is not the handling of a
    request, and is not checked. *)
Theorem changes_are_authorized ambient request sv n resp sv' n' m :
  HandleRequest regex_match clock io hmac hash_int64 hash_string ambient request sv n = (resp, sv', n') →
  keyword_of (req_payload request) ≠ Some "CLUSTER" →
  sv_nodes sv = [] → HasAccounts (sv_access sv) = true → committed_databases sv' !! m ≠ committed_databases sv !! m →
  ∃ statement user_id, Parse (req_payload request) = Ok statement ∧
    ValidateTokenAndGetUser hmac (req_jwt request) (amb_now ambient) (sv_access sv) = Some user_id ∧
    may_change user_id statement m (sv_access sv).
Proof.
  intros Hh Hk Hn Hacc Hdiff. destruct (handle_request_answers ambient request sv n) as (r & sv2 & n2 & Ha & Hr).
  rewrite Hr in Hh. simplify_eq. apply (answer_authorized _ _ _ _ _ _ _ m Ha Hk); try done. by destruct resp.
Qed.
End authorization.

(** A node that the heartbeat restarts, with its port as its argument, listens
    on the port it had and so finds its data again. *)
Lemma restarted_node_keeps_its_port node :
  0 < node_port node ≤ 65535 → parse_port 4546 [to_string (node_port node)] = inr (node_port node).
Proof.
  intros Hp. unfold parse_port. rewrite stoi_to_string by lia.
  by destruct (Z.leb_spec (node_port node) 0), (Z.gtb_spec (node_port node) 65535); try lia.
Qed.
