(* ===== verification/ClusterFacts.v ===== *)
(** * Sharding and dumps

    Rows go to the node where statements with their key look for them; dumps of
    tables come through unharmed inside a process, and empty over the wire. *)
From S2P Require Import Prelude Numerals CommonTypes Storage IndexSpec RuntimeState Ast Execution Codec.
From S2P Require Import Protocol Wal.
From S2P Require Import Uuid Text Cluster.
From Stdlib Require Import Ascii.
Open Scope Z_scope.

(** ** Routes *)

Section routes.
Context {T : Type} (hash_int64 : Z → Z) (hash_string : string → Z).
Notation RouteValueToNode := (RouteValueToNode hash_int64 hash_string).
Notation split_rows := (split_rows hash_int64 hash_string).

Lemma route_in_range value nodes index :
  nodes ≠ [] → RouteValueToNode value nodes = Ok index → (index < length nodes)%nat.
Proof.
  intros Hn. unfold Cluster.RouteValueToNode. destruct nodes as [|node nodes]; [done|].
  destruct (if bool_decide _ then _ else _) as [h| |]; simpl; try done. intros [= <-].
  pose proof (Z.mod_pos_bound h (Z.pos (Pos.of_succ_nat (length nodes))) ltac:(lia)). lia.
Qed.

Lemma push_row_lookup index row i (m : RowsByNode) :
  default [] (push_row index row m !! i) = default [] (m !! i) ++ (if decide (i = index) then [row] else []).
Proof.
  unfold push_row. destruct (decide (i = index)) as [->|Hi].
  - by rewrite lookup_insert_eq.
  - by rewrite lookup_insert_ne, app_nil_r by done.
Qed.

(** The row is sent to the node that its key picks. *)
Definition routed_to (pos : nat) (nodes : list StorageNodeEndpoint) (index : nat) (row : list Value) : Prop :=
  ∃ key, row !! pos = Some key ∧ RouteValueToNode key nodes = Ok index.

(** The split is a partition: every row goes to the node of its key, behind the
    ones before it. *)
Lemma split_rows_partition pos nodes rows m m' :
  split_rows pos nodes rows m = Ok (Some m') →
  ∃ literals, mapM literal_row rows = Some literals ∧
    (∀ row, row ∈ literals → ∃ index rs, routed_to pos nodes index row ∧ m' !! index = Some rs ∧ row ∈ rs) ∧
    (∀ index rs, m' !! index = Some rs →
       ∀ row, row ∈ rs → row ∈ default [] (m !! index) ∨ row ∈ literals ∧ routed_to pos nodes index row) ∧
    (∀ index row, row ∈ default [] (m !! index) → row ∈ default [] (m' !! index)).
Proof.
  revert m. induction rows as [|row_exprs rows IH]; intros m H; cbn [Cluster.split_rows] in H.
  { simplify_eq. exists []. split_and!; [done|by intros row ?%not_elem_of_nil| |done].
    intros index rs Hrs row Hrow. left. by rewrite Hrs. }
  destruct (row_exprs !! pos); [|done]. destruct (literal_row row_exprs) as [row|] eqn:Hlit; [|done].
  destruct (row !! pos) as [key|] eqn:Hkey; [|done]. cbn [or_crash obind] in H.
  destruct (RouteValueToNode key nodes) as [index| |] eqn:Hroute; [|done|done]. cbn [obind] in H.
  destruct (IH _ H) as (literals & Hlits & Hin & Hout & Hkeep). exists (row :: literals).
  assert (Hself : row ∈ default [] (m' !! index)).
  { apply Hkeep. rewrite push_row_lookup, decide_True by done. set_solver. }
  split_and!.
  - cbn [mapM]. rewrite Hlit. simpl. by rewrite Hlits.
  - intros row' [->|Hrow']%elem_of_cons; [|by apply Hin]. exists index.
    destruct (m' !! index) as [rs|] eqn:Hm'; simpl in Hself; [|by apply not_elem_of_nil in Hself].
    exists rs. split_and!; try done. by exists key.
  - intros i rs Hrs row' Hrow'. destruct (Hout i rs Hrs row' Hrow') as [Hold|[Hl Hr]].
    + rewrite push_row_lookup in Hold. apply elem_of_app in Hold as [Hold|Hold]; [by left|]. right.
      destruct (decide (i = index)) as [->|]; [|by apply not_elem_of_nil in Hold].
      apply list_elem_of_singleton in Hold as ->. split; [set_solver|]. by exists key.
    + right. split; [set_solver|done].
  - intros i row' Hrow'. apply Hkeep. rewrite push_row_lookup. set_solver.
Qed.

(** SELECT, UPDATE and DELETE of a table with a WHERE clause. *)
Inductive looks_in (table_name : QualifiedName) (w : Expression) : Statement → Prop :=
  | select_looks items : looks_in table_name w (SelectStatement table_name items (Some w))
  | update_looks assignments : looks_in table_name w (UpdateStatement table_name assignments (Some w))
  | delete_looks : looks_in table_name w (DeleteStatement table_name (Some w)).

(** C31: Sharding is consistent: when an INSERT of literals is split over the
    nodes of a cluster that is not empty, every row of it with a shard key is
    in the statement for one node, and a SELECT, UPDATE or DELETE of the table
    whose condition fixes the shard key to the value of the row is routed to
    that node; no row is in the statement for another node. *)
Theorem insert_reaches_its_shard table_name column_names rows nodes session (s : RuntimeState T) routed shard_key pos row_exprs row key w statement :
  SplitInsertByShard hash_int64 hash_string table_name column_names rows nodes session s = Ok (Some routed) →
  ResolveClusterTableSchema table_name session s ≫= ResolveShardKeyColumn = Some shard_key →
  find_position shard_key column_names = Some pos → nodes ≠ [] →
  row_exprs ∈ rows → literal_row row_exprs = Some row → row !! pos = Some key →
  TryExtractShardKeyValue w shard_key = Some key → looks_in table_name w statement →
  ∃ index n (by_node : RowsByNode) rs,
    RouteNodeIndex hash_int64 hash_string statement nodes session s = Ok (Some index) ∧ (index < length nodes)%nat ∧
    routed = RenderInsertSql (MkQName (Some n) (q_object table_name)) column_names <$> by_node ∧
    by_node !! index = Some rs ∧ row ∈ rs ∧
    ∀ i rs', by_node !! i = Some rs' → row ∈ rs' → i = index.
Proof.
  intros Hsplit Hkey Hpos Hnodes Hin Hlit Hrow Hex Hlooks. unfold SplitInsertByShard in Hsplit. rewrite Hkey, Hpos in Hsplit.
  destruct (ResolveClusterDatabaseName table_name session) as [n|]; [|done].
  destruct (split_rows pos nodes rows ∅) as [[by_node|]| |] eqn:Hs; simpl in Hsplit; try done. simplify_eq.
  destruct (split_rows_partition _ _ _ _ _ Hs) as (literals & Hlits & Hsent & Hout & _).
  assert (Hl : row ∈ literals).
  { apply list_elem_of_lookup in Hin as [i Hi]. apply mapM_Some in Hlits.
    destruct (Forall2_lookup_l _ _ _ _ _ Hlits Hi) as (row' & Hi' & Hrow'). simplify_eq. by eapply list_elem_of_lookup_2. }
  destruct (Hsent row Hl) as (index & rs & (key' & Hk' & Hroute) & Hrs & Hrow_in). simplify_eq.
  exists index, n, by_node, rs. split_and!; try done.
  - destruct Hlooks; unfold RouteNodeIndex, evaluate_route; (destruct nodes; [done|]);
      rewrite Hkey, Hex, Hroute; done.
  - by eapply route_in_range.
  - intros i rs' Hi Hbad. destruct (Hout i rs' Hi row Hbad) as [Hold|[_ (k & Hk & Hr)]]; [|rewrite Hrow in Hk; injection Hk as <-; congruence].
    rewrite lookup_empty in Hold. by apply not_elem_of_nil in Hold.
Qed.
End routes.

(** ** Dumps *)

Section dumps.

(** A value as it is read back: strings are not interned. *)
Definition dumped (value : Value) : Value :=
  match value with VInterned p => VStr (intern_text p) | v => v end.

Definition dump_ok (value : Value) : Prop :=
  match value with
  | VNull => True
  | VInt z => in_int64 z
  | VStr s => one_line s
  | VInterned p => one_line (intern_text p)
  end.

(** The text of a value before it is escaped. *)
Definition dump_field (value : Value) : string :=
  match value with
  | VNull => "Null"
  | VInt z => "Int:" +:+ to_string z
  | VStr s => "String:" +:+ s
  | VInterned p => "String:" +:+ intern_text p
  end.

Lemma dump_value_field value : dump_value value = String tab (EscapeField (dump_field value)).
Proof.
  destruct value as [|z|s|p]; cbn [dump_value dump_field]; [done| |done|done].
  change (EscapeField ("Int:" +:+ to_string z)) with ("Int:" +:+ EscapeField (to_string z)).
  by rewrite escape_plain by apply plain_to_string.
Qed.

Lemma decode_dumped value : dump_ok value → DecodeClusterValue (EscapeField (dump_field value)) = Some (dumped value).
Proof.
  destruct value as [|z|s|p]; intros Hok; cbn [dump_field dumped]; [done| | |].
  - change (EscapeField ("Int:" +:+ to_string z)) with ("Int:" +:+ EscapeField (to_string z)).
    rewrite escape_plain by apply plain_to_string. unfold DecodeClusterValue.
    change (String.eqb ("Int:" +:+ to_string z) "Null") with false. cbv iota. rewrite strip_prefix_app.
    by rewrite stoll_to_string, Nat.eqb_refl.
  - change (EscapeField ("String:" +:+ s)) with ("String:" +:+ EscapeField s). unfold DecodeClusterValue.
    change (String.eqb ("String:" +:+ EscapeField s) "Null") with false.
    change (strip_prefix "Int:" ("String:" +:+ EscapeField s)) with (None : option string). cbv iota.
    by rewrite strip_prefix_app, unescape_escape.
  - change (EscapeField ("String:" +:+ intern_text p)) with ("String:" +:+ EscapeField (intern_text p)). unfold DecodeClusterValue.
    change (String.eqb ("String:" +:+ EscapeField (intern_text p)) "Null") with false.
    change (strip_prefix "Int:" ("String:" +:+ EscapeField (intern_text p))) with (None : option string). cbv iota.
    by rewrite strip_prefix_app, unescape_escape.
Qed.

Definition dump_line (values : list Value) : string := "ROW" +:+ foldr (λ v rest, dump_value v +:+ rest) "" values.

Lemma dump_line_join values : dump_line values = join tab (map EscapeField ("ROW" :: map dump_field values)).
Proof.
  unfold dump_line. assert (H : ∀ x, x +:+ foldr (λ v rest, dump_value v +:+ rest) "" values =
    join tab (x :: map EscapeField (map dump_field values))); [|exact (H "ROW")].
  induction values as [|v values IH]; intros x; cbn [foldr map join]; [by rewrite str_app_nil_r|].
  rewrite dump_value_field. cbn [String.append]. rewrite IH. done.
Qed.

Lemma dump_value_ok value : dump_ok value → no_char newline (dump_value value) = true.
Proof.
  intros Hok. rewrite dump_value_field.
  change (no_char newline (EscapeField (dump_field value)) = true). rewrite escape_no_newline.
  destruct value as [|z|s|p]; [done| |exact Hok|exact Hok].
  change (no_char newline (to_string z) = true). apply plain_no_newline, plain_to_string.
Qed.

Lemma dump_line_ok values : Forall dump_ok values → one_line (dump_line values).
Proof.
  unfold dump_line, one_line. intros H. rewrite no_char_app. apply andb_true_iff. split; [done|].
  induction H as [|v values Hv _ IH]; cbn [foldr]; [done|]. by rewrite no_char_app, IH, dump_value_ok.
Qed.

Lemma lines_of_dump first rows :
  one_line first → first ≠ "" → Forall (Forall dump_ok) (map row_values rows) →
  lines_of (first +:+ foldr (λ r rest, dump_row r +:+ rest) "" rows) = first :: map dump_line (map row_values rows).
Proof.
  intros Hone Hne Hrows. revert first Hone Hne. induction rows as [|row rows IH]; intros first Hone Hne; cbn [foldr map].
  { rewrite str_app_nil_r, lines_of_one_line by done. by apply String.eqb_neq in Hne as ->. }
  cbn [map] in Hrows. apply Forall_cons in Hrows as [Hrow Hrows]. unfold dump_row at 1.
  change (String newline "ROW" +:+ foldr (λ v rest, dump_value v +:+ rest) "" (row_values row))
    with (String newline (dump_line (row_values row))). cbn [String.append].
  pose proof (lines_unlines [first] (dump_line (row_values row) +:+ foldr (λ r rest, dump_row r +:+ rest) "" rows)) as E.
  cbn [unlines] in E. unfold line in E. rewrite str_app_nil_r, <-str_app_assoc in E. cbn [String.append] in E.
  rewrite E by (by constructor). cbn [app]. f_equal. apply IH; [done|by apply dump_line_ok|done].
Qed.

(** A dump that stays inside the process is read back as it is. *)
Lemma dump_roundtrip rows :
  Forall (Forall dump_ok) (map row_values rows) →
  parse_dump (dump_rows rows) = Some (map (λ r, map dumped (row_values r)) rows).
Proof.
  intros Hrows. unfold parse_dump, dump_rows. rewrite lines_of_dump by done. cbn [String.eqb Ascii.eqb Bool.eqb].
  induction rows as [|row rows IH]; [done|]. cbn [map] in *. apply Forall_cons in Hrows as [Hrow Hrows].
  cbn [parse_dump_lines]. destruct (String.eqb_spec (dump_line (row_values row)) "") as [E|_]; [done|].
  rewrite dump_line_join at 1. unfold SplitByTab. rewrite split_join_escaped by done. cbn [map].
  change (String.eqb (EscapeField "ROW") "ROW") with true. cbv iota.
  assert (Hd : mapM DecodeClusterValue (map EscapeField (map dump_field (row_values row))) = Some (map dumped (row_values row))).
  { apply mapM_Some, Forall2_fmap_r. rewrite map_map. apply Forall2_fmap_l, Forall_Forall2_diag.
    eapply Forall_impl; [exact Hrow|]. intros v Hv. by apply decode_dumped. }
  rewrite Hd. cbn [mbind option_bind]. by rewrite IH.
Qed.

Context {N : Type} `{!Outside N}.

(** A registered server that forwards a request in turn locks the mutex of the
    registry twice. *)
Lemma nested_forwarding_locks_twice node node' request request' handle (n : N) :
  registry_locked n = false → registry_locked (lock_registry true n) = true →
  registered (node_host node +:+ ":" +:+ to_string (node_port node)) = Some handle →
  (∀ m, (handle request m).1 = let* r := (ForwardToStorageNode node' request' m).1 in Ok (default (MkResponse 500 "") r)) →
  (ForwardToStorageNode node request n).1 = Crash UndefinedBehaviour.
Proof.
  intros Hn Hlock Hreg Hh. unfold ForwardToStorageNode at 1, local_handle at 1. rewrite Hn, Hreg.
  specialize (Hh (lock_registry true n)). destruct (handle request (lock_registry true n)) as [r n1]. simpl in Hh. subst r.
  unfold ForwardToStorageNode, local_handle. by rewrite Hlock.
Qed.

(** C40: A table dump over the wire is always empty: whatever rows a node of
    another process answers a DUMP_TABLE with, with status 200, the entrypoint
    takes the answer for a dump without rows, and reports no error; the rows of
    a node that is removed from the cluster are therefore not moved to the
    other nodes. *)
Theorem remote_dump_is_empty node database_name table_name rows (n n' : N) :
  let request := rebalance_request ("CLUSTER DUMP_TABLE " +:+ database_name +:+ " " +:+ table_name) in
  local_handle (node_host node +:+ ":" +:+ to_string (node_port node)) request n = None →
  exchange (node_host node) (node_port node) (SerializeRequest request) n =
    (Some (SerializeResponse (MkResponse 200 (dump_rows rows))), n') →
  FetchTableDump node database_name table_name n = (Ok (Some []), n').
Proof.
  intros request Hlocal Hex.
  assert (Hgot : ∃ rest, receive_response (SerializeResponse (MkResponse 200 (dump_rows rows))) = Some (Some (MkResponse 200 "ROWS"), rest)).
  { destruct rows as [|row rows].
    - exists "". pose proof (response_received (MkResponse 200 "ROWS") "" ltac:(simpl; lia) eq_refl) as H.
      by rewrite str_app_nil_r in H.
    - eexists. unfold dump_rows. cbn [foldr]. unfold dump_row. cbn [String.append].
      by apply (response_truncated 200 "ROWS"). }
  destruct Hgot as [rest Hgot]. unfold receive_response in Hgot.
  destruct (read_line _) as [[wire rest']|] eqn:Hread; [|done]. cbn in Hgot.
  injection Hgot as Hwire _. unfold FetchTableDump, rbind, ForwardToStorageNode. fold request.
  by rewrite Hlocal, Hex, Hread, Hwire.
Qed.
End dumps.
