(* ===== verification/ClusterNetwork.v ===== *)
(** * A cluster of storage nodes

    The entrypoint of [Cluster] talking to storage nodes that run [Server],
    over the protocol of [Protocol]: a message may not arrive, or the answer to
    it may be lost, as the fault of each message says. On this composition
    two-phase commit is judged by what the nodes execute. *)
From S2P Require Import Prelude Numerals CommonTypes Storage BStarPlusTree IndexSpec RuntimeState Ast.
From S2P Require Import VersionStore.
From S2P Require Import Execution Lexer Parser ParserFacts Wal Engine Persistence Rbac Codec Protocol.
From S2P Require Import JobQueue Uuid Text.
From S2P Require Import Cluster Server ServerFacts.
From Stdlib Require Import Ascii.
Open Scope Z_scope.

(** ** Texts of transactions *)

Lemma hex_char_word d : 0 ≤ d < 16 → Ascii.eqb (hex_char d) " " = false ∧ Ascii.eqb (hex_char d) newline = false.
Proof.
  intros H. assert (d = 0 ∨ d = 1 ∨ d = 2 ∨ d = 3 ∨ d = 4 ∨ d = 5 ∨ d = 6 ∨ d = 7 ∨
                    d = 8 ∨ d = 9 ∨ d = 10 ∨ d = 11 ∨ d = 12 ∨ d = 13 ∨ d = 14 ∨ d = 15) by lia.
  by destruct_or?; subst.
Qed.

Lemma hex_padded_no_char k n acc c :
  c = " "%char ∨ c = newline → no_char c acc = true → no_char c (hex_padded k n acc) = true.
Proof.
  intros Hc. revert n acc. induction k as [|k IH]; intros n acc Hacc; [done|]. cbn [hex_padded]. apply IH.
  cbn [no_char]. rewrite Hacc, andb_true_r. destruct (hex_char_word (n mod 16)) as [H1 H2]; [apply Z.mod_pos_bound; lia|].
  destruct Hc as [->| ->]; [by rewrite H1|by rewrite H2].
Qed.

Lemma guid_no_char bytes c : c = " "%char ∨ c = newline → no_char c (NewGuidV4 bytes) = true.
Proof.
  intros Hc. unfold NewGuidV4. generalize 0%nat. induction bytes as [|b bytes IH]; intros i; [done|]. cbn [guid_text].
  rewrite no_char_app. apply andb_true_iff. split; [by destruct (guid_dash i), Hc as [->| ->]|].
  by apply hex_padded_no_char.
Qed.

Lemma guid_nonempty bytes : bytes ≠ [] → NewGuidV4 bytes ≠ "".
Proof.
  intros Hb E. destruct bytes as [|b bytes]; [done|]. apply (f_equal String.length) in E.
  unfold NewGuidV4 in E. cbn [guid_text] in E. rewrite str_length_app, hex_padded_length in E. simpl in E. lia.
Qed.

(** The status of a response survives the wire whatever the payload is. *)
Lemma response_status_received r :
  -2147483648 ≤ resp_status r ≤ 2147483647 →
  ∃ payload rest, receive_response (SerializeResponse r) = Some (Some (MkResponse (resp_status r) payload), rest).
Proof.
  intros Hs. destruct r as [status payload]; simpl in *.
  assert (Hcase : no_char newline payload = true ∨ ∃ a b, payload = a +:+ String newline b ∧ no_char newline a = true).
  { clear Hs. induction payload as [|c p IH]; [by left|]. destruct (Ascii.eqb c newline) eqn:Ec.
    - right. apply Ascii.eqb_eq in Ec as ->. by exists "", p.
    - destruct IH as [IH|(a & b & -> & Ha)]; [left|right; exists (String c a), b; split; [done|]]; cbn [no_char]; by rewrite Ec. }
  destruct Hcase as [Hp|(a & b & -> & Ha)].
  - exists payload, "". rewrite <-(str_app_nil_r (SerializeResponse _)). by apply response_received.
  - eexists _, _. by apply response_truncated.
Qed.

(** ** The network *)

Inductive LinkFault := Delivered | NotDelivered | AnswerLost.

(** Storage nodes have no nodes of their own. *)
#[export] Instance no_outside : Outside unit := {
  exchange _ _ _ n := (None, n);
  registered _ := None;
  registry_locked _ := false;
  lock_registry _ n := n;
  random_bytes n := (replicate 16 0, n)
}.

Section network.
Context {T D : Type} `{!IndexOps T} `{!PersistenceOps T D}.
Context (regex_match : string → string → Outcome bool) (clock : nat → Tm) (io : nat → WriteFault).
Context (hmac : string → string → option string).
Context (hash_int64 : Z → Z) (hash_string : string → Z).
Context (ambient : Ambient) (link : nat → LinkFault) (bytes : nat → list Z).

Record Nodes := MkNodes { nw_servers : gmap string (EntrypointServer T D); nw_sent : nat }.

Definition node_key (host : string) (port : Z) : string := host +:+ ":" +:+ to_string port.
Definition key_of_node (node : StorageNodeEndpoint) : string := node_key (node_host node) (node_port node).

Notation handle := (HandleRequest regex_match clock io hmac hash_int64 hash_string ambient).
Notation socket := (HandleClientSocket regex_match clock io hmac hash_int64 hash_string ambient).

(** An exception that nothing catches ends the process of the node. *)
Definition deliver (host : string) (port : Z) (text : string) (w : Nodes) : option string * Nodes :=
  let sent := S (nw_sent w) in
  let key := node_key host port in
  match link (nw_sent w), nw_servers w !! key with
  | NotDelivered, _ | _, None => (None, MkNodes (nw_servers w) sent)
  | fault, Some sv =>
      match socket text sv tt with
      | (Ok answer, sv, _) =>
          (match fault with AnswerLost => Some "" | _ => Some (default "" answer) end, MkNodes (<[key := sv]> (nw_servers w)) sent)
      | _ => (None, MkNodes (delete key (nw_servers w)) sent)
      end
  end.

#[export] Instance nodes_outside : Outside Nodes := {
  exchange := deliver;
  registered _ := None;
  registry_locked _ := false;
  lock_registry _ w := w;
  random_bytes w := (bytes (nw_sent w), MkNodes (nw_servers w) (S (nw_sent w)))
}.

(** ** One message *)

Lemma socket_request request sv :
  request_one_line request = true →
  socket (SerializeRequest request) sv tt =
    let '(response, sv, n) := handle request sv tt in
    (let* response := response in Ok (Some (SerializeResponse response)), sv, n).
Proof.
  intros Hone. unfold HandleClientSocket.
  pose proof (request_received request "" Hone) as H. rewrite str_app_nil_r in H. unfold receive_request in H.
  destruct (read_line (SerializeRequest request)) as [[wire rest]|]; [|done]. cbn in H. injection H as Hd _. by rewrite Hd.
Qed.

(** What forwarding a request does: the node is not reached, or it handles the
    request and the sender sees the status or nothing, or its process ends. *)
Lemma forward_cases node request (w : Nodes) :
  request_one_line request = true →
  (∀ sv response sv', nw_servers w !! key_of_node node = Some sv → handle request sv tt = (Ok response, sv', tt) →
     -2147483648 ≤ resp_status response ≤ 2147483647) →
  ∃ answer w', ForwardToStorageNode node request w = (Ok answer, w') ∧
    (answer = None ∧ nw_servers w' = nw_servers w ∨
     (∃ sv response sv', nw_servers w !! key_of_node node = Some sv ∧ handle request sv tt = (Ok response, sv', tt) ∧
       nw_servers w' = <[key_of_node node := sv']> (nw_servers w) ∧
       (answer = None ∨ ∃ payload, answer = Some (MkResponse (resp_status response) payload))) ∨
     ∃ sv, nw_servers w !! key_of_node node = Some sv ∧ (∀ response sv', handle request sv tt ≠ (Ok response, sv', tt)) ∧
       answer = None ∧ nw_servers w' = delete (key_of_node node) (nw_servers w)).
Proof.
  intros Hone Hok. unfold ForwardToStorageNode. cbn [local_handle registry_locked registered exchange nodes_outside]. unfold deliver.
  change (node_key (node_host node) (node_port node)) with (key_of_node node).
  destruct (nw_servers w !! key_of_node node) as [sv|] eqn:Hsv; [|destruct (link (nw_sent w)); eauto 10].
  rewrite socket_request by done. destruct (handle request sv tt) as [[[response|er|c] sv'] []] eqn:Hh; cbn [obind].
  2, 3: destruct (link (nw_sent w)); eexists _, _; (split; [reflexivity|]); [| by left |];
    right; right; exists sv; split_and!; try done; intros; by rewrite Hh.
  specialize (Hok sv response sv' eq_refl Hh).
  destruct (response_status_received response Hok) as (payload & rest & Hrecv). unfold receive_response in Hrecv.
  change (default "" (Some (SerializeResponse response))) with (SerializeResponse response).
  destruct (link (nw_sent w)); [|eauto 10|cbn [read_line]; eauto 15].
  destruct (read_line (SerializeResponse response)) as [[wire rest']|]; [|done]. cbn in Hrecv. injection Hrecv as Hrecv _.
  rewrite Hrecv. eauto 15.
Qed.

(** ** The commands of two-phase commit on a node *)

Definition prepare_text (tx_id sql : string) : string := "CLUSTER PREPARE_TX " +:+ tx_id +:+ " " +:+ sql.
Definition session_of (client_id : string) (sv : EntrypointServer T D) : SessionContext :=
  (GetOrCreateSession client_id (sv_sessions sv)).1.

(** A usable id: not empty and without spaces and newlines. *)
Definition tx_ok (tx_id : string) : Prop := tx_id ≠ "" ∧ no_char " " tx_id = true ∧ no_char newline tx_id = true.

Lemma session_stays client sv sessions :
  (GetOrCreateSession client (sv_sessions sv)).2 = sessions → (GetOrCreateSession client sessions).1 = session_of client sv.
Proof.
  unfold session_of, GetOrCreateSession. destruct (sv_sessions sv !! client) as [session|] eqn:E; simpl; intros <-.
  - by rewrite E.
  - by rewrite lookup_insert_eq.
Qed.

Lemma handle_prepare request tx_id sql sv :
  tx_ok tx_id →
  ∃ response sv', handle (with_payload request (prepare_text tx_id sql)) sv tt = (Ok response, sv', tt) ∧
    -2147483648 ≤ resp_status response ≤ 2147483647 ∧ sv_engine sv' = sv_engine sv ∧
    (resp_status response = 200 →
       session_of (req_client request) sv' = session_of (req_client request) sv ∧
       sv_pending sv' !! tx_id = Some (MkPending sql (req_client request) (ses_database (session_of (req_client request) sv)))).
Proof.
  intros (Hne & Hsp & _). unfold HandleRequest, answer_request, ParseClusterCommand, prepare_text. cbn [with_payload req_payload req_client].
  rewrite strip_prefix_app. unfold prepare_command. change (" " +:+ sql) with (String " " sql). rewrite split_first_app by done.
  apply String.eqb_neq in Hne. rewrite Hne. cbn [orb].
  destruct (String.eqb sql ""); [by eexists _, _|].
  destruct (Parse sql) as [statement|er|c] eqn:Hp; [|by eexists _, _|by destruct (Parse_no_crash sql c)].
  destruct (negb (ServerIsMutatingStatement statement)); [by eexists _, _|].
  cbn [req_client with_payload with_journal sv_sessions sv_pending sv_engine]. unfold session_of.
  destruct (GetOrCreateSession (req_client request) (sv_sessions sv)) as [session sessions] eqn:Hses.
  eexists _, _. split; [reflexivity|]. split; [done|]. split; [done|]. intros _. cbn. split.
  - rewrite (session_stays _ sv) by (by rewrite Hses). unfold session_of. by rewrite Hses.
  - by rewrite lookup_insert_eq.
Qed.

Lemma handle_abort request tx_id sv :
  ∃ response sv', handle (with_payload request ("CLUSTER ABORT_TX " +:+ tx_id)) sv tt = (Ok response, sv', tt) ∧
    -2147483648 ≤ resp_status response ≤ 2147483647 ∧ sv_engine sv' = sv_engine sv.
Proof.
  unfold HandleRequest, answer_request, ParseClusterCommand. cbn [with_payload req_payload].
  change (strip_prefix "CLUSTER PREPARE_TX " ("CLUSTER ABORT_TX " +:+ tx_id)) with (None : option string).
  change (strip_prefix "CLUSTER COMMIT_TX " ("CLUSTER ABORT_TX " +:+ tx_id)) with (None : option string). cbv iota.
  rewrite strip_prefix_app. unfold abort_command. destruct (String.eqb tx_id ""); by eexists _, _.
Qed.

(** A commit that answers 200 executed the prepared statement with success. *)
Lemma handle_commit request tx_id sv pending :
  tx_ok tx_id → sv_pending sv !! tx_id = Some pending →
  ∃ result session en, ExecuteSql regex_match clock io
      (MkSession (ses_client (session_of (pending_client pending) sv)) (ses_user (session_of (pending_client pending) sv))
         (pending_database pending)) (pending_sql pending) (sv_engine sv) = (result, session, en) ∧
    ∃ sv', sv_engine sv' = en ∧
      handle (with_payload request ("CLUSTER COMMIT_TX " +:+ tx_id)) sv tt =
        (match result with
         | Ok r => Ok (MkResponse 200 (res_message r))
         | Err er => Ok (MkResponse 400 (FormatErrorContract er (pending_sql pending)))
         | Crash c => Crash c
         end, sv', tt).
Proof.
  intros (Hne & _) Hpend. unfold HandleRequest, answer_request, ParseClusterCommand. cbn [with_payload req_payload].
  change (strip_prefix "CLUSTER PREPARE_TX " ("CLUSTER COMMIT_TX " +:+ tx_id)) with (None : option string). cbv iota.
  rewrite strip_prefix_app. unfold commit_command. apply String.eqb_neq in Hne. rewrite Hne.
  cbn [with_journal sv_pending sv_sessions sv_engine]. rewrite Hpend.
  unfold session_of. destruct (GetOrCreateSession (pending_client pending) (sv_sessions sv)) as [session sessions]. cbn [fst].
  unfold execute_for. destruct (ExecuteSql _ _ _ _ _ _) as [[result session'] en].
  exists result, session', en. split; [done|]. by destruct result; eexists; (split; [|reflexivity]).
Qed.

(** ** Two-phase commit *)

Definition engines (w : Nodes) : gmap string (DbmsEngine T D) := sv_engine <$> nw_servers w.

Definition keys (prepared : Prepared) : list string := map (λ p, key_of_node p.1) prepared.

(** Client and token have no newline. *)
Definition sender_ok (request : RequestEnvelope) : Prop :=
  no_char newline (req_client request) = true ∧ no_char newline (req_jwt request) = true.

Lemma one_line_payload request payload :
  sender_ok request → no_char newline payload = true → request_one_line (with_payload request payload) = true.
Proof. intros [H1 H2] H3. unfold request_one_line. simpl. by rewrite H1, H2, H3. Qed.

Lemma engines_insert (w w' : Nodes) key sv sv' :
  nw_servers w !! key = Some sv → sv_engine sv' = sv_engine sv →
  nw_servers w' = <[key := sv']> (nw_servers w) → engines w' = engines w.
Proof.
  intros Hsv He Hw. unfold engines. rewrite Hw, fmap_insert, He. apply insert_id. by rewrite lookup_fmap, Hsv.
Qed.

(** The node has the statement of the transaction as it was in [w0]. *)
Definition prepared_on (tx_id : string) (request : RequestEnvelope) (w0 w : Nodes) (p : StorageNodeEndpoint * string) : Prop :=
  ∃ sv sv', nw_servers w0 !! key_of_node p.1 = Some sv ∧ nw_servers w !! key_of_node p.1 = Some sv' ∧
    sv_engine sv' = sv_engine sv ∧ session_of (req_client request) sv' = session_of (req_client request) sv ∧
    sv_pending sv' !! tx_id = Some (MkPending p.2 (req_client request) (ses_database (session_of (req_client request) sv))).

(** A statement that a node executed with success on the state of [w0], in the
    session of the client. *)
Definition executed_on (request : RequestEnvelope) (w0 w : Nodes) (p : StorageNodeEndpoint * string) : Prop :=
  ∃ sv sv' result session, nw_servers w0 !! key_of_node p.1 = Some sv ∧ nw_servers w !! key_of_node p.1 = Some sv' ∧
    ExecuteSql regex_match clock io (session_of (req_client request) sv) p.2 (sv_engine sv) = (Ok result, session, sv_engine sv').

Lemma prepare_step tx_id request node sql (w : Nodes) :
  tx_ok tx_id → sender_ok request → no_char newline sql = true →
  ∃ answer w', ForwardToStorageNode node (with_payload request (prepare_text tx_id sql)) w = (Ok answer, w') ∧
    engines w' = engines w ∧ (∀ key, key ≠ key_of_node node → nw_servers w' !! key = nw_servers w !! key) ∧
    (answered_200 answer = true → prepared_on tx_id request w w' (node, sql)).
Proof.
  intros Htx Hs Hsql.
  assert (Hone : request_one_line (with_payload request (prepare_text tx_id sql)) = true).
  { apply one_line_payload; [done|]. unfold prepare_text. rewrite !no_char_app. destruct Htx as (_ & _ & Ht). by rewrite Ht, Hsql. }
  destruct (forward_cases node _ w Hone) as (answer & w' & Hf & Hcase).
  { intros sv r sv' _ Hh. destruct (handle_prepare request tx_id sql sv Htx) as (r2 & sv2 & Hh2 & Hst & _).
    rewrite Hh in Hh2. by injection Hh2 as <- <-. }
  exists answer, w'. split; [done|].
  destruct Hcase as [[-> Hw]|[(sv & response & sv' & Hsv & Hh & Hw & Hans)|(sv & _ & Hno & _)]].
  { unfold engines. by rewrite Hw. }
  2: { destruct (handle_prepare request tx_id sql sv Htx) as (r2 & sv2 & Hh2 & _). by destruct (Hno r2 sv2). }
  destruct (handle_prepare request tx_id sql sv Htx) as (r & sv2 & Hh2 & _ & He & Hp). rewrite Hh in Hh2. simplify_eq.
  split_and!.
  - by eapply engines_insert.
  - intros key Hk. rewrite Hw. by rewrite lookup_insert_ne.
  - destruct Hans as [->|[payload ->]]; [done|]. intros H200%Z.eqb_eq. destruct (Hp H200) as [Hses Hpend].
    exists sv, sv2. rewrite Hw. by rewrite lookup_insert_eq.
Qed.

Lemma prepared_on_trans tx_id request (w0 w w' : Nodes) p :
  prepared_on tx_id request w0 w p → nw_servers w' !! key_of_node p.1 = nw_servers w !! key_of_node p.1 →
  prepared_on tx_id request w0 w' p.
Proof. intros (sv & sv' & H1 & H2 & H3) H. exists sv, sv'. by rewrite H. Qed.

Lemma prepare_all_spec tx_id request prepared acc (w : Nodes) :
  tx_ok tx_id → sender_ok request → Forall (λ p, no_char newline p.2 = true) prepared → NoDup (keys prepared) →
  ∃ ok acc' w', prepare_all tx_id request prepared acc w = (Ok (ok, acc'), w') ∧ engines w' = engines w ∧
    (∀ key, key ∉ keys prepared → nw_servers w' !! key = nw_servers w !! key) ∧
    (ok = true → acc' = acc ++ prepared ∧ Forall (prepared_on tx_id request w w') prepared).
Proof.
  intros Htx Hs Hsql. revert acc w. induction Hsql as [|[node sql] prepared Hone _ IH]; intros acc w Hnd.
  { exists true, acc, w. rewrite app_nil_r. split_and!; done. }
  cbn [keys map fst] in Hnd. apply NoDup_cons in Hnd as [Hnew Hnd]. cbn [prepare_all]. unfold rbind.
  destruct (prepare_step tx_id request node sql w Htx Hs Hone) as (answer & w1 & Hf & He & Hframe & Hok).
  unfold prepare_text in Hf. rewrite Hf. destruct (answered_200 answer) eqn:Ha.
  - destruct (IH (acc ++ [(node, sql)]) w1 Hnd) as (ok & acc' & w2 & Hrun & He2 & Hframe2 & Hok2).
    exists ok, acc', w2. split_and!; [done|congruence| |].
    + intros key Hk. cbn [keys map fst] in Hk. rewrite Hframe2 by set_solver. apply Hframe. set_solver.
    + intros ->. destruct (Hok2 eq_refl) as [-> Hall]. split; [by rewrite <-app_assoc|]. constructor.
      * apply (prepared_on_trans _ _ _ w1); [by apply Hok|]. by apply Hframe2.
      * rewrite Forall_forall in Hall |- *. intros [node' sql'] Hin. destruct (Hall _ Hin) as (sv & sv' & H1 & H2).
        exists sv, sv'. split; [|done]. rewrite <-H1. symmetry. apply Hframe. intros Heq. apply Hnew.
        simpl in Heq. rewrite <-Heq. unfold keys. by apply (list_elem_of_fmap_2 (λ p, key_of_node p.1) _ (node', sql')).
  - exists false, acc, w1. split_and!; try done. intros key Hk. apply Hframe. cbn [keys map fst] in Hk. set_solver.
Qed.

Lemma abort_all_engines tx_id request prepared (w : Nodes) :
  tx_ok tx_id → sender_ok request → ∃ w', abort_all tx_id request prepared w = (Ok tt, w') ∧ engines w' = engines w.
Proof.
  intros Htx Hs. revert w. induction prepared as [|[node sql] prepared IH]; intros w; [by exists w|]. cbn [abort_all]. unfold rbind.
  assert (Hone : request_one_line (with_payload request ("CLUSTER ABORT_TX " +:+ tx_id)) = true).
  { apply one_line_payload; [done|]. rewrite no_char_app. destruct Htx as (_ & _ & ->). done. }
  destruct (forward_cases node _ w Hone) as (answer & w1 & Hf & Hcase).
  { intros sv r sv' _ Hh. destruct (handle_abort request tx_id sv) as (r2 & sv2 & Hh2 & Hst & _).
    rewrite Hh in Hh2. by injection Hh2 as <- <-. }
  rewrite Hf. destruct (IH w1) as (w2 & Hrun & He). exists w2. split; [done|]. rewrite He.
  destruct Hcase as [[_ Hw]|[(sv & response & sv' & Hsv & Hh & Hw & _)|(sv & _ & Hno & _)]]; [unfold engines; by rewrite Hw| |].
  2: { destruct (handle_abort request tx_id sv) as (r2 & sv2 & Hh2 & _). by destruct (Hno r2 sv2). }
  destruct (handle_abort request tx_id sv) as (r & sv2 & Hh2 & _ & He2). rewrite Hh in Hh2. simplify_eq. by eapply engines_insert.
Qed.

Lemma commit_step tx_id request p (w0 w : Nodes) :
  tx_ok tx_id → sender_ok request → prepared_on tx_id request w0 w p →
  ∃ answer w', ForwardToStorageNode p.1 (with_payload request ("CLUSTER COMMIT_TX " +:+ tx_id)) w = (Ok answer, w') ∧
    (∀ key, key ≠ key_of_node p.1 → nw_servers w' !! key = nw_servers w !! key) ∧
    (answered_200 answer = true → executed_on request w0 w' p).
Proof.
  intros Htx Hs (sv0 & sv & Hsv0 & Hsv & Hen & Hses & Hpend).
  assert (Hone : request_one_line (with_payload request ("CLUSTER COMMIT_TX " +:+ tx_id)) = true).
  { apply one_line_payload; [done|]. rewrite no_char_app. destruct Htx as (_ & _ & ->). done. }
  destruct (handle_commit request tx_id sv _ Htx Hpend) as (result & session & en & Hx & sv' & Hen' & Hh).
  cbn [pending_client pending_sql pending_database] in Hx. rewrite Hses, Hen in Hx.
  assert (Hx' : ExecuteSql regex_match clock io (session_of (req_client request) sv0) p.2 (sv_engine sv0) = (result, session, sv_engine sv')).
  { rewrite Hen', <-Hx. by destruct (session_of (req_client request) sv0). }
  destruct (forward_cases p.1 _ w Hone) as (answer & w' & Hf & Hcase).
  { intros sv1 response sv1' Hsv1 Hh1. rewrite Hsv in Hsv1. injection Hsv1 as <-. rewrite Hh in Hh1.
    by destruct result; simplify_eq. }
  exists answer, w'. split; [done|].
  destruct Hcase as [[-> ->]|[(sv1 & response & sv1' & Hsv1 & Hh1 & Hw & Hans)|(sv1 & Hsv1 & Hno & -> & Hw)]]; [done| |].
  - rewrite Hsv in Hsv1. injection Hsv1 as <-. rewrite Hh in Hh1.
    split; [intros key Hk; by rewrite Hw, lookup_insert_ne|]. destruct Hans as [->|[payload ->]]; [done|].
    intros H200%Z.eqb_eq. destruct result as [r| |]; simplify_eq. exists sv0, sv1', r, session. by rewrite Hw, lookup_insert_eq.
  - split; [|done]. intros key Hk. by rewrite Hw, lookup_delete_ne.
Qed.

Lemma commit_all_spec tx_id request prepared (w0 w : Nodes) :
  tx_ok tx_id → sender_ok request → NoDup (keys prepared) → Forall (prepared_on tx_id request w0 w) prepared →
  ∃ committed w', commit_all tx_id request prepared w = (Ok committed, w') ∧
    (∀ key, key ∉ keys prepared → nw_servers w' !! key = nw_servers w !! key) ∧
    (committed = true → Forall (executed_on request w0 w') prepared).
Proof.
  intros Htx Hs. revert w. induction prepared as [|[node sql] prepared IH]; intros w Hnd Hall.
  { exists true, w. split_and!; done. }
  cbn [keys map fst] in Hnd. apply NoDup_cons in Hnd as [Hnew Hnd]. apply Forall_cons in Hall as [Hp Hall].
  cbn [commit_all]. unfold rbind.
  destruct (commit_step tx_id request (node, sql) w0 w Htx Hs Hp) as (answer & w1 & Hf & Hframe & Hok).
  cbn [fst] in Hf. rewrite Hf. destruct (answered_200 answer) eqn:Ha.
  - destruct (IH w1 Hnd) as (committed & w2 & Hrun & Hframe2 & Hok2).
    { rewrite Forall_forall in Hall |- *. intros [node' sql'] Hin. apply (prepared_on_trans _ _ _ w); [by apply Hall|].
      apply Hframe. intros Heq. apply Hnew. cbn [fst] in Heq. rewrite <-Heq. unfold keys.
      by apply (list_elem_of_fmap_2 (λ p, key_of_node p.1) _ (node', sql')). }
    exists committed, w2. split_and!; [done| |].
    + intros key Hk. cbn [keys map fst] in Hk. rewrite Hframe2 by set_solver. apply Hframe. cbn [fst]. set_solver.
    + intros Hc. constructor; [|by apply Hok2]. destruct (Hok eq_refl) as (sv & sv' & r & ses & H1 & H2 & H3).
      exists sv, sv', r, ses. split_and!; try done. by rewrite Hframe2.
  - exists false, w1. split_and!; try done. intros key Hk. apply Hframe. cbn [keys map fst] in Hk. cbn [fst]. set_solver.
Qed.

Lemma guid_tx_ok b : b ≠ [] → tx_ok (NewGuidV4 b).
Proof. intros Hb. split_and!; [by apply guid_nonempty|apply guid_no_char; by left|apply guid_no_char; by right]. Qed.

(** C30: Two-phase commit on a network that may lose any messages, between
    distinct nodes, for statements and a sender without newlines and with
    random bytes for the id: it always ends; if it reports success, every node
    has executed its statement with success, once, on the state it had and in
    the session of the client; and if some node did not answer that it is
    prepared, it reports a failure and the engines of all nodes are what they
    were. *)
Theorem two_phase_commit_outcome prepared request (w : Nodes) :
  sender_ok request → Forall (λ p, no_char newline p.2 = true) prepared → NoDup (keys prepared) → bytes (nw_sent w) ≠ [] →
  ∃ answer w', ExecuteTwoPhaseCommit prepared request w = (Ok answer, w') ∧
    (is_Some answer → Forall (executed_on request w w') prepared) ∧
    (∀ tx_id w1 acc w2, new_guid w = (Ok tx_id, w1) → prepare_all tx_id request prepared [] w1 = (Ok (false, acc), w2) →
       answer = None ∧ engines w' = engines w).
Proof.
  intros Hs Hsql Hnd Hb. unfold ExecuteTwoPhaseCommit, rbind, new_guid. cbn [random_bytes nodes_outside].
  set (tx_id := NewGuidV4 (bytes (nw_sent w))). set (w1 := MkNodes (nw_servers w) (S (nw_sent w))).
  pose proof (guid_tx_ok _ Hb : tx_ok tx_id) as Htx.
  destruct (prepare_all_spec tx_id request prepared [] w1 Htx Hs Hsql Hnd) as (ok & acc & w2 & Hprep & He & Hframe & Hok).
  rewrite Hprep. destruct ok; cbn [negb].
  - destruct (Hok eq_refl) as [-> Hall]. cbn [app].
    destruct (commit_all_spec tx_id request prepared w1 w2 Htx Hs Hnd Hall) as (committed & w3 & Hrun & _ & Hdone).
    rewrite Hrun. destruct committed; (eexists _, _; split; [reflexivity|]; split).
    + intros _. by apply Hdone.
    + intros tx' w1' acc' w2' [= <- <-] Hbad. rewrite Hprep in Hbad. done.
    + by intros [? ?].
    + intros tx' w1' acc' w2' [= <- <-] Hbad. rewrite Hprep in Hbad. done.
  - destruct (abort_all_engines tx_id request acc w2 Htx Hs) as (w3 & Hrun & He3). rewrite Hrun.
    eexists _, _. split; [reflexivity|]. split; [by intros [? ?]|]. intros tx' w1' acc' w2' [= <- <-] _. split; [done|].
    by rewrite He3, He.
Qed.
End network.
