(* ===== verification/ServerSamples.v ===== *)
(** * A server with accounts on a small database

    The theorem about authorization applied to a concrete request, and what the
    server does with a statement that does not come over the SQL path. *)
From S2P Require Import Prelude Numerals CommonTypes Storage BStarPlusTree IndexSpec BStarPlusTreeSpec.
From S2P Require Import RuntimeState Ast VersionStore Execution Lexer Parser Wal Engine Samples EngineSamples.
From S2P Require Import Persistence Rbac RbacFacts RbacSamples Codec Protocol JobQueue Uuid Text Telemetry.
From S2P Require Import Cluster ClusterFacts Server ServerFacts ClusterNetwork.
Open Scope Z_scope.

Notation SampleServer := (EntrypointServer BStarPlusTree EngineSamples.Snapshot).

Definition sample_hash_int64 (z : Z) : Z := z mod uint64_modulus.
Definition sample_hash_string (s : string) : Z := Z.of_nat (String.length s).
(** A request that took five milliseconds. *)
Definition sample_times : Times :=
  MkTimes (MkTm 2026 1 2 3 4 5 6000) (MkTm 2026 1 2 3 4 5 11000) 5 (nanoseconds 1000) (nanoseconds 1000) (nanoseconds 1000).
Definition sample_ambient : Ambient := MkAmbient 1000 "salt" all_good sample_times Written.

Definition ask (client token payload : string) (sv : SampleServer) : Outcome ResponseEnvelope * SampleServer * unit :=
  HandleRequest literal_regex sample_clock all_written sample_hmac sample_hash_int64 sample_hash_string
    sample_ambient (MkRequest client token payload) sv tt.

(** ** A server with accounts *)

Definition root_token : string :=
  match LoginAndIssueToken sample_hmac "root" "secret" 1000 sample_access with inr t => t | inl _ => "" end.

Definition new_server (en : SampleEngine) (ac : AccessController) : SampleServer :=
  NewServer literal_regex sample_clock all_written en ac None.

(** The databases of [EngineSamples] behind the accounts of [RbacSamples]. *)
Definition guarded : SampleServer := new_server stocked sample_access.

Definition insert_two : string := "INSERT INTO shop.items (id, n) VALUES (2, 20);".

Definition status_of (r : Outcome ResponseEnvelope) : option Z := match r with Ok r => Some (resp_status r) | _ => None end.

(** Without a token, with one that only reads, and as an administrator. *)
Lemma insert_needs_permission :
  status_of (ask "c" "" insert_two guarded).1.1 = Some 401 ∧
  status_of (ask "c" ann_token insert_two guarded).1.1 = Some 403 ∧
  status_of (ask "c" ann_token "SELECT * FROM shop.items;" guarded).1.1 = Some 200 ∧
  status_of (ask "c" root_token insert_two guarded).1.1 = Some 200.
Proof. vm_compute. done. Qed.

Definition root_insert : RequestEnvelope := MkRequest "c" root_token insert_two.

Definition root_insert_result : Outcome ResponseEnvelope * SampleServer * unit :=
  HandleRequest literal_regex sample_clock all_written sample_hmac sample_hash_int64 sample_hash_string
    sample_ambient root_insert guarded tt.

Lemma changes_are_authorized_witness :
  ∃ statement user_id, Parse (req_payload root_insert) = Ok statement ∧
    ValidateTokenAndGetUser sample_hmac (req_jwt root_insert) (amb_now sample_ambient) (sv_access guarded) = Some user_id ∧
    may_change user_id statement "shop" (sv_access guarded).
Proof.
  assert (H : HandleRequest literal_regex sample_clock all_written sample_hmac sample_hash_int64 sample_hash_string
                sample_ambient root_insert guarded tt = (root_insert_result.1.1, root_insert_result.1.2, tt))
    by (unfold root_insert_result; by destruct (HandleRequest _ _ _ _ _ _ _ _ _ _) as [[? ?] []]).
  refine (changes_are_authorized literal_regex sample_clock all_written sample_hmac sample_hash_int64 sample_hash_string
            sample_ambient root_insert guarded tt _ _ tt "shop" H _ _ _ _).
  - vm_compute. discriminate.
  - reflexivity.
  - vm_compute. reflexivity.
  - vm_compute. discriminate.
Defined.

(** The turns of the worker thread. *)
Fixpoint work (turns : nat) (sv : SampleServer) : option SampleServer :=
  match turns with O => Some sv | S turns => async_step sv ≫= work turns end.

Definition has_database (n : string) (sv : SampleServer) : bool := bool_decide (is_Some (committed_databases sv !! n)).

(** ASYNC SUBMIT is not authorized: a server with accounts refuses to drop
    a database for a client without a token, but the same statement submitted
    as a job by that client is accepted, and three turns of the worker later
    the database is gone. *)
Theorem async_submit_bypasses_authorization :
  let '(refused, unchanged, _) := ask "c" "" "DROP DATABASE shop;" guarded in
  let '(accepted, submitted, _) := ask "c" "" "ASYNC SUBMIT DROP DATABASE shop;" guarded in
  status_of refused = Some 401 ∧ has_database "shop" unchanged = true ∧
  status_of accepted = Some 202 ∧ has_database "shop" <$> work 3 submitted = Some false.
Proof. vm_compute. done. Qed.
