(* ===== verification/ClusterSamples.v ===== *)
(** * A cluster of two nodes on a small database

    The theorems about clusters applied to concrete requests over a network,
    and what lost messages, dumps over the wire and errors of nodes lead to. *)
From S2P Require Import Prelude Numerals CommonTypes Storage BStarPlusTree IndexSpec BStarPlusTreeSpec.
From S2P Require Import RuntimeState Ast VersionStore Execution Lexer Parser Wal Engine Samples EngineSamples.
From S2P Require Import Persistence Rbac RbacFacts RbacSamples Codec Protocol JobQueue Uuid Text Telemetry.
From S2P Require Import Cluster ClusterFacts Server ServerFacts ClusterNetwork ServerSamples.
Open Scope Z_scope.

Notation SampleNodes := (@Nodes BStarPlusTree EngineSamples.Snapshot).

(** ** The cluster *)

Definition schema_setup : list (SessionContext * string) :=
  [(alice, "CREATE DATABASE shop;"); (alice, "CREATE TABLE shop.items (id INT INDEXED, n INT);")].

Definition empty_shop : SampleEngine := run_all schema_setup EngineSamples.started.
Definition open_access : AccessController := no_accounts "key" no_files.

Definition node_a : StorageNodeEndpoint := MkNode "10.0.0.1" 4546 false 0.
Definition node_b : StorageNodeEndpoint := MkNode "10.0.0.2" 4546 false 0.

Definition storage_node : SampleServer := new_server empty_shop open_access.

Definition two_nodes : SampleNodes :=
  MkNodes (<["10.0.0.1:4546" := storage_node]> (<["10.0.0.2:4546" := storage_node]> ∅)) 0.

Definition entrypoint : SampleServer := with_nodes [node_a; node_b] storage_node.

(** The messages are counted from 0; those in [lost] do not arrive. *)
Definition losing (lost : list nat) (n : nat) : LinkFault := if bool_decide (n ∈ lost) then NotDelivered else Delivered.
Definition guid_bytes (n : nat) : list Z := replicate 16 (Z.of_nat n mod 256).

Definition net (lost : list nat) : Outside SampleNodes :=
  nodes_outside literal_regex sample_clock all_written sample_hmac sample_hash_int64 sample_hash_string
    sample_ambient (losing lost) guid_bytes.

(** A request to the entrypoint: the response and the network after it. *)
Definition ask_cluster (lost : list nat) (payload : string) (sv : SampleServer) (w : SampleNodes)
    : Outcome ResponseEnvelope * SampleServer * SampleNodes :=
  HandleRequest (Outside0 := net lost) literal_regex sample_clock all_written sample_hmac sample_hash_int64 sample_hash_string
    sample_ambient (MkRequest "c" "" payload) sv w.

(** The rows of the table on a node. *)
Definition rows_on (key : string) (w : SampleNodes) : option (list (list Value)) :=
  nw_servers w !! key ≫= λ sv, items (en_runtime (sv_engine sv)).

Definition insert_three : string := "INSERT INTO shop.items (id, n) VALUES (1, 10), (2, 20), (3, 30);".

Definition outcome (r : Outcome ResponseEnvelope * SampleServer * SampleNodes) : option Z * option (list (list Value)) * option (list (list Value)) :=
  (status_of r.1.1, rows_on "10.0.0.1:4546" r.2, rows_on "10.0.0.2:4546" r.2).

(** The rows are spread by the parity of their keys; nothing happens when a
    preparation is lost (message 2), and one part of the rows stays when a
    commit is (message 4): message 0 is the draw of the id. *)
Lemma sharded_insert :
  outcome (ask_cluster [] insert_three entrypoint two_nodes) =
    (Some 200, Some [[VInt 2; VInt 20]], Some [[VInt 1; VInt 10]; [VInt 3; VInt 30]]) ∧
  outcome (ask_cluster [2%nat] insert_three entrypoint two_nodes) = (Some 502, Some [], Some []).
Proof. vm_compute. done. Qed.

(** ** Witnesses *)

Definition insert_rows_of (sql : string) : list (list Expression) :=
  match Parse sql with Ok (InsertStatement _ _ rows) => rows | _ => [] end.

Definition items_name : QualifiedName := MkQName (Some "shop") "items".
Definition id_is_three : Expression :=
  BinaryComparisonExpression kEqual (ColumnReferenceExpression None None "id") (LiteralExpression (VInt 3)).

Definition sharded : Outcome (option (gmap nat string)) :=
  SplitInsertByShard sample_hash_int64 sample_hash_string items_name ["id"; "n"] (insert_rows_of insert_three)
    [node_a; node_b] alice (en_runtime empty_shop).

Definition shard_statements : gmap nat string :=
  <[0%nat := "INSERT INTO shop.items (id, n) VALUES (2, 20);"]>
  (<[1%nat := "INSERT INTO shop.items (id, n) VALUES (1, 10), (3, 30);"]> ∅).

Lemma insert_reaches_its_shard_witness :
  ∃ index n (by_node : RowsByNode) rs,
    RouteNodeIndex sample_hash_int64 sample_hash_string (SelectStatement items_name [] (Some id_is_three)) [node_a; node_b] alice
      (en_runtime empty_shop) = Ok (Some index) ∧ (index < length [node_a; node_b])%nat ∧
    shard_statements = RenderInsertSql (MkQName (Some n) (q_object items_name)) ["id"; "n"] <$> by_node ∧
    by_node !! index = Some rs ∧ [VInt 3; VInt 30] ∈ rs ∧
    ∀ i rs', by_node !! i = Some rs' → [VInt 3; VInt 30] ∈ rs' → i = index.
Proof.
  refine (insert_reaches_its_shard sample_hash_int64 sample_hash_string items_name ["id"; "n"] (insert_rows_of insert_three)
    [node_a; node_b] alice (en_runtime empty_shop) shard_statements "id" 0%nat
    [LiteralExpression (VInt 3); LiteralExpression (VInt 30)] [VInt 3; VInt 30] (VInt 3) id_is_three _ _ _ _ _ _ _ _ _ _);
    [vm_compute; reflexivity|vm_compute; reflexivity|reflexivity|discriminate| |reflexivity|reflexivity|reflexivity|constructor].
  apply (list_elem_of_lookup_2 _ 2%nat). vm_compute. reflexivity.
Defined.

Definition sample_prepared : Prepared :=
  [(node_a, "INSERT INTO shop.items (id, n) VALUES (2, 20);"); (node_b, "INSERT INTO shop.items (id, n) VALUES (1, 10);")].

Definition sample_request : RequestEnvelope := MkRequest "c" "" "".

Lemma two_phase_commit_outcome_witness :
  ∃ answer w', ExecuteTwoPhaseCommit (Outside0 := net []) sample_prepared sample_request two_nodes = (Ok answer, w') ∧
    (is_Some answer → Forall (executed_on literal_regex sample_clock all_written sample_request two_nodes w') sample_prepared) ∧
    (∀ tx_id w1 acc w2, new_guid (Outside0 := net []) two_nodes = (Ok tx_id, w1) →
       prepare_all (Outside0 := net []) tx_id sample_request sample_prepared [] w1 = (Ok (false, acc), w2) →
       answer = None ∧ engines w' = engines two_nodes).
Proof.
  refine (two_phase_commit_outcome literal_regex sample_clock all_written sample_hmac sample_hash_int64 sample_hash_string
    sample_ambient (losing []) guid_bytes sample_prepared sample_request two_nodes _ _ _ _).
  - by split.
  - by repeat constructor.
  - apply (bool_decide_unpack _). vm_compute. exact I.
  - discriminate.
Defined.

(** The network after the insertion. *)
Definition stocked_nodes : SampleNodes := (ask_cluster [] insert_three entrypoint two_nodes).2.

Definition rows_of_b : list RowData := [MkRow 1 [VInt 1; VInt 10]; MkRow 2 [VInt 3; VInt 30]].

Definition dump_request : RequestEnvelope := rebalance_request "CLUSTER DUMP_TABLE shop items".

Definition dump_exchange : option string * SampleNodes :=
  exchange (Outside := net []) "10.0.0.2" 4546 (SerializeRequest dump_request) stocked_nodes.

Lemma remote_dump_is_empty_witness :
  FetchTableDump (Outside0 := net []) node_b "shop" "items" stocked_nodes = (Ok (Some []), dump_exchange.2).
Proof.
  assert (H : dump_exchange.1 = Some (SerializeResponse (MkResponse 200 (dump_rows rows_of_b)))) by (vm_compute; reflexivity).
  refine (remote_dump_is_empty (Outside0 := net []) node_b "shop" "items" rows_of_b stocked_nodes dump_exchange.2 eq_refl _).
  rewrite <-H. exact (surjective_pairing dump_exchange).
Defined.

(** ** Anomalies *)

(** The commit phase is not atomic: when the message that commits on the
    second of two nodes is lost, the client is told that the insertion failed,
    but the rows of the node that committed first are there, and stay; those of
    the other are missing. *)
Theorem lost_commit_leaves_half :
  outcome (ask_cluster [4%nat] insert_three entrypoint two_nodes) =
    (Some 502, Some [], Some [[VInt 1; VInt 10]; [VInt 3; VInt 30]]).
Proof. vm_compute. reflexivity. Qed.

(** The node with the rows 1 and 3 leaves the cluster: the other one does not get them. *)
Lemma removed_node_takes_its_rows :
  outcome (ask_cluster [] "CLUSTER REMOVE_NODE 10.0.0.2:4546" entrypoint stocked_nodes) =
    (Some 200, Some [[VInt 2; VInt 20]], Some [[VInt 1; VInt 10]; [VInt 3; VInt 30]]).
Proof. vm_compute. reflexivity. Qed.

(** The network after the table was dropped on one node, behind the entrypoint's back. *)
Definition broken_nodes : SampleNodes :=
  (ForwardToStorageNode (Outside0 := net []) node_b (MkRequest "c" "" "DROP TABLE shop.items;") stocked_nodes).2.

(** An error of a node is reported as success: a SELECT that is sent to
    all nodes and fails on one of them is answered with status 200 and an empty
    payload, which is not even a JSON array. *)
Theorem fanout_hides_errors :
  let select sv w := (ask_cluster [] "SELECT * FROM shop.items;" sv w).1.1 in
  (∃ rows, select entrypoint stocked_nodes = Ok (MkResponse 200 rows) ∧ rows ≠ "") ∧
  select entrypoint broken_nodes = Ok (MkResponse 200 "").
Proof. split; [eexists; split; [vm_compute; reflexivity|discriminate]|vm_compute; reflexivity]. Qed.
