(* ===== verification/JournalFacts.v ===== *)
(** * Telemetry and access log of a server

    Every answered request is recorded once in the telemetry and once in the
    access log, and nothing else is; so what TELEMETRY LOCAL reports are the
    numbers of the requests the server answered. *)
From S2P Require Import Prelude Numerals CommonTypes Storage BStarPlusTree IndexSpec RuntimeState Ast.
From S2P Require Import VersionStore Execution Lexer Parser Wal Engine Persistence Rbac Codec Protocol.
From S2P Require Import JobQueue.
From S2P Require Import Uuid Text Cluster Doubles Telemetry TelemetryFacts AccessLog Server ServerFacts.
From Stdlib Require Import Ascii.
Open Scope Z_scope.

Section journal.
Context {T D N : Type} `{!IndexOps T} `{!PersistenceOps T D} `{!Outside N}.
Context (regex_match : string → string → Outcome bool) (clock : nat → Tm) (io : nat → WriteFault).
Context (hmac : string → string → option string).
Context (hash_int64 : Z → Z) (hash_string : string → Z).
Implicit Types (sv : EntrypointServer T D) (request : RequestEnvelope).

(** ** What does not touch the journal *)

Definition journal sv : TelemetryRegistry * WalFile * Z := (sv_telemetry sv, sv_log sv, sv_next_handler sv).

Lemma prepare_journal request rest sv : journal (prepare_command request rest sv).2 = journal sv.
Proof. unfold prepare_command. repeat case_match; simplify_eq; done. Qed.

Lemma commit_journal tx_id sv : journal (commit_command regex_match clock io tx_id sv).2 = journal sv.
Proof.
  unfold commit_command. destruct (String.eqb _ _); [done|]. destruct (sv_pending sv !! tx_id); [|done].
  destruct (GetOrCreateSession _ _). by destruct (execute_for _ _ _ _ _ _ _) as [? [? ?]].
Qed.

Lemma abort_journal tx_id sv : journal (abort_command tx_id sv).2 = journal sv.
Proof. unfold abort_command. by destruct (String.eqb _ _). Qed.

Lemma dump_journal d t sv : journal (dump_command regex_match clock io d t sv).2 = journal sv.
Proof.
  unfold dump_command. destruct (ExecuteSql _ _ _ _ _ _) as [[[r| |] session] en]; try done.
  by destruct (ExecuteSql _ _ _ _ _ en) as [[r2 session2] en2].
Qed.

Lemma add_node_journal endpoint managed sv (n : N) : journal (add_node_command endpoint managed sv n).1.2 = journal sv.
Proof.
  unfold add_node_command. destruct (existsb _ _); [done|]. destruct (sv_nodes sv) as [|x l]; [done|].
  by destruct (SyncMetadataToNodes _ _ _).
Qed.

Lemma remove_node_journal endpoint sv (n : N) :
  journal (remove_node_command hash_int64 hash_string endpoint sv n).1.2 = journal sv.
Proof.
  unfold remove_node_command. destruct (erase_node _ _) as [[|x l]|]; [done| |done].
  by destruct (RebalanceClusterData _ _ _ _ _ _ _).
Qed.

Lemma cluster_command_journal command arguments sv (n : N) :
  journal (cluster_command regex_match clock io hash_int64 hash_string command arguments sv n).1.2 = journal sv.
Proof.
  unfold cluster_command. repeat case_match; first [done | apply dump_journal | apply add_node_journal | apply remove_node_journal].
Qed.

Lemma parse_cluster_journal request sv (n : N) :
  journal (ParseClusterCommand regex_match clock io hash_int64 hash_string request sv n).1.2 = journal sv.
Proof.
  unfold ParseClusterCommand. destruct (strip_prefix "CLUSTER PREPARE_TX " _) as [rest|].
  { pose proof (prepare_journal request rest sv). by destruct (prepare_command request rest sv). }
  destruct (strip_prefix "CLUSTER COMMIT_TX " _) as [tx_id|].
  { pose proof (commit_journal tx_id sv). by destruct (commit_command _ _ _ tx_id sv). }
  destruct (strip_prefix "CLUSTER ABORT_TX " _) as [tx_id|].
  { pose proof (abort_journal tx_id sv). by destruct (abort_command tx_id sv). }
  destruct (SplitWhitespace _) as [|w [|c args]]; try done. destruct (String.eqb _ _); [|done].
  pose proof (cluster_command_journal (ToUpper c) args sv n). by destruct (cluster_command _ _ _ _ _ _ _ _ _) as [[? ?] ?].
Qed.

Lemma async_journal request sv (n : N) : journal (ParseAsyncCommand request sv n).1.2 = journal sv.
Proof. unfold ParseAsyncCommand. repeat case_match; done. Qed.

Lemma access_response_journal message result sv : journal (access_response message result sv).2 = journal sv.
Proof. by destruct result. Qed.

Lemma grant_journal permission message operation sv : journal (grant_command permission message operation sv).2 = journal sv.
Proof. unfold grant_command. destruct (ParsePermissionName permission); [apply access_response_journal|done]. Qed.

Lemma admin_journal ambient request sv k :
  journal k.2 = journal sv → journal (admin_command hmac ambient request sv k).2 = journal sv.
Proof. unfold admin_command. by destruct (require_admin _ _ _ _). Qed.

Lemma auth_journal ambient request command arguments sv :
  journal (auth_command hmac ambient request command arguments sv).2 = journal sv.
Proof.
  unfold auth_command, register_command. destruct arguments as [|a [|b rest]]; repeat case_match;
    first [done | apply access_response_journal
          | apply admin_journal; first [apply access_response_journal | apply grant_journal]].
Qed.

Lemma execute_locally_journal request statement session sv :
  journal (execute_locally regex_match clock io request statement session sv).2 = journal sv.
Proof. unfold execute_locally. by destruct (execute_for _ _ _ _ _ _ _) as [? [? ?]]. Qed.

Lemma clustered_journal nodes request statement session sv (n : N) :
  journal (clustered_request regex_match clock io hash_int64 hash_string nodes request statement session sv n).1.2 = journal sv.
Proof.
  unfold clustered_request. destruct (IsMetadataStatement statement).
  - unfold metadata_request. pose proof (execute_locally_journal request statement session sv) as H.
    destruct (execute_locally _ _ _ _ _ _ _) as [[[?|?]| |] sv']; try done. destruct (ShouldBroadcast statement); [|done].
    by destruct (broadcast_statement _ _ _ _).
  - by match goal with |- journal (let '(_, _) := ?x in _).1.2 = _ => destruct x end.
Qed.

Lemma handle_sql_journal ambient request sv (n : N) :
  journal (HandleSql regex_match clock io hmac hash_int64 hash_string ambient request sv n).1.2 = journal sv.
Proof.
  unfold HandleSql. destruct (Parse _) as [statement| |]; try done. destruct (GetOrCreateSession _ _) as [session sessions].
  destruct (authorize_statement _ _ _ _ _ _) as [[refusal ses]|ses]; [done|].
  set (sv1 := with_engine _ _ sv). change (journal sv) with (journal sv1).
  destruct (sv_nodes sv1) as [|x l]; [|apply clustered_journal].
  pose proof (execute_locally_journal request statement ses sv1). by destruct (execute_locally _ _ _ _ _ _ _).
Qed.

(** ** What a request adds to the journal *)

(** TELEMETRY LOCAL and TELEMETRY SNAPSHOT. *)
Definition snapshot_asked (payload : string) : bool :=
  match SplitWhitespace payload with
  | keyword :: command :: _ =>
      String.eqb (ToUpper keyword) "TELEMETRY" && (String.eqb (ToUpper command) "LOCAL" || String.eqb (ToUpper command) "SNAPSHOT")
  | _ => false
  end.

Definition asked_actions (times : Times) (payload : string) : list TelemetryAction :=
  if snapshot_asked payload then [Asked (time_snapshot times)] else [].

Lemma telemetry_journal times payload sv (n : N) :
  journal (ParseTelemetryCommand times payload sv n).1.2 =
    (foldl observe (sv_telemetry sv) (asked_actions times payload), sv_log sv, sv_next_handler sv) ∧
  (snapshot_asked payload = true → (ParseTelemetryCommand times payload sv n).1.1 ≠ Ok None).
Proof.
  unfold ParseTelemetryCommand, asked_actions, snapshot_asked. destruct (SplitWhitespace payload) as [|w [|c args]]; try done.
  destruct (String.eqb (ToUpper w) "TELEMETRY"); cbn [negb andb]; [|done].
  destruct (String.eqb (ToUpper c) "LOCAL"); cbn [orb]; [done|]. destruct (String.eqb (ToUpper c) "SNAPSHOT"); cbn [negb]; [|done].
  by destruct (collect_telemetry (sv_nodes sv) n) as [[snapshots| |] n'].
Qed.

Lemma asked_keyword payload : snapshot_asked payload = true → keyword_of payload = Some "TELEMETRY".
Proof.
  unfold snapshot_asked, keyword_of. destruct (SplitWhitespace payload) as [|w [|c args]]; try done.
  intros [H%String.eqb_eq _]%andb_true_iff. simpl. by rewrite H.
Qed.

Lemma not_async_command request sv (n : N) :
  keyword_of (req_payload request) ≠ Some "ASYNC" → ParseAsyncCommand request sv n = (None, sv, n).
Proof.
  unfold ParseAsyncCommand, keyword_of. destruct (SplitWhitespace _) as [|w [|c args]]; try done. simpl. intros Hk.
  destruct (String.eqb_spec (ToUpper w) "ASYNC") as [E|]; [by rewrite E in Hk|done].
Qed.

Lemma answer_journal ambient request sv (n : N) :
  journal (answer_request regex_match clock io hmac hash_int64 hash_string ambient request sv n).1.2 =
    (foldl observe (sv_telemetry sv) (asked_actions (amb_times ambient) (req_payload request)), sv_log sv, sv_next_handler sv).
Proof.
  unfold answer_request. destruct (snapshot_asked (req_payload request)) eqn:Hasked.
  - pose proof (asked_keyword _ Hasked) as Hk. rewrite not_cluster_command, not_async_command by (by rewrite Hk).
    destruct (telemetry_journal (amb_times ambient) (req_payload request) sv n) as [Hj Hsome].
    destruct (ParseTelemetryCommand _ _ sv n) as [[[[response|]| |] sv2] n2]; try done. by destruct (Hsome Hasked).
  - assert (Hno : asked_actions (amb_times ambient) (req_payload request) = []) by (unfold asked_actions; by rewrite Hasked).
    rewrite Hno. change (foldl observe (sv_telemetry sv) []) with (sv_telemetry sv). fold (journal sv).
    pose proof (parse_cluster_journal request sv n) as H1.
    destruct (ParseClusterCommand _ _ _ _ _ request sv n) as [[[response|] sv1] n1]; cbn [fst snd] in *; [done|].
    rewrite <-H1. pose proof (async_journal request sv1 n1) as H2.
    destruct (ParseAsyncCommand request sv1 n1) as [[[response|] sv2] n2]; cbn [fst snd] in *; [done|].
    rewrite <-H2. destruct (telemetry_journal (amb_times ambient) (req_payload request) sv2 n2) as [H3 _]. rewrite Hno in H3.
    destruct (ParseTelemetryCommand _ _ sv2 n2) as [[[[response|]| |] sv3] n3]; cbn [fst snd] in *; try done.
    change (foldl observe (sv_telemetry sv2) []) with (sv_telemetry sv2) in H3. fold (journal sv2) in H3. rewrite <-H3.
    destruct (ParseAuthCommand _ _ _ sv3) as [[response sv4]|] eqn:Ha; [|apply handle_sql_journal].
    unfold ParseAuthCommand in Ha. destruct (SplitWhitespace _) as [|w [|c args]]; try done. destruct (String.eqb _ "AUTH"); [|done].
    pose proof (auth_journal ambient request (ToUpper c) args sv3) as H4.
    injection Ha as Ha. by rewrite Ha in H4.
Qed.

(** The entry of a request in the log of all requests. *)
Definition handled (times : Times) (response : ResponseEnvelope) : Handled :=
  MkHandled (time_record times) (time_latency_ms times) (400 <=? resp_status response).

Definition request_actions (ambient : Ambient) request (response : ResponseEnvelope) : list TelemetryAction :=
  asked_actions (amb_times ambient) (req_payload request) ++ [Answered (handled (amb_times ambient) response)].

Lemma handle_journal ambient request sv (n : N) response sv' n' :
  HandleRequest regex_match clock io hmac hash_int64 hash_string ambient request sv n = (Ok response, sv', n') →
  sv_telemetry sv' = foldl observe (sv_telemetry sv) (request_actions ambient request response) ∧
  sv_log sv' = WriteAccessLog (amb_log_fault ambient) request response (handler_name (sv_next_handler sv))
    (time_started (amb_times ambient)) (time_finished (amb_times ambient)) (time_latency_ms (amb_times ambient)) (sv_log sv).
Proof.
  intros Hh. destruct (handle_request_answers regex_match clock io hmac hash_int64 hash_string ambient request sv n)
    as (r & sv2 & n2 & Ha & Hr). rewrite Hr in Hh. clear Hr. simplify_eq.
  pose proof (answer_journal ambient request
    (with_journal (sv_telemetry sv) (sv_log sv) ((sv_next_handler sv + 1) mod uint64_modulus) sv) n) as Hj.
  rewrite Ha in Hj. cbn [fst snd] in Hj. unfold journal in Hj. cbn [with_journal sv_telemetry sv_log sv_next_handler] in Hj.
  injection Hj as Ht Hl _. unfold request_actions. rewrite foldl_app. unfold finalize. cbn [with_journal sv_telemetry sv_log foldl observe handled].
  rewrite Ht, Hl. split; [|done]. cbn [handled h_failed h_time h_latency]. by destruct (400 <=? resp_status response).
Qed.

(** ** Runs of a server *)

(** The responses to requests one after the other, all of them answered. *)
Fixpoint serve (requests : list (Ambient * RequestEnvelope)) sv (n : N) : option (list ResponseEnvelope * EntrypointServer T D * N) :=
  match requests with
  | [] => Some ([], sv, n)
  | (ambient, request) :: requests =>
      match HandleRequest regex_match clock io hmac hash_int64 hash_string ambient request sv n with
      | (Ok response, sv, n) => '(responses, sv, n) ← serve requests sv n; Some (response :: responses, sv, n)
      | _ => None
      end
  end.

Fixpoint run_actions (requests : list (Ambient * RequestEnvelope)) (responses : list ResponseEnvelope) : list TelemetryAction :=
  match requests, responses with
  | (ambient, request) :: requests, response :: responses =>
      request_actions ambient request response ++ run_actions requests responses
  | _, _ => []
  end.

(** The log of the requests and their responses. *)
Definition run_log (requests : list (Ambient * RequestEnvelope)) (responses : list ResponseEnvelope) : list Handled :=
  zip_with (λ r response, handled (amb_times r.1) response) requests responses.

Lemma answered_run requests responses : answered (run_actions requests responses) = run_log requests responses.
Proof.
  revert responses. induction requests as [|[ambient request] requests IH]; intros [|response responses]; try done.
  cbn [run_actions run_log zip_with fst]. unfold request_actions, asked_actions, answered in *.
  rewrite !omap_app, IH. by destruct (snapshot_asked _).
Qed.

Lemma serve_observes requests sv (n : N) responses sv' n' :
  serve requests sv n = Some (responses, sv', n') →
  sv_telemetry sv' = foldl observe (sv_telemetry sv) (run_actions requests responses) ∧ length responses = length requests.
Proof.
  revert sv n responses. induction requests as [|[ambient request] requests IH]; intros sv n responses; cbn [serve].
  { by intros [= <- <- _]. }
  destruct (HandleRequest _ _ _ _ _ _ ambient request sv n) as [[[response| |] sv1] n1] eqn:Hh; try done.
  destruct (serve requests sv1 n1) as [[[rs sv2] n2]|] eqn:Hs; [|done]. intros [= <- <- <-].
  destruct (IH _ _ _ Hs) as [Ht Hl]. destruct (handle_journal _ _ _ _ _ _ _ Hh) as [Ht1 _]. simpl. split; [|by rewrite Hl].
  by rewrite foldl_app, <-Ht1.
Qed.

(** C36: TELEMETRY LOCAL tells the truth about the server: after any requests
    that a new server answered, with a clock that does not go back and numbers
    that fit the types, the reply is the text of a snapshot whose counters and
    rates are those of the log of all these requests, their latencies and their
    failures (the responses with a status of 400 or more). *)
Theorem telemetry_reports_requests requests sv (n : N) responses sv' n' ambient request :
  sv_telemetry sv = [] → serve requests sv n = Some (responses, sv', n') →
  StronglySorted Z.le (map action_time (run_actions requests responses ++ [Asked (time_snapshot (amb_times ambient))])) →
  log_ok (run_log requests responses) → req_payload request = "TELEMETRY LOCAL" →
  ∃ snapshot, (HandleRequest regex_match clock io hmac hash_int64 hash_string ambient request sv' n').1.1 =
      Ok (MkResponse 200 (SerializeLocalTelemetry snapshot)) ∧
    summarizes (time_snapshot (amb_times ambient)) (run_log requests responses) snapshot.
Proof.
  intros Hnew Hserve Hsorted Hok Hp. destruct (serve_observes _ _ _ _ _ _ Hserve) as [Ht _]. rewrite Hnew in Ht.
  rewrite <-answered_run in Hok |- *. eexists. split; [|by apply snapshot_summarizes_log].
  rewrite <-Ht. destruct (handle_request_answers regex_match clock io hmac hash_int64 hash_string ambient request sv' n')
    as (r & sv2 & n2 & Ha & Hr). rewrite Hr. cbn [fst]. unfold answer_request in Ha.
  rewrite not_cluster_command, not_async_command in Ha by (by rewrite Hp).
  unfold ParseTelemetryCommand in Ha. rewrite Hp in Ha.
  change (SplitWhitespace "TELEMETRY LOCAL") with ["TELEMETRY"; "LOCAL"] in Ha. cbv iota in Ha.
  change (negb (String.eqb (ToUpper "TELEMETRY") "TELEMETRY")) with false in Ha.
  change (String.eqb (ToUpper "LOCAL") "LOCAL") with true in Ha. cbv iota in Ha. unfold Snapshot in Ha. by simplify_eq.
Qed.

(** C38: The access log cannot be forged: every answered request whose log
    write succeeds adds exactly one line to it, of seven fields that are
    separated by tabs, whatever bytes the client put into its name and its SQL.
    *)
Theorem answer_logs_one_line ambient request sv (n : N) response sv' n' :
  HandleRequest regex_match clock io hmac hash_int64 hash_string ambient request sv n = (Ok response, sv', n') →
  amb_log_fault ambient = Written →
  ∃ fields, sv_log sv' = Some (text_of (sv_log sv) +:+ line (join tab fields)) ∧ length fields = 7%nat ∧
    Forall (λ f, no_char tab f = true ∧ no_char newline f = true) fields ∧
    fields !! 2%nat = Some ("client_id=" +:+ SanitizeLogField (req_client request)) ∧
    fields !! 4%nat = Some ("status_code=" +:+ to_string (resp_status response)).
Proof.
  intros Hh Hf. destruct (handle_journal _ _ _ _ _ _ _ Hh) as [_ Hl]. unfold WriteAccessLog in Hl. rewrite Hf in Hl. cbn [append_text snd] in Hl.
  eexists. split; [exact Hl|]. split; [done|]. split; [|done].
  apply Forall_and. split; apply access_fields_no_char; unfold control; vm_compute; lia.
Qed.
End journal.
