(* ===== verification/JournalSamples.v ===== *)
(** * Telemetry and access log of a small server

    The theorems about the journal at concrete requests, and the telemetry of a
    cluster over the network. *)
From S2P Require Import Prelude Numerals CommonTypes Storage BStarPlusTree IndexSpec BStarPlusTreeSpec.
From S2P Require Import RuntimeState Ast VersionStore Execution Lexer Parser Wal Engine Samples EngineSamples.
From S2P Require Import Persistence Rbac RbacFacts RbacSamples Codec Protocol JobQueue Uuid Text Doubles.
From S2P Require Import Telemetry TelemetryFacts AccessLog Cluster Server ServerFacts ClusterNetwork.
From S2P Require Import ServerSamples ClusterSamples JournalFacts.
From Stdlib Require Import Ascii.
Open Scope Z_scope.

(** Requests at some seconds that take some milliseconds. *)
Definition at_second (second latency_ms : Z) : Ambient :=
  MkAmbient second "salt" all_good
    (MkTimes (MkTm 2026 1 2 3 4 5 6000) (MkTm 2026 1 2 3 4 5 11000) latency_ms (nanoseconds second) (nanoseconds second)
       (nanoseconds second)) Written.

Definition sample_requests : list (Ambient * RequestEnvelope) :=
  [(at_second 1000 4, MkRequest "c" "" "SELECT * FROM shop.items;");
   (at_second 1001 6, MkRequest "c" "" "TELEMETRY LOCAL");
   (at_second 1002 2, MkRequest "c" "" "SELECT nothing;")].

Definition served : option (list ResponseEnvelope * SampleServer * unit) :=
  serve literal_regex sample_clock all_written sample_hmac sample_hash_int64 sample_hash_string sample_requests storage_node tt.

Definition sample_responses : list ResponseEnvelope := match served with Some (rs, _, _) => rs | None => [] end.
Definition served_server : SampleServer := match served with Some (_, sv, _) => sv | None => storage_node end.

Lemma sample_served : served = Some (sample_responses, served_server, tt).
Proof.
  unfold sample_responses, served_server.
  assert (H : is_Some (snd <$> served)) by (vm_compute; eauto). by destruct served as [[[rs sv] []]|]; [|destruct H].
Qed.

Definition local_request : RequestEnvelope := MkRequest "c" "" "TELEMETRY LOCAL".

Lemma sample_statuses : map resp_status sample_responses = [200; 200; 400].
Proof. vm_compute. reflexivity. Qed.

Lemma telemetry_reports_requests_witness :
  ∃ snapshot, (HandleRequest literal_regex sample_clock all_written sample_hmac sample_hash_int64 sample_hash_string
                 (at_second 1003 1) local_request served_server tt).1.1 = Ok (MkResponse 200 (SerializeLocalTelemetry snapshot)) ∧
    summarizes (nanoseconds 1003) (run_log sample_requests sample_responses) snapshot.
Proof.
  refine (telemetry_reports_requests literal_regex sample_clock all_written sample_hmac sample_hash_int64 sample_hash_string
    sample_requests storage_node tt sample_responses served_server tt (at_second 1003 1) local_request eq_refl sample_served _ _ eq_refl).
  - vm_compute. repeat constructor; discriminate.
  - vm_compute. split_and!; [reflexivity|repeat constructor; discriminate|reflexivity].
Defined.

(** A client that tries to write a line of its own. *)
Definition forged : RequestEnvelope := MkRequest ("c" +:+ String newline "start=") "" ("x" +:+ String tab "status_code=200").

Definition forged_result : Outcome ResponseEnvelope * SampleServer * unit :=
  HandleRequest literal_regex sample_clock all_written sample_hmac sample_hash_int64 sample_hash_string sample_ambient forged
    storage_node tt.

Lemma answer_logs_one_line_witness :
  ∃ fields, sv_log forged_result.1.2 = Some (text_of (sv_log storage_node) +:+ line (join tab fields)) ∧ length fields = 7%nat ∧
    Forall (λ f, no_char tab f = true ∧ no_char newline f = true) fields ∧
    fields !! 2%nat = Some ("client_id=" +:+ SanitizeLogField (req_client forged)) ∧
    fields !! 4%nat = Some ("status_code=" +:+ to_string 400).
Proof.
  assert (H : ∃ payload, forged_result.1.1 = Ok (MkResponse 400 payload)) by (vm_compute; eauto).
  destruct H as [payload H].
  refine (answer_logs_one_line literal_regex sample_clock all_written sample_hmac sample_hash_int64 sample_hash_string
    sample_ambient forged storage_node tt (MkResponse 400 payload) forged_result.1.2 tt _ eq_refl).
  rewrite <-H. unfold forged_result. by destruct (HandleRequest _ _ _ _ _ _ _ _ _ _) as [[? ?] []].
Defined.

Lemma forged_line :
  sv_log forged_result.1.2 =
    Some (line (join tab ["start=2026-01-02T03:04:05.006Z"; "finish=2026-01-02T03:04:05.011Z"; "client_id=c start=";
      "handler_id=handler-000001"; "status_code=400"; "latency_ms=5"; "sql=" +:+ quote "x status_code=200"])).
Proof. vm_compute. reflexivity. Qed.

(** The requests of the two nodes of a cluster (the parts of an INSERT and its
    preparation, and the question itself) are added to those of the entrypoint;
    a node that does not answer is not counted as available. *)
Lemma cluster_telemetry :
  let '(_, sv, w) := ask_cluster [] insert_three entrypoint two_nodes in
  let ask lost := match (ask_cluster lost "TELEMETRY SNAPSHOT" sv w).1.1 with Ok r => resp_payload r | _ => "" end in
  ask [] = "current_rps=5 average_rps_10m=0.00833333 max_rps_10m=5 average_latency_10s_ms=5 error_count_1m=0 error_rate_1m=0 nodes_total=3 nodes_available=3" ∧
  ask [5%nat] = "current_rps=3 average_rps_10m=0.005 max_rps_10m=3 average_latency_10s_ms=5 error_count_1m=0 error_rate_1m=0 nodes_total=3 nodes_available=2".
Proof. vm_compute. split; reflexivity. Qed.
