(* ===== verification/RenderFacts.v ===== *)
(** * What a node reads in a rendered INSERT

    The entrypoint sends rows to nodes as SQL texts ([RenderInsertSql]), and the
    nodes parse them again. The texts are parsed back to the same statement as
    long as no string has a quote or a backslash. *)
From S2P Require Import Prelude Numerals CommonTypes Storage Ast Codec Protocol Lexer Parser Text Cluster.
From Stdlib Require Import Ascii.
Open Scope Z_scope.

(** ** Tokens *)

Fixpoint all_word (s : string) : bool :=
  match s with EmptyString => true | String c s => is_word c && all_word s end.

(** The text does not go on with a word. *)
Definition word_ends (s : string) : bool :=
  match s with EmptyString => true | String c _ => negb (is_word c) end.

Lemma scan_word_app w rest : all_word w = true → word_ends rest = true → scan_word (w +:+ rest) = (w, rest).
Proof.
  intros Hw Hr. induction w as [|c w IH]; cbn [String.append scan_word].
  - destruct rest as [|c rest]; [done|]. cbn [word_ends] in Hr. apply negb_true_iff in Hr. simpl. by rewrite Hr.
  - cbn [all_word] in Hw. apply andb_true_iff in Hw as [Hc Hw]. by rewrite Hc, IH.
Qed.

Lemma word_char c : is_word c = true →
  is_space c = false ∧ Ascii.eqb c dquote = false ∧ ∀ d, bool_decide (String c (String d "") ∈ two_char_tokens) = false.
Proof.
  intros Hc. assert (H : is_space c = false ∧ Ascii.eqb c dquote = false ∧ Ascii.eqb c "=" = false ∧ Ascii.eqb c "!" = false ∧
    Ascii.eqb c "<" = false ∧ Ascii.eqb c ">" = false) by (destruct c as [[] [] [] [] [] [] [] []]; vm_compute in Hc |- *; done).
  destruct H as (H1 & H2 & H3 & H4 & H5 & H6). split_and!; [done|done|]. intros d. apply bool_decide_eq_false_2. unfold two_char_tokens.
  rewrite !elem_of_cons. intros [[= -> _]|[[= -> _]|[[= -> _]|[[= -> _]|?%not_elem_of_nil]]]]; done.
Qed.

Lemma Tokenize_word w rest : w ≠ "" → all_word w = true → word_ends rest = true → Tokenize (w +:+ rest) = w :: Tokenize rest.
Proof.
  intros Hne Hw Hr. destruct w as [|c w]; [done|]. cbn [String.append]. rewrite Tokenize_cons.
  pose proof Hw as Hw'. cbn [all_word] in Hw'. apply andb_true_iff in Hw' as [Hc _].
  destruct (word_char c Hc) as (Hs & Hq & H2). rewrite Hs. unfold next_token.
  assert (E : scan_word (String c (w +:+ rest)) = (String c w, rest)) by (by apply (scan_word_app (String c w))).
  destruct (w +:+ rest) as [|d tail]; rewrite ?H2, Hq, Hc, E; done.
Qed.

(** A character that is a token of its own before [rest]. *)
Definition single (c : ascii) (rest : string) : bool :=
  negb (is_space c) && negb (Ascii.eqb c dquote) && negb (is_word c) &&
  match rest with EmptyString => true | String d _ => negb (bool_decide (String c (String d "") ∈ two_char_tokens)) end.

Lemma Tokenize_single c rest : single c rest = true → Tokenize (String c rest) = String c "" :: Tokenize rest.
Proof.
  unfold single. intros [[[Hs Hq]%andb_true_iff Hw]%andb_true_iff H2]%andb_true_iff.
  apply negb_true_iff in Hs, Hq, Hw. rewrite Tokenize_cons, Hs. unfold next_token.
  destruct rest as [|d rest]; [by rewrite Hq, Hw|]. apply negb_true_iff in H2. by rewrite H2, Hq, Hw.
Qed.

Lemma Tokenize_space rest : Tokenize (String " " rest) = Tokenize rest.
Proof. by rewrite Tokenize_cons. Qed.

(** Strings without quotes and backslashes. *)
Definition plain_text (s : string) : bool := no_char dquote s && no_char backslash s.

Lemma plain_text_cons c s : plain_text (String c s) = true → Ascii.eqb c dquote = false ∧ Ascii.eqb c backslash = false ∧ plain_text s = true.
Proof. unfold plain_text. cbn [no_char]. destruct (Ascii.eqb c dquote), (Ascii.eqb c backslash); simpl; rewrite ?andb_false_r; try done. Qed.

Lemma scan_literal_plain prev s rest :
  plain_text s = true → Ascii.eqb prev backslash = false →
  scan_literal prev (s +:+ String dquote rest) = (s +:+ String dquote "", rest).
Proof.
  revert prev. induction s as [|c s IH]; intros prev Hs Hp; cbn [String.append scan_literal].
  - by rewrite Ascii.eqb_refl, Hp.
  - apply plain_text_cons in Hs as (Hq & Hb & Hs). rewrite Hq. cbn [andb]. by rewrite IH.
Qed.

Lemma Tokenize_string s rest : plain_text s = true →
  Tokenize (String dquote (s +:+ String dquote rest)) = String dquote (s +:+ String dquote "") :: Tokenize rest.
Proof.
  intros Hs. rewrite Tokenize_cons. change (is_space dquote) with false. cbv iota. unfold next_token.
  assert (E : scan_literal dquote (s +:+ String dquote rest) = (s +:+ String dquote "", rest)) by (by apply scan_literal_plain).
  destruct (s +:+ String dquote rest) as [|d tail]; [by rewrite Ascii.eqb_refl, E|].
  rewrite bool_decide_eq_false_2; [by rewrite Ascii.eqb_refl, E|].
  unfold two_char_tokens. rewrite !elem_of_cons. intros [[= ]|[[= ]|[[= ]|[[= ]|?%not_elem_of_nil]]]]; done.
Qed.

(** ** Literals *)

(** A value that is printed and read back. *)
Definition printable (v : Value) : Prop :=
  match v with
  | VNull => True
  | VInt z => in_int64 z
  | VStr s => plain_text s = true
  | VInterned p => plain_text (intern_text p) = true
  end.

Definition as_read (v : Value) : Value := match v with VInterned p => VStr (intern_text p) | v => v end.

(** The tokens of a value. *)
Definition literal_tokens (v : Value) : list string :=
  match v with
  | VNull => ["NULL"]
  | VInt z => if z <? 0 then ["-"; nat_to_string (- z)] else [to_string z]
  | VStr s => [String dquote (s +:+ String dquote "")]
  | VInterned p => [String dquote (intern_text p +:+ String dquote "")]
  end.

Lemma escape_sql_plain s : plain_text s = true → escape_sql s = s.
Proof.
  induction s as [|c s IH]; intros Hs; [done|]. apply plain_text_cons in Hs as (Hq & Hb & Hs). cbn [escape_sql].
  by rewrite Hb, Hq, IH.
Qed.

Lemma digit_word c : is_digit c = true → is_word c = true.
Proof. destruct c as [[] [] [] [] [] [] [] []]; done. Qed.

Lemma dec_digits_word fuel n acc : all_word acc = true → all_word (dec_digits fuel n acc) = true.
Proof.
  assert (Hd : ∀ n acc, all_word acc = true → all_word (String (digit_char (n mod 10)) acc) = true).
  { intros m a Ha. cbn [all_word]. rewrite Ha, andb_true_r. apply digit_word.
    apply digit_char_spec, Z.mod_pos_bound. lia. }
  revert n acc. induction fuel as [|fuel IH]; intros n acc Ha; cbn [dec_digits]; [by apply Hd|].
  case_match; [by apply Hd|]. by apply IH, Hd.
Qed.

Lemma nat_to_string_word n : all_word (nat_to_string n) = true ∧ nat_to_string n ≠ "".
Proof.
  unfold nat_to_string. split; [by apply dec_digits_word|]. generalize (Z.to_nat (Z.log2 n)). intros fuel.
  assert (H : ∀ m acc, acc ≠ "" ∨ True → dec_digits fuel m acc ≠ "").
  { induction fuel as [|fuel IH]; intros m acc _; cbn [dec_digits]; [done|]. case_match; [done|]. by apply IH; right. }
  by apply H; right.
Qed.

Lemma literal_tokenize v rest :
  printable v → word_ends rest = true → Tokenize (RenderLiteralSql v +:+ rest) = literal_tokens v ++ Tokenize rest.
Proof.
  intros Hv Hr. destruct v as [|z|s|p]; cbn [RenderLiteralSql literal_tokens printable] in *.
  - by apply (Tokenize_word "NULL").
  - unfold to_string. destruct (Z.ltb_spec z 0).
    + destruct (nat_to_string_word (- z)) as [Hw Hne]. cbn [String.append app]. rewrite Tokenize_single.
      * by rewrite Tokenize_word.
      * destruct (nat_to_string (- z)) as [|c t]; [done|]. reflexivity.
    + destruct (nat_to_string_word z) as [Hw Hne]. by rewrite Tokenize_word.
  - rewrite escape_sql_plain by done. cbn [String.append app]. rewrite <-str_app_assoc. by apply Tokenize_string.
  - rewrite escape_sql_plain by done. cbn [String.append app]. rewrite <-str_app_assoc. by apply Tokenize_string.
Qed.

Lemma drop_last_app s c : drop_last (s +:+ String c "") = s.
Proof.
  induction s as [|d s IH]; [done|]. cbn [String.append drop_last]. rewrite IH.
  destruct (s +:+ String c "") eqn:E; [|done]. by destruct s.
Qed.

Lemma last_char_app d s c : Parser.last_char d (s +:+ String c "") = c.
Proof. revert d. induction s as [|e s IH]; intros d; [done|]. cbn. apply IH. Qed.

Lemma quoted_app s : quoted (String dquote (s +:+ String dquote "")) = Some s.
Proof.
  unfold quoted. destruct s as [|d s]; [done|]. cbn [String.append]. rewrite Ascii.eqb_refl, last_char_app, Ascii.eqb_refl. cbn [andb].
  exact (f_equal Some (drop_last_app (String d s) dquote)).
Qed.

Lemma ParseLiteral_number z : in_int64 z → ParseLiteral (to_string z) = inr (VInt z).
Proof.
  intros Hz. unfold ParseLiteral.
  assert (Hhead : ∃ c t, to_string z = String c t ∧ (is_digit c || Ascii.eqb c "-") = true).
  { pose proof (plain_to_string z) as Hp. unfold to_string in *. destruct (nat_to_string_word z) as [_ Hne].
    destruct (z <? 0); [by eexists _, _|]. destruct (nat_to_string z) as [|c t]; [done|]. exists c, t. split; [done|].
    cbn [plain] in Hp. by apply andb_true_iff in Hp as [? _]. }
  destruct Hhead as (c & t & Ht & Hc). rewrite stoll_to_string by done. rewrite Ht.
  assert (Hno : String.eqb (String c t) "NULL" = false ∧ String.eqb (String c t) "null" = false ∧ quoted (String c t) = None).
  { split_and!.
    - apply String.eqb_neq. intros [= -> _]. done.
    - apply String.eqb_neq. intros [= -> _]. done.
    - unfold quoted. destruct t as [|d t']; [done|]. destruct (Ascii.eqb_spec c dquote) as [->|]; done. }
  destruct Hno as (-> & -> & ->). cbn [orb]. by rewrite Nat.eqb_refl.
Qed.

Lemma ParseLiteralToken_read v ts : printable v → ParseLiteralToken (literal_tokens v ++ ts) = Some (inr (as_read v, ts)).
Proof.
  assert (Hone : ∀ token ts, String.eqb token "-" = false → ParseLiteralToken (token :: ts) =
    match ParseLiteral token with inl what => Some (inl what) | inr v => Some (inr (v, ts)) end).
  { intros token ts' H. unfold ParseLiteralToken, pbind, Match. rewrite H. cbn [Take]. unfold literal. by destruct (ParseLiteral token). }
  assert (Hstr : ∀ s, ParseLiteralToken (String dquote (s +:+ String dquote "") :: ts) = Some (inr (VStr s, ts))).
  { intros s. rewrite Hone by done. unfold ParseLiteral. rewrite quoted_app. done. }
  intros Hv. destruct v as [|z|s|p]; cbn [literal_tokens as_read printable] in *; [done| |apply Hstr|apply Hstr].
  pose proof (ParseLiteral_number z Hv) as Hp. destruct (Z.ltb_spec z 0) as [Hz|Hz].
  - unfold to_string in Hp. destruct (Z.ltb_spec z 0); [|lia]. cbn [app]. unfold ParseLiteralToken, pbind, Match.
    change (String.eqb "-" "-") with true. cbv iota. cbn [Take]. unfold literal. by rewrite Hp.
  - cbn [app]. rewrite Hone, Hp; [done|]. apply String.eqb_neq. intros E. unfold to_string in E.
    destruct (Z.ltb_spec z 0); [lia|]. destruct (nat_to_string_word z) as [Hw _]. by rewrite E in Hw.
Qed.

(** ** Lists *)

Fixpoint sep_tokens (parts : list (list string)) : list string :=
  match parts with
  | [] => []
  | [p] => p
  | p :: parts => p ++ "," :: sep_tokens parts
  end.

Section lists.
Context {A B : Type} (ok : A → Prop) (render : A → string) (tokens : A → list string) (f : A → B).
Hypothesis render_tokens : ∀ x rest, ok x → word_ends rest = true → Tokenize (render x +:+ rest) = tokens x ++ Tokenize rest.

Lemma comma_tokenize xs rest :
  xs ≠ [] → Forall ok xs → word_ends rest = true →
  Tokenize (comma_separated (map render xs) +:+ rest) = sep_tokens (map tokens xs) ++ Tokenize rest.
Proof using render_tokens.
  intros Hne Hok Hr. induction Hok as [|x xs Hx Hxs IH]; [done|]. destruct xs as [|y ys]; [by apply render_tokens|].
  change (comma_separated (map render (x :: y :: ys))) with (render x +:+ ", " +:+ comma_separated (map render (y :: ys))).
  change (sep_tokens (map tokens (x :: y :: ys))) with (tokens x ++ "," :: sep_tokens (map tokens (y :: ys))).
  rewrite <-!str_app_assoc, <-app_assoc. cbn [String.append app]. rewrite render_tokens by done.
  rewrite Tokenize_single by done. rewrite Tokenize_space. by rewrite IH.
Qed.

Hypothesis tokens_nonempty : ∀ x, tokens x ≠ [].

Lemma sep_tokens_length xs : (length xs ≤ length (sep_tokens (map tokens xs)))%nat.
Proof using tokens_nonempty.
  induction xs as [|x xs IH]; [done|]. pose proof (tokens_nonempty x) as Hx. destruct (tokens x) as [|t ts] eqn:Et; [done|].
  destruct xs as [|y ys]; [cbn [map sep_tokens]; rewrite Et; cbn; lia|].
  change (sep_tokens (map tokens (x :: y :: ys))) with (tokens x ++ "," :: sep_tokens (map tokens (y :: ys))).
  rewrite length_app, Et. cbn [length] in *. lia.
Qed.

(** A loop that reads one element per turn, up to the one before [fin]. *)
Lemma loop_reads (body : list B → Parser (list B + list B)) fin fin' xs acc :
  (∀ acc x ts, ok x → body acc (tokens x ++ "," :: ts) = Some (inr (inl (acc ++ [f x]), ts))) →
  (∀ acc x, ok x → body acc (tokens x ++ fin) = Some (inr (inr (acc ++ [f x]), fin'))) →
  xs ≠ [] → Forall ok xs →
  loop body acc (sep_tokens (map tokens xs) ++ fin) = Some (inr (acc ++ map f xs, fin')).
Proof using tokens_nonempty.
  intros Hmore Hlast Hne Hok. unfold loop.
  assert (H : ∀ fuel acc, (length xs ≤ fuel)%nat →
    repeat_from fuel body acc (sep_tokens (map tokens xs) ++ fin) = Some (inr (acc ++ map f xs, fin'))).
  { induction Hok as [|x xs Hx Hxs IH]; [done|]. intros fuel acc' Hf. destruct fuel as [|fuel]; [cbn [length] in Hf; lia|].
    destruct xs as [|y ys]; [cbn [map sep_tokens repeat_from]; by rewrite Hlast|].
    change (sep_tokens (map tokens (x :: y :: ys))) with (tokens x ++ "," :: sep_tokens (map tokens (y :: ys))).
    rewrite <-app_assoc. cbn [app repeat_from]. rewrite Hmore by done.
    rewrite IH by (try done; cbn [length] in *; lia). cbn [map]. by rewrite <-app_assoc. }
  apply H. rewrite length_app. pose proof (sep_tokens_length xs). lia.
Qed.
End lists.

(** ** Rows and columns *)

Definition row_tokens (row : list Value) : list string := "(" :: sep_tokens (map literal_tokens row) ++ [")"].

Lemma literal_tokens_nonempty v : literal_tokens v ≠ [].
Proof. destruct v as [|z| |]; simpl; try done. by destruct (z <? 0). Qed.

Lemma Tokenize_open rest : Tokenize (String "(" rest) = "(" :: Tokenize rest.
Proof. apply Tokenize_single. by destruct rest. Qed.

Lemma Tokenize_close rest : Tokenize (String ")" rest) = ")" :: Tokenize rest.
Proof. apply Tokenize_single. by destruct rest. Qed.

Lemma row_tokenize row rest : row ≠ [] ∧ Forall printable row → word_ends rest = true →
  Tokenize (render_row row +:+ rest) = row_tokens row ++ Tokenize rest.
Proof.
  intros [Hne Hrow] _. unfold render_row, row_tokens. rewrite <-!str_app_assoc. cbn [String.append app].
  rewrite Tokenize_open, (comma_tokenize printable RenderLiteralSql literal_tokens) by (done || apply literal_tokenize).
  rewrite Tokenize_close. by rewrite <-app_assoc.
Qed.

Lemma list_end_more {A} (acc : list A) ts : list_end acc ("," :: ts) = Some (inr (inl acc, ts)).
Proof. done. Qed.

Lemma list_end_last {A} (acc : list A) ts : list_end acc (")" :: ts) = Some (inr (inr acc, ts)).
Proof. done. Qed.

Definition read_row (row : list Value) : list Expression := map (λ v, LiteralExpression (as_read v)) row.

Lemma ParseRow_reads row ts : row ≠ [] ∧ Forall printable row → ParseRow (row_tokens row ++ ts) = Some (inr (read_row row, ts)).
Proof.
  intros [Hne Hrow]. unfold ParseRow, row_tokens, pbind at 1. cbn [app]. unfold Expect, pbind at 1, Match.
  change (String.eqb "(" "(") with true. cbv iota. cbn [pret]. rewrite <-app_assoc.
  apply (loop_reads printable literal_tokens (λ v, LiteralExpression (as_read v)) literal_tokens_nonempty); try done;
    intros; unfold pbind; by rewrite ParseLiteralToken_read.
Qed.

Definition name_ok (name : string) : Prop := IsIdentifier name = true.

Lemma name_word name : name_ok name → all_word name = true ∧ name ≠ "".
Proof.
  unfold name_ok, IsIdentifier. destruct name as [|c s]; [done|]. intros [_ H]%andb_true_iff. split; [|done].
  apply negb_true_iff in H. revert H. generalize (String c s). clear. intros s. induction s as [|c s IH]; [done|]. cbn [has_char all_word].
  intros [Hc Hs]%orb_false_iff. apply negb_false_iff in Hc. by rewrite Hc, IH.
Qed.

Lemma name_tokenize name rest : name_ok name → word_ends rest = true → Tokenize (name +:+ rest) = [name] ++ Tokenize rest.
Proof. intros Hn Hr. destruct (name_word name Hn) as [Hw Hne]. by apply Tokenize_word. Qed.

Lemma TakeIdentifier_reads name ts : name_ok name → TakeIdentifier (name :: ts) = Some (inr (name, ts)).
Proof. unfold name_ok. intros Hn. unfold TakeIdentifier, pbind. cbn [Take]. by rewrite Hn. Qed.

(** ** Statements *)

Definition insert_tokens (n tn : string) (columns : list string) (rows : list (list Value)) : list string :=
  ["INSERT"; "INTO"; n; "."; tn; "("] ++ sep_tokens (map (λ c, [c]) columns) ++ [")"; "VALUES"]
  ++ sep_tokens (map row_tokens rows) ++ [";"].

Lemma insert_tokenize n tn columns rows :
  name_ok n → name_ok tn → columns ≠ [] → Forall name_ok columns → rows ≠ [] →
  Forall (λ row, row ≠ [] ∧ Forall printable row) rows →
  Tokenize (RenderInsertSql (MkQName (Some n) tn) columns rows) = insert_tokens n tn columns rows.
Proof.
  intros Hn Htn Hcne Hc Hrne Hr. unfold RenderInsertSql, insert_tokens, QualifiedNameToString. cbn [q_database q_object].
  rewrite <-!str_app_assoc. change ("INSERT INTO " +:+ ?x) with ("INSERT" +:+ String " " ("INTO" +:+ String " " x)).
  rewrite (Tokenize_word "INSERT"), Tokenize_space, (Tokenize_word "INTO"), Tokenize_space by done.
  rewrite name_tokenize by done. cbn [String.append app]. rewrite Tokenize_single by (destruct tn; done).
  rewrite name_tokenize by done. cbn [String.append app]. rewrite Tokenize_space, Tokenize_open.
  replace columns with (map id columns) at 1 by apply map_id.
  rewrite (comma_tokenize name_ok id (λ c, [c])) by (done || intros; by apply name_tokenize).
  cbn [String.append]. rewrite Tokenize_close, Tokenize_space.
  change (String "V" (String "A" (String "L" (String "U" (String "E" (String "S" (String " " ?x))))))) with ("VALUES" +:+ String " " x).
  rewrite Tokenize_word, Tokenize_space by done.
  rewrite (comma_tokenize (λ row, row ≠ [] ∧ Forall printable row) render_row row_tokens) by (done || apply row_tokenize).
  cbn [String.append app]. by rewrite Tokenize_single.
Qed.

Lemma ParseQualifiedName_reads n tn ts :
  name_ok n → name_ok tn → ParseQualifiedName (n :: "." :: tn :: ts) = Some (inr (MkQName (Some n) tn, ts)).
Proof.
  intros Hn Htn. unfold ParseQualifiedName, pbind at 1. rewrite TakeIdentifier_reads by done.
  unfold pbind at 1, Match. cbn [String.eqb Ascii.eqb Bool.eqb]. cbv iota beta. unfold pbind at 1. by rewrite TakeIdentifier_reads.
Qed.

Lemma ParseInsert_reads n tn columns rows :
  name_ok n → name_ok tn → columns ≠ [] → Forall name_ok columns → rows ≠ [] →
  Forall (λ row, row ≠ [] ∧ Forall printable row) rows →
  ParseInsert (tail (insert_tokens n tn columns rows)) =
    Some (inr (InsertStatement (MkQName (Some n) tn) columns (map read_row rows), [";"])).
Proof.
  intros Hn Htn Hcne Hc Hrne Hr. unfold insert_tokens. cbn [app tail]. unfold ParseInsert.
  unfold pbind at 1. cbn [ExpectKeyword]. unfold ExpectKeyword at 1, pbind at 1. cbn [MatchKeyword].
  change (negb (String.eqb (ToUpper "INTO") "INTO")) with false. change (HasMixedLetterCase "INTO") with false. cbv iota. cbn [pret].
  unfold pbind at 1. rewrite ParseQualifiedName_reads by done.
  unfold pbind at 1. change (Expect "(" ("(" :: ?ts)) with (Some (inr (tt, ts)) : option (string + unit * list string)). cbv iota.
  unfold pbind at 1.
  rewrite (loop_reads name_ok (λ c, [c]) id) with (fin' := "VALUES" :: sep_tokens (map row_tokens rows) ++ [";"]).
  2: done. 2, 3: intros; unfold pbind; cbn [app]; by rewrite TakeIdentifier_reads. 2, 3: done.
  rewrite map_id. cbn [app]. unfold pbind at 1. cbn [MatchKeyword].
  change (negb (String.eqb (ToUpper "VALUES") "VALUE")) with true. cbv iota.
  unfold pbind at 1, ExpectKeyword, pbind at 1. cbn [MatchKeyword].
  change (negb (String.eqb (ToUpper "VALUES") "VALUES")) with false. change (HasMixedLetterCase "VALUES") with false. cbv iota. cbn [pret].
  unfold pbind at 1.
  rewrite (loop_reads (λ row, row ≠ [] ∧ Forall printable row) row_tokens read_row) with (fin' := [";"]); try done.
  - intros acc x ts Hx. unfold pbind at 1. by rewrite ParseRow_reads.
  - intros acc x Hx. unfold pbind at 1. by rewrite ParseRow_reads.
Qed.

(** C32: What the entrypoint sends is what a node executes: when the names are
    identifiers, there are distinct columns and rows of their number, and no
    string has a quote or a backslash, the rendered INSERT is parsed to the
    INSERT of the same table, columns and values. *)
Theorem rendered_insert_roundtrip n tn columns rows :
  name_ok n → name_ok tn → Forall name_ok columns → Forall (Forall printable) rows →
  ValidateInsert columns (map read_row rows) = None →
  Parse (RenderInsertSql (MkQName (Some n) tn) columns rows) = Ok (InsertStatement (MkQName (Some n) tn) columns (map read_row rows)).
Proof.
  intros Hn Htn Hc Hr Hv.
  assert (Hcne : columns ≠ []) by (by intros ->).
  assert (Hrne : rows ≠ []) by (intros ->; by destruct columns).
  assert (Hr' : Forall (λ row, row ≠ [] ∧ Forall printable row) rows).
  { rewrite Forall_forall in Hr |- *. intros row Hin. split; [|by apply Hr]. intros ->.
    destruct columns as [|c columns]; [done|]. destruct rows as [|row rows]; [done|]. unfold ValidateInsert in Hv. cbn [map] in Hv.
    destruct (first_duplicate _ _); [done|]. destruct (forallb _ _) eqn:Hf; [|done].
    rewrite forallb_forall in Hf. apply list_elem_of_In in Hin.
    pose proof (Hf (read_row []) (in_map read_row (row :: rows) [] Hin)) as Hbad. done. }
  unfold Parse. rewrite insert_tokenize by done. unfold parse_tokens.
  pose proof (ParseInsert_reads n tn columns rows Hn Htn Hcne Hc Hrne Hr') as Hp.
  unfold insert_tokens in *. cbn [app tail] in *. set (ts := "INTO" :: _) in *.
  change (parse_first statement_parsers ("INSERT" :: ts)) with (pbind ParseInsert (λ s, pret (Some s)) ts).
  unfold pbind. rewrite Hp. cbn [pret]. unfold finish. change (String.eqb ";" ";") with true. cbv iota.
  cbn [ValidateStatement]. by rewrite Hv.
Qed.

Lemma rendered_insert_roundtrip_witness :
  Parse (RenderInsertSql (MkQName (Some "shop") "items") ["id"; "name"] [[VInt (-5); VStr "it's, (5)"]; [VInt 7; VNull]]) =
    Ok (InsertStatement (MkQName (Some "shop") "items") ["id"; "name"]
          (map read_row [[VInt (-5); VStr "it's, (5)"]; [VInt 7; VNull]])).
Proof.
  apply rendered_insert_roundtrip; try reflexivity; repeat constructor; try reflexivity; simpl; unfold in_int64, int64_min, int64_max; lia.
Defined.

(** A quote in a string has a backslash before it when a node reads it. *)
Lemma rendered_quote_is_kept :
  Parse (RenderInsertSql (MkQName (Some "shop") "items") ["name"] [[VStr (String dquote "")]]) =
    Ok (InsertStatement (MkQName (Some "shop") "items") ["name"] [[LiteralExpression (VStr (String backslash (String dquote "")))]]).
Proof. vm_compute. reflexivity. Qed.
