(* ===== verification/Cli.v ===== *)
(** * The command line client

    [apps/cli/main.cpp]: splitting a script into statements, and executing them
    on an engine in the process or on a server, in batch, demo and interactive
    mode. What is printed is a list of lines; the options, the script file and
    the standard input are arguments. *)
From S2P Require Import Prelude Numerals CommonTypes Storage BStarPlusTree IndexSpec RuntimeState Ast.
From S2P Require Import VersionStore.
From S2P Require Import Execution Lexer Parser Wal Engine Codec Protocol Text Cluster Server.
From Stdlib Require Import Ascii.
Open Scope Z_scope.

(** ** Texts *)

Definition HasNonSpace (text : string) : bool := negb (all_blank text).

Definition EndsWithSemicolonIgnoringSpaces (text : string) : bool := bool_decide (back_char (trim_right text) = Some ";"%char).

Definition StripOneTrailingSemicolon (text : string) : string :=
  let text := TrimCopy text in
  TrimCopy (if bool_decide (back_char text = Some ";"%char) then pop_back text else text).

(** The loop over the characters of the keyword, then what follows it. *)
Fixpoint starts_with_keyword (trimmed keyword : string) : bool :=
  match keyword, trimmed with
  | EmptyString, EmptyString => true
  | EmptyString, String c _ => is_space c
  | String k keyword, String c trimmed => Ascii.eqb (to_upper c) (to_upper k) && starts_with_keyword trimmed keyword
  | String _ _, EmptyString => false
  end.

Definition StartsWithKeyword (text keyword : string) : bool := starts_with_keyword (TrimCopy text) keyword.

Definition IsRemoteMetaCommand (text : string) : bool :=
  StartsWithKeyword text "CLUSTER" || StartsWithKeyword text "AUTH" || StartsWithKeyword text "ASYNC"
  || StartsWithKeyword text "TELEMETRY".

(** The states of the loop of [SplitStatements]. *)
Inductive Scan := Outside_string | In_string | Escaped.

Definition scan_step (state : Scan) (ch : ascii) : Scan :=
  match state with
  | Outside_string => if Ascii.eqb ch dquote then In_string else Outside_string
  | In_string => if Ascii.eqb ch backslash then Escaped else if Ascii.eqb ch dquote then Outside_string else In_string
  | Escaped => In_string
  end.

Fixpoint split_statements (state : Scan) (current input : string) : list string :=
  match input with
  | EmptyString => if String.eqb current "" then [] else [current]
  | String ch input =>
      let current := push_back current ch in
      match state with
      | Outside_string =>
          if Ascii.eqb ch ";" then current :: split_statements Outside_string "" input
          else split_statements (scan_step state ch) current input
      | _ => split_statements (scan_step state ch) current input
      end
  end.

Definition SplitStatements (input : string) : list string := split_statements Outside_string "" input.

(** ** Execution *)

Section cli.
Context {T D N : Type} `{!IndexOps T} `{!PersistenceOps T D} `{!Outside N}.
Context (regex_match : string → string → Outcome bool) (clock : nat → Tm) (io : nat → WriteFault).

Record Cli := MkCli {
  cli_engine : DbmsEngine T D;
  cli_session : SessionContext;
  cli_outside : N;
  cli_output : list string
}.

Definition print (text : string) (c : Cli) : Cli :=
  MkCli (cli_engine c) (cli_session c) (cli_outside c) (cli_output c ++ [text]).

(** The lines of [PrintUsage]. *)
Definition usage (program_name : string) : list string :=
  ["Usage:"; "  " +:+ program_name +:+ " [script.sql]"; "  " +:+ program_name +:+ " --server host:port [--jwt token] [script.sql]";
   "  " +:+ program_name +:+ " --demo [--server host:port] [--jwt token]"; "  " +:+ program_name +:+ " --help"].

Definition BuildDemoStatements : list string :=
  ["CREATE DATABASE demo;"; "USE demo;";
   "CREATE TABLE users (id INT INDEXED, name STRING, score INT DEFAULT 0);";
   "INSERT INTO users (id, name) VALUES (1, " +:+ Rbac.quote "Ann" +:+ "), (2, " +:+ Rbac.quote "Bob" +:+ ");";
   "UPDATE users SET score = 42 WHERE id == 2;"; "SELECT * FROM users;";
   "SELECT COUNT(*), SUM(score), AVG(score) FROM users;"].

Definition error_prefix (statement_index : nat) : string := "error[" +:+ to_string (Z.of_nat statement_index) +:+ "]: ".

(** The return code; [PrintSelectJson] prints what the server sends as well. *)
Definition ExecuteAndPrint (sql : string) (statement_index : nat) (c : Cli) : Outcome Z * Cli :=
  if negb (HasNonSpace sql) then (Ok 0, c)
  else
    let '(result, session, en) := ExecuteSql regex_match clock io (cli_session c) sql (cli_engine c) in
    let c := MkCli en session (cli_outside c) (cli_output c) in
    match result with
    | Crash k => (Crash k, c)
    | Err er => (Ok 1, print (error_prefix statement_index +:+ FormatErrorContract er sql) c)
    | Ok r => (Ok 0, print (match res_columns r with [] => res_message r | _ => QueryResultToJson r end) c)
    end.

Definition SendRemote (host : string) (port : Z) (request : RequestEnvelope) (n : N) : option ResponseEnvelope * N :=
  match exchange host port (SerializeRequest request) n with
  | (None, n) => (None, n)
  | (Some bytes, n) =>
      match read_line bytes with
      | None => (None, n)
      | Some (wire_response, _) => (DeserializeResponse wire_response, n)
      end
  end.

(** What is sent for a statement. *)
Definition remote_payload (sql : string) : string := if IsRemoteMetaCommand sql then StripOneTrailingSemicolon sql else sql.

Definition ExecuteAndPrintRemote (host : string) (port : Z) (client_id jwt_token sql : string) (statement_index : nat) (c : Cli)
    : Outcome Z * Cli :=
  if negb (HasNonSpace sql) then (Ok 0, c)
  else
    let payload := remote_payload sql in
    let '(response, n) := SendRemote host port (MkRequest client_id jwt_token payload) (cli_outside c) in
    let c := MkCli (cli_engine c) (cli_session c) n (cli_output c) in
    match response with
    | None =>
        (Ok 1, print (error_prefix statement_index +:+ "type=NETWORK_ERROR code=6 message=failed to reach server sql="
                      +:+ Rbac.quote (EscapeJsonText payload)) c)
    | Some r => (Ok (if resp_status r =? 200 then 0 else 1), print (resp_payload r) c)
    end.

Record CliOptions := MkOptions {
  opt_server : option (string * Z);
  opt_demo : bool;
  opt_jwt : string;
  opt_rest : list string
}.

Definition execute_one (options : CliOptions) (sql : string) (statement_index : nat) (c : Cli) : Outcome Z * Cli :=
  match opt_server options with
  | Some (host, port) => ExecuteAndPrintRemote host port "cli" (opt_jwt options) sql statement_index c
  | None => ExecuteAndPrint sql statement_index c
  end.

(** The demo and batch loops: 1 if some statement failed. Blank statements of
    a script are skipped and not counted. *)
Fixpoint execute_batch (options : CliOptions) (statements : list string) (statement_index : nat) (exit_code : Z) (c : Cli)
    : Outcome Z * Cli :=
  match statements with
  | [] => (Ok exit_code, c)
  | sql :: statements =>
      if negb (HasNonSpace sql) then execute_batch options statements statement_index exit_code c
      else
        match execute_one options sql statement_index c with
        | (Ok rc, c) => execute_batch options statements (S statement_index) (if rc =? 0 then exit_code else 1) c
        | failure => failure
        end
  end.

(** The statements that one line of the input completes, and the buffer that
    stays. *)
Definition ready_statements (buffer : string) : list string * string :=
  let statements := SplitStatements buffer in
  if EndsWithSemicolonIgnoringSpaces buffer then (statements, "")
  else
    match rev statements with
    | [] => ([], buffer)
    | incomplete :: complete => (rev complete, incomplete)
    end.

(** The interactive loop over the lines of the standard input. *)
Fixpoint interact (options : CliOptions) (lines : list string) (buffer : string) (statement_index : nat) (c : Cli)
    : Outcome Z * Cli :=
  match lines with
  | [] => (Ok 0, c)
  | l :: lines =>
      let '(statements, buffer) := ready_statements (buffer +:+ l +:+ String newline "") in
      match execute_batch options statements statement_index 0 c with
      | (Ok _, c) =>
          interact options lines buffer (statement_index + length (List.filter HasNonSpace statements))%nat c
      | failure => failure
      end
  end.

(** The options, or the exit code and what is printed. *)
Fixpoint parse_options (program_name : string) (args : list string) (o : CliOptions) : Z * list string + CliOptions :=
  match args with
  | [] => inr o
  | arg :: rest =>
      if String.eqb arg "--help" then inl (0, usage program_name)
      else if String.eqb arg "--demo" then
        parse_options program_name rest (MkOptions (opt_server o) true (opt_jwt o) rest)
      else if String.eqb arg "--server" then
        match rest with
        | [] => inl (1, ["error: --server requires host:port"])
        | endpoint :: rest =>
            match ParseEndpoint endpoint with
            | None => inl (1, ["error: invalid endpoint, expected host:port"])
            | Some server => parse_options program_name rest (MkOptions (Some server) (opt_demo o) (opt_jwt o) rest)
            end
        end
      else if String.eqb arg "--jwt" then
        match rest with
        | [] => inl (1, ["error: --jwt requires token"])
        | token :: rest => parse_options program_name rest (MkOptions (opt_server o) (opt_demo o) token rest)
        end
      else inr o
  end.

(** [main]: [files] gives the text of a file that can be opened, [input] is the
    standard input. *)
Definition cli_main (program_name : string) (args : list string) (files : string → option string) (input : string) (c : Cli)
    : Outcome Z * Cli :=
  match parse_options program_name args (MkOptions None false "" args) with
  | inl (exit_code, lines) => (Ok exit_code, foldl (λ c l, print l c) c lines)
  | inr options =>
      if opt_demo options then execute_batch options BuildDemoStatements 1 0 c
      else
        match opt_rest options with
        | [script] =>
            match files script with
            | None => (Ok 1, print ("error: cannot open script file: " +:+ script) c)
            | Some text => execute_batch options (SplitStatements text) 1 0 c
            end
        | _ => interact options (lines_of input) "" 1 c
        end
  end.

End cli.
