(* ===== verification/CliFacts.v ===== *)
(** * Splitting and reading scripts

    [SplitStatements] of the client cuts a text at the semicolons outside of
    string literals, and reading a text line by line executes the same
    statements as reading it at once. *)
From S2P Require Import Prelude Numerals CommonTypes Codec Storage BStarPlusTree IndexSpec RuntimeState Ast.
From S2P Require Import VersionStore.
From S2P Require Import Execution Wal Engine Protocol Text Cluster Cli.
From Stdlib Require Import Ascii.
Open Scope Z_scope.

Fixpoint concat_text (parts : list string) : string :=
  match parts with [] => "" | p :: parts => p +:+ concat_text parts end.

(** Nothing is lost or added. *)
Lemma split_concat state current input : concat_text (split_statements state current input) = current +:+ input.
Proof.
  revert state current. induction input as [|c input IH]; intros state current; cbn [split_statements].
  - destruct (String.eqb_spec current "") as [->|]; [done|]. cbn. by rewrite !str_app_nil_r.
  - destruct state; [|by rewrite IH, push_back_app..].
    destruct (Ascii.eqb c ";"); cbn [concat_text]; rewrite IH, push_back_app; done.
Qed.

(** The state behind a text without a semicolon outside of strings; [None] if
    it has one. *)
Fixpoint scan (state : Scan) (s : string) : option Scan :=
  match s with
  | EmptyString => Some state
  | String c s =>
      match state with
      | Outside_string => if Ascii.eqb c ";" then None else scan (scan_step state c) s
      | _ => scan (scan_step state c) s
      end
  end.

(** A text that ends with its only semicolon outside of strings. *)
Definition complete (s : string) : Prop := ∃ body, s = push_back body ";" ∧ scan Outside_string body = Some Outside_string.

Lemma split_scan state current s state' rest :
  scan state s = Some state' → split_statements state current (s +:+ rest) = split_statements state' (current +:+ s) rest.
Proof.
  revert state current. induction s as [|c s IH]; intros state current; cbn [scan String.append].
  - intros [= ->]. by rewrite str_app_nil_r.
  - intros H. cbn [split_statements]. rewrite <-push_back_app.
    destruct state; [destruct (Ascii.eqb c ";"); [done|]|..]; by apply IH.
Qed.

Lemma split_complete s rest : complete s → SplitStatements (s +:+ rest) = s :: SplitStatements rest.
Proof.
  intros (body & -> & Hb). unfold SplitStatements. rewrite push_back_app, (split_scan _ _ _ _ _ Hb). by cbn.
Qed.

Lemma split_all_complete parts rest : Forall complete parts → SplitStatements (concat_text parts +:+ rest) = parts ++ SplitStatements rest.
Proof.
  induction 1 as [|p parts Hp _ IH]; [done|]. cbn [concat_text app]. by rewrite <-str_app_assoc, split_complete, IH.
Qed.

Lemma scan_snoc state s c state1 :
  scan state s = Some state1 → (state1 = Outside_string → c ≠ ";"%char) → scan state (push_back s c) = Some (scan_step state1 c).
Proof.
  unfold push_back. revert state. induction s as [|d s IH]; intros state H Hc; cbn [scan String.append] in *.
  - injection H as <-. destruct state; try done. destruct (Ascii.eqb_spec c ";") as [->|]; [by destruct Hc|done].
  - destruct state; [destruct (Ascii.eqb d ";"); [done|]|..]; by apply IH.
Qed.

(** Every text is cut into complete statements and a rest without a semicolon. *)
Lemma split_shape state current input :
  scan Outside_string current = Some state →
  ∃ parts tail, split_statements state current input = parts ++ (if String.eqb tail "" then [] else [tail]) ∧
    Forall complete parts ∧ is_Some (scan Outside_string tail).
Proof.
  revert state current. induction input as [|c input IH]; intros state current Hs; cbn [split_statements].
  { exists [], current. by rewrite Hs. }
  assert (Hnext : (state = Outside_string → c ≠ ";"%char) →
    ∃ parts tail, split_statements (scan_step state c) (push_back current c) input = parts ++ (if String.eqb tail "" then [] else [tail]) ∧
      Forall complete parts ∧ is_Some (scan Outside_string tail)).
  { intros Hc. apply IH. by apply scan_snoc. }
  destruct state; [|by apply Hnext..]. destruct (Ascii.eqb_spec c ";") as [->|Hc]; [|by apply Hnext].
  destruct (IH Outside_string "" eq_refl) as (parts & tail & -> & Hp & Ht). exists (push_back current ";" :: parts), tail.
  split_and!; try done. constructor; [|done]. by exists current.
Qed.

Lemma SplitStatements_shape input :
  ∃ parts tail, SplitStatements input = parts ++ (if String.eqb tail "" then [] else [tail]) ∧ input = concat_text parts +:+ tail ∧
    Forall complete parts ∧ is_Some (scan Outside_string tail).
Proof.
  destruct (split_shape Outside_string "" input eq_refl) as (parts & tail & Hs & Hp & Ht).
  exists parts, tail. split_and!; try done. pose proof (split_concat Outside_string "" input) as H. rewrite Hs in H. cbn in H.
  rewrite <-H. clear. induction parts as [|p parts IH]; cbn [app concat_text].
  - destruct (String.eqb_spec tail "") as [->|]; [done|]. cbn. by rewrite str_app_nil_r.
  - by rewrite IH, str_app_assoc.
Qed.

(** ** Blanks around statements *)

(** The statements that are executed, without the blanks around them. *)
Definition norm (statements : list string) : list string := map TrimCopy (List.filter HasNonSpace statements).

Lemma norm_app a b : norm (a ++ b) = norm a ++ norm b.
Proof. unfold norm. by rewrite List.filter_app, map_app. Qed.

Lemma trim_left_blank t s : all_blank t = true → trim_left (t +:+ s) = trim_left s.
Proof. induction t as [|c t IH]; [done|]. cbn [all_blank String.append trim_left]. intros [-> Ht]%andb_true_iff. by apply IH. Qed.

Lemma all_blank_app t s : all_blank (t +:+ s) = all_blank t && all_blank s.
Proof. induction t as [|c t IH]; [done|]. cbn [all_blank String.append]. by rewrite IH, andb_assoc. Qed.

Lemma norm_blank_head t s parts : all_blank t = true → norm ((t +:+ s) :: parts) = norm (s :: parts).
Proof.
  intros Ht. assert (E1 : HasNonSpace (t +:+ s) = HasNonSpace s) by (unfold HasNonSpace; by rewrite all_blank_app, Ht).
  assert (E2 : TrimCopy (t +:+ s) = TrimCopy s) by (unfold TrimCopy; by rewrite trim_left_blank).
  unfold norm. cbn [List.filter]. rewrite E1. destruct (HasNonSpace s); cbn [map]; by rewrite ?E2.
Qed.

Lemma norm_blank t : all_blank t = true → norm [t] = [].
Proof. intros Ht. unfold norm, HasNonSpace. cbn. by rewrite Ht. Qed.

Lemma split_blank_current state t current s :
  all_blank t = true → norm (split_statements state (t +:+ current) s) = norm (split_statements state current s).
Proof.
  intros Ht. revert state current. induction s as [|c s IH]; intros state current; cbn [split_statements].
  - destruct (String.eqb_spec current "") as [->|Hc].
    + rewrite str_app_nil_r. destruct (String.eqb t ""); [done|]. by apply norm_blank.
    + destruct (String.eqb_spec (t +:+ current) "") as [E|_]; [by destruct t, current|]. by apply norm_blank_head.
  - assert (E : push_back (t +:+ current) c = t +:+ push_back current c) by (unfold push_back; by rewrite str_app_assoc).
    rewrite E. destruct state; [destruct (Ascii.eqb c ";"); [by rewrite (norm_blank_head t)|]|..]; apply IH.
Qed.

Lemma blank_char c : is_blank c = true → Ascii.eqb c ";" = false ∧ Ascii.eqb c dquote = false ∧ Ascii.eqb c backslash = false.
Proof. destruct c as [[] [] [] [] [] [] [] []]; vm_compute; done. Qed.

Lemma scan_blank t : all_blank t = true → scan Outside_string t = Some Outside_string.
Proof.
  induction t as [|c t IH]; [done|]. cbn [all_blank scan]. intros [Hc Ht]%andb_true_iff.
  destruct (blank_char c Hc) as (-> & Hq & _). cbn [scan_step]. rewrite Hq. by apply IH.
Qed.

Lemma split_blank t s : all_blank t = true → norm (SplitStatements (t +:+ s)) = norm (SplitStatements s).
Proof.
  intros Ht. unfold SplitStatements. rewrite (split_scan _ _ _ _ _ (scan_blank t Ht)). cbn [String.append].
  rewrite <-(str_app_nil_r t). by apply split_blank_current.
Qed.

(** ** Lines *)

(** The state behind a text. *)
Fixpoint end_state (state : Scan) (s : string) : Scan :=
  match s with EmptyString => state | String c s => end_state (scan_step state c) s end.

Lemma end_state_app state a b : end_state state (a +:+ b) = end_state (end_state state a) b.
Proof. revert state. induction a as [|c a IH]; intros state; [done|]. apply IH. Qed.

Lemma scan_end_state state s state' : scan state s = Some state' → end_state state s = state'.
Proof.
  revert state. induction s as [|c s IH]; intros state; cbn [scan end_state]; [by intros [= ->]|].
  destruct state; [destruct (Ascii.eqb c ";"); [done|]|..]; apply IH.
Qed.

Lemma complete_end_state parts : Forall complete parts → end_state Outside_string (concat_text parts) = Outside_string.
Proof.
  induction 1 as [|p parts (body & -> & Hb) _ IH]; [done|]. cbn [concat_text]. rewrite end_state_app. unfold push_back.
  rewrite end_state_app, (scan_end_state _ _ _ Hb). exact IH.
Qed.

Lemma in_string_blank t : all_blank t = true → end_state In_string t = In_string.
Proof.
  induction t as [|c t IH]; [done|]. cbn [all_blank end_state]. intros [Hc Ht]%andb_true_iff.
  destruct (blank_char c Hc) as (_ & Hq & Hb). cbn [scan_step]. rewrite Hq, Hb. by apply IH.
Qed.

Lemma trim_right_split s : ∃ t, s = trim_right s +:+ t ∧ all_blank t = true.
Proof.
  induction s as [|c s (t & IH & Ht)]; [by exists ""|]. cbn [trim_right]. destruct (is_blank c) eqn:Hc; cbn [andb].
  - destruct (String.eqb_spec (trim_right s) "") as [E|E].
    + exists (String c s). split; [done|]. cbn [all_blank]. rewrite Hc, IH, E. done.
    + exists t. split; [|done]. cbn [String.append]. by rewrite <-IH.
  - exists t. split; [|done]. cbn [String.append]. by rewrite <-IH.
Qed.

Lemma back_char_split s c : back_char s = Some c → ∃ body, s = push_back body c.
Proof.
  induction s as [|d s IH]; [done|]. cbn [back_char]. destruct s as [|e s].
  - intros [= ->]. by exists "".
  - intros H. destruct (IH H) as [body E]. exists (String d body). by rewrite E.
Qed.

(** The blanks behind a semicolon that ends the text outside of a string have
    no semicolon before them in the same statement. *)
Lemma ended_tail tail :
  scan Outside_string tail = Some Outside_string → EndsWithSemicolonIgnoringSpaces tail = true → False.
Proof.
  intros Hs Hend. apply bool_decide_eq_true in Hend. apply back_char_split in Hend as [body Hb].
  destruct (trim_right_split tail) as (t & Ht & Hblank). rewrite Hb in Ht. subst tail.
  assert (Hin : ∀ state, scan state body = None → scan state (push_back body ";" +:+ t) = None).
  { clear. induction body as [|c body IH]; intros state; [done|]. cbn [push_back String.append scan] in *.
    destruct state; [destruct (Ascii.eqb c ";"); [done|]|..]; apply IH. }
  destruct (scan Outside_string body) as [state|] eqn:Hbody; [|by rewrite Hin in Hs].
  pose proof (scan_end_state _ _ _ Hs) as He. rewrite end_state_app in He. unfold push_back in He.
  rewrite end_state_app, (scan_end_state _ _ _ Hbody) in He. cbn [end_state] in He.
  destruct state; cbn [scan_step] in He; [|by rewrite in_string_blank in He..].
  assert (Hno : scan Outside_string (push_back body ";" +:+ t) = None); [|by rewrite Hno in Hs].
  revert Hbody. unfold push_back. clear. generalize Outside_string at 1 3. induction body as [|c body IH]; intros state; cbn [scan String.append].
  - intros [= ->]. done.
  - destruct state; [destruct (Ascii.eqb c ";"); [done|]|..]; apply IH.
Qed.

Lemma ends_app a b : b ≠ "" → trim_right b ≠ "" →
  EndsWithSemicolonIgnoringSpaces (a +:+ b) = EndsWithSemicolonIgnoringSpaces b.
Proof.
  intros _ Hb. unfold EndsWithSemicolonIgnoringSpaces. assert (E : ∀ x, trim_right (x +:+ b) = x +:+ trim_right b).
  { intros x. induction x as [|c x IH]; [done|]. cbn [String.append trim_right]. rewrite IH.
    destruct (is_blank c && String.eqb (x +:+ trim_right b) "") eqn:Ec; [|done].
    apply andb_true_iff in Ec as [_ Ec]. apply String.eqb_eq in Ec. by destruct x, (trim_right b). }
  rewrite E. assert (Hlast : ∀ x, back_char (x +:+ trim_right b) = back_char (trim_right b)); [|by rewrite Hlast].
  intros x. induction x as [|c x IH]; [done|]. cbn [String.append back_char]. rewrite IH.
  destruct (x +:+ trim_right b) eqn:Ex; [|done]. by destruct x, (trim_right b).
Qed.

Lemma trim_right_all_blank s : trim_right s = "" → all_blank s = true.
Proof. intros H. destruct (trim_right_split s) as (t & Ht & Hb). rewrite H in Ht. by subst. Qed.

Lemma complete_ends parts : parts ≠ [] → Forall complete parts → EndsWithSemicolonIgnoringSpaces (concat_text parts) = true.
Proof.
  intros Hne Hc. destruct (list_snoc_inv parts Hne) as (l & p & ->). apply Forall_app in Hc as [_ Hp].
  apply Forall_cons in Hp as [(body & -> & _) _].
  assert (E : concat_text (l ++ [push_back body ";"]) = (concat_text l +:+ body) +:+ ";").
  { clear. induction l as [|q l IH]; cbn [app concat_text]; [unfold push_back; by rewrite str_app_nil_r|].
    rewrite IH. by rewrite !str_app_assoc. }
  rewrite E, ends_app; done.
Qed.

(** One line: what is executed and what stays is what the text is cut into. *)
Lemma ready_spec buffer :
  end_state Outside_string buffer = Outside_string →
  let '(ss, buffer') := ready_statements buffer in
  end_state Outside_string buffer' = Outside_string ∧
  ∀ rest, norm (SplitStatements (buffer +:+ rest)) = norm ss ++ norm (SplitStatements (buffer' +:+ rest)).
Proof.
  intros Hb. unfold ready_statements.
  destruct (SplitStatements_shape buffer) as (parts & tail & Hsplit & Hbuf & Hparts & [state Htail]). rewrite Hsplit.
  assert (Hstate : state = Outside_string).
  { rewrite Hbuf, end_state_app, complete_end_state, (scan_end_state _ _ _ Htail) in Hb by done. done. } subst state.
  assert (Hrest : ∀ rest, SplitStatements (buffer +:+ rest) = parts ++ SplitStatements (tail +:+ rest)).
  { intros rest. by rewrite Hbuf, <-str_app_assoc, split_all_complete. }
  destruct (EndsWithSemicolonIgnoringSpaces buffer) eqn:Hend.
  - split; [done|]. intros rest. rewrite Hrest, !norm_app.
    assert (Hblank : all_blank tail = true).
    { destruct (String.eqb_spec (trim_right tail) "") as [E|E]; [by apply trim_right_all_blank|].
      rewrite Hbuf, ends_app in Hend by (done || by intros ->). by destruct (ended_tail tail). }
    rewrite (split_blank tail) by done. destruct (String.eqb tail ""); [by rewrite app_nil_r|]. by rewrite norm_blank, app_nil_r.
  - destruct (String.eqb_spec tail "") as [Hte|Htne].
    + rewrite Hte in Hbuf. rewrite app_nil_r in *. rewrite str_app_nil_r in Hbuf. destruct parts as [|p parts]; [by subst|].
      rewrite Hbuf, complete_ends in Hend by done. done.
    + rewrite rev_app_distr. cbn [rev app]. rewrite rev_involutive. split; [by apply scan_end_state|].
      intros rest. by rewrite Hrest, norm_app.
Qed.

(** What the interactive loop executes, and the buffer at the end. *)
Fixpoint typed (lines : list string) (buffer : string) : list string * string :=
  match lines with
  | [] => ([], buffer)
  | l :: lines =>
      let '(ss, buffer) := ready_statements (buffer +:+ l +:+ String newline "") in
      let '(ss', buffer) := typed lines buffer in (ss ++ ss', buffer)
  end.

Lemma typed_spec lines buffer :
  Forall (λ l, end_state Outside_string l = Outside_string) lines → end_state Outside_string buffer = Outside_string →
  norm (SplitStatements (buffer +:+ unlines lines)) = norm (typed lines buffer).1 ++ norm (SplitStatements (typed lines buffer).2).
Proof.
  intros Hl. revert buffer. induction Hl as [|l lines Hline _ IH]; intros buffer Hb; cbn [unlines typed].
  { by rewrite str_app_nil_r. }
  assert (Hb' : end_state Outside_string (buffer +:+ l +:+ String newline "") = Outside_string)
    by (rewrite !end_state_app, Hb, Hline; done).
  pose proof (ready_spec _ Hb') as H. destruct (ready_statements _) as [ss buffer1]. destruct H as [Hb1 Hs].
  unfold line. replace (buffer +:+ (l +:+ String newline "") +:+ unlines lines)
    with ((buffer +:+ l +:+ String newline "") +:+ unlines lines) by (by str_norm).
  rewrite Hs, IH by done. destruct (typed lines buffer1) as [ss' buffer2]. cbn [fst snd]. by rewrite norm_app, app_assoc.
Qed.

(** ** Statements that end with a semicolon *)

Lemma trim_right_idem s : trim_right (trim_right s) = trim_right s.
Proof.
  induction s as [|c s IH]; [done|]. cbn [trim_right]. destruct (is_blank c && String.eqb (trim_right s) "") eqn:E; [done|].
  cbn [trim_right]. by rewrite IH, E.
Qed.

Lemma trim_left_split s : ∃ t, s = t +:+ trim_left s ∧ all_blank t = true.
Proof.
  induction s as [|c s (t & IH & Ht)]; [by exists ""|]. cbn [trim_left]. destruct (is_blank c) eqn:Hc; [|by exists ""].
  exists (String c t). cbn [String.append all_blank]. by rewrite <-IH, Hc.
Qed.

Lemma blank_not_ended s : all_blank s = true → EndsWithSemicolonIgnoringSpaces s = false.
Proof.
  intros Hs. unfold EndsWithSemicolonIgnoringSpaces. assert (trim_right s = "") as ->; [|done].
  induction s as [|c s IH]; [done|]. cbn [all_blank trim_right] in *. apply andb_true_iff in Hs as [-> Hs]. by rewrite IH.
Qed.

Lemma ends_TrimCopy s : EndsWithSemicolonIgnoringSpaces (TrimCopy s) = EndsWithSemicolonIgnoringSpaces s.
Proof.
  assert (H1 : ∀ x, EndsWithSemicolonIgnoringSpaces (trim_right x) = EndsWithSemicolonIgnoringSpaces x)
    by (intros x; unfold EndsWithSemicolonIgnoringSpaces; by rewrite trim_right_idem).
  assert (H2 : ∀ x, EndsWithSemicolonIgnoringSpaces (trim_left x) = EndsWithSemicolonIgnoringSpaces x).
  { intros x. destruct (trim_left_split x) as (t & Hx & Ht). destruct (String.eqb_spec (trim_right (trim_left x)) "") as [E|E].
    - apply trim_right_all_blank in E. rewrite blank_not_ended by done. symmetry. apply blank_not_ended.
      by rewrite Hx, all_blank_app, Ht.
    - rewrite Hx at 2. by rewrite ends_app by (done || by intros E'; rewrite E' in E). }
  unfold TrimCopy. by rewrite ?H1, ?H2, ?H1.
Qed.

Notation ended := (List.filter EndsWithSemicolonIgnoringSpaces).

Lemma norm_ended ss : norm (ended ss) = ended (norm ss).
Proof.
  unfold norm. induction ss as [|s ss IH]; [done|]. cbn [List.filter].
  destruct (HasNonSpace s) eqn:Hs; cbn [map List.filter]; rewrite ?ends_TrimCopy.
  - destruct (EndsWithSemicolonIgnoringSpaces s); cbn [List.filter]; [by rewrite Hs; cbn [map]; rewrite IH|done].
  - unfold HasNonSpace in Hs. apply negb_false_iff in Hs. by rewrite blank_not_ended.
Qed.

Lemma complete_all_ended parts : Forall complete parts → ended parts = parts.
Proof.
  induction 1 as [|p parts Hp _ IH]; [done|]. cbn [List.filter]. rewrite IH.
  pose proof (complete_ends [p] ltac:(done) ltac:(by repeat constructor)) as H. cbn [concat_text] in H.
  rewrite str_app_nil_r in H. by rewrite H.
Qed.

Lemma open_tail_dropped tail : scan Outside_string tail = Some Outside_string →
  ended (if String.eqb tail "" then [] else [tail]) = [].
Proof.
  intros Ht. destruct (String.eqb tail ""); [done|]. cbn [List.filter].
  destruct (EndsWithSemicolonIgnoringSpaces tail) eqn:E; [|done]. by destruct (ended_tail tail).
Qed.

(** A text that does not end inside of a string: the statements with a
    semicolon, and at most one more. *)
Lemma split_ended text : end_state Outside_string text = Outside_string →
  ∃ last, SplitStatements text = ended (SplitStatements text) ++ last ∧ (length last ≤ 1)%nat.
Proof.
  intros Hend. destruct (SplitStatements_shape text) as (parts & tail & Hsplit & Htext & Hparts & [state Htail]).
  rewrite Htext, end_state_app, complete_end_state, (scan_end_state _ _ _ Htail) in Hend by done. subst state.
  exists (if String.eqb tail "" then [] else [tail]). split; [|destruct (String.eqb tail ""); cbn; lia].
  rewrite Hsplit, List.filter_app, complete_all_ended, open_tail_dropped, app_nil_r by done. done.
Qed.

(** One line: what is executed ends with a semicolon or is blank, and what
    stays has no semicolon outside of strings. *)
Lemma ready_ended buffer : end_state Outside_string buffer = Outside_string →
  ended (norm (ready_statements buffer).1) = norm (ready_statements buffer).1 ∧
  scan Outside_string (ready_statements buffer).2 = Some Outside_string.
Proof.
  intros Hb. destruct (SplitStatements_shape buffer) as (parts & tail & Hsplit & Hbuf & Hparts & [state Htail]).
  pose proof Hb as Hb'. rewrite Hbuf, end_state_app, complete_end_state, (scan_end_state _ _ _ Htail) in Hb' by done. subst state.
  unfold ready_statements. rewrite Hsplit. destruct (EndsWithSemicolonIgnoringSpaces buffer) eqn:Hend; cbn [fst snd].
  - split; [|done]. assert (Hblank : all_blank tail = true).
    { destruct (String.eqb_spec (trim_right tail) "") as [E|E]; [by apply trim_right_all_blank|].
      rewrite Hbuf, ends_app in Hend by (done || by intros ->). by destruct (ended_tail tail). }
    rewrite norm_app. assert (norm (if String.eqb tail "" then [] else [tail]) = []) as ->
      by (destruct (String.eqb tail ""); [done|by apply norm_blank]).
    by rewrite app_nil_r, <-norm_ended, complete_all_ended.
  - destruct (String.eqb_spec tail "") as [Hte|Htne].
    + rewrite Hte in Hbuf. rewrite app_nil_r. rewrite str_app_nil_r in Hbuf. destruct parts as [|p parts]; [by rewrite Hbuf|].
      rewrite Hbuf, complete_ends in Hend by done. done.
    + rewrite rev_app_distr. cbn [rev app fst snd]. rewrite rev_involutive. split; [|done].
      by rewrite <-norm_ended, complete_all_ended.
Qed.

Lemma typed_ended lines buffer :
  Forall (λ l, end_state Outside_string l = Outside_string) lines → scan Outside_string buffer = Some Outside_string →
  ended (norm (typed lines buffer).1) = norm (typed lines buffer).1 ∧
  scan Outside_string (typed lines buffer).2 = Some Outside_string.
Proof.
  intros Hl. revert buffer. induction Hl as [|l lines Hline _ IH]; intros buffer Hb; cbn [typed]; [done|].
  assert (Hb' : end_state Outside_string (buffer +:+ l +:+ String newline "") = Outside_string)
    by (rewrite !end_state_app, (scan_end_state _ _ _ Hb), Hline; done).
  destruct (ready_ended _ Hb') as [Hss Hb1]. destruct (ready_statements _) as [ss buffer1]. cbn [fst snd] in *.
  destruct (IH buffer1 Hb1) as [Hss' Hb2]. destruct (typed lines buffer1) as [ss' buffer2]. cbn [fst snd] in *.
  split; [|done]. by rewrite norm_app, List.filter_app, Hss, Hss'.
Qed.

Lemma unlines_end_state lines : Forall (λ l, end_state Outside_string l = Outside_string) lines →
  end_state Outside_string (unlines lines) = Outside_string.
Proof.
  induction 1 as [|l lines Hl _ IH]; [done|]. cbn [unlines]. unfold line. by rewrite !end_state_app, Hl.
Qed.

(** ** Execution *)

Section execution.
Context {T D N : Type} `{!IndexOps T} `{!PersistenceOps T D} `{!Outside N}.
Context (regex_match : string → string → Outcome bool) (clock : nat → Tm) (io : nat → WriteFault).
Notation execute_batch := (execute_batch (T:=T) (D:=D) (N:=N) regex_match clock io).
Notation interact := (interact (T:=T) (D:=D) (N:=N) regex_match clock io).

(** The interactive mode always ends with 0. *)
Definition without_code {A} (r : Outcome Z * A) : Outcome Z * A :=
  match r with (Ok _, a) => (Ok 0, a) | failure => failure end.

Lemma batch_code options ss index code code' c :
  without_code (execute_batch options ss index code c) = without_code (execute_batch options ss index code' c).
Proof.
  revert index code code' c. induction ss as [|sql ss IH]; intros index code code' c; cbn [Cli.execute_batch]; [done|].
  destruct (negb (HasNonSpace sql)); [apply IH|].
  destruct (Cli.execute_one _ _ _ _ _ _ _) as [[rc| |] c']; [apply IH|done|done].
Qed.

Lemma batch_app options a b index code c :
  execute_batch options (a ++ b) index code c =
  match execute_batch options a index code c with
  | (Ok code, c) => execute_batch options b (index + length (List.filter HasNonSpace a)) code c
  | failure => failure
  end.
Proof.
  revert index code c. induction a as [|sql a IH]; intros index code c; cbn [Cli.execute_batch app List.filter].
  { cbn. by rewrite Nat.add_0_r. }
  destruct (HasNonSpace sql); cbn [negb length]; [|apply IH].
  destruct (Cli.execute_one _ _ _ _ _ _ _) as [[rc| |] c']; [|done|done]. by rewrite IH, Nat.add_succ_r.
Qed.

Lemma interact_executes options lines buffer index c :
  interact options lines buffer index c = without_code (execute_batch options (typed lines buffer).1 index 0 c).
Proof.
  revert buffer index c. induction lines as [|l lines IH]; intros buffer index c; cbn [Cli.interact typed]; [done|].
  destruct (ready_statements _) as [ss buffer1]. specialize (IH buffer1). destruct (typed lines buffer1) as [ss' buffer2].
  cbn [fst] in *. rewrite batch_app. destruct (execute_batch options ss index 0 c) as [[code| |] c1]; try done.
  rewrite IH. apply batch_code.
Qed.

(** C35: Typing is the same as running a script: when no string literal goes
    over the end of a line, the interactive mode, which executes after each line
    what is complete, executes exactly, in the same order and up to blanks around
    them and empty statements, those statements into which the batch mode splits
    the whole text that end with a semicolon; these are all of them, or all but
    the last one. *)
Theorem interactive_equals_batch options lines c :
  Forall (λ l, end_state Outside_string l = Outside_string) lines →
  let statements := SplitStatements (unlines lines) in
  ∃ executed last, interact options lines "" 1 c = without_code (execute_batch options executed 1 0 c) ∧
    norm executed = norm (List.filter EndsWithSemicolonIgnoringSpaces statements) ∧
    statements = List.filter EndsWithSemicolonIgnoringSpaces statements ++ last ∧ (length last ≤ 1)%nat.
Proof.
  intros Hl statements. destruct (split_ended _ (unlines_end_state lines Hl)) as (last & Hlast & Hone).
  exists (typed lines "").1, last. split; [apply interact_executes|]. split; [|done].
  destruct (typed_ended lines "" Hl eq_refl) as [Hex Hrest]. pose proof (typed_spec lines "" Hl eq_refl) as Hspec.
  cbn [String.append] in Hspec. unfold statements. rewrite norm_ended, Hspec, List.filter_app, Hex.
  rewrite <-(norm_ended (SplitStatements _)). set (rest := (typed lines "").2) in *.
  assert (SplitStatements rest = if String.eqb rest "" then [] else [rest]) as ->.
  { unfold SplitStatements. pose proof (split_scan Outside_string "" rest Outside_string "" Hrest) as H.
    rewrite str_app_nil_r in H. by rewrite H. }
  by rewrite open_tail_dropped, app_nil_r.
Qed.
End execution.
