(* ===== verification/CliSamples.v ===== *)
(** * The client on small scripts

    A session typed line by line, and what becomes of a script of several lines
    that is sent to a server. *)
From S2P Require Import Prelude Numerals CommonTypes Codec Storage BStarPlusTree IndexSpec BStarPlusTreeSpec.
From S2P Require Import RuntimeState Ast.
From S2P Require Import VersionStore Execution Lexer Parser Wal Engine Samples EngineSamples Protocol Text.
From S2P Require Import Cluster ClusterNetwork.
From S2P Require Import Cli CliFacts.
From Stdlib Require Import Ascii.
Open Scope Z_scope.

Definition local_client : Cli (T:=BStarPlusTree) (D:=Snapshot) (N:=unit) := MkCli EngineSamples.started (MkSession "cli" None "") tt [].
Definition local_options : CliOptions := MkOptions None false "" [].

Definition run_client (args : list string) (files : string → option string) (input : string) :=
  cli_main literal_regex sample_clock all_written "dbms_cli" args files input local_client.

Definition sample_lines : list string :=
  ["CREATE DATABASE shop; USE shop;"; "CREATE TABLE items"; "(id INT INDEXED);"; "INSERT INTO items (id) VALUES (1); SELECT * FROM"; "items;"].

(** The same five statements, typed and as a script. *)
Lemma typed_session :
  cli_output (run_client [] (λ _, None) (unlines sample_lines)).2 =
    ["database created"; "database selected"; "table created"; "rows inserted";
     "[{" +:+ Rbac.quote "id" +:+ ": 1}]"] ∧
  cli_output (run_client ["a.sql"] (λ _, Some (unlines sample_lines)) "").2 =
    cli_output (run_client [] (λ _, None) (unlines sample_lines)).2.
Proof. vm_compute. done. Qed.

(** The last statement has no semicolon. *)
Definition open_lines : list string := ["CREATE DATABASE shop; USE"; "shop;"; "SELECT * FROM items"].

Lemma interactive_equals_batch_witness :
  ∃ executed,
    interact literal_regex sample_clock all_written local_options open_lines "" 1 local_client =
      without_code (execute_batch literal_regex sample_clock all_written local_options executed 1 0 local_client) ∧
    norm executed = ["CREATE DATABASE shop;"; "USE" +:+ String newline "shop;"].
Proof.
  destruct (interactive_equals_batch literal_regex sample_clock all_written local_options open_lines local_client)
    as (executed & last & Hrun & Hnorm & _); [repeat constructor|].
  exists executed. split; [exact Hrun|]. rewrite Hnorm. vm_compute. reflexivity.
Defined.

(** ** Scripts for a server *)

Lemma complete_newline s : complete s → complete (String newline s).
Proof. intros (body & -> & Hb). by exists (String newline body). Qed.

Lemma split_two s1 s2 : complete s1 → complete s2 → SplitStatements (s1 +:+ String newline s2) = [s1; String newline s2].
Proof.
  intros H1 H2. rewrite split_complete by done. rewrite <-(str_app_nil_r (String newline s2)) at 1.
  by rewrite split_complete by (by apply complete_newline).
Qed.

(** A script of several lines does not reach a server: the statements of
    a script keep the newline in front of them, the server reads the request up
    to that newline, and for every statement but the first of a script with a
    statement per line it receives an empty text. *)
Theorem remote_script_arrives_empty s1 s2 jwt_token :
  complete s1 → complete s2 → IsRemoteMetaCommand (String newline s2) = false → no_char newline jwt_token = true →
  SplitStatements (s1 +:+ String newline s2) = [s1; String newline s2] ∧
  ∃ rest, receive_request (SerializeRequest (MkRequest "cli" jwt_token (remote_payload (String newline s2)))) =
            Some (Some (MkRequest "cli" jwt_token ""), rest).
Proof.
  intros H1 H2 Hmeta Hjwt. split; [by apply split_two|]. unfold remote_payload. rewrite Hmeta.
  unfold receive_request, SerializeRequest. cbn [req_client req_jwt req_payload].
  change (EscapeField (String newline s2)) with (String backslash (String newline (EscapeField s2))). str_norm.
  set (tail := EscapeField s2 +:+ String newline ""). exists tail.
  assert (E : EscapeField "cli" +:+ String tab (EscapeField jwt_token +:+ String tab (String backslash (String newline tail))) =
    (EscapeField "cli" +:+ String tab (EscapeField jwt_token +:+ String tab (String backslash ""))) +:+ String newline tail)
    by (by str_norm).
  rewrite E, read_line_app.
  - cbn [mbind option_bind]. unfold DeserializeRequest, SplitByTab. rewrite split_loop_escaped by done. cbn [split_loop].
    change (Ascii.eqb tab backslash) with false. change (Ascii.eqb tab tab) with true. cbv iota.
    rewrite split_loop_escaped by done. cbn [split_loop String.append].
    change (Ascii.eqb tab backslash) with false. change (Ascii.eqb tab tab) with true. cbv iota. cbn [split_loop].
    change (Ascii.eqb backslash backslash) with true. cbv iota. by rewrite !unescape_escape.
  - rewrite no_char_app. cbn. rewrite no_char_app, escape_no_newline, Hjwt. done.
Qed.

Lemma remote_script_arrives_empty_witness :
  SplitStatements ("USE shop;" +:+ String newline "SELECT * FROM items;") = ["USE shop;"; String newline "SELECT * FROM items;"] ∧
  ∃ rest, receive_request (SerializeRequest (MkRequest "cli" "" (remote_payload (String newline "SELECT * FROM items;")))) =
            Some (Some (MkRequest "cli" "" ""), rest).
Proof.
  apply remote_script_arrives_empty.
  - by exists "USE shop".
  - by exists "SELECT * FROM items".
  - vm_compute. reflexivity.
  - reflexivity.
Defined.
